(* ===== verification/_CoqProject ===== *)
-Q . S2P
Prelude.v
PyStr.v
PyFloat.v
Json.v
Sha256.v
PyPath.v
Fs.v
Mounts.v
Graph.v
DockerConfig.v
Proc.v
DockerBuild.v
DockerDeps.v
DockerTags.v
DockerImages.v
DockerManage.v
BuildImages.v
BuilderInit.v
Cleanup.v
CleanupFacts.v
FsWrite.v
Shlex.v
Argparse.v
ArgparseFacts.v
FindProjectRoot.v
DockerRun.v
DockerRunFacts.v
Bootstrap.v
BootstrapFacts.v
Datetime.v
Events.v
Launch.v
Bep.v
Coverage.v
CoverageFacts.v
CommandLine.v
CommandLineFacts.v
ScriptFacts.v
