(* ===== verification/Prelude.v ===== *)
(** * Verification of the devkit Python tooling

    The Python code of this repository is the devkit: the scripts under
    [src/.devkit/scripts] that build and run the development containers of a
    project, clean up after them, and report on its builds.  The repository
    holds the same scripts four times ([src/.devkit], [src/api/.devkit],
    [src/mbs/.devkit], [src/container-tools/.devkit]); the copies are equal
    except for [coverage_report.py] in [src/container-tools], which is
    modelled beside the others.

    ** The program and how its parts interact

    - [docker/build.py] reads [devkit.json] and the [deps.json] files of the
      image directories, gives every image a tag that is a digest of its
      Dockerfile and build arguments (the tags of the images it builds on
      included), and makes each wanted image available: found locally, pulled,
      or built and pushed.
    - [docker_cleanup.py] removes old images of the project.  It calls
      [build.py] for the tags of the current configuration, which it keeps, and
      for the prefix under which it lists images.
    - [list_external_mounts.py] follows the symbolic links of a project and
      computes the host paths a container needs.
    - [docker_run.py] prepares a home directory, calls
      [list_external_mounts.py] and [find_project_root.py], composes the
      [docker run] command, starts the threads of
      [container_event_handler.py] and [docker_cleanup.py], runs the container
      and exits with its status.
    - [bootstrap.py] copies a directory of Jinja2 templates; [bep.py] runs
      Bazel once per target and keeps its build events; [coverage_report.py]
      runs Bazel's coverage, reads the LCOV report and checks thresholds.

    ** Files

    What the scripts use of Python and of the operating system:
    - [Prelude]: text as lists of code points, exceptions, the [res] monad of
      expressions that may raise, the [io] monad of statements (a state, a
      trace of events, a result), weakest preconditions [wp] and [wp_out],
      trace predicates [emits], dictionaries in insertion order.
    - [PyStr], [PyFloat], [Json], [Sha256], [PyPath], [Shlex], [Datetime],
      [Graph]: the methods of [str], [int] and [bytes], binary64 floats,
      [json.load], [hashlib.sha256], [pathlib] and [os.path], [shlex] and
      [expandvars], [datetime.fromtimestamp], and
      [graphlib.TopologicalSorter].
    - [Fs], [FsWrite]: a file system tree with symbolic links, path lookup as
      the kernel does it, with its errors, [realpath], [Path.resolve] (a loop
      of links is a [RuntimeError], as up to CPython 3.12), [os.walk];
      [mkdir], [touch] and writing.
    - [Proc]: [subprocess.run] on a host that is a parameter.
    - [Argparse], [ArgparseFacts]: [argparse]; a parser is data, and reading a
      command line with it a function.  The algorithm is that of CPython 3.12;
      other releases differ from it only for odd spellings, such as an option
      with the attached value ["--"] or a cluster that begins with [-h].

    The scripts, a file (or several) each; a definition has the name of the
    function it translates:
    - [DockerConfig], [DockerBuild]: [docker/build.py].  [DockerBuilder] is the
      record of the attributes [__init__] sets; the attribute that changes,
      [generated_tags], is the state its methods run in.  Theorems:
      [DockerConfig] (schema validator), [DockerDeps] (build order),
      [DockerTags] and [DockerImages] (tags), [DockerManage] (one image),
      [BuildImages] (all wanted images), [BuilderInit] (loading, [main]).
    - [Cleanup], [CleanupFacts]: [docker_cleanup.py].
    - [Mounts]: [list_external_mounts.py].
    - [FindProjectRoot]: [find_project_root.py].
    - [DockerRun], [DockerRunFacts]: [docker_run.py].
    - [Bootstrap], [BootstrapFacts]: [bootstrap.py].
    - [Events]: [container_event_handler.py]; the listener and the thread that
      cancels it are a step relation on their shared state, with sockets as
      on Linux.  [Launch] runs it beside the launcher, in every interleaving.
    - [Bep]: [bep.py].
    - [Coverage], [CoverageFacts]: [coverage_report.py].
    - [CommandLine], [CommandLineFacts]: what comes first in the [main] of each
      script, its argument parser and log file; [build_script],
      [cleanup_script], [mounts_script], [run_script], [bootstrap_script],
      [bep_script] and [coverage_script] are the scripts from their command
      lines on.  [ScriptFacts] carries the theorems on the [main] functions
      over to them.

    ** Interfaces

    Code outside the repository is a type class that the theorems assume, and
    the sample instances of the witnesses show that the classes can hold:
    [Host] (what a command answers), [DockerLaws] (what [docker] with the
    default builder of [buildx] promises about local images), [Popen] (a
    command that is polled, and may never end by itself), [HostFiles]
    (files written by a command), [Jinja] (the template engine), [TempNames]
    ([tempfile]), [JsonRepr] (the [str] of a nested JSON value), [HexDigest]
    (a digest in hexadecimal, implemented by [Sha256]), [PySetOrder] and
    [PathSetOrder] (the iteration order of a [set], any order), [Interrupts]
    (Ctrl-C during the container), [RecursionLimit] (the depth the
    interpreter allows), [HelpFormatter] (the wording of help and error
    messages), [HostLog] (a log file among the files of the host).

    ** What the theorems show

    - Images: the schema validator accepts exactly the conforming values, and
      exactly the conforming configurations with versions are loaded, into
      exactly the builder they describe; the build order is the
      targets and all they need, dependencies first; the memoised tags are
      those of a plain recursive definition, and do not depend on the order of
      declaration, but do not delimit the arguments they are digests of; a run
      in which every wanted image has a tag returns with all of them present,
      and exits non-zero only after a failed command or check.
    - Clean-up: the pattern matcher accepts exactly the documented form; only
      allowlisted names are removed, and never the tags of the current
      configuration when these can be computed (the code goes on without them
      otherwise); the removals are a prefix of the candidates, whole when the
      thread is not cancelled and the commands end, and cancellation or Ctrl-C
      stops it soon, also during a command that does not end.
    - Mounts: the scan ends on every file system and finds exactly what the
      links it follows lead to, or fails on a loop in a path it resolves;
      minimisation keeps exactly the topmost paths.
    - Containers: directories are created and mounted at the right place, the
      logged command line is one that a shell reads as the command, both
      threads are cancelled and joined whatever happens, and the exit status
      is the container's.
    - Events: a cancelled listener ends within eight steps and, but for a peer
      it reads from, by itself, also when it is cancelled before it listens;
      it is silent, but for one record when it is cancelled between a
      handler's check of the event and its log call; exactly which events end
      it by an exception.  It is not cancelled before the container has run,
      and is cancelled when the launcher waits for it.
    - Reports: reading back an LCOV report gives its totals and missing lines;
      a coverage run succeeds exactly when every file meets its thresholds;
      the ranges and columns of the table.  [bep.py] follows, command by
      command, the plan that the file system decides: inside a project, one
      [bazel fetch] or [bazel build] per target.
    - Templates: a bootstrap creates exactly the rendered files, goes on after
      templates with syntax errors or undefined variables, and exits with code
      1 when there were any.
    - Command lines: a script goes on with all attributes of their types, or
      ends with exit code 0 after the help or 2 after an error, having done
      nothing else; the arguments of [build.py] survive being written as a
      command line and read back.  For every command line, clean-up removes
      only outdated images, the mount points are printed once each, and the
      exit of the coverage report says whether the thresholds are met.
      The call of [build.py] by the shell script [build_and_run] prints the
      tag of an image that is present or exits with a code other than 0;
      [docker_run.py] passes its arguments on to the container, except those
      that abbreviate its own option.

    ** Fuel and bounds

    Loops that are not structural take fuel, and enough is proved to exist or
    given: [visit_fuel] is the square of the number of names the dependency
    loop can meet, and [DockerDeps] shows the loop ends within it for every
    iteration order; [calculate_tag_for_image] recurses to [recursion_limit],
    as Python does, and raises [RecursionError] there; [order_loop] has one
    round per node; the JSON decoder has the length of the text, and one unit
    is used per character at least; [batches_from] has the length of the list;
    lookups follow at most [max_links] = 40 links, as Linux does, and so does
    [chain_fuel]; [realpath] has the number of links of the tree (a link is
    active once); the scan of [Mounts] takes fuel as an argument, and
    [list_external_mounts_correct] gives a bound from the finitely many paths
    that can occur; [copy_walk] takes a depth, enough from the height of the
    template tree on.  Where the fuel is an argument, its end is the outcome
    [Diverges], which no handler catches, and the theorems show that it does
    not occur; [Diverges] is also the outcome of polling a command that never
    ends and is never cancelled.

    ** Not modelled

    Time: delays only decide when a thread is polled, and a wait with a timeout
    is an event.  Commands that exist but cannot be executed, and output of
    commands that is not text.  The wording of help and usage messages, and
    the format of log records: a log line is an event of the trace, and of the
    log file only its opening is modelled.  Permissions of files, except that [shutil.copymode] is recorded.  Changes
    of the file system by others, the commands of a script included, while it
    reads it, except where [HostFiles] says so.  Ctrl-C, except during the
    container of [docker_run.py] and at the polls of [docker_cleanup.py].
    JSON nested deeper than the decoder's own limit ([RecursionError]).  Which
    of two errors of a coverage report is raised first.  The texts of
    exceptions the interpreter raises itself.  The tests of the scripts.  The
    rest of the repository is not Python: the endorsement service in Java,
    shell scripts, Bazel and Terraform files. *)
From stdpp Require Export gmap strings list sorting.
From Stdlib Require Export ZArith NArith Lia.

(** ** Text

    A Python [str] is the list of its Unicode code points; a Python [bytes]
    is a list of numbers below 256.  Both are lists of [N], and a string
    literal in [str_scope] denotes the list of its (ASCII) code points. *)
Abbreviation str := (list N).
Abbreviation bytes := (list N).

Module StrLit.
Inductive lit := lnil | lcons (c : N) (l : lit).
Fixpoint of_bytes (b : list Byte.byte) : lit :=
  match b with [] => lnil | x :: b => lcons (Byte.to_N x) (of_bytes b) end.
Fixpoint to_bytes (l : lit) : option (list Byte.byte) :=
  match l with
  | lnil => Some []
  | lcons c l =>
      match Byte.of_N c, to_bytes l with
      | Some b, Some bs => Some (b :: bs)
      | _, _ => None
      end
  end.
End StrLit.

Declare Scope str_scope.
Delimit Scope str_scope with str.
#[warning="-via-type-mismatch"]
String Notation list StrLit.of_bytes StrLit.to_bytes
  (via StrLit.lit mapping [[nil] => StrLit.lnil, [cons] => StrLit.lcons])
  : str_scope.
#[export] Set Warnings "-via-type-mismatch".
Open Scope str_scope.

(** ** Exceptions

    The Python exceptions the sources raise or catch, and the subclass tests
    their [except] clauses make. *)
Inductive exn :=
  | SystemExit (code : Z)
  | KeyboardInterrupt
  | ValueError (msg : str)
  | JSONDecodeError
  | UnicodeDecodeError
  | UndefinedError (msg : str)
  | TemplateSyntaxError (lineno : Z) (msg : str)
  | KeyError (key : str)
  | IndexError
  | TypeError
  | AttributeError
  | OverflowError
  | ZeroDivisionError
  | RecursionError
  | RuntimeError
  | CycleError
  | OSError
  | FileNotFoundError
  | CalledProcessError (returncode : Z) (cmd : list str) (out err : str)
  | IllTyped
  (** Not an exception: the model stopped before the code would. *)
  | Diverges.

#[export] Instance exn_eq_dec : EqDecision exn.
Proof. solve_decision. Defined.

(** [isinstance(e, Exception)]: [sys.exit] and Ctrl-C are not caught by
    [except Exception]. *)
Definition is_Exception (e : exn) : bool :=
  match e with SystemExit _ | KeyboardInterrupt | Diverges => false | _ => true end.

(** [isinstance(e, ValueError)]. *)
Definition is_ValueError (e : exn) : bool :=
  match e with ValueError _ | JSONDecodeError | UnicodeDecodeError => true | _ => false end.

(** [isinstance(e, OSError)]. *)
Definition is_OSError (e : exn) : bool :=
  match e with OSError | FileNotFoundError => true | _ => false end.

Definition is_FileNotFoundError (e : exn) : bool :=
  match e with FileNotFoundError => true | _ => false end.

Definition is_JSONDecodeError (e : exn) : bool :=
  match e with JSONDecodeError => true | _ => false end.

Definition is_KeyError (e : exn) : bool :=
  match e with KeyError _ => true | _ => false end.

Definition is_CalledProcessError (e : exn) : bool :=
  match e with CalledProcessError _ _ _ _ => true | _ => false end.

(** [str(e)]; the text of errors the interpreter itself raises is left out. *)
Definition exn_text (e : exn) : str :=
  match e with
  | ValueError msg | UndefinedError msg | TemplateSyntaxError _ msg | KeyError msg => msg
  | _ => []
  end.

(** The outcome of a Python expression: a value or a raised exception. *)
Inductive res (A : Type) :=
  | Ok (a : A)
  | Raise (e : exn).
Arguments Ok {A} a.
Arguments Raise {A} e.

#[export] Instance res_eq_dec `{EqDecision A} : EqDecision (res A).
Proof. solve_decision. Defined.

#[export] Instance res_ret : MRet res := λ A a, Ok a.
#[export] Instance res_bind : MBind res :=
  λ A B f r, match r with Ok a => f a | Raise e => Raise e end.
#[export] Instance res_fmap : FMap res :=
  λ A B f r, match r with Ok a => Ok (f a) | Raise e => Raise e end.

Lemma res_bind_Ok {A B} (r : res A) (f : A → res B) b :
  r ≫= f = Ok b ↔ ∃ a, r = Ok a ∧ f a = Ok b.
Proof. destruct r; unfold mbind; simpl; naive_solver. Qed.

Lemma res_bind_Raise {A B} (r : res A) (f : A → res B) e :
  r ≫= f = Raise e ↔ r = Raise e ∨ ∃ a, r = Ok a ∧ f a = Raise e.
Proof. destruct r; unfold mbind; simpl; naive_solver. Qed.

(** [for x in l: f(x)] where [f] only checks. *)
Section ResEach.
Context {A : Type} (f : A → res ()).
Fixpoint res_each (l : list A) : res () :=
  match l with
  | [] => Ok ()
  | x :: l => _ ← f x; res_each l
  end.

Lemma res_each_Ok l : res_each l = Ok () ↔ ∀ x, x ∈ l → f x = Ok ().
Proof.
  induction l as [|x l IH]; cbn [res_each]; [set_solver|]. rewrite res_bind_Ok. setoid_rewrite IH. split.
  - intros ([] & ? & ?) y [->|]%elem_of_cons; auto.
  - intros H. exists (). split; [|intros]; apply H; set_solver.
Qed.

Lemma res_each_Raise l e : res_each l = Raise e → ∃ x, x ∈ l ∧ f x = Raise e.
Proof.
  induction l as [|x l IH]; cbn [res_each]; [done|].
  intros [?|([] & _ & (y & ? & ?)%IH)]%res_bind_Raise; [exists x|exists y]; set_solver.
Qed.
End ResEach.

(** ** Effects

    A statement runs in a state [S] and emits the events an observer of the
    process sees, in order: log records, lines on the standard streams, and
    commands handed to the operating system. *)
Inductive level := INFO | WARNING | ERROR.

#[export] Instance level_eq_dec : EqDecision level.
Proof. solve_decision. Defined.

Inductive event :=
  | EvLog (l : level) (msg : str)
  | EvOut (text : str)
  | EvErr (text : str)
  | EvRun (cmd : list str)
  | EvTerminate (cmd : list str)
  (** A thread is started, its cancel event is set, it is waited for. *)
  | EvStart (thread : str)
  | EvCancel (thread : str)
  | EvJoin (thread : str).

#[export] Instance event_eq_dec : EqDecision event.
Proof. solve_decision. Defined.

Definition io (S A : Type) : Type := S → list event * S * res A.

Definition io_trace {S A} (r : list event * S * res A) : list event := r.1.1.
Definition io_state {S A} (r : list event * S * res A) : S := r.1.2.
Definition io_res {S A} (r : list event * S * res A) : res A := r.2.

#[export] Instance io_ret {S} : MRet (io S) := λ A a s, ([], s, Ok a).
#[export] Instance io_bind {S} : MBind (io S) := λ A B f m s,
  match m s with
  | (t, s', Ok a) => let '(t', s'', r) := f a s' in (t ++ t', s'', r)
  | (t, s', Raise e) => (t, s', Raise e)
  end.

Definition emit {S} (e : event) : io S unit := λ s, ([e], s, Ok ()).
Definition log {S} (l : level) (msg : str) : io S unit := emit (EvLog l msg).
Definition raise {S A} (e : exn) : io S A := λ s, ([], s, Raise e).
Definition get {S} : io S S := λ s, ([], s, Ok s).
Definition put {S} (s' : S) : io S unit := λ s, ([], s', Ok ()).
Definition sys_exit {S A} (code : Z) : io S A := raise (SystemExit code).

(** A pure computation that may raise. *)
Definition lift_res {S A} (r : res A) : io S A := λ s, ([], s, r).

(** [try: m except <classes>: h]: [h] gives the handler of a caught
    exception, [None] when no clause matches. *)
Definition try_except {S A} (m : io S A) (h : exn → option (io S A)) : io S A := λ s,
  match m s with
  | (t, s', Ok a) => (t, s', Ok a)
  | (t, s', Raise e) =>
      match h e with
      | Some k => let '(t', s'', r) := k s' in (t ++ t', s'', r)
      | None => (t, s', Raise e)
      end
  end.

(** [try: m finally: f]. *)
Definition finally {S A} (m : io S A) (f : io S ()) : io S A := λ s,
  let '(t, s', r) := m s in
  let '(t', s'', r') := f s' in
  (t ++ t', s'', match r' with Ok _ => r | Raise e => Raise e end).

(** [for x in l: body]. *)
Fixpoint for_each {S A} (l : list A) (body : A → io S ()) : io S () :=
  match l with
  | [] => mret ()
  | x :: l => body x ;; for_each l body
  end.

(** A loop that threads a local variable. *)
Fixpoint fold_io {S A B} (body : B → A → io S B) (b : B) (l : list A) : io S B :=
  match l with
  | [] => mret b
  | x :: l => b' ← body b x; fold_io body b' l
  end.

(** Running a statement on one half of a paired state. *)
Definition on_fst {S T A} (m : io S A) : io (S * T) A := λ s,
  let '(t, s', r) := m s.1 in (t, (s', s.2), r).
Definition on_snd {S T A} (m : io T A) : io (S * T) A := λ s,
  let '(t, s', r) := m s.2 in (t, (s.1, s'), r).

(** Statements without a visible effect of their own, in front of others. *)
Section Bind.
Context {S A B : Type} (k : A → io S B).

Lemma bind_ret a s : (mret a ≫= k) s = k a s.
Proof. unfold mbind, io_bind, mret, io_ret. by destruct (k a s) as [[? ?] ?]. Qed.

Lemma bind_lift_Ok a s : (lift_res (Ok a) ≫= k) s = k a s.
Proof. unfold mbind, io_bind, lift_res. by destruct (k a s) as [[? ?] ?]. Qed.

Lemma bind_lift_Raise e s : (lift_res (Raise e) ≫= k) s = raise e s.
Proof. done. Qed.

Lemma bind_raise e s : (raise e ≫= k) s = raise e s.
Proof. done. Qed.

Lemma bind_assoc {C} (m : io S C) (f : C → io S A) s : ((m ≫= f) ≫= k) s = (m ≫= (λ c, f c ≫= k)) s.
Proof.
  unfold mbind, io_bind. destruct (m s) as [[t s'] [c|e]]; [|done].
  destruct (f c s') as [[t' s''] [a|e]]; [|done]. destruct (k a s'') as [[? ?] ?]. by rewrite app_assoc.
Qed.
End Bind.

Lemma bind_get {S B} (k : S → io S B) s : (get ≫= k) s = k s s.
Proof. unfold mbind, io_bind, get. by destruct (k s s) as [[? ?] ?]. Qed.

Lemma bind_put {S B} s' (k : () → io S B) s : (put s' ≫= k) s = k () s'.
Proof. unfold mbind, io_bind, put. by destruct (k () s') as [[? ?] ?]. Qed.

(** A statement followed by another, by cases on how the first ends. *)
Lemma bind_inv {S A B} (m : io S A) (k : A → io S B) s t s' r :
  (m ≫= k) s = (t, s', r) →
  (∃ e, m s = (t, s', Raise e) ∧ r = Raise e) ∨
  (∃ t1 s1 a t2, m s = (t1, s1, Ok a) ∧ k a s1 = (t2, s', r) ∧ t = t1 ++ t2).
Proof.
  unfold mbind, io_bind. destruct (m s) as [[t1 s1] [a|e]].
  - destruct (k a s1) as [[t2 s2] r'] eqn:E. intros [= <- <- <-]. right. eauto 10.
  - intros [= <- <- <-]. left. eauto.
Qed.

(** ** Trace predicates *)

(** Every event [m] emits satisfies [P], whatever state it starts in. *)
Definition emits {S A} (P : event → Prop) (m : io S A) : Prop :=
  ∀ s, Forall P (io_trace (m s)).

Create HintDb py.

Section Emits.
Context {S : Type} (P : event → Prop).

Lemma emits_ret {A} (a : A) : emits P (mret a : io S A).
Proof. intros s. constructor. Qed.

Lemma emits_raise {A} e : emits P (raise e : io S A).
Proof. intros s. constructor. Qed.

Lemma emits_lift {A} (r : res A) : emits P (lift_res r : io S A).
Proof. intros s. constructor. Qed.

Lemma emits_get : emits P (get : io S S).
Proof. intros s. constructor. Qed.

Lemma emits_put s' : emits P (put s' : io S ()).
Proof. intros s. constructor. Qed.

Lemma emits_emit e : P e → emits P (emit e : io S ()).
Proof. intros ? s. by repeat constructor. Qed.

(** The continuation only sees values the first statement can return. *)
Lemma emits_bind_val {A B} (m : io S A) (f : A → io S B) :
  emits P m → (∀ s a, io_res (m s) = Ok a → emits P (f a)) → emits P (m ≫= f).
Proof.
  intros Hm Hf s. specialize (Hm s). specialize (Hf s). unfold io_trace, io_res, mbind, io_bind in *.
  destruct (m s) as [[t s'] [a|e]]; simpl in *; [|done].
  specialize (Hf a eq_refl s'). unfold io_trace in Hf.
  destruct (f a s') as [[t' s''] r]; simpl in *. by apply Forall_app.
Qed.

Lemma emits_bind {A B} (m : io S A) (f : A → io S B) :
  emits P m → (∀ a, emits P (f a)) → emits P (m ≫= f).
Proof. auto using emits_bind_val. Qed.

Lemma emits_if {A} (b : bool) (m1 m2 : io S A) :
  (b = true → emits P m1) → (b = false → emits P m2) → emits P (if b then m1 else m2).
Proof. destruct b; auto. Qed.

Lemma emits_try {A} (m : io S A) h :
  emits P m → (∀ e k, h e = Some k → emits P k) → emits P (try_except m h).
Proof.
  intros Hm Hh s. specialize (Hm s). unfold io_trace, try_except in *.
  destruct (m s) as [[t s'] [a|e]]; simpl in *; [done|].
  destruct (h e) as [k|] eqn:Hk; [|done].
  specialize (Hh e k Hk s'). unfold io_trace in Hh.
  destruct (k s') as [[t' s''] r]; simpl in *. by apply Forall_app.
Qed.

Lemma emits_for_each {A} (l : list A) (body : A → io S ()) :
  (∀ x, x ∈ l → emits P (body x)) → emits P (for_each l body).
Proof.
  induction l as [|x l IH]; intros H; simpl; [apply emits_ret|].
  apply emits_bind; [|intros _]; [|apply IH]; intros; apply H; set_solver.
Qed.

Lemma emits_fold {A B} (body : B → A → io S B) l : ∀ b,
  (∀ b x, x ∈ l → emits P (body b x)) → emits P (fold_io body b l).
Proof.
  induction l as [|x l IH]; intros b H; simpl; [apply emits_ret|].
  apply emits_bind; [|intros b'; apply IH]; intros; apply H; set_solver.
Qed.
End Emits.

(** Only log records are emitted. *)
Definition is_log (e : event) : Prop := match e with EvLog _ _ => True | _ => False end.

Lemma emits_mono {S A} (P P' : event → Prop) (m : io S A) : emits P m → (∀ e, P e → P' e) → emits P' m.
Proof. intros Hm HP s. by eapply Forall_impl. Qed.

Lemma emits_logs {S A} (P : event → Prop) (m : io S A) : emits is_log m → (∀ l msg, P (EvLog l msg)) → emits P m.
Proof. intros Hm HP. eapply emits_mono; [done|]. intros [] []; auto. Qed.

Lemma emits_on_fst {S T A} P (m : io S A) : emits P m → emits P (on_fst (T:=T) m).
Proof.
  intros H [s t]. specialize (H s). unfold io_trace, on_fst in *. simpl.
  by destruct (m s) as [[? ?] ?].
Qed.

Lemma emits_on_snd {S T A} P (m : io T A) : emits P m → emits P (on_snd (S:=S) m).
Proof.
  intros H [s t]. specialize (H t). unfold io_trace, on_snd in *. simpl.
  by destruct (m t) as [[? ?] ?].
Qed.

#[export] Hint Resolve emits_ret emits_raise emits_lift emits_get emits_put
  emits_emit emits_bind emits_on_fst emits_on_snd : py.

(** ** Weakest preconditions

    [wp m Q E s]: run from [s], [m] either returns [a] in a state with [Q a],
    or raises [e] in a state with [E e]. *)
Definition wp {S A} (m : io S A) (Q : A → S → Prop) (E : exn → S → Prop) (s : S) : Prop :=
  match io_res (m s) with Ok a => Q a (io_state (m s)) | Raise e => E e (io_state (m s)) end.

Section Wp.
Context {S : Type}.
Implicit Types (s : S) (E : exn → S → Prop).

Lemma wp_bind {A B} (m : io S A) (k : A → io S B) Q E s :
  wp m (λ a, wp (k a) Q E) E s → wp (m ≫= k) Q E s.
Proof.
  unfold wp, io_res, io_state, mbind, io_bind. destruct (m s) as [[t s'] [a|e]]; cbn; [|done].
  by destruct (k a s') as [[? ?] ?].
Qed.

Lemma wp_res {A} (m : io S A) (Q : A → Prop) (R : exn → Prop) s :
  wp m (λ a _, Q a) (λ e _, R e) s → match io_res (m s) with Ok a => Q a | Raise e => R e end.
Proof. done. Qed.

Lemma wp_mono {A} (m : io S A) (Q Q' : A → S → Prop) (E E' : exn → S → Prop) s :
  wp m Q E s → (∀ a s, Q a s → Q' a s) → (∀ e s, E e s → E' e s) → wp m Q' E' s.
Proof. unfold wp. destruct (io_res _); auto. Qed.

Lemma wp_ret {A} (a : A) (Q : A → S → Prop) E s : Q a s → wp (mret a) Q E s.
Proof. done. Qed.

Lemma wp_emit e (Q : () → S → Prop) E s : Q () s → wp (emit e) Q E s.
Proof. done. Qed.

Lemma wp_raise {A} e (Q : A → S → Prop) E s : E e s → wp (raise e) Q E s.
Proof. done. Qed.

Lemma wp_get (Q : S → S → Prop) E s : Q s s → wp get Q E s.
Proof. done. Qed.

Lemma wp_put s' (Q : () → S → Prop) E s : Q () s' → wp (put s') Q E s.
Proof. done. Qed.

Lemma wp_lift {A} (r : res A) (Q : A → S → Prop) E s :
  match r with Ok a => Q a s | Raise e => E e s end → wp (lift_res r) Q E s.
Proof. done. Qed.

Lemma wp_try {A} (m : io S A) h (Q : A → S → Prop) E s :
  wp m Q (λ e s', match h e with Some k => wp k Q E s' | None => E e s' end) s →
  wp (try_except m h) Q E s.
Proof.
  unfold wp, io_res, io_state, try_except. destruct (m s) as [[t s'] [a|e]]; cbn; [done|].
  destruct (h e) as [k|]; cbn; [|done]. by destruct (k s') as [[? ?] ?].
Qed.
End Wp.

Lemma wp_on_fst {S T A} (m : io S A) (Q : A → S * T → Prop) E s :
  wp m (λ a s', Q a (s', s.2)) (λ e s', E e (s', s.2)) s.1 → wp (on_fst m) Q E s.
Proof. unfold wp, io_res, io_state, on_fst. by destruct (m s.1) as [[? ?] ?]. Qed.

Lemma wp_on_snd {S T A} (m : io T A) (Q : A → S * T → Prop) E s :
  wp m (λ a s', Q a (s.1, s')) (λ e s', E e (s.1, s')) s.2 → wp (on_snd m) Q E s.
Proof. unfold wp, io_res, io_state, on_snd. by destruct (m s.2) as [[? ?] ?]. Qed.

(** The lines printed on the standard output. *)
Definition outs (t : list event) : list str :=
  omap (λ e, match e with EvOut l => Some l | _ => None end) t.

Definition silent (e : event) : Prop := match e with EvOut _ => False | _ => True end.

Lemma outs_app t t' : outs (t ++ t') = outs t ++ outs t'.
Proof. apply omap_app. Qed.

Lemma outs_silent t : Forall silent t → outs t = [].
Proof. induction 1 as [|[] t He _ IH]; cbn; done. Qed.

(** [wp] that also sees the printed lines. *)
Definition wp_out {S A} (m : io S A) (Q : A → list str → S → Prop) (E : exn → list str → S → Prop) (s : S) : Prop :=
  match io_res (m s) with
  | Ok a => Q a (outs (io_trace (m s))) (io_state (m s))
  | Raise e => E e (outs (io_trace (m s))) (io_state (m s))
  end.

Section WpOut.
Context {S : Type}.

Lemma wp_out_bind {A B} (m : io S A) (k : A → io S B) Q E s :
  wp_out m (λ a o, wp_out (k a) (λ b o', Q b (o ++ o')) (λ e o', E e (o ++ o'))) E s →
  wp_out (m ≫= k) Q E s.
Proof.
  unfold wp_out, io_res, io_state, io_trace, mbind, io_bind. destruct (m s) as [[t s'] [a|e]]; cbn; [|done].
  destruct (k a s') as [[? ?] [?|?]]; cbn; by rewrite outs_app.
Qed.

(** A statement that prints nothing, in front of others. *)
Lemma wp_out_silent {A B} (m : io S A) (k : A → io S B) Q E s :
  emits silent m → wp m (λ a, wp_out (k a) Q E) (λ e, E e []) s → wp_out (m ≫= k) Q E s.
Proof.
  intros Hm Hw. apply wp_out_bind. specialize (Hm s). apply outs_silent in Hm.
  unfold wp_out, wp, io_res, io_state, io_trace in *. destruct (m s) as [[t s'] [a|e]]; cbn in *; by rewrite Hm.
Qed.

Lemma wp_out_last {A} (m : io S A) Q E s :
  emits silent m → wp m (λ a, Q a []) (λ e, E e []) s → wp_out m Q E s.
Proof.
  intros Hm. specialize (Hm s). apply outs_silent in Hm.
  unfold wp_out, wp. destruct (io_res (m s)); by rewrite Hm.
Qed.

End WpOut.

(** One step of symbolic execution. *)
Ltac wp_step :=
  lazymatch goal with
  | |- wp (_ ≫= _) _ _ _ => apply wp_bind
  | |- wp (mret _) _ _ _ => apply wp_ret
  | |- wp (emit _) _ _ _ => apply wp_emit
  | |- wp (log _ _) _ _ _ => apply wp_emit
  | |- wp (raise _) _ _ _ => apply wp_raise
  | |- wp (sys_exit _) _ _ _ => apply wp_raise
  | |- wp get _ _ _ => apply wp_get
  | |- wp (put _) _ _ _ => apply wp_put
  | |- wp (lift_res _) _ _ _ => apply wp_lift
  | |- wp (try_except _ _) _ _ _ => apply wp_try
  | |- wp (on_fst _) _ _ _ => apply wp_on_fst
  | |- wp (on_snd _) _ _ _ => apply wp_on_snd
  | |- wp (if ?b then _ else _) _ _ _ => destruct b eqn:?
  end.
Ltac wp_run := repeat wp_step.

(** ** Dictionaries

    A Python [dict] iterates in insertion order, so it is an association list
    without repeated keys. *)
Section Dict.
Context {V : Type}.
Implicit Types (d : list (str * V)).

Fixpoint dict_get (k : str) d : option V :=
  match d with
  | [] => None
  | (k', v) :: d => if decide (k = k') then Some v else dict_get k d
  end.

(** [d[k] = v]: an existing key keeps its position. *)
Fixpoint dict_set (k : str) (v : V) d : list (str * V) :=
  match d with
  | [] => [(k, v)]
  | (k', v') :: d => if decide (k = k') then (k', v) :: d else (k', v') :: dict_set k v d
  end.

(** [d.update(d')]. *)
Definition dict_update d d' : list (str * V) :=
  foldl (λ acc kv, dict_set kv.1 kv.2 acc) d d'.

Definition dict_keys d : list str := d.*1.
Definition dict_in (k : str) d : bool := bool_decide (k ∈ dict_keys d).

Lemma dict_get_set k k' v d :
  dict_get k' (dict_set k v d) = if decide (k' = k) then Some v else dict_get k' d.
Proof.
  induction d as [|[k0 v0] d IH]; simpl; [done|].
  rewrite ?IH; repeat (case_decide; simplify_eq/=; try done); rewrite IH; by case_decide.
Qed.

Lemma dict_get_set_eq k v d : dict_get k (dict_set k v d) = Some v.
Proof. rewrite dict_get_set. by rewrite decide_True. Qed.

Lemma dict_get_set_ne k k' v d : k' ≠ k → dict_get k' (dict_set k v d) = dict_get k' d.
Proof. intros. rewrite dict_get_set. by rewrite decide_False. Qed.

Lemma dict_get_Some k d : is_Some (dict_get k d) ↔ k ∈ dict_keys d.
Proof.
  unfold dict_keys. induction d as [|[k0 v0] d IH]; simpl.
  - rewrite elem_of_nil. split; [by intros [? ?]|done].
  - case_decide; subst; rewrite elem_of_cons; [|rewrite IH; naive_solver]. naive_solver.
Qed.

Lemma dict_get_None k d : dict_get k d = None ↔ k ∉ dict_keys d.
Proof. rewrite <-dict_get_Some, eq_None_not_Some. done. Qed.

Lemma dict_get_elem k v d : dict_get k d = Some v → (k, v) ∈ d.
Proof.
  induction d as [|[k0 v0] d IH]; simpl; [done|].
  case_decide; intros; simplify_eq; set_solver.
Qed.

Lemma dict_elem_get k v d : NoDup (dict_keys d) → (k, v) ∈ d → dict_get k d = Some v.
Proof.
  unfold dict_keys. induction d as [|[k0 v0] d IH]; simpl; [set_solver|].
  intros [Hk Hd]%NoDup_cons [|]%elem_of_cons; simplify_eq; [by rewrite decide_True|].
  rewrite decide_False; [by apply IH|]. intros ->. apply Hk.
  apply list_elem_of_fmap. by exists (k0, v).
Qed.

Lemma dict_keys_set k v d :
  dict_keys (dict_set k v d) = if dict_in k d then dict_keys d else dict_keys d ++ [k].
Proof.
  unfold dict_in, dict_keys. induction d as [|[k0 v0] d IH]; cbn [dict_set]; [done|].
  destruct (decide (k = k0)) as [->|Hk]; rewrite !fmap_cons.
  - by rewrite bool_decide_eq_true_2 by set_solver.
  - rewrite IH. cbn [fst]. repeat case_bool_decide; set_solver.
Qed.

(** The entry at the end of a dictionary. *)
Lemma dict_set_absent k v d : k ∉ dict_keys d → dict_set k v d = d ++ [(k, v)].
Proof.
  unfold dict_keys. induction d as [|[k0 v0] d IH]; intros Hk; cbn; [done|].
  rewrite decide_False by set_solver. f_equal. apply IH. set_solver.
Qed.

Lemma dict_get_last d k v : k ∉ dict_keys d → dict_get k (d ++ [(k, v)]) = Some v.
Proof.
  unfold dict_keys. induction d as [|[k0 v0] d IH]; intros Hk; cbn; [by rewrite decide_True|].
  rewrite decide_False by set_solver. apply IH. set_solver.
Qed.

Lemma dict_set_last d k v v' : k ∉ dict_keys d → dict_set k v' (d ++ [(k, v)]) = d ++ [(k, v')].
Proof.
  unfold dict_keys. induction d as [|[k0 v0] d IH]; intros Hk; cbn; [by rewrite decide_True|].
  rewrite decide_False by set_solver. f_equal. apply IH. set_solver.
Qed.

Lemma dict_set_NoDup k v d : NoDup (dict_keys d) → NoDup (dict_keys (dict_set k v d)).
Proof.
  intros H. rewrite dict_keys_set. unfold dict_in. case_bool_decide as Hk; [done|].
  apply NoDup_app. split_and!; [done|set_solver|apply NoDup_singleton].
Qed.

Lemma dict_get_update k d' d : NoDup (dict_keys d') →
  dict_get k (dict_update d d') = match dict_get k d' with Some v => Some v | None => dict_get k d end.
Proof.
  unfold dict_update, dict_keys. revert d. induction d' as [|[k0 v0] d' IH]; intros d Hnd; [done|].
  apply NoDup_cons in Hnd as [Hk Hnd]. cbn [foldl dict_get fst snd]. rewrite IH, dict_get_set by done.
  case_decide; subst; [|done]. by rewrite (proj2 (dict_get_None k0 d') Hk).
Qed.

Lemma dict_update_NoDup d' d :
  NoDup (dict_keys d) → NoDup (dict_keys (dict_update d d')).
Proof.
  unfold dict_update. revert d. induction d' as [|[k v] d' IH]; simpl; intros d H; [done|].
  apply IH. by apply dict_set_NoDup.
Qed.

End Dict.

#[export] Hint Resolve dict_set_NoDup dict_update_NoDup : py.

(** ** Lists *)

(** A list splits in one way at the only element with a property. *)
Lemma split_at_only {A} (P : A → Prop) (pre suf a b : list A) e e' :
  Forall (λ x, ¬ P x) pre → Forall (λ x, ¬ P x) suf → P e' → pre ++ e :: suf = a ++ e' :: b →
  a = pre ∧ e' = e ∧ b = suf.
Proof.
  intros Hpre Hsuf He'. revert a. induction Hpre as [|y pre Hy Hpre IH]; intros [|z a] Heq; cbn in Heq; simplify_eq.
  - done.
  - exfalso. rewrite Forall_app, Forall_cons in Hsuf. naive_solver.
  - done.
  - destruct (IH a) as (-> & -> & ->); done.
Qed.

(** ** Sets

    A Python [set] has no specified iteration order, and the order of a set
    of strings changes from run to run; code that iterates a set is modelled
    against this interface. *)
Class PySetOrder := {
  set_iter : gset str → list str;
  set_iter_perm : ∀ s, set_iter s ≡ₚ elements s
}.

Lemma elem_of_set_iter `{PySetOrder} x s : x ∈ set_iter s ↔ x ∈ s.
Proof. rewrite set_iter_perm. apply elem_of_elements. Qed.

Lemma NoDup_set_iter `{PySetOrder} s : NoDup (set_iter s).
Proof. rewrite set_iter_perm. apply NoDup_elements. Qed.

(** One possible order, that of the keys' encodings. *)
Definition encoding_order : PySetOrder :=
  {| set_iter := elements; set_iter_perm := λ s, reflexivity _ |}.

(** ** Automation *)

(** Split the [match]es of a goal about a monadic program one at a time. *)
Ltac py_case :=
  match goal with
  | |- context [match ?x with _ => _ end] =>
      lazymatch x with context [match _ with _ => _ end] => fail | _ => destruct x eqn:? end
  | H : context [match ?x with _ => _ end] |- _ =>
      lazymatch x with context [match _ with _ => _ end] => fail | _ => destruct x eqn:? end
  end.

Ltac py_simpl := repeat (progress (unfold mbind, mret in *; simpl in *; simplify_eq)).
