(* ===== verification/PyStr.v ===== *)
(** * Python strings

    The methods of [str], [int] and [bytes.decode] that the scripts call,
    as executable functions on lists of code points, with the algebraic laws
    the components rely on. *)
From S2P Require Import Prelude.

(** ** Character classes *)

Definition in_range (lo hi c : N) : bool := (lo <=? c)%N && (c <=? hi)%N.

(** [str.isspace] of one character: Unicode's White_Space property together
    with the four ASCII separators, as CPython's tables have it. *)
Definition is_space (c : N) : bool :=
  in_range 9 13 c || in_range 28 32 c || (c =? 133)%N || (c =? 160)%N ||
  (c =? 5760)%N || in_range 8192 8202 c || (c =? 8232)%N || (c =? 8233)%N ||
  (c =? 8239)%N || (c =? 8287)%N || (c =? 12288)%N.

(** First code points of Unicode's runs of ten decimal digits (category Nd),
    the last five being the mathematical digits. *)
Definition digit_zeros : list N :=
  [48; 1632; 1776; 1984; 2406; 2534; 2662; 2790; 2918; 3046; 3174; 3302; 3430; 3558;
   3664; 3792; 3872; 4160; 4240; 6112; 6160; 6470; 6608; 6784; 6800; 6992; 7088; 7232;
   7248; 42528; 43216; 43264; 43472; 43504; 43600; 44016; 65296; 66720; 68912; 69734;
   69872; 69942; 70096; 70384; 70736; 70864; 71248; 71360; 71472; 71904; 72016; 72784;
   73040; 73120; 73552; 92768; 92864; 93008; 123200; 123632; 124144; 125264; 130032;
   120782; 120792; 120802; 120812; 120822]%N.

(** [unicodedata.decimal], the digits [int] accepts. *)
Definition digit_value (c : N) : option N :=
  match List.find (λ z, in_range z (z + 9) c) digit_zeros with
  | Some z => Some (c - z)%N
  | None => None
  end.

Definition is_ascii_digit (c : N) : bool := in_range 48 57 c.
Definition is_lower_hex (c : N) : bool := is_ascii_digit c || in_range 97 102 c.
(** [[a-zA-Z0-9_]]. *)
Definition is_word (c : N) : bool :=
  is_ascii_digit c || in_range 97 122 c || in_range 65 90 c || (c =? 95)%N.

(** ** Methods of [str] *)

Fixpoint startswith (s p : str) {struct p} : bool :=
  match p, s with
  | [], _ => true
  | a :: p, b :: s => (a =? b)%N && startswith s p
  | _ :: _, [] => false
  end.

Definition endswith (s p : str) : bool := startswith (rev s) (rev p).

Fixpoint lstrip (s : str) : str :=
  match s with c :: s' => if is_space c then lstrip s' else s | [] => [] end.
Definition rstrip (s : str) : str := rev (lstrip (rev s)).
Definition strip (s : str) : str := rstrip (lstrip s).

(** [s.replace(old, new)] for non-empty [old]; [skip] counts the characters
    of an occurrence still to be passed over. *)
Fixpoint replace_from (old new : str) (skip : nat) (s : str) : str :=
  match s with
  | [] => []
  | c :: s' =>
      match skip with
      | S k => replace_from old new k s'
      | O =>
          if startswith s old then new ++ replace_from old new (length old - 1) s'
          else c :: replace_from old new 0 s'
      end
  end.
Definition replace (s old new : str) : str := replace_from old new 0 s.

(** [sub in s]. *)
Fixpoint contains (s sub : str) : bool :=
  startswith s sub || match s with [] => false | _ :: s' => contains s' sub end.

(** [s.split(sep)] for a one-character separator. *)
Fixpoint split (s : str) (sep : N) : list str :=
  match s with
  | [] => [[]]
  | c :: s' =>
      if (c =? sep)%N then [] :: split s' sep
      else match split s' sep with
           | w :: ws => (c :: w) :: ws
           | [] => [[c]]
           end
  end.

(** [s.split(sep, 1)] when [sep in s]. *)
Fixpoint split1 (s : str) (sep : N) : option (str * str) :=
  match s with
  | [] => None
  | c :: s' =>
      if (c =? sep)%N then Some ([], s')
      else match split1 s' sep with
           | Some (a, b) => Some (c :: a, b)
           | None => None
           end
  end.

(** [sep.join(l)]. *)
Fixpoint join (sep : str) (l : list str) : str :=
  match l with
  | [] => []
  | [w] => w
  | w :: l => w ++ sep ++ join sep l
  end.

Definition is_linebreak (c : N) : bool :=
  in_range 10 13 c || in_range 28 30 c || (c =? 133)%N || (c =? 8232)%N || (c =? 8233)%N.

(** [s.splitlines()]; [cur] is the line read so far, reversed. *)
Fixpoint splitlines_from (cur : str) (s : str) : list str :=
  match s with
  | [] => match cur with [] => [] | _ => [rev cur] end
  | c :: s' =>
      if is_linebreak c then
        match s' with
        | d :: s'' =>
            if (c =? 13)%N && (d =? 10)%N then rev cur :: splitlines_from [] s''
            else rev cur :: splitlines_from [] s'
        | [] => [rev cur]
        end
      else splitlines_from (c :: cur) s'
  end.
Definition splitlines (s : str) : list str := splitlines_from [] s.

(** [" " * n]. *)
Definition spaces (n : nat) : str := replicate n 32%N.

(** [f"{s:<w}"] and [f"{s:>w}"]. *)
Definition ljust (s : str) (w : nat) : str := s ++ spaces (w - length s).
Definition rjust (s : str) (w : nat) : str := spaces (w - length s) ++ s.

(** Lines of a text file opened in text mode: universal newlines turn
    ["\r\n"] and ["\r"] into ["\n"], and each line keeps its terminator. *)
Fixpoint universal_newlines (s : str) : str :=
  match s with
  | [] => []
  | c :: s' =>
      if (c =? 13)%N then
        match s' with
        | d :: s'' => if (d =? 10)%N then 10%N :: universal_newlines s''
                      else 10%N :: universal_newlines s'
        | [] => [10%N]
        end
      else c :: universal_newlines s'
  end.
Fixpoint file_lines_from (cur : str) (s : str) : list str :=
  match s with
  | [] => match cur with [] => [] | _ => [rev cur] end
  | c :: s' => if (c =? 10)%N then rev (c :: cur) :: file_lines_from [] s'
               else file_lines_from (c :: cur) s'
  end.
Definition file_lines (s : str) : list str := file_lines_from [] (universal_newlines s).

(** ** Integers *)

Fixpoint dec_digits (fuel : nat) (n : N) : str :=
  match fuel with
  | O => []
  | S f => if (n <? 10)%N then [(48 + n)%N]
           else dec_digits f (n / 10)%N ++ [(48 + n mod 10)%N]
  end.
Definition str_of_N (n : N) : str := dec_digits (S (N.size_nat n)) n.

(** [str(z)]. *)
Definition str_of_Z (z : Z) : str :=
  if (z <? 0)%Z then "-" ++ str_of_N (Z.to_N (- z)) else str_of_N (Z.to_N z).

(** Digits with single underscores between them; [n] counts the digits and
    [u] says that the previous character was a digit. *)
Fixpoint int_digits (acc : N) (n : nat) (u : bool) (s : str) : option (N * nat) :=
  match s with
  | [] => if u then Some (acc, n) else None
  | c :: s' =>
      match digit_value c with
      | Some d => int_digits (10 * acc + d)%N (S n) true s'
      | None => if (c =? 95)%N && u then int_digits acc n false s' else None
      end
  end.

(** CPython refuses to convert more digits than this. *)
Definition int_max_str_digits : nat := Z.to_nat 4300.

(** [int(s)]. *)
Definition py_int (s : str) : res Z :=
  let s := strip s in
  let '(neg, body) :=
    match s with
    | c :: s' => if (c =? 45)%N then (true, s') else if (c =? 43)%N then (false, s') else (false, s)
    | [] => (false, s)
    end in
  match int_digits 0 0 false body with
  | Some (v, n) =>
      if (int_max_str_digits <? n)%nat then Raise (ValueError "Exceeds the limit for integer string conversion")
      else Ok (if neg then - Z.of_N v else Z.of_N v)%Z
  | None => Raise (ValueError "invalid literal for int() with base 10")
  end.

(** ** UTF-8 *)

Definition is_cont (b : N) : bool := in_range 128 191 b.

(** UTF-8 of one code point and of text without surrogates. *)
Definition utf8_encode1 (c : N) : bytes :=
  if (c <? 128)%N then [c]
  else if (c <? 2048)%N then [192 + c / 64; 128 + c mod 64]%N
  else if (c <? 65536)%N then [224 + c / 4096; 128 + (c / 64) mod 64; 128 + c mod 64]%N
  else [240 + c / 262144; 128 + (c / 4096) mod 64; 128 + (c / 64) mod 64; 128 + c mod 64]%N.
Definition utf8_encode (s : str) : bytes := concat (utf8_encode1 <$> s).

(** [s.encode("utf-8")]: lone surrogates cannot be encoded. *)
Definition py_encode (s : str) : res bytes :=
  if existsb (in_range 55296 57343) s then Raise (ValueError "surrogates not allowed")
  else Ok (utf8_encode s).

(** One step of the decoder: the code point and the rest, or the number of
    bytes of the maximal ill-formed prefix. *)
Definition utf8_step (b : N) (rest : bytes) : (N * nat) + nat :=
  if (b <? 128)%N then inl (b, 0)
  else if in_range 194 223 b then
    match rest with
    | b1 :: _ => if is_cont b1 then inl (((b - 192) * 64 + (b1 - 128))%N, 1) else inr 0
    | [] => inr 0
    end
  else if in_range 224 239 b then
    match rest with
    | b1 :: rest =>
        if in_range (if (b =? 224)%N then 160 else 128) (if (b =? 237)%N then 159 else 191) b1 then
          match rest with
          | b2 :: _ =>
              if is_cont b2 then
                inl (((b - 224) * 4096 + (b1 - 128) * 64 + (b2 - 128))%N, 2)
              else inr 1
          | [] => inr 1
          end
        else inr 0
    | [] => inr 0
    end
  else if in_range 240 244 b then
    match rest with
    | b1 :: rest =>
        if in_range (if (b =? 240)%N then 144 else 128) (if (b =? 244)%N then 143 else 191) b1 then
          match rest with
          | b2 :: rest =>
              if is_cont b2 then
                match rest with
                | b3 :: _ =>
                    if is_cont b3 then
                      inl (((b - 240) * 262144 + (b1 - 128) * 4096 + (b2 - 128) * 64 + (b3 - 128))%N, 3)
                    else inr 2
                | [] => inr 2
                end
              else inr 1
          | [] => inr 1
          end
        else inr 0
    | [] => inr 0
    end
  else inr 0.

(** [data.decode(errors="replace")]; [skip] counts bytes already consumed. *)
Fixpoint utf8_decode_replace (skip : nat) (data : bytes) : str :=
  match data with
  | [] => []
  | b :: rest =>
      match skip with
      | S k => utf8_decode_replace k rest
      | O =>
          match utf8_step b rest with
          | inl (c, k) => c :: utf8_decode_replace k rest
          | inr k => 65533%N :: utf8_decode_replace k rest
          end
      end
  end.

(** [data.decode("utf-8")], strict. *)
Fixpoint utf8_decode (skip : nat) (data : bytes) : res str :=
  match data with
  | [] => Ok []
  | b :: rest =>
      match skip with
      | S k => utf8_decode k rest
      | O =>
          match utf8_step b rest with
          | inl (c, k) => s ← utf8_decode k rest; Ok (c :: s)
          | inr _ => Raise UnicodeDecodeError
          end
      end
  end.

(** ** Ordering

    [sorted] on strings compares code points lexicographically. *)
Fixpoint str_leb (a b : str) : bool :=
  match a, b with
  | [], _ => true
  | _ :: _, [] => false
  | x :: a, y :: b => (x <? y)%N || ((x =? y)%N && str_leb a b)
  end.
Definition str_le (a b : str) : Prop := str_leb a b = true.
#[export] Instance str_le_dec : RelDecision str_le.
Proof. intros a b. unfold str_le. apply _. Defined.

(** [sorted(l)]. *)
Definition py_sorted (l : list str) : list str := merge_sort str_le l.

(** ** Laws *)

Lemma startswith_spec s p : startswith s p = true ↔ ∃ k, s = p ++ k.
Proof.
  revert s. induction p as [|a p IH]; intros s; simpl.
  - split; [by exists s|done].
  - destruct s as [|b s]; [split; [done|by intros [? ?]]|].
    rewrite andb_true_iff, N.eqb_eq, IH. split.
    + intros [-> [k ->]]. by exists k.
    + intros [k ?]. simplify_eq/=. eauto.
Qed.

Lemma startswith_app p s : startswith (p ++ s) p = true.
Proof. apply startswith_spec. by exists s. Qed.

Lemma endswith_spec s p : endswith s p = true ↔ ∃ k, s = k ++ p.
Proof.
  unfold endswith. rewrite startswith_spec. split; intros [k Hk].
  - exists (rev k). rewrite <-(rev_involutive s), Hk, rev_app_distr, !rev_involutive. done.
  - exists (rev k). by rewrite Hk, rev_app_distr.
Qed.

Lemma split_nonempty s sep : split s sep ≠ [].
Proof. destruct s as [|c s]; simpl; [done|]. repeat case_match; done. Qed.

(** Joining the pieces with the separator gives the string back. *)
Lemma join_split s sep : join [sep] (split s sep) = s.
Proof.
  induction s as [|c s IH]; simpl; [done|].
  pose proof (split_nonempty s sep) as Hne.
  destruct (N.eqb_spec c sep) as [->|Hc]; destruct (split s sep) as [|w ws] eqn:E; try done;
    [simpl in *; by rewrite IH|].
  destruct ws; simpl in *; by f_equal.
Qed.

Lemma split_no_sep s sep : Forall (λ w, sep ∉ w) (split s sep).
Proof.
  induction s as [|c s IH]; simpl; [repeat constructor; set_solver|].
  destruct (N.eqb_spec c sep) as [->|Hc].
  - constructor; [set_solver|done].
  - destruct (split s sep) as [|w ws]; [repeat constructor; set_solver|].
    inv IH. constructor; [set_solver|done].
Qed.

Lemma split_sep_notin s sep : sep ∉ s → split s sep = [s].
Proof.
  induction s as [|c s IH]; intros H; simpl; [done|].
  destruct (N.eqb_spec c sep) as [->|Hc]; [set_solver|].
  rewrite IH by set_solver. done.
Qed.

Lemma split_app s t sep : sep ∉ s → split (s ++ sep :: t) sep = s :: split t sep.
Proof.
  induction s as [|c s IH]; intros H; simpl; [by rewrite N.eqb_refl|].
  destruct (N.eqb_spec c sep) as [->|Hc]; [set_solver|].
  rewrite IH by set_solver. done.
Qed.

(** Splitting at a separator in the middle. *)
Lemma split_app_gen p t sep : split (p ++ sep :: t) sep = split p sep ++ split t sep.
Proof.
  induction p as [|c p IH]; cbn [app split]; [by rewrite N.eqb_refl|].
  destruct (c =? sep)%N; [by rewrite IH|]. rewrite IH.
  pose proof (split_nonempty p sep). by destruct (split p sep).
Qed.

Lemma split1_Some s sep a b :
  split1 s sep = Some (a, b) ↔ s = a ++ sep :: b ∧ sep ∉ a.
Proof.
  revert a. induction s as [|c s IH]; intros a; simpl.
  - split; [done|]. by intros [? _]; destruct a.
  - destruct (N.eqb_spec c sep) as [->|Hc].
    + split; [intros; simplify_eq; set_solver|].
      intros [H Hn]. destruct a as [|c a]; simplify_eq/=; [done|]. set_solver.
    + destruct (split1 s sep) as [[a' b']|].
      * split.
        -- intros ?; simplify_eq. destruct (proj1 (IH a') eq_refl) as [-> ?]. set_solver.
        -- intros [H Hn]. destruct a as [|c' a]; simplify_eq/=.
           specialize (IH a). destruct IH as [_ IH]. specialize (IH ltac:(set_solver)).
           by simplify_eq.
      * split; [done|]. intros [H Hn]. destruct a as [|c' a]; simplify_eq/=.
        specialize (IH a). destruct IH as [_ IH]. specialize (IH ltac:(set_solver)). done.
Qed.

Lemma split1_None s sep : split1 s sep = None ↔ sep ∉ s.
Proof.
  induction s as [|c s IH]; simpl; [set_solver|].
  destruct (N.eqb_spec c sep) as [->|Hc]; [set_solver|].
  destruct (split1 s sep) as [[a b]|]; set_solver.
Qed.

Lemma replace_prefix s old new :
  old ≠ [] → replace (old ++ s) old new = new ++ replace s old new.
Proof.
  intros Hne. destruct old as [|c old]; [done|]. unfold replace. simpl.
  rewrite N.eqb_refl, startswith_app. simpl. f_equal.
  rewrite Nat.sub_0_r. generalize (c :: old) as o. intros o. clear.
  induction old as [|c old IH]; simpl; [done|]. apply IH.
Qed.

Lemma replace_absent s old new : contains s old = false → replace s old new = s.
Proof.
  unfold replace. induction s as [|c s IH]; intros H; [done|].
  cbn [contains replace_from] in *. apply orb_false_iff in H as [H1 H2].
  rewrite H1. f_equal. by apply IH.
Qed.

Lemma replace_char_spec s (a b : N) :
  replace s [a] [b] = (λ c, if (a =? c)%N then b else c) <$> s.
Proof.
  unfold replace. induction s as [|c s IH]; [done|].
  cbn [replace_from startswith length]. rewrite andb_true_r.
  csimpl. destruct (a =? c)%N; simpl; by f_equal.
Qed.

(** *** Decimal integers *)

Lemma digit_value_ascii d : (d < 10)%N → digit_value (48 + d) = Some d.
Proof.
  intros H. unfold digit_value, digit_zeros. cbn [List.find]. unfold in_range at 1.
  rewrite (proj2 (N.leb_le 48 (48 + d))) by lia.
  rewrite (proj2 (N.leb_le (48 + d) (48 + 9))) by lia. simpl. f_equal. lia.
Qed.

Lemma int_digits_app s1 : ∀ acc n u s2,
  Forall (λ c, is_ascii_digit c = true) s1 → s1 ≠ [] →
  int_digits acc n u (s1 ++ s2) =
    int_digits (foldl (λ a c, 10 * a + (c - 48))%N acc s1) (n + length s1) true s2.
Proof.
  induction s1 as [|c s1 IH]; intros acc n u s2 Hd Hne; [done|].
  inv Hd. cbn [app int_digits foldl length].
  match goal with H : is_ascii_digit c = true |- _ =>
    unfold is_ascii_digit, in_range in H; apply andb_true_iff in H as [?%N.leb_le ?%N.leb_le] end.
  replace (digit_value c) with (Some (c - 48)%N); last first.
  { rewrite <-(digit_value_ascii (c - 48)) by lia. f_equal. lia. }
  destruct s1 as [|c' s1].
  - simpl. f_equal; lia.
  - rewrite IH by done. f_equal. cbn [length]. lia.
Qed.

Lemma dec_digits_ascii fuel : ∀ n,
  Forall (λ c, is_ascii_digit c = true) (dec_digits fuel n).
Proof.
  induction fuel as [|f IH]; intros n; cbn [dec_digits]; [constructor|].
  destruct (N.ltb_spec n 10).
  - repeat constructor. unfold is_ascii_digit, in_range.
    rewrite andb_true_iff, !N.leb_le. lia.
  - apply Forall_app. split; [apply IH|]. repeat constructor.
    pose proof (N.mod_lt n 10 ltac:(done)) as Hm. revert Hm.
    generalize (n mod 10)%N as m. intros m Hm. unfold is_ascii_digit, in_range.
    rewrite andb_true_iff, !N.leb_le. lia.
Qed.

Lemma size_nat_bound n : (n < 2 ^ N.of_nat (N.size_nat n))%N.
Proof.
  destruct n as [|p]; [done|]. simpl.
  induction p as [p IH|p IH|]; cbn [Pos.size_nat]; [..|done];
    rewrite Nat2N.inj_succ, N.pow_succ_r';
    [change (N.pos p~1) with (2 * N.pos p + 1)%N|change (N.pos p~0) with (2 * N.pos p)%N]; lia.
Qed.

Lemma dec_digits_S f n :
  dec_digits (S f) n =
    if (n <? 10)%N then [(48 + n)%N] else dec_digits f (n / 10)%N ++ [(48 + n mod 10)%N].
Proof. done. Qed.

Lemma dec_digits_value fuel : ∀ n acc, (n < 2 ^ N.of_nat fuel)%N →
  ∃ k, foldl (λ a c, 10 * a + (c - 48))%N acc (dec_digits (S fuel) n) = (acc * k + n)%N ∧ (0 < k)%N.
Proof.
  induction fuel as [|f IH]; intros n acc Hn.
  - change (2 ^ N.of_nat 0)%N with 1%N in Hn. assert (n = 0)%N as -> by lia. exists 10%N. cbn [dec_digits foldl N.ltb N.compare]. lia.
  - rewrite dec_digits_S. destruct (N.ltb_spec n 10); [exists 10%N; cbn [foldl]; lia|].
    rewrite Nat2N.inj_succ, N.pow_succ_r' in Hn.
    pose proof (N.div_mod n 10 ltac:(done)) as Hdm. pose proof (N.mod_lt n 10 ltac:(done)) as Hm.
    revert Hdm Hm. generalize (n mod 10)%N as m, (n / 10)%N as q. intros m q Hdm Hm.
    destruct (IH q acc) as (k & Hk & ?); [lia|].
    exists (10 * k)%N. split; [|lia].
    rewrite foldl_app, Hk. cbn [foldl]. lia.
Qed.

Lemma str_of_N_nonempty n : str_of_N n ≠ [].
Proof.
  unfold str_of_N. cbn [dec_digits]. case_match; [done|].
  intros Hl%(f_equal length). rewrite length_app in Hl. simpl in Hl. lia.
Qed.

Lemma int_digits_str_of_N n :
  int_digits 0 0 false (str_of_N n) = Some (n, length (str_of_N n)).
Proof.
  pose proof (int_digits_app (str_of_N n) 0 0 false [] (dec_digits_ascii _ _) (str_of_N_nonempty n)) as H.
  rewrite app_nil_r in H. rewrite H. simpl. do 2 f_equal. unfold str_of_N.
  destruct (dec_digits_value (N.size_nat n) n 0 (size_nat_bound n)) as (k & -> & _). lia.
Qed.

Lemma lstrip_nospace s : Forall (λ c, is_space c = false) s → lstrip s = s.
Proof. destruct 1 as [|c s Hc]; simpl; [done|]. by rewrite Hc. Qed.

Lemma strip_nospace s : Forall (λ c, is_space c = false) s → strip s = s.
Proof.
  intros H. unfold strip, rstrip. rewrite (lstrip_nospace s H).
  rewrite lstrip_nospace; [apply rev_involutive|]. by apply Forall_rev.
Qed.

Lemma ascii_digit_nospace c : is_ascii_digit c = true → is_space c = false.
Proof.
  unfold is_ascii_digit, is_space, in_range. intros [?%N.leb_le ?%N.leb_le]%andb_true_iff.
  repeat match goal with
    | |- context [(?a <=? ?b)%N] => destruct (N.leb_spec a b); simpl; try lia
    | |- context [(?a =? ?b)%N] => destruct (N.eqb_spec a b); simpl; try lia
  end.
Qed.

(** [int(str(z)) == z], within CPython's digit limit. *)
Lemma py_int_str_of_Z z :
  length (str_of_N (Z.to_N (Z.abs z))) ≤ int_max_str_digits →
  py_int (str_of_Z z) = Ok z.
Proof.
  intros Hlen. unfold str_of_Z, py_int.
  assert (∀ n, Forall (λ c, is_space c = false) (str_of_N n)) as Hns.
  { intros n. eapply Forall_impl; [apply dec_digits_ascii|]. apply ascii_digit_nospace. }
  destruct (Z.ltb_spec z 0) as [Hz|Hz].
  - rewrite strip_nospace by (constructor; [done|apply Hns]). simpl.
    rewrite int_digits_str_of_N. replace (Z.to_N (-z)) with (Z.to_N (Z.abs z)) by lia.
    rewrite (proj2 (Nat.ltb_ge _ _)) by done. f_equal. lia.
  - rewrite strip_nospace by apply Hns.
    replace (Z.to_N z) with (Z.to_N (Z.abs z)) by lia.
    pose proof (int_digits_str_of_N (Z.to_N (Z.abs z))) as Hd.
    pose proof (dec_digits_ascii (S (N.size_nat (Z.to_N (Z.abs z)))) (Z.to_N (Z.abs z))) as Hall.
    change (dec_digits _ _) with (str_of_N (Z.to_N (Z.abs z))) in Hall.
    destruct (str_of_N (Z.to_N (Z.abs z))) as [|c s] eqn:E; [by apply str_of_N_nonempty in E|].
    inv Hall. unfold is_ascii_digit, in_range in *.
    match goal with H : _ && _ = true |- _ => apply andb_true_iff in H as [?%N.leb_le ?%N.leb_le] end.
    destruct (N.eqb_spec c 45); [lia|]. destruct (N.eqb_spec c 43); [lia|].
    rewrite Hd, (proj2 (Nat.ltb_ge _ _)) by done. f_equal. lia.
Qed.

(** *** The order of [sorted] *)

#[export] Instance str_le_total : Total str_le.
Proof.
  intros a. unfold str_le. induction a as [|x a IH]; intros [|y b]; simpl; auto.
  destruct (N.ltb_spec x y), (N.ltb_spec y x), (N.eqb_spec x y), (N.eqb_spec y x);
    simpl; auto; lia.
Qed.

#[export] Instance str_le_trans : Transitive str_le.
Proof.
  unfold str_le. intros a. induction a as [|x a IH]; intros [|y b] [|z c]; simpl; auto; [done|].
  rewrite !orb_true_iff, !andb_true_iff, !N.ltb_lt, !N.eqb_eq.
  intros [?|[-> ?]] [?|[-> ?]]; [left; lia|left; lia|left; lia|right; eauto].
Qed.

#[export] Instance str_le_antisym : AntiSymm (=) str_le.
Proof.
  unfold str_le. intros a. induction a as [|x a IH]; intros [|y b]; simpl; auto; [done..|].
  rewrite !orb_true_iff, !andb_true_iff, !N.ltb_lt, !N.eqb_eq.
  intros [?|[-> ?]] [?|[? ?]]; try lia. f_equal. auto.
Qed.

Lemma py_sorted_perm l : py_sorted l ≡ₚ l.
Proof. apply merge_sort_Permutation. Qed.

(** Sorting forgets the order of its input. *)
Lemma py_sorted_unique l1 l2 : l1 ≡ₚ l2 → py_sorted l1 = py_sorted l2.
Proof.
  intros H. apply (StronglySorted_unique str_le).
  - apply StronglySorted_merge_sort; apply _.
  - apply StronglySorted_merge_sort; apply _.
  - by rewrite !py_sorted_perm.
Qed.

Lemma py_sorted_sorted l : Sorted str_le l → py_sorted l = l.
Proof.
  intros Hl. apply (Sorted_unique str_le); [apply Sorted_merge_sort, _|done|]. apply py_sorted_perm.
Qed.

#[export] Instance py_sorted_proper : Proper ((≡ₚ) ==> (=)) py_sorted.
Proof. intros l1 l2. apply py_sorted_unique. Qed.
