(* ===== verification/PyFloat.v ===== *)
(** * Python floats

    A Python [float] is an IEEE 754 binary64 number.  [SpecFloat] gives the
    format and its correctly rounded operations as executable functions on
    integers; this file adds what the scripts use on top of them: conversion
    from integers and decimal text, true division of integers, comparison,
    and the percent format. *)
From Stdlib Require Export SpecFloat.
From S2P Require Import Prelude PyStr.

Abbreviation float := spec_float.

#[export] Instance float_eq_dec : EqDecision float.
Proof. solve_decision. Defined.

Definition prec : Z := 53.
Definition emax : Z := 1024.

Definition f_add (x y : float) : float := SFadd prec emax x y.
Definition f_mul (x y : float) : float := SFmul prec emax x y.
Definition f_div (x y : float) : float := SFdiv prec emax x y.
Definition f_ltb (x y : float) : bool := SFltb x y.
Definition f_leb (x y : float) : bool := SFleb x y.
Definition f_round (z : Z) : float := binary_normalize prec emax z 0 false.

Definition f_zero : float := S754_zero false.
Definition f_one : float := f_round 1.
Definition f_hundred : float := f_round 100.

(** [float(z)]. *)
Definition float_of_Z (z : Z) : res float :=
  match f_round z with
  | S754_infinity _ => Raise OverflowError
  | x => Ok x
  end.

(** [a / b] on integers: the correctly rounded quotient. *)
Definition int_truediv (a b : Z) : res float :=
  match b with
  | Z0 => Raise ZeroDivisionError
  | _ =>
      match a with
      | Z0 => Ok (S754_zero false)
      | _ =>
          match f_div (S754_finite (a <? 0)%Z (Z.to_pos (Z.abs a)) 0)
                      (S754_finite (b <? 0)%Z (Z.to_pos (Z.abs b)) 0) with
          | S754_infinity _ => Raise OverflowError
          | x => Ok x
          end
      end
  end.

(** The float nearest to [m * 10 ^ e]; exponents far outside the range of
    binary64 are cut off before the power is computed. *)
Definition float_of_dec (neg : bool) (m : N) (e : Z) : float :=
  match m with
  | N0 => S754_zero neg
  | Npos p =>
      if (400 <? e)%Z then S754_infinity neg
      else if (e <? - (400 + Z.of_nat (N.size_nat m)))%Z then S754_zero neg
      else if (0 <=? e)%Z then
        binary_round prec emax neg (p * Z.to_pos (10 ^ e)) 0
      else f_div (S754_finite neg p 0) (S754_finite false (Z.to_pos (10 ^ (- e))) 0)
  end.

(** *** [float(text)] *)

(** Drop underscores, each of which must stand between two digits. *)
Fixpoint drop_underscores (prev : bool) (s : str) : option str :=
  match s with
  | [] => Some []
  | c :: s' =>
      if (c =? 95)%N then
        match s' with
        | d :: _ => if prev && is_ascii_digit d then drop_underscores false s' else None
        | [] => None
        end
      else match drop_underscores (is_ascii_digit c) s' with
           | Some r => Some (c :: r)
           | None => None
           end
  end.

Fixpoint take_digits (s : str) : str * str :=
  match s with
  | c :: s' => if is_ascii_digit c then let '(d, r) := take_digits s' in (c :: d, r) else ([], s)
  | [] => ([], [])
  end.

Definition digits_N (ds : str) : N := foldl (λ a c, (10 * a + (c - 48))%N) 0%N ds.

Definition to_lower (s : str) : str := (λ c, if in_range 65 90 c then (c + 32)%N else c) <$> s.

(** An unsigned decimal literal: digits, optional fraction, optional exponent. *)
Definition parse_decimal (neg : bool) (s : str) : option float :=
  let '(ip, r) := take_digits s in
  let '(fp, r) := match r with
                  | c :: r' => if (c =? 46)%N then take_digits r' else ([], r)
                  | [] => ([], [])
                  end in
  match ip ++ fp with
  | [] => None
  | ds =>
      let mk e := Some (float_of_dec neg (digits_N ds) (e - Z.of_nat (length fp))%Z) in
      match r with
      | [] => mk 0%Z
      | c :: r' =>
          if (c =? 101)%N || (c =? 69)%N then
            let '(eneg, r'') := match r' with
                                | d :: r1 => if (d =? 45)%N then (true, r1)
                                             else if (d =? 43)%N then (false, r1) else (false, r')
                                | [] => (false, [])
                                end in
            match take_digits r'' with
            | ([], _) => None
            | (ed, []) => mk (if eneg then - Z.of_N (digits_N ed) else Z.of_N (digits_N ed))%Z
            | _ => None
            end
          else None
      end
  end.

Definition ascii_digits (s : str) : str :=
  (λ c, match digit_value c with Some d => (48 + d)%N | None => c end) <$> s.

Definition py_float (s : str) : res float :=
  let bad := Raise (ValueError "could not convert string to float") in
  match drop_underscores false (ascii_digits (strip s)) with
  | None => bad
  | Some s =>
      let '(neg, b) := match s with
                       | c :: s' => if (c =? 45)%N then (true, s')
                                    else if (c =? 43)%N then (false, s') else (false, s)
                       | [] => (false, [])
                       end in
      let l := to_lower b in
      if bool_decide (l = "inf") || bool_decide (l = "infinity") then Ok (S754_infinity neg)
      else if bool_decide (l = "nan") then Ok S754_nan
      else match parse_decimal neg b with Some x => Ok x | None => bad end
  end.

(** *** [f"{x:>7.2%}"] *)

(** [n / d] rounded to an integer, ties to even. *)
Definition div_half_even (n d : Z) : Z :=
  let q := (n / d)%Z in
  let r := (n mod d)%Z in
  match (2 * r ?= d)%Z with
  | Lt => q
  | Gt => (q + 1)%Z
  | Eq => if Z.even q then q else (q + 1)%Z
  end.

(** The exact value [m * 2 ^ e], in hundredths, rounded. *)
Definition hundredths (m : positive) (e : Z) : Z :=
  if (0 <=? e)%Z then (Zpos m * 2 ^ e * 100)%Z
  else div_half_even (Zpos m * 100) (2 ^ (- e)).

Definition fixed2 (neg : bool) (h : Z) : str :=
  let frac := str_of_Z (h mod 100) in
  (if neg then "-" else "") ++ str_of_Z (h / 100) ++ "." ++
  (if (h mod 100 <? 10)%Z then "0" ++ frac else frac).

(** The [%] presentation type multiplies by 100 in binary64, then formats. *)
Definition percent2 (x : float) : str :=
  match f_mul x f_hundred with
  | S754_nan => "nan%"
  | S754_infinity s => (if s then "-" else "") ++ "inf%"
  | S754_zero s => fixed2 s 0 ++ "%"
  | S754_finite s m e => fixed2 s (hundredths m e) ++ "%"
  end.
Definition percent7 (x : float) : str := rjust (percent2 x) 7.

Example percent7_ex1 : percent7 f_one = "100.00%".
Proof. vm_compute. reflexivity. Qed.
Example percent7_ex2 : (x ← int_truediv 2 3; Ok (percent7 x)) = Ok " 66.67%".
Proof. vm_compute. reflexivity. Qed.
Example py_float_ex : (x ← py_float " 8_0.5e1 "; Ok (percent7 x)) = Ok "80500.00%".
Proof. vm_compute. reflexivity. Qed.
