(* ===== verification/Json.v ===== *)
(** * JSON

    [json.load] as the scripts use it: the values it builds and the decoder
    itself, and the Python operators ([in], subscripting, truth value) on a
    decoded value of unknown shape. *)
From S2P Require Import Prelude PyStr PyFloat.

Inductive json :=
  | JNull
  | JBool (b : bool)
  | JInt (z : Z)
  | JFloat (x : float)
  | JStr (s : str)
  | JList (l : list json)
  | JDict (d : list (str * json)).

(** Text of a value that is not a string, for [str()] and f-strings. *)
Class JsonRepr := json_repr : json → str.

Definition py_str `{JsonRepr} (j : json) : str :=
  match j with JStr s => s | _ => json_repr j end.

(** [bool(j)]. *)
Definition truthy (j : json) : bool :=
  match j with
  | JNull => false
  | JBool b => b
  | JInt z => negb (z =? 0)%Z
  | JFloat (S754_zero _) => false
  | JFloat _ => true
  | JStr s => negb (bool_decide (s = []))
  | JList l => match l with [] => false | _ => true end
  | JDict d => match d with [] => false | _ => true end
  end.

(** [k in j] for a string [k]. *)
Definition py_in (k : str) (j : json) : res bool :=
  match j with
  | JDict d => Ok (dict_in k d)
  | JList l => Ok (existsb (λ x, match x with JStr s => bool_decide (s = k) | _ => false end) l)
  | JStr s => Ok (contains s k)
  | _ => Raise TypeError
  end.

(** [j[k]] for a string [k]. *)
Definition py_item (j : json) (k : str) : res json :=
  match j with
  | JDict d => match dict_get k d with Some v => Ok v | None => Raise (KeyError k) end
  | _ => Raise TypeError
  end.

(** [j.items()]. *)
Definition py_items (j : json) : res (list (str * json)) :=
  match j with JDict d => Ok d | _ => Raise AttributeError end.

(** ** The decoder *)

Definition is_json_ws (c : N) : bool := (c =? 32)%N || (c =? 9)%N || (c =? 10)%N || (c =? 13)%N.
Fixpoint skip_ws (s : str) : str :=
  match s with c :: s' => if is_json_ws c then skip_ws s' else s | [] => [] end.

Definition hex_value (c : N) : option N :=
  if is_ascii_digit c then Some (c - 48)%N
  else if in_range 97 102 c then Some (c - 87)%N
  else if in_range 65 70 c then Some (c - 55)%N
  else None.

Definition hex4 (a b c d : N) : option N :=
  match hex_value a, hex_value b, hex_value c, hex_value d with
  | Some a, Some b, Some c, Some d => Some (4096 * a + 256 * b + 16 * c + d)%N
  | _, _, _, _ => None
  end.

Definition simple_escape (c : N) : option N :=
  if (c =? 34)%N then Some 34%N else if (c =? 92)%N then Some 92%N
  else if (c =? 47)%N then Some 47%N else if (c =? 98)%N then Some 8%N
  else if (c =? 102)%N then Some 12%N else if (c =? 110)%N then Some 10%N
  else if (c =? 114)%N then Some 13%N else if (c =? 116)%N then Some 9%N
  else None.

(** The characters of a string literal after its opening quote, escapes
    decoded to code units, and what follows the closing quote. *)
Fixpoint scan_string (s : str) : option (str * str) :=
  match s with
  | [] => None
  | c :: s' =>
      if (c =? 34)%N then Some ([], s')
      else if (c =? 92)%N then
        match s' with
        | [] => None
        | e :: s'' =>
            if (e =? 117)%N then
              match s'' with
              | h1 :: h2 :: h3 :: h4 :: s''' =>
                  match hex4 h1 h2 h3 h4, scan_string s''' with
                  | Some u, Some (t, r) => Some (u :: t, r)
                  | _, _ => None
                  end
              | _ => None
              end
            else match simple_escape e, scan_string s'' with
                 | Some u, Some (t, r) => Some (u :: t, r)
                 | _, _ => None
                 end
        end
      else if (c <? 32)%N then None
      else match scan_string s' with
           | Some (t, r) => Some (c :: t, r)
           | None => None
           end
  end.

(** A high surrogate followed by a low one is one code point. *)
Fixpoint join_surrogates (s : str) : str :=
  match s with
  | h :: ((l :: s'') as s') =>
      if in_range 55296 56319 h && in_range 56320 57343 l
      then (65536 + (h - 55296) * 1024 + (l - 56320))%N :: join_surrogates s''
      else h :: join_surrogates s'
  | _ => s
  end.

Definition parse_string (s : str) : res (str * str) :=
  match scan_string s with
  | Some (t, r) => Ok (join_surrogates t, r)
  | None => Raise JSONDecodeError
  end.

(** A number: integer part, then a fraction and an exponent if well formed. *)
Definition parse_number (s : str) : res (json * str) :=
  let '(neg, b) := match s with c :: s' => if (c =? 45)%N then (true, s') else (false, s) | [] => (false, []) end in
  let '(ip, r) := match b with
                  | c :: b' => if (c =? 48)%N then ([c], b') else take_digits b
                  | [] => ([], [])
                  end in
  match ip with
  | [] => Raise JSONDecodeError
  | _ =>
      let '(fp, r1) := match r with
                       | c :: r' => if (c =? 46)%N then
                                      match take_digits r' with ([], _) => ([], r) | dr => dr end
                                    else ([], r)
                       | [] => ([], [])
                       end in
      let '(ex, r2) :=
        match r1 with
        | c :: r' =>
            if (c =? 101)%N || (c =? 69)%N then
              let '(en, r'') := match r' with
                                | d :: r3 => if (d =? 45)%N then (true, r3)
                                             else if (d =? 43)%N then (false, r3) else (false, r')
                                | [] => (false, [])
                                end in
              match take_digits r'' with
              | ([], _) => (None, r1)
              | (ed, r4) => (Some (if en then - Z.of_N (digits_N ed) else Z.of_N (digits_N ed))%Z, r4)
              end
            else (None, r1)
        | [] => (None, [])
        end in
      match fp, ex with
      | [], None =>
          if (int_max_str_digits <? length ip)%nat
          then Raise (ValueError "Exceeds the limit for integer string conversion")
          else Ok (JInt (if neg then - Z.of_N (digits_N ip) else Z.of_N (digits_N ip))%Z, r2)
      | _, _ =>
          Ok (JFloat (float_of_dec neg (digits_N (ip ++ fp))
                        (default 0%Z ex - Z.of_nat (length fp))%Z), r2)
      end
  end.

(** [Some rest] when [s] starts with the keyword [k]. *)
Definition keyword (k s : str) : option str :=
  if startswith s k then Some (drop (length k) s) else None.

(** The elements of an array after its opening bracket, and the members of an
    object after its opening brace; [pv] decodes one value. *)
Section Containers.
Variable pv : str → res (json * str).

Fixpoint parse_elements (n : nat) (acc : list json) (s : str) : res (json * str) :=
  match n with
  | O => Raise JSONDecodeError
  | S n' =>
      '(v, r) ← pv s;
      match skip_ws r with
      | c :: r' =>
          if (c =? 44)%N then parse_elements n' (acc ++ [v]) (skip_ws r')
          else if (c =? 93)%N then Ok (JList (acc ++ [v]), r')
          else Raise JSONDecodeError
      | [] => Raise JSONDecodeError
      end
  end.

Fixpoint parse_members (n : nat) (acc : list (str * json)) (s : str) : res (json * str) :=
  match n, s with
  | S n', q :: s' =>
      if (q =? 34)%N then
        '(k, r) ← parse_string s';
        match skip_ws r with
        | c :: r1 =>
            if (c =? 58)%N then
              '(v, r2) ← pv (skip_ws r1);
              match skip_ws r2 with
              | e :: r3 =>
                  if (e =? 44)%N then parse_members n' (dict_set k v acc) (skip_ws r3)
                  else if (e =? 125)%N then Ok (JDict (dict_set k v acc), r3)
                  else Raise JSONDecodeError
              | [] => Raise JSONDecodeError
              end
            else Raise JSONDecodeError
        | [] => Raise JSONDecodeError
        end
      else Raise JSONDecodeError
  | _, _ => Raise JSONDecodeError
  end.
End Containers.

(** One value; the fuel bounds the nesting and the number of elements, each
    of which takes at least one character. *)
Fixpoint parse_value (fuel : nat) (s : str) : res (json * str) :=
  match fuel with
  | O => Raise JSONDecodeError
  | S f =>
      match s with
      | [] => Raise JSONDecodeError
      | c :: s' =>
          if (c =? 34)%N then '(t, r) ← parse_string s'; Ok (JStr t, r)
          else if (c =? 91)%N then
            match skip_ws s' with
            | d :: r => if (d =? 93)%N then Ok (JList [], r) else parse_elements (parse_value f) (length s) [] (d :: r)
            | [] => Raise JSONDecodeError
            end
          else if (c =? 123)%N then
            match skip_ws s' with
            | d :: r => if (d =? 125)%N then Ok (JDict [], r) else parse_members (parse_value f) (length s) [] (d :: r)
            | [] => Raise JSONDecodeError
            end
          else match keyword "null" s, keyword "true" s, keyword "false" s with
               | Some r, _, _ => Ok (JNull, r)
               | _, Some r, _ => Ok (JBool true, r)
               | _, _, Some r => Ok (JBool false, r)
               | _, _, _ =>
                   match keyword "NaN" s, keyword "Infinity" s, keyword "-Infinity" s with
                   | Some r, _, _ => Ok (JFloat S754_nan, r)
                   | _, Some r, _ => Ok (JFloat (S754_infinity false), r)
                   | _, _, Some r => Ok (JFloat (S754_infinity true), r)
                   | _, _, _ => parse_number s
                   end
               end
      end
  end.

(** [json.loads(s)]. *)
Definition json_loads (s : str) : res json :=
  if startswith s [65279%N] then Raise JSONDecodeError
  else
    '(v, r) ← parse_value (S (length s)) (skip_ws s);
    match skip_ws r with [] => Ok v | _ => Raise JSONDecodeError end.

(** [json.load(f)] of a file opened as UTF-8 text, for documents whose nesting
    stays within the limit of the interpreter's decoder (10000 levels in
    CPython 3.12), beyond which it raises [RecursionError]. *)
Definition json_load (data : bytes) : res json :=
  s ← utf8_decode 0 data; json_loads (universal_newlines s).

(** ** Well-formed values: no dictionary repeats a key. *)
Inductive json_wf : json → Prop :=
  | wf_null : json_wf JNull
  | wf_bool b : json_wf (JBool b)
  | wf_int z : json_wf (JInt z)
  | wf_float x : json_wf (JFloat x)
  | wf_str s : json_wf (JStr s)
  | wf_list l : Forall json_wf l → json_wf (JList l)
  | wf_dict d : NoDup (dict_keys d) → Forall (λ kv, json_wf kv.2) d → json_wf (JDict d).

#[export] Hint Constructors json_wf : py.

(** Sample documents are written with single quotes. *)
Definition dq (s : str) : str := replace s [39%N] [34%N].

Example json_loads_ex :
  json_loads (dq " {'a': [1, -2.5e1, true], 'b': {}, 'a': 'x\u00e9\ud83d\ude00\n'} ") =
  Ok (JDict [(dq "a", JStr [120; 233; 128512; 10]%N); (dq "b", JDict [])]).
Proof. vm_compute. reflexivity. Qed.

Example json_loads_bad :
  json_loads "[1,]" = Raise JSONDecodeError ∧ json_loads "01" = Raise JSONDecodeError.
Proof. split; vm_compute; reflexivity. Qed.

Lemma dict_set_Forall {V} (P : V → Prop) k v (d : list (str * V)) :
  P v → Forall (λ kv, P kv.2) d → Forall (λ kv, P kv.2) (dict_set k v d).
Proof.
  intros Hv. induction 1 as [|[k0 v0] d H0 Hd IH]; simpl; [by repeat constructor|].
  case_decide; by constructor.
Qed.

Section ContainersWf.
Variable pv : str → res (json * str).
Hypothesis pv_wf : ∀ s v r, pv s = Ok (v, r) → json_wf v.

Lemma parse_elements_wf n : ∀ acc s v r,
  Forall json_wf acc → parse_elements pv n acc s = Ok (v, r) → json_wf v.
Proof.
  induction n as [|n IH]; intros acc s v r Hacc; simpl; [done|].
  intros [[v' r'] [Hv Hk]]%res_bind_Ok.
  assert (Forall json_wf (acc ++ [v'])) by (apply Forall_app; eauto).
  repeat case_match; simplify_eq; eauto with py.
Qed.

Lemma parse_members_wf n : ∀ acc s v r,
  NoDup (dict_keys acc) → Forall (λ kv, json_wf kv.2) acc →
  parse_members pv n acc s = Ok (v, r) → json_wf v.
Proof.
  induction n as [|n IH]; intros acc s v r Hnd Hacc; simpl; [done|].
  destruct s as [|q s]; [done|]. case_match; [|done].
  intros [[k r'] [_ Hk]]%res_bind_Ok.
  destruct (skip_ws r') as [|e r1]; [done|]. case_match; [|done].
  apply res_bind_Ok in Hk as [[v' r2] [Hv Hk]].
  assert (Forall (λ kv, json_wf kv.2) (dict_set k v' acc)) by (apply dict_set_Forall; eauto).
  repeat case_match; simplify_eq; [eapply IH in Hk|constructor]; eauto with py.
Qed.
End ContainersWf.

Lemma parse_number_wf s v r : parse_number s = Ok (v, r) → json_wf v.
Proof.
  unfold parse_number. destruct (match s with [] => _ | _ => _ end) as [neg b].
  destruct (match b with [] => _ | _ => _ end) as [ip r0]. destruct ip as [|d ip]; [done|].
  destruct (match r0 with [] => _ | _ => _ end) as [fp r1].
  destruct (match r1 with [] => _ | _ => _ end) as [ex r2].
  repeat case_match; intros; simplify_eq; auto with py.
Qed.

(** Whatever the text, the decoder only builds well-formed values. *)
Lemma parse_value_wf fuel : ∀ s v r, parse_value fuel s = Ok (v, r) → json_wf v.
Proof.
  induction fuel as [|f IH]; intros s v r; [done|].
  cbn [parse_value]. destruct s as [|c s']; [done|]. case_match.
  { intros [[t r'] [_ ?]]%res_bind_Ok. simplify_eq. auto with py. }
  case_match.
  { repeat case_match; intros; simplify_eq; auto with py. by eapply parse_elements_wf. }
  case_match.
  { repeat case_match; intros; simplify_eq; [repeat constructor|].
    eapply parse_members_wf; [done|..|done]; constructor. }
  repeat (destruct (keyword _ _); [intros; simplify_eq; auto with py|]).
  apply parse_number_wf.
Qed.

Lemma json_loads_wf s v : json_loads s = Ok v → json_wf v.
Proof.
  unfold json_loads. case_match; [done|].
  intros [[v' r] [Hv Hk]]%res_bind_Ok. case_match; simplify_eq. by eapply parse_value_wf.
Qed.

Lemma json_load_wf data v : json_load data = Ok v → json_wf v.
Proof. unfold json_load. intros [s [_ H]]%res_bind_Ok. by eapply json_loads_wf. Qed.

Lemma json_wf_item d k v : json_wf (JDict d) → dict_get k d = Some v → json_wf v.
Proof.
  inversion 1 as [| | | | | |? Hnd Hall]; subst. intros Hk%dict_get_elem.
  by eapply (proj1 (Forall_forall _ _) Hall (k, v)).
Qed.

Lemma json_wf_keys d : json_wf (JDict d) → NoDup (dict_keys d).
Proof. by inversion 1. Qed.

(** ** The errors of the decoder *)

(** [r] raises nothing but [ValueError]s. *)
Definition value_errors {A} (r : res A) : Prop := ∀ e, r = Raise e → is_ValueError e = true.

Lemma value_errors_Ok {A} (a : A) : value_errors (Ok a).
Proof. by intros e. Qed.
Lemma value_errors_Raise {A} e : is_ValueError e = true → value_errors (Raise e : res A).
Proof. by intros ? ? [= <-]. Qed.
Lemma value_errors_bind {A B} (r : res A) (f : A → res B) :
  value_errors r → (∀ a, value_errors (f a)) → value_errors (r ≫= f).
Proof. intros Hr Hf e [?|(a & _ & ?)]%res_bind_Raise; [by apply Hr|by eapply Hf]. Qed.
#[export] Hint Resolve value_errors_Ok value_errors_Raise value_errors_bind : py.

Ltac value_errors := repeat first [progress case_match | apply value_errors_bind; [|intros ?] | by eauto with py].

Lemma parse_string_errors s : value_errors (parse_string s).
Proof. unfold parse_string. value_errors. Qed.
#[export] Hint Resolve parse_string_errors : py.

Section ContainersErrors.
Variable pv : str → res (json * str).
Hypothesis pv_errors : ∀ s, value_errors (pv s).

Lemma parse_elements_errors n : ∀ acc s, value_errors (parse_elements pv n acc s).
Proof. induction n as [|n IH]; intros acc s; cbn [parse_elements]; value_errors. Qed.

Lemma parse_members_errors n : ∀ acc s, value_errors (parse_members pv n acc s).
Proof.
  induction n as [|n IH]; intros acc s; cbn [parse_members]; [by eauto with py|].
  destruct s as [|q s]; [by eauto with py|]. value_errors.
Qed.
End ContainersErrors.

Lemma parse_number_errors s : value_errors (parse_number s).
Proof.
  unfold parse_number. destruct (match s with [] => _ | _ => _ end) as [neg b].
  destruct (match b with [] => _ | _ => _ end) as [ip r0]. destruct ip as [|d ip]; [by eauto with py|].
  destruct (match r0 with [] => _ | _ => _ end) as [fp r1].
  destruct (match r1 with [] => _ | _ => _ end) as [ex r2]. value_errors.
Qed.

Lemma parse_value_errors fuel : ∀ s, value_errors (parse_value fuel s).
Proof.
  induction fuel as [|f IH]; intros s; cbn [parse_value]; [by eauto with py|].
  destruct s as [|c s']; [by eauto with py|].
  repeat first [apply parse_elements_errors; exact IH | apply parse_members_errors; exact IH
    | apply parse_number_errors | apply value_errors_Ok | apply value_errors_bind; [|intros ?]
    | by apply value_errors_Raise | apply parse_string_errors | progress case_match].
Qed.

Lemma utf8_decode_errors data : ∀ k, value_errors (utf8_decode k data).
Proof. induction data as [|c data IH]; intros k; cbn [utf8_decode]; value_errors. Qed.

Lemma json_load_errors data : value_errors (json_load data).
Proof.
  unfold json_load, json_loads. apply value_errors_bind; [apply utf8_decode_errors|intros s].
  case_match; [by eauto with py|]. apply value_errors_bind; [apply parse_value_errors|].
  intros [v r]. value_errors.
Qed.
