(* ===== verification/Sha256.v ===== *)
(** * hashlib.sha256

    The digest that makes image tags content-addressable, as an executable
    function on bytes (FIPS 180-4), and the interface the tag computation is
    proved against: a digest is 64 lower-case hexadecimal characters. *)
From S2P Require Import Prelude PyStr.

(** What clients of the digest rely on. *)
Class HexDigest := {
  hexdigest : bytes → str;
  hexdigest_length : ∀ m, length (hexdigest m) = 64;
  hexdigest_hex : ∀ m, Forall (λ c, is_lower_hex c = true) (hexdigest m)
}.

Local Open Scope N_scope.

Definition word_mask : N := 4294967295.
Definition w32 (x : N) : N := N.land x word_mask.
Definition add32 (x y : N) : N := w32 (x + y).
Definition rotr (n x : N) : N := N.lor (N.shiftr x n) (w32 (N.shiftl x (32 - n))).

Definition ch (x y z : N) : N := N.lxor (N.land x y) (N.land (N.lxor x word_mask) z).
Definition maj (x y z : N) : N := N.lxor (N.land x y) (N.lxor (N.land x z) (N.land y z)).
Definition big_sigma0 (x : N) : N := N.lxor (rotr 2 x) (N.lxor (rotr 13 x) (rotr 22 x)).
Definition big_sigma1 (x : N) : N := N.lxor (rotr 6 x) (N.lxor (rotr 11 x) (rotr 25 x)).
Definition small_sigma0 (x : N) : N := N.lxor (rotr 7 x) (N.lxor (rotr 18 x) (N.shiftr x 3)).
Definition small_sigma1 (x : N) : N := N.lxor (rotr 17 x) (N.lxor (rotr 19 x) (N.shiftr x 10)).

Definition round_constants : list N := [
  1116352408; 1899447441; 3049323471; 3921009573; 961987163; 1508970993; 2453635748; 2870763221;
  3624381080; 310598401; 607225278; 1426881987; 1925078388; 2162078206; 2614888103; 3248222580;
  3835390401; 4022224774; 264347078; 604807628; 770255983; 1249150122; 1555081692; 1996064986;
  2554220882; 2821834349; 2952996808; 3210313671; 3336571891; 3584528711; 113926993; 338241895;
  666307205; 773529912; 1294757372; 1396182291; 1695183700; 1986661051; 2177026350; 2456956037;
  2730485921; 2820302411; 3259730800; 3345764771; 3516065817; 3600352804; 4094571909; 275423344;
  430227734; 506948616; 659060556; 883997877; 958139571; 1322822218; 1537002063; 1747873779;
  1955562222; 2024104815; 2227730452; 2361852424; 2428436474; 2756734187; 3204031479; 3329325298].

(** The eight working variables. *)
Record hstate := HState { ha : N; hb : N; hc : N; hd : N; he : N; hf : N; hg : N; hh : N }.

Definition initial_state : hstate :=
  HState 1779033703 3144134277 1013904242 2773480762 1359893119 2600822924 528734635 1541459225.

(** Padding: a one bit, zeros, and the bit length in 64 bits. *)
Fixpoint be_bytes (n : nat) (x : N) : bytes :=
  match n with
  | O => []
  | S n => be_bytes n (N.shiftr x 8) ++ [N.land x 255]
  end.

Definition pad (m : bytes) : bytes :=
  let len := N.of_nat (length m) in
  m ++ [128] ++ replicate (N.to_nat ((119 - len mod 64) mod 64)) 0 ++ be_bytes 8 (8 * len).

Fixpoint words (bs : bytes) : list N :=
  match bs with
  | a :: b :: c :: d :: bs => (16777216 * a + 65536 * b + 256 * c + d) :: words bs
  | _ => []
  end.

Fixpoint blocks (fuel : nat) (ws : list N) : list (list N) :=
  match fuel, ws with
  | S f, _ :: _ => take 16 ws :: blocks f (drop 16 ws)
  | _, _ => []
  end.

(** The message schedule; [win] is the window of the last sixteen words. *)
Fixpoint schedule (n : nat) (win : list N) : list N :=
  match n, win with
  | S n, w0 :: rest =>
      let w1 := nth 0 rest 0 in
      let w9 := nth 8 rest 0 in
      let w14 := nth 13 rest 0 in
      w0 :: schedule n (rest ++ [add32 (add32 (small_sigma1 w14) w9) (add32 (small_sigma0 w1) w0)])
  | _, _ => []
  end.

Definition round (s : hstate) (kw : N * N) : hstate :=
  let '(k, w) := kw in
  let t1 := add32 (add32 (hh s) (big_sigma1 (he s))) (add32 (ch (he s) (hf s) (hg s)) (add32 k w)) in
  let t2 := add32 (big_sigma0 (ha s)) (maj (ha s) (hb s) (hc s)) in
  HState (add32 t1 t2) (ha s) (hb s) (hc s) (add32 (hd s) t1) (he s) (hf s) (hg s).

Definition compress (s : hstate) (block : list N) : hstate :=
  let r := foldl round s (zip round_constants (schedule 64 block)) in
  HState (add32 (ha s) (ha r)) (add32 (hb s) (hb r)) (add32 (hc s) (hc r)) (add32 (hd s) (hd r))
         (add32 (he s) (he r)) (add32 (hf s) (hf r)) (add32 (hg s) (hg r)) (add32 (hh s) (hh r)).

Definition hex_char (d : N) : N := if d <? 10 then 48 + d else 87 + d.

Fixpoint hex_word (n : nat) (x : N) : str :=
  match n with
  | O => []
  | S n => hex_word n (N.shiftr x 4) ++ [hex_char (N.land x 15)]
  end.

Definition hex_state (s : hstate) : str :=
  hex_word 8 (ha s) ++ hex_word 8 (hb s) ++ hex_word 8 (hc s) ++ hex_word 8 (hd s) ++
  hex_word 8 (he s) ++ hex_word 8 (hf s) ++ hex_word 8 (hg s) ++ hex_word 8 (hh s).

(** [hashlib.sha256(m).hexdigest()]. *)
Definition sha256 (m : bytes) : str :=
  let ws := words (pad m) in
  hex_state (foldl compress initial_state (blocks (length ws) ws)).

Example sha256_abc :
  sha256 "abc" = "ba7816bf8f01cfea414140de5dae2223b00361a396177a9cb410ff61f20015ad".
Proof. vm_compute. reflexivity. Qed.
Example sha256_empty :
  sha256 [] = "e3b0c44298fc1c149afbf4c8996fb92427ae41e4649b934ca495991b7852b855".
Proof. vm_compute. reflexivity. Qed.
Example sha256_two_blocks :
  sha256 "abcdbcdecdefdefgefghfghighijhijkijkljklmklmnlmnomnopnopq" =
  "248d6a61d20638b8e5c026930c3e6039a33ce45964ff2167f6ecedd419db06c1".
Proof. vm_compute. reflexivity. Qed.

Lemma length_hex_word n : ∀ x, length (hex_word n x) = n.
Proof. induction n as [|n IH]; intros x; simpl; [done|]. rewrite length_app, IH. simpl. lia. Qed.

Lemma hex_char_lower d : d < 16 → is_lower_hex (hex_char d) = true.
Proof.
  intros H. unfold hex_char, is_lower_hex, is_ascii_digit, in_range.
  destruct (N.ltb_spec d 10); rewrite orb_true_iff, !andb_true_iff, !N.leb_le; lia.
Qed.

Lemma hex_word_hex n : ∀ x, Forall (λ c, is_lower_hex c = true) (hex_word n x).
Proof.
  induction n as [|n IH]; intros x; cbn [hex_word]; [constructor|].
  apply Forall_app. split; [apply IH|]. repeat constructor. apply hex_char_lower.
  change 15 with (N.ones 4). rewrite N.land_ones. by apply N.mod_lt.
Qed.

#[export] Instance sha256_digest : HexDigest.
Proof.
  refine {| hexdigest := sha256 |}.
  - intros m. unfold sha256, hex_state. rewrite !length_app, !length_hex_word. done.
  - intros m. unfold sha256, hex_state. rewrite !Forall_app. split_and!; apply hex_word_hex.
Defined.
