(* ===== verification/PyPath.v ===== *)
(** * Paths

    Pure POSIX paths as [pathlib.PurePosixPath] and [os.path] treat them.
    A path is absolute or relative and has its components in order; ["."]
    components and repeated slashes are dropped when text is parsed, [".."]
    components are kept.  The implementation-defined root ["//"] is
    identified with ["/"]. *)
From S2P Require Import Prelude PyStr.

Record path := Path { p_abs : bool; p_parts : list str }.

#[export] Instance path_eq_dec : EqDecision path.
Proof. solve_decision. Defined.
#[export] Instance path_countable : Countable path.
Proof.
  refine (inj_countable' (λ p, (p_abs p, p_parts p)) (λ x, Path x.1 x.2) _).
  by intros [].
Defined.

Definition is_part (c : str) : bool := negb (bool_decide (c = [])) && negb (bool_decide (c = ".")).

(** [Path(s)]. *)
Definition path_of_str (s : str) : path :=
  Path (startswith s "/") (List.filter is_part (split s 47)).

(** [str(p)]. *)
Definition path_str (p : path) : str :=
  match p_abs p, p_parts p with
  | true, ps => "/" ++ join "/" ps
  | false, [] => "."
  | false, ps => join "/" ps
  end.

(** [p / q]. *)
Definition path_join (p q : path) : path :=
  if p_abs q then q else Path (p_abs p) (p_parts p ++ p_parts q).

Definition path_child (p : path) (s : str) : path := path_join p (path_of_str s).

(** [p.parent]. *)
Definition path_parent (p : path) : path := Path (p_abs p) (removelast (p_parts p)).

(** [p.parents]: nearest first, ending with the root or ["."]. *)
Definition path_parents (p : path) : list path :=
  (λ k, Path (p_abs p) (take k (p_parts p))) <$> rev (seq 0 (length (p_parts p))).

Definition path_name (p : path) : str := List.last (p_parts p) [].

(** [p.is_relative_to(q)]: [q] is [p] or one of its parents. *)
Definition is_relative_to (p q : path) : bool :=
  bool_decide (p_abs p = p_abs q) && bool_decide (take (length (p_parts q)) (p_parts p) = p_parts q).

(** [p.relative_to(q)]. *)
Definition relative_to (p q : path) : res path :=
  if is_relative_to p q then Ok (Path false (drop (length (p_parts q)) (p_parts p)))
  else Raise (ValueError "is not in the subpath of").

(** The order [sorted] uses on paths: component by component. *)
Fixpoint parts_leb (a b : list str) : bool :=
  match a, b with
  | [], _ => true
  | _ :: _, [] => false
  | x :: a, y :: b => if bool_decide (x = y) then parts_leb a b else str_leb x y
  end.
Definition path_key (p : path) : list str := if p_abs p then [] :: p_parts p else p_parts p.
Definition path_le (p q : path) : Prop := parts_leb (path_key p) (path_key q) = true.
#[export] Instance path_le_dec : RelDecision path_le.
Proof. intros p q. unfold path_le. apply _. Defined.
Definition sorted_paths (l : list path) : list path := merge_sort path_le l.

(** [os.path.normpath]; [acc] holds the components so far, last first. *)
Fixpoint norm_parts (abs : bool) (acc : list str) (ps : list str) : list str :=
  match ps with
  | [] => rev acc
  | c :: ps =>
      if bool_decide (c = "..") then
        match acc with
        | [] => if abs then norm_parts abs [] ps else norm_parts abs [c] ps
        | a :: acc' => if bool_decide (a = "..") then norm_parts abs (c :: acc) ps
                       else norm_parts abs acc' ps
        end
      else norm_parts abs (c :: acc) ps
  end.
Definition normpath (p : path) : path := Path (p_abs p) (norm_parts (p_abs p) [] (p_parts p)).

(** The parts two paths begin with, as [os.path.commonpath] keeps them. *)
Fixpoint common_prefix (a b : list str) : list str :=
  match a, b with
  | x :: a, y :: b => if bool_decide (x = y) then x :: common_prefix a b else []
  | _, _ => []
  end.

(** [os.path.join(a, b)] on text. *)
Definition os_path_join (a b : str) : str :=
  if startswith b "/" then b
  else if bool_decide (a = []) || endswith a "/" then a ++ b
  else a ++ "/" ++ b.

(** ** Laws *)

Lemma is_relative_to_spec p q :
  is_relative_to p q = true ↔ p_abs p = p_abs q ∧ p_parts q `prefix_of` p_parts p.
Proof.
  unfold is_relative_to. rewrite andb_true_iff, !bool_decide_eq_true.
  split; intros [H1 H2]; split; try done.
  - exists (drop (length (p_parts q)) (p_parts p)). rewrite <-H2 at 1. by rewrite take_drop.
  - destruct H2 as [k ->]. by rewrite take_app_length.
Qed.

Lemma is_relative_to_refl p : is_relative_to p p = true.
Proof. by apply is_relative_to_spec. Qed.

Lemma is_relative_to_trans p q r :
  is_relative_to p q = true → is_relative_to q r = true → is_relative_to p r = true.
Proof.
  rewrite !is_relative_to_spec. intros [? ?] [? ?]. split; [congruence|by etrans].
Qed.

Lemma is_relative_to_antisym p q :
  is_relative_to p q = true → is_relative_to q p = true → p = q.
Proof.
  rewrite !is_relative_to_spec. intros [? ?] [? ?]. destruct p, q; simpl in *; subst. f_equal.
  by apply (anti_symm prefix).
Qed.

Lemma relative_to_join p q r : relative_to p q = Ok r → path_join q r = p.
Proof.
  unfold relative_to. case_match eqn:E; [|done]. intros; simplify_eq.
  apply is_relative_to_spec in E as [? [k Hk]]. unfold path_join. simpl. rewrite Hk.
  rewrite drop_app_length. destruct p; simpl in *. congruence.
Qed.

(** Parsing the text of a path gives the path back. *)
Definition path_wf (p : path) : Prop := Forall (λ c, is_part c = true ∧ 47%N ∉ c) (p_parts p).

Lemma path_of_str_wf s : path_wf (path_of_str s).
Proof.
  unfold path_wf, path_of_str. simpl. pose proof (split_no_sep s 47) as H.
  induction H as [|w ws Hw Hws IH]; simpl; [constructor|].
  case_match; [by constructor|done].
Qed.

Lemma split_join_parts ps :
  Forall (λ c, is_part c = true ∧ 47%N ∉ c) ps → ps ≠ [] → split (join "/" ps) 47 = ps.
Proof.
  induction 1 as [|c ps [Hc Hn] Hps IH]; [done|]. intros _.
  destruct ps as [|d ps]; [by apply split_sep_notin|].
  change (join "/" (c :: d :: ps)) with (c ++ 47%N :: join "/" (d :: ps)).
  rewrite split_app by done. by rewrite IH.
Qed.

Lemma filter_parts ps :
  Forall (λ c, is_part c = true ∧ 47%N ∉ c) ps → List.filter is_part ps = ps.
Proof. induction 1 as [|c ps [Hc ?] ? IH]; simpl; [done|]. by rewrite Hc, IH. Qed.

Lemma join_parts_not_abs c ps :
  is_part c = true → 47%N ∉ c → startswith (join "/" (c :: ps)) "/" = false.
Proof.
  intros Hc Hn. destruct c as [|x c]; [done|].
  assert (x ≠ 47%N) by set_solver.
  destruct ps; cbn [join app startswith]; rewrite andb_true_r; apply N.eqb_neq; done.
Qed.

Lemma path_of_str_str p : path_wf p → path_of_str (path_str p) = p.
Proof.
  destruct p as [[] ps]; unfold path_wf, path_of_str, path_str; cbn [p_abs p_parts]; intros Hwf.
  - cbn [app startswith split]. f_equal. destruct (decide (ps = [])) as [->|Hne]; [done|].
    simpl. rewrite split_join_parts by done. by apply filter_parts.
  - destruct ps as [|c ps]; [done|]. inversion Hwf as [|? ? [? ?]]; subst.
    rewrite join_parts_not_abs, split_join_parts, filter_parts by done. done.
Qed.

(** [path_str] is injective on well-formed paths. *)
Lemma path_str_inj p q : path_wf p → path_wf q → path_str p = path_str q → p = q.
Proof. intros Hp Hq H. rewrite <-(path_of_str_str p), <-(path_of_str_str q), H; done. Qed.

#[export] Instance parts_le_total : Total (λ a b, parts_leb a b = true).
Proof.
  intros a. induction a as [|x a IH]; intros [|y b]; simpl; auto.
  do 2 case_bool_decide; subst; try done; first [apply IH | apply str_le_total].
Qed.

#[export] Instance path_le_total : Total path_le.
Proof. intros p q. apply parts_le_total. Qed.

Lemma sorted_paths_perm l : sorted_paths l ≡ₚ l.
Proof. apply merge_sort_Permutation. Qed.

Lemma elem_of_path_parents p q :
  q ∈ path_parents p ↔ ∃ k, k < length (p_parts p) ∧ q = Path (p_abs p) (take k (p_parts p)).
Proof.
  unfold path_parents. rewrite list_elem_of_fmap. setoid_rewrite list_elem_of_In.
  setoid_rewrite <-in_rev. setoid_rewrite in_seq. naive_solver lia.
Qed.

(** Normalising only drops components, and leaves no [..] in an absolute
    path. *)
Lemma norm_parts_spec abs ps : ∀ acc,
  norm_parts abs acc ps ⊆ acc ++ ps ∧ length (norm_parts abs acc ps) ≤ length acc + length ps ∧
  (abs = true → ".." ∉ acc → ".." ∉ norm_parts abs acc ps).
Proof.
  induction ps as [|c ps IH]; intros acc; simpl.
  { split_and!; [intros x; rewrite list_elem_of_In, <-in_rev, <-list_elem_of_In; set_solver|
      rewrite length_rev; lia|].
    intros _. by rewrite !list_elem_of_In, <-in_rev. }
  case_bool_decide as Hc; [destruct acc as [|a acc]; [destruct abs|case_bool_decide]|];
    match goal with |- context [norm_parts _ ?a ps] => destruct (IH a) as (H1 & H2 & H3) end;
    simpl in *; (split_and!; [etrans; [exact H1|set_solver-]|lia|]); intros; subst; try done;
    apply H3; rewrite ?elem_of_cons in *; naive_solver.
Qed.

