(* ===== verification/Fs.v ===== *)
(** * File system

    The part of a POSIX file system the scripts read: a tree of files,
    directories (entries in the order [scandir] returns them) and symbolic
    links, path lookup that follows links as the kernel does, [realpath], and
    [os.walk].  Permissions and concurrent changes are not modelled: every
    lookup sees the same tree. *)
From S2P Require Import Prelude PyStr PyPath.

Inductive node :=
  | NFile (data : bytes)
  | NDir (entries : list (str * node))
  | NLink (target : str).

(** The tree and the working directory of the process. *)
Record fsys := Fsys { fs_root : node; fs_cwd : list str }.

(** The node at the end of a chain of real directories. *)
Fixpoint node_at (n : node) (ps : list str) : option node :=
  match ps with
  | [] => Some n
  | c :: ps =>
      match n with
      | NDir es => match dict_get c es with Some n' => node_at n' ps | None => None end
      | _ => None
      end
  end.

(** Linux gives up after this many links in one lookup (ELOOP). *)
Definition max_links : nat := 40.
Arguments max_links : simpl never.

(** What a lookup finds: where, which node, and how many links it could still
    have followed. *)
Record found := Found { f_where : list str; f_node : node; f_left : nat }.

(** Why a lookup fails. *)
Inductive errno := ENOENT | ENOTDIR | ELOOP.

(** The exception of a failed system call. *)
Definition errno_exn (e : errno) : exn :=
  match e with ENOENT => FileNotFoundError | ENOTDIR | ELOOP => OSError end.

(** Lookup of the components [todo] from the directory [cur]; a final link is
    followed only when [follow] is set. *)
Fixpoint lookup_from (root : node) (follow : bool) (links : nat) : list str → list str → found + errno :=
  fix go (cur todo : list str) {struct todo} : found + errno :=
    match todo with
    | [] => match node_at root cur with Some n => inl (Found cur n links) | None => inr ENOENT end
    | c :: rest =>
        match node_at root cur with
        | Some (NDir es) =>
            if bool_decide (c = "..") then go (removelast cur) rest
            else
              match dict_get c es with
              | Some (NLink t) =>
                  if bool_decide (rest = []) && negb follow then inl (Found (cur ++ [c]) (NLink t) links)
                  else
                    match links with
                    | O => inr ELOOP
                    | S l =>
                        let p := path_of_str t in
                        lookup_from root follow l (if p_abs p then [] else cur) (p_parts p ++ rest)
                    end
              | Some _ => go (cur ++ [c]) rest
              | None => inr ENOENT
              end
        | Some _ => inr ENOTDIR
        | None => inr ENOENT
        end
    end.

Arguments lookup_from : simpl never.

(** Where a lookup succeeds. *)
Definition namei (root : node) (follow : bool) (links : nat) (cur todo : list str) : option found :=
  match lookup_from root follow links cur todo with inl r => Some r | inr _ => None end.

Arguments namei : simpl never.

Definition start_dir (fs : fsys) (p : path) : list str := if p_abs p then [] else fs_cwd fs.

(** [stat] and [lstat]. *)
Definition fs_stat (fs : fsys) (p : path) : option found :=
  namei (fs_root fs) true max_links (start_dir fs p) (p_parts p).
Definition fs_lstat (fs : fsys) (p : path) : option found :=
  namei (fs_root fs) false max_links (start_dir fs p) (p_parts p).

(** The error of [stat] and of [lstat], where they fail. *)
Definition stat_errno (follow : bool) (fs : fsys) (p : path) : option errno :=
  match lookup_from (fs_root fs) follow max_links (start_dir fs p) (p_parts p) with
  | inl _ => None
  | inr e => Some e
  end.

(** [p.exists()], [p.is_dir()], [p.is_symlink()]: every error of the lookup
    counts as no. *)
Definition fs_exists (fs : fsys) (p : path) : bool :=
  match fs_stat fs p with Some _ => true | None => false end.
Definition fs_is_dir (fs : fsys) (p : path) : bool :=
  match fs_stat fs p with Some (Found _ (NDir _) _) => true | _ => false end.
Definition fs_is_symlink (fs : fsys) (p : path) : bool :=
  match fs_lstat fs p with Some (Found _ (NLink _) _) => true | _ => false end.

(** What a failed lookup raises. *)
Definition lookup_exn (follow : bool) (fs : fsys) (p : path) : exn :=
  match stat_errno follow fs p with Some e => errno_exn e | None => OSError end.

(** [p.readlink()]. *)
Definition fs_readlink (fs : fsys) (p : path) : res path :=
  match fs_lstat fs p with
  | Some (Found _ (NLink t) _) => Ok (path_of_str t)
  | Some _ => Raise OSError
  | None => Raise (lookup_exn false fs p)
  end.

(** [open(p, "rb").read()]. *)
Definition fs_read (fs : fsys) (p : path) : res bytes :=
  match fs_stat fs p with
  | Some (Found _ (NFile data) _) => Ok data
  | Some _ => Raise OSError
  | None => Raise (lookup_exn true fs p)
  end.

Lemma errno_OSError e : is_OSError (errno_exn e) = true.
Proof. by destruct e. Qed.

Lemma lookup_exn_OSError f fs p : is_OSError (lookup_exn f fs p) = true.
Proof. unfold lookup_exn. case_match; [apply errno_OSError|done]. Qed.

Lemma fs_read_error fs p e : fs_read fs p = Raise e → is_OSError e = true.
Proof.
  unfold fs_read. destruct (fs_stat fs p) as [[? [] ?]|]; intros [= <-]; try done. apply lookup_exn_OSError.
Qed.

(** ** [os.path.realpath]

    Links are resolved left to right; components that do not exist are kept.
    [active] holds the links being resolved, and a link met again inside its
    own resolution ends it. *)
Fixpoint count_links (n : node) : nat :=
  match n with
  | NFile _ => 0
  | NLink _ => 1
  | NDir es => list_sum ((λ e, count_links e.2) <$> es)
  end.

Fixpoint realpath_from (root : node) (fuel : nat) (active : list (list str)) :
    list str → list str → list str * bool :=
  fix go (cur todo : list str) {struct todo} : list str * bool :=
    match todo with
    | [] => (cur, true)
    | c :: rest =>
        if bool_decide (c = "..") then go (removelast cur) rest
        else
          match node_at root (cur ++ [c]) with
          | Some (NLink t) =>
              if bool_decide (cur ++ [c] ∈ active) then (cur ++ [c] ++ rest, false)
              else
                match fuel with
                | O => (cur ++ [c] ++ rest, false)
                | S f =>
                    let p := path_of_str t in
                    match realpath_from root f ((cur ++ [c]) :: active)
                            (if p_abs p then [] else cur) (p_parts p) with
                    | (q, true) => go q rest
                    | (q, false) => (q ++ rest, false)
                    end
                end
          | _ => go (cur ++ [c]) rest
          end
    end.

Definition realpath (fs : fsys) (p : path) : path :=
  normpath (Path true
    (realpath_from (fs_root fs) (count_links (fs_root fs)) [] (start_dir fs p) (p_parts p)).1).

(** [p.resolve()]: a real path the kernel still finds a loop of links in is
    an error. *)
Definition resolve (fs : fsys) (p : path) : res path :=
  let q := realpath fs p in
  match stat_errno true fs q with
  | Some ELOOP => Raise RuntimeError
  | _ => Ok q
  end.

(** [realpath] with [strict]: every component must exist. *)
Fixpoint realpath_strict_from (root : node) (fuel : nat) (active : list (list str)) :
    list str → list str → list str + errno :=
  fix go (cur todo : list str) {struct todo} : list str + errno :=
    match todo with
    | [] => inl cur
    | c :: rest =>
        if bool_decide (c = "..") then go (removelast cur) rest
        else
          match node_at root (cur ++ [c]) with
          | None => inr match node_at root cur with Some (NDir _) | None => ENOENT | Some _ => ENOTDIR end
          | Some (NLink t) =>
              if bool_decide (cur ++ [c] ∈ active) then inr ELOOP
              else
                match fuel with
                | O => inr ELOOP
                | S f =>
                    let p := path_of_str t in
                    match realpath_strict_from root f ((cur ++ [c]) :: active)
                            (if p_abs p then [] else cur) (p_parts p) with
                    | inl q => go q rest
                    | inr e => inr e
                    end
                end
          | Some _ => go (cur ++ [c]) rest
          end
    end.

(** [p.resolve(strict=True)]. *)
Definition resolve_strict (fs : fsys) (p : path) : res path :=
  match realpath_strict_from (fs_root fs) (count_links (fs_root fs)) [] (start_dir fs p) (p_parts p) with
  | inl ps => Ok (normpath (Path true ps))
  | inr ELOOP => Raise RuntimeError
  | inr e => Raise (errno_exn e)
  end.

(** ** [os.walk]

    One triple per directory, parents first: its path, the names of its
    subdirectories (links to directories included) and its other entries.
    [prune] is what the caller does to the list of subdirectories before the
    walk goes on; links are not followed. *)
Record visit := Visit { v_root : path; v_dirs : list str; v_files : list str }.

Definition entry_is_dir (fs : fsys) (p : path) (e : str * node) : bool :=
  match e.2 with
  | NDir _ => true
  | NFile _ => false
  | NLink _ => fs_is_dir fs (path_child p e.1)
  end.

Fixpoint walk_node (fs : fsys) (prune : list str → list str) (p : path) (n : node) : list visit :=
  match n with
  | NDir es =>
      let dirs := prune (List.filter (entry_is_dir fs p) es).*1 in
      let files := (List.filter (λ e, negb (entry_is_dir fs p e)) es).*1 in
      Visit p dirs files ::
      (fix sub (es : list (str * node)) : list visit :=
         match es with
         | [] => []
         | (c, n') :: es =>
             (if bool_decide (c ∈ dirs) then walk_node fs prune (path_child p c) n' else []) ++ sub es
         end) es
  | _ => []
  end.

Definition os_walk (fs : fsys) (prune : list str → list str) (top : path) : list visit :=
  match fs_stat fs top with
  | Some (Found _ n _) => walk_node fs prune top n
  | None => []
  end.

(** ** Laws of lookup *)

Section Namei.
Context (root : node).

Lemma lookup_from_cons f L cur c rest :
  lookup_from root f L cur (c :: rest) =
    match node_at root cur with
    | Some (NDir es) =>
        if bool_decide (c = "..") then lookup_from root f L (removelast cur) rest
        else
          match dict_get c es with
          | Some (NLink t) =>
              if bool_decide (rest = []) && negb f then inl (Found (cur ++ [c]) (NLink t) L)
              else
                match L with
                | O => inr ELOOP
                | S l => lookup_from root f l (if p_abs (path_of_str t) then [] else cur)
                           (p_parts (path_of_str t) ++ rest)
                end
          | Some _ => lookup_from root f L (cur ++ [c]) rest
          | None => inr ENOENT
          end
    | Some _ => inr ENOTDIR
    | None => inr ENOENT
    end.
Proof. by destruct L. Qed.

Lemma namei_nil f L cur : namei root f L cur [] = n ← node_at root cur; Some (Found cur n L).
Proof. unfold namei. destruct L; unfold lookup_from; by destruct (node_at root cur). Qed.

Lemma namei_cons f L cur c rest :
  namei root f L cur (c :: rest) =
    match node_at root cur with
    | Some (NDir es) =>
        if bool_decide (c = "..") then namei root f L (removelast cur) rest
        else
          match dict_get c es with
          | Some (NLink t) =>
              if bool_decide (rest = []) && negb f then Some (Found (cur ++ [c]) (NLink t) L)
              else
                match L with
                | O => None
                | S l => namei root f l (if p_abs (path_of_str t) then [] else cur)
                           (p_parts (path_of_str t) ++ rest)
                end
          | Some _ => namei root f L (cur ++ [c]) rest
          | None => None
          end
    | _ => None
    end.
Proof.
  unfold namei. rewrite lookup_from_cons. destruct (node_at root cur) as [[|es|]|]; try done.
  case_bool_decide; [done|]. destruct (dict_get c es) as [[| |t]|]; try done.
  destruct (bool_decide (rest = []) && negb f); [done|]. by destruct L.
Qed.

(** Looking up a concatenation is looking up the parts in turn. *)
Lemma namei_app f L : ∀ cur xs ys, ys ≠ [] →
  namei root f L cur (xs ++ ys) =
    r ← namei root true L cur xs; namei root f (f_left r) (f_where r) ys.
Proof.
  induction L as [|L IHL]; intros cur xs ys Hys; revert cur;
    induction xs as [|c xs IH]; intros cur; cbn [app].
  1, 3: rewrite namei_nil; destruct (node_at root cur) eqn:E; [done|];
        destruct ys; [done|]; rewrite namei_cons, E; done.
  all: rewrite !namei_cons; destruct (node_at root cur) as [[|es|]|]; try done;
    (case_bool_decide as Hdd; [apply IH|]);
    (destruct (dict_get c es) as [[| |t]|]; try apply IH; [|done]);
    rewrite bool_decide_eq_false_2 by (destruct xs; [by destruct ys|done]);
    rewrite andb_false_r; cbn [andb]; try done.
  by rewrite app_assoc, IHL.
Qed.

(** A lookup that succeeds does so with a larger link budget, and the surplus
    is left over. *)
Lemma namei_budget f L : ∀ cur todo w n k,
  namei root f L cur todo = Some (Found w n k) →
  namei root f (S L) cur todo = Some (Found w n (S k)).
Proof.
  induction L as [|L IHL]; intros cur todo; revert cur; induction todo as [|c todo IH];
    intros cur w n k.
  1, 3: rewrite !namei_nil; destruct (node_at root cur); naive_solver.
  all: rewrite !namei_cons; destruct (node_at root cur) as [[|es|]|]; try done;
    (case_bool_decide; [apply IH|]);
    (destruct (dict_get c es) as [[| |t]|]; try apply IH; [|done]);
    (case_match; [naive_solver|]); first [done|apply IHL].
Qed.

Lemma namei_budget_add f L j cur todo w n k :
  namei root f L cur todo = Some (Found w n k) →
  namei root f (j + L) cur todo = Some (Found w n (j + k)).
Proof. intros H. induction j as [|j IH]; [done|]. by apply namei_budget in IH. Qed.

Lemma namei_left f L : ∀ cur todo r, namei root f L cur todo = Some r → f_left r ≤ L.
Proof.
  induction L as [|L IHL]; intros cur todo; revert cur; induction todo as [|c todo IH];
    intros cur r.
  1, 3: rewrite !namei_nil; destruct (node_at root cur); [intros; by simplify_eq/=|done].
  all: rewrite !namei_cons; destruct (node_at root cur) as [[|es|]|]; try done;
    (case_bool_decide; [apply IH|]);
    (destruct (dict_get c es) as [[| |t]|]; try apply IH; [|done]);
    (case_match; [intros; by simplify_eq/=|]); first [done|intros Hr%IHL; lia].
Qed.

(** The node found is the node at the place found, and with [follow] it is
    not a link. *)
Lemma node_at_app ps qs n : node_at n (ps ++ qs) = n' ← node_at n ps; node_at n' qs.
Proof.
  revert n. induction ps as [|c ps IH]; intros n; simpl; [done|].
  destruct n; simpl; try done. destruct (dict_get c entries); simpl; [apply IH|done].
Qed.

Lemma node_at_removelast ps es :
  node_at root ps = Some (NDir es) → ∃ es', node_at root (removelast ps) = Some (NDir es').
Proof.
  intros H. destruct (decide (ps = [])) as [->|Hne]; [by eexists|].
  rewrite (app_removelast_last [] Hne), node_at_app in H.
  destruct (node_at root (removelast ps)) as [[| |]|]; try done. by eexists.
Qed.
Lemma namei_node_at f L : ∀ cur todo r,
  namei root f L cur todo = Some r → node_at root (f_where r) = Some (f_node r).
Proof.
  induction L as [|L IHL]; intros cur todo; revert cur; induction todo as [|c todo IH];
    intros cur r.
  1, 3: rewrite !namei_nil; destruct (node_at root cur) eqn:E; [intros; by simplify_eq/=|done].
  all: rewrite !namei_cons; destruct (node_at root cur) as [[|es|]|] eqn:E; try done;
    (case_bool_decide; [apply IH|]);
    (destruct (dict_get c es) as [[| |t]|] eqn:E2; try apply IH; [|done]);
    (case_match; [intros; simplify_eq; simpl; rewrite node_at_app, E; simpl; by rewrite E2|]);
    first [done|apply IHL].
Qed.
End Namei.

(** ** Following one link *)

(** [p] is a link whose target, read relative to its directory, exists. *)
Definition link_target (fs : fsys) (p : path) : option path :=
  if fs_is_symlink fs p then
    match fs_readlink fs p with
    | Ok t => let q := path_join (path_parent p) t in if fs_exists fs q then Some q else None
    | Raise _ => None
    end
  else None.

(** The root and the working directory are directories. *)
Definition fsys_wf (fs : fsys) : Prop := ∃ es, node_at (fs_root fs) (fs_cwd fs) = Some (NDir es).

Lemma start_dir_wf fs p : fsys_wf fs → ∃ es, node_at (fs_root fs) (start_dir fs p) = Some (NDir es).
Proof.
  intros [es H]. unfold start_dir. case_match; [|eauto].
  destruct (fs_cwd fs), (fs_root fs); simplify_eq/=; eauto.
Qed.

Lemma is_symlink_inv fs p : fsys_wf fs → fs_is_symlink fs p = true →
  ∃ xs c es t r0, p_parts p = xs ++ [c] ∧ c ≠ ".." ∧
    namei (fs_root fs) true max_links (start_dir fs p) xs = Some r0 ∧
    node_at (fs_root fs) (f_where r0) = Some (NDir es) ∧ dict_get c es = Some (NLink t) ∧
    fs_readlink fs p = Ok (path_of_str t).
Proof.
  intros Hwf. unfold fs_is_symlink, fs_readlink. destruct (fs_lstat fs p) as [[w [| |t] k]|] eqn:E; try done.
  intros _. unfold fs_lstat in E. destruct (decide (p_parts p = [])) as [Hnil|Hne].
  { rewrite Hnil, namei_nil in E. destruct (start_dir_wf fs p Hwf) as [es Hes].
    by rewrite Hes in E. }
  rewrite (app_removelast_last [] Hne), namei_app in E by done.
  destruct (namei _ true _ _ _) as [r0|] eqn:E0; [|done]. simpl in E.
  rewrite namei_cons in E. destruct (node_at _ (f_where r0)) as [[|es|]|] eqn:E1; try done.
  case_bool_decide as Hdd.
  { rewrite namei_nil in E. apply node_at_removelast in E1 as [es' E1].
    by rewrite E1 in E. }
  destruct (dict_get _ es) as [[| |t']|] eqn:E2; try done.
  1, 2: rewrite namei_nil, node_at_app, E1 in E; simpl in E; by rewrite E2 in E.
  simpl in E. simplify_eq.
  by exists (removelast (p_parts p)), (List.last (p_parts p) []), es, t, r0;
    rewrite <-app_removelast_last.
Qed.

(** Each link followed to an existing target saves a link of the budget, so a
    chain of links to existing targets is finite. *)
Lemma link_target_left fs p q r : fsys_wf fs →
  link_target fs p = Some q → fs_stat fs p = Some r →
  ∃ r', fs_stat fs q = Some r' ∧ f_left r < f_left r'.
Proof.
  intros Hwf. unfold link_target. case_match eqn:Hl; [|done].
  destruct (is_symlink_inv fs p Hwf Hl) as (xs & c & es & t & r0 & Hp & Hc & H0 & Hd & Ht & ->).
  set (tp := path_of_str t). case_match; [|done]. intros; simplify_eq.
  match goal with H : fs_stat fs p = Some r |- _ => rename H into Hs end.
  unfold fs_stat in Hs. rewrite Hp, namei_app, H0 in Hs by done. simpl in Hs.
  rewrite namei_cons, Hd, bool_decide_eq_false_2, Ht in Hs by done. fold tp in Hs.
  rewrite andb_false_r in Hs.
  destruct (f_left r0) as [|l] eqn:El; [done|]. rewrite app_nil_r in Hs.
  pose proof (namei_left _ _ _ _ _ _ H0) as Hle. destruct r as [w n k]. cbn [f_left].
  unfold fs_stat, path_join, path_parent. rewrite Hp, removelast_last.
  unfold start_dir in H0. destruct (p_abs tp) eqn:Habs.
  - unfold start_dir. rewrite Habs.
    apply (namei_budget_add _ _ _ (max_links - l)) in Hs.
    replace (max_links - l + l) with max_links in Hs by lia.
    eexists. split; [exact Hs|]. simpl. lia.
  - unfold start_dir. cbn [p_abs p_parts].
    apply namei_budget in Hs. exists (Found w n (S k)). split; [|simpl; lia].
    destruct (decide (p_parts tp = [])) as [Hnil|Hne].
    + rewrite Hnil, app_nil_r, H0. rewrite Hnil, namei_nil, Hd in Hs.
      apply (f_equal (option_map f_left)) in Hs as Hk. simpl in Hk.
      injection Hs as Hw Hn Hk'. apply namei_node_at in H0. rewrite Hd in H0.
      destruct r0 as [w0 n0 k0]; simpl in *. congruence.
    + rewrite namei_app, H0 by done. simpl. by rewrite El.
Qed.

(** ** A tree is finite

    Its names and link targets, its height, and the bounds they put on what a
    successful lookup can have looked at. *)
Fixpoint strings (n : node) : list str :=
  match n with
  | NFile _ => []
  | NLink t => [t]
  | NDir es => concat ((λ e, e.1 :: strings e.2) <$> es)
  end.

Fixpoint height (n : node) : nat :=
  match n with
  | NDir es => S (max_list ((λ e, height e.2) <$> es))
  | _ => 0
  end.

Lemma strings_entry c n es : (c, n) ∈ es → c ∈ strings (NDir es) ∧ strings n ⊆ strings (NDir es).
Proof.
  intros H. simpl.
  assert ((c :: strings n) ⊆ concat ((λ e, e.1 :: strings e.2) <$> es)) as Hs; [|set_solver].
  intros x Hx. apply list_elem_of_In, in_concat. exists (c :: strings n).
  rewrite <-!list_elem_of_In. split; [|done]. apply list_elem_of_fmap. by exists (c, n).
Qed.

Lemma height_entry c n es : (c, n) ∈ es → height n < height (NDir es).
Proof.
  intros H. simpl. apply le_n_S, max_list_elem_of_le.
  apply list_elem_of_fmap. by exists (c, n).
Qed.

Lemma node_at_bounds ps : ∀ n n', node_at n ps = Some n' →
  ps ⊆ strings n ∧ strings n' ⊆ strings n ∧ length ps + height n' ≤ height n.
Proof.
  induction ps as [|c ps IH]; intros n n' H.
  { simplify_eq/=. split_and!; [set_solver..|lia]. }
  simpl in H. destruct n as [|es|]; try done. destruct (dict_get c es) as [n1|] eqn:E; [|done].
  apply dict_get_elem in E. destruct (IH _ _ H) as (? & ? & ?).
  destruct (strings_entry _ _ _ E). pose proof (height_entry _ _ _ E).
  split_and!; [set_solver..|]. cbn [length]. lia.
Qed.

Lemma namei_bound root f L : ∀ cur todo r,
  ".." ∉ todo → namei root f L cur todo = Some r →
  todo ⊆ strings root ∧ length todo ≤ L * S (height root) + (height root - length cur).
Proof.
  induction (lt_wf L) as [L _ IHL]. intros cur todo. revert cur.
  induction todo as [|c todo IH]; intros cur r Hdd; [set_solver by lia|].
  rewrite namei_cons. destruct (node_at root cur) as [[|es|]|] eqn:E; try done.
  rewrite bool_decide_eq_false_2 by set_solver.
  destruct (dict_get c es) as [n|] eqn:Ec; [|done].
  assert (node_at root (cur ++ [c]) = Some n) as Hn by (rewrite node_at_app, E; simpl; by rewrite Ec).
  apply node_at_bounds in Hn as (Hsub & _ & Hlen). rewrite length_app in Hlen. simpl in Hlen.
  assert (c ∈ strings root) by set_solver.
  assert (namei root f L (cur ++ [c]) todo = Some r →
    c :: todo ⊆ strings root ∧ S (length todo) ≤ L * S (height root) + (height root - length cur)) as Hgo.
  { intros Hr%IH; [|set_solver]. rewrite length_app in Hr. simpl in Hr. destruct Hr. split; [set_solver|lia]. }
  destruct n as [| |t]; [exact Hgo..|].
  case_match eqn:Hlast.
  { apply andb_true_iff in Hlast as [->%bool_decide_eq_true _]. intros _.
    simpl. split; [set_solver|lia]. }
  destruct L as [|l]; [done|]. destruct (decide (todo = [])) as [->|Hne].
  { intros _. simpl. split; [set_solver|lia]. }
  rewrite namei_app by done. destruct (namei root true l _ _) as [r1|] eqn:E1; [|done].
  simpl. intros Hr. pose proof (namei_left _ _ _ _ _ _ E1).
  apply IHL in Hr as [? Hl]; [|lia|set_solver]. split; [set_solver|].
  assert (f_left r1 * S (height root) ≤ l * S (height root)) by (apply Nat.mul_le_mono_r; lia).
  lia.
Qed.

Lemma elem_of_walk_dir fs prune p es v :
  v ∈ walk_node fs prune p (NDir es) ↔
    v = Visit p (prune (List.filter (entry_is_dir fs p) es).*1)
              (List.filter (λ e, negb (entry_is_dir fs p e)) es).*1 ∨
    ∃ c n, (c, n) ∈ es ∧ c ∈ prune (List.filter (entry_is_dir fs p) es).*1 ∧
      v ∈ walk_node fs prune (path_child p c) n.
Proof.
  cbn [walk_node]. rewrite elem_of_cons. generalize (prune (List.filter (entry_is_dir fs p) es).*1) as dirs.
  generalize (List.filter (λ e, negb (entry_is_dir fs p e)) es).*1 as files. intros files dirs.
  apply Morphisms_Prop.or_iff_morphism; [done|].
  induction es as [|[c n] es IH]; [set_solver|].
  rewrite elem_of_app, IH. split.
  - intros [H|(c' & n' & ? & ? & ?)]; [|exists c', n'; set_solver].
    case_bool_decide; [exists c, n; set_solver|by apply elem_of_nil in H].
  - intros (c' & n' & [?|?]%elem_of_cons & ? & ?); [left|right; eauto].
    simplify_eq. by rewrite bool_decide_eq_true_2.
Qed.
