(* ===== verification/Mounts.v ===== *)
(** * External mounts

    [list_external_mounts.py]: the host paths outside the project that a
    container needs because symbolic links lead to them, reduced to a minimal
    set of mount points. *)
From S2P Require Import Prelude PyStr PyPath Fs.

(** ** Following one chain of links *)

(** What [_process_symlink] updates. *)
Record scan_state := ScanState { external_paths : gset path; worklist : list path }.

(** One chain has at most this many iterations: the kernel follows no more
    than [max_links] links to reach an existing target. *)
Definition chain_fuel : nat := S (S max_links).

(** The target lies outside the scan directory: the common path of the two,
    both absolute, is not the scan directory. *)
Definition outside (scan_dir_abs norm_target : path) : bool :=
  bool_decide (normpath (Path true
    (common_prefix (p_parts scan_dir_abs) (p_parts norm_target))) ≠ scan_dir_abs).

(** Lines 94 to 103: an external target is recorded once, and scanned in its
    turn when it is a directory. *)
Definition record_target (fs : fsys) (scan_dir_abs abs_target : path) (st : scan_state) : scan_state :=
  let norm_target := normpath abs_target in
  if outside scan_dir_abs norm_target then
    if decide (norm_target ∈ external_paths st) then st
    else ScanState ({[norm_target]} ∪ external_paths st)
           (if fs_is_dir fs norm_target then worklist st ++ [norm_target] else worklist st)
  else st.

(** The loop of [_process_symlink]; [Diverges] when the fuel runs out. *)
Fixpoint process_chain (fs : fsys) (scan_dir_abs : path) (fuel : nat)
    (visited_in_chain : gset path) (current_path : path) (st : scan_state) : res scan_state :=
  match fuel with
  | O => Raise Diverges
  | S fuel =>
      if negb (fs_is_symlink fs current_path) then Ok st
      else if decide (current_path ∈ visited_in_chain) then Ok st
      else
        match fs_readlink fs current_path with
        | Raise e => if is_FileNotFoundError e then Ok st else Raise e
        | Ok target =>
            let abs_target := path_join (path_parent current_path) target in
            if negb (fs_exists fs abs_target) then Ok st
            else
              process_chain fs scan_dir_abs fuel ({[current_path]} ∪ visited_in_chain)
                abs_target (record_target fs scan_dir_abs abs_target st)
        end
  end.

Definition process_symlink (fs : fsys) (path : path) (scan_dir_abs : PyPath.path)
    (st : scan_state) : res scan_state :=
  process_chain fs scan_dir_abs chain_fuel ∅ path st.

(** ** Scanning *)

(** [if ".venv" in dirs: dirs.remove(".venv")]. *)
Fixpoint remove_first (x : str) (l : list str) : list str :=
  match l with
  | [] => []
  | y :: l => if bool_decide (y = x) then l else y :: remove_first x l
  end.
Definition prune_venv (dirs : list str) : list str := remove_first ".venv" dirs.

(** The body of the loop over the entries of one directory. *)
Definition scan_entry (fs : fsys) (scan_dir_abs : path) (root_path : path)
    (name : str) (st : scan_state) : res scan_state :=
  let p := path_child root_path name in
  if fs_is_symlink fs p then
    if startswith name "bazel-" then Ok st
    else process_symlink fs p scan_dir_abs st
  else Ok st.

Fixpoint scan_entries (fs : fsys) (scan_dir_abs root_path : path) (names : list str)
    (st : scan_state) : res scan_state :=
  match names with
  | [] => Ok st
  | name :: names =>
      st ← scan_entry fs scan_dir_abs root_path name st;
      scan_entries fs scan_dir_abs root_path names st
  end.

Fixpoint scan_visits (fs : fsys) (scan_dir_abs : path) (vs : list visit)
    (st : scan_state) : res scan_state :=
  match vs with
  | [] => Ok st
  | v :: vs =>
      st ← scan_entries fs scan_dir_abs (v_root v) (v_dirs v ++ v_files v) st;
      scan_visits fs scan_dir_abs vs st
  end.

(** The [while worklist] loop; [Diverges] when the fuel runs out. *)
Fixpoint scan_loop (fs : fsys) (scan_dir_abs : path) (fuel : nat) (scanned : gset path)
    (st : scan_state) : res (gset path) :=
  match worklist st with
  | [] => Ok (external_paths st)
  | current_dir :: rest =>
      match fuel with
      | O => Raise Diverges
      | S fuel =>
          let st := ScanState (external_paths st) rest in
          if decide (current_dir ∈ scanned) then scan_loop fs scan_dir_abs fuel scanned st
          else
            st ← scan_visits fs scan_dir_abs (os_walk fs prune_venv current_dir) st;
            scan_loop fs scan_dir_abs fuel ({[current_dir]} ∪ scanned) st
      end
  end.

Definition list_external_mounts (fs : fsys) (fuel : nat) (scan_dir : path) : res (gset path) :=
  scan_dir_abs ← resolve fs scan_dir;
  scan_loop fs scan_dir_abs fuel ∅ (ScanState ∅ [scan_dir_abs]).

(** ** Minimal mount points *)

(** One iteration of the loop of [_minimize_paths]. *)
Definition minimize_step (minimal_paths : gset path) (p : path) : gset path :=
  if bool_decide (set_Exists (λ q, is_relative_to p q = true) minimal_paths) then minimal_paths
  else {[p]} ∪ filter (λ q, ¬ is_relative_to q p = true) minimal_paths.

Definition minimize_paths (paths : gset path) : gset path :=
  foldl minimize_step ∅ (sorted_paths (elements paths)).

Definition get_minimal_mounts (fs : fsys) (fuel : nat) (root_dir : path)
    (existing_mounts : list path) : res (gset path) :=
  symlink_paths ← list_external_mounts fs fuel root_dir;
  resolved ← mapM (resolve fs) existing_mounts;
  let existing_paths : gset path := list_to_set existing_mounts ∪ list_to_set resolved in
  existing_paths ←
    (if fs_is_symlink fs root_dir then
       real_root ← resolve fs root_dir; Ok ({[real_root]} ∪ existing_paths)
     else Ok existing_paths);
  Ok (minimize_paths (symlink_paths ∪ existing_paths)).

(** The program prints the mount points, in the order the set iterates. *)
Definition main `{PySetOrder} {S : Type} (fs : fsys) (fuel : nat) (root_dir : path)
    (existing_mounts : list path) : io S () :=
  mounts ← lift_res (get_minimal_mounts fs fuel root_dir existing_mounts);
  for_each (set_iter (set_map path_str mounts)) (λ p, emit (EvOut p)).

(** ** Minimality *)

(** [p] has no proper ancestor in [S]. *)
Definition is_minimal (S : path → Prop) (p : path) : Prop :=
  S p ∧ ∀ q, S q → is_relative_to p q = true → q = p.

#[export] Instance is_minimal_proper :
  Proper (pointwise_relation path iff ==> (=) ==> iff) is_minimal.
Proof. intros S T H p q <-. unfold is_minimal. by setoid_rewrite H. Qed.

(** The loop invariant of [_minimize_paths] after the paths of [l]. *)
Definition minimize_inv (l : list path) (M : gset path) : Prop :=
  (∀ p, p ∈ M ↔ is_minimal (.∈ l) p) ∧
  (∀ p, p ∈ l → ∃ q, q ∈ M ∧ is_relative_to p q = true).

Lemma minimize_step_inv l M p :
  minimize_inv l M → minimize_inv (l ++ [p]) (minimize_step M p).
Proof.
  unfold minimize_inv, minimize_step, is_minimal in *. intros [Hmin Hcov].
  case_bool_decide as Hex.
  - destruct Hex as (m & Hm & Hpm). pose proof (proj1 (Hmin m) Hm) as [Hml Hmm].
    split.
    + intros x. rewrite Hmin. setoid_rewrite elem_of_app. setoid_rewrite list_elem_of_singleton.
      split.
      * intros [Hx Hxm]. split; [by left|]. intros q [Hq| ->] Hr; [by apply Hxm|].
        assert (m = x) as -> by (apply Hxm; [done|by eapply is_relative_to_trans]).
        by apply is_relative_to_antisym.
      * intros [[Hx| ->] Hxm]; [split; naive_solver|].
        assert (m = p) as <- by (apply Hxm; auto). done.
    + intros x [Hx| ->%list_elem_of_singleton]%elem_of_app; eauto.
  - assert (∀ m, m ∈ M → is_relative_to p m ≠ true) as Hno.
    { intros m Hm Hr. apply Hex. by exists m. }
    split.
    + intros x. rewrite elem_of_union, elem_of_singleton, elem_of_filter, Hmin.
      setoid_rewrite elem_of_app. setoid_rewrite list_elem_of_singleton. split.
      * intros [->|(Hnr & Hx & Hxm)].
        -- split; [by right|]. intros q [Hq| ->] Hr; [|done].
           destruct (Hcov q Hq) as (m & Hm & Hqm).
           exfalso. apply (Hno m Hm). by eapply is_relative_to_trans.
        -- split; [by left|]. intros q [Hq| ->] Hr; [by apply Hxm|done].
      * intros [[Hx| ->] Hxm]; [|by left].
        destruct (decide (x = p)) as [->|Hne]; [by left|right].
        split_and!; [|done|intros; apply Hxm; auto].
        intros Hr. apply Hne. symmetry. apply Hxm; auto.
    + intros x [Hx| ->%list_elem_of_singleton]%elem_of_app.
      * destruct (Hcov x Hx) as (m & Hm & Hr).
        destruct (decide (is_relative_to m p = true)) as [Hmp|Hmp].
        -- exists p. split; [set_solver|]. by eapply is_relative_to_trans.
        -- exists m. split; [|done]. rewrite elem_of_union, elem_of_filter. by right.
      * exists p. split; [set_solver|apply is_relative_to_refl].
Qed.

Lemma minimize_fold_inv l2 : ∀ l1 M,
  minimize_inv l1 M → minimize_inv (l1 ++ l2) (foldl minimize_step M l2).
Proof.
  induction l2 as [|p l2 IH]; intros l1 M H; simpl; [by rewrite app_nil_r|].
  replace (l1 ++ p :: l2) with ((l1 ++ [p]) ++ l2) by by rewrite <-app_assoc.
  apply IH. by apply minimize_step_inv.
Qed.

Lemma minimize_paths_inv S : minimize_inv (sorted_paths (elements S)) (minimize_paths S).
Proof.
  apply (minimize_fold_inv _ []). split.
  - intros p. unfold is_minimal. set_solver.
  - set_solver.
Qed.

Lemma elem_of_sorted (S : gset path) p : p ∈ sorted_paths (elements S) ↔ p ∈ S.
Proof. rewrite sorted_paths_perm. apply elem_of_elements. Qed.

Lemma elem_of_minimize S p : p ∈ minimize_paths S ↔ is_minimal (.∈ S) p.
Proof.
  rewrite (proj1 (minimize_paths_inv S)). unfold is_minimal.
  setoid_rewrite elem_of_sorted. done.
Qed.

Lemma minimize_covers S p : p ∈ S → ∃ q, q ∈ minimize_paths S ∧ is_relative_to p q = true.
Proof. intros H. apply (proj2 (minimize_paths_inv S)). by rewrite elem_of_sorted. Qed.

Lemma remove_first_subset x l : remove_first x l ⊆ l.
Proof.
  induction l as [|y l IH]; simpl; [done|]. case_bool_decide; set_solver.
Qed.

(** All lists over [A] of length at most [n]. *)
Fixpoint lists_upto (A : list str) (n : nat) : list (list str) :=
  match n with
  | O => [[]]
  | S n => [] :: concat ((λ l, (λ a, a :: l) <$> A) <$> lists_upto A n)
  end.

Lemma elem_of_lists_upto A n : ∀ l, length l ≤ n → l ⊆ A → l ∈ lists_upto A n.
Proof.
  induction n as [|n IH]; intros l Hl HA; destruct l as [|a l]; simpl in *; try lia; [set_solver..|].
  right. apply list_elem_of_In, in_concat. exists ((λ a, a :: l) <$> A).
  rewrite <-!list_elem_of_In. split; apply list_elem_of_fmap.
  - exists l. split; [done|]. apply IH; [lia|set_solver].
  - exists a. split; [done|set_solver].
Qed.

(** ** What the scan finds *)

Section Scan.
Context (fs : fsys) (sd : path).
Hypothesis Hwf : fsys_wf fs.

(** The targets a chain of links passes through. *)
Definition link_step (p q : path) : Prop := link_target fs p = Some q.

(** The external paths one entry contributes. *)
Definition chain_adds (p q : path) : Prop :=
  ∃ t, tc link_step p t ∧ q = normpath t ∧ outside sd q = true.

Definition entry_adds (root : path) (name : str) (q : path) : Prop :=
  startswith name "bazel-" = false ∧ chain_adds (path_child root name) q.

Definition visits_add (vs : list visit) (q : path) : Prop :=
  ∃ v name, v ∈ vs ∧ name ∈ v_dirs v ++ v_files v ∧ entry_adds (v_root v) name q.

Definition dir_adds (d q : path) : Prop := visits_add (os_walk fs prune_venv d) q.

(** The least set that contains what the scan directory contributes and is
    closed under what each directory in it contributes. *)
Inductive external : path → Prop :=
  | external_scan q : dir_adds sd q → external q
  | external_dir d q : external d → fs_is_dir fs d = true → dir_adds d q → external q.

(** [st'] is [st] with the paths in [P] recorded, the new directories among
    them queued, and no more queue entries than new paths. *)
Definition adds (P : path → Prop) (st st' : scan_state) : Prop :=
  (∀ q, q ∈ external_paths st' ↔ q ∈ external_paths st ∨ P q) ∧
  (∀ d, d ∈ worklist st' ↔ d ∈ worklist st ∨
     (d ∈ external_paths st' ∧ d ∉ external_paths st ∧ fs_is_dir fs d = true)) ∧
  length (worklist st') + size (external_paths st) ≤ length (worklist st) + size (external_paths st').

Lemma adds_refl (P : path → Prop) st : (∀ q, P q → q ∈ external_paths st) → adds P st st.
Proof. intros H. split_and!; [intros q; specialize (H q); tauto|intros d; tauto|lia]. Qed.

Lemma adds_trans P Q st1 st2 st3 :
  adds P st1 st2 → adds Q st2 st3 → adds (λ q, P q ∨ Q q) st1 st3.
Proof.
  intros (H1 & H2 & H3) (K1 & K2 & K3). split_and!; [intros q; rewrite K1, H1; tauto| |lia].
  intros d. specialize (H1 d). specialize (H2 d). specialize (K1 d). specialize (K2 d).
  destruct (decide (d ∈ external_paths st1)), (decide (d ∈ external_paths st2)); tauto.
Qed.

Lemma adds_iff P Q st st' : (∀ q, P q ↔ Q q) → adds P st st' → adds Q st st'.
Proof. intros H (H1 & H2 & H3). split_and!; [|done..]. intros q. by rewrite H1, H. Qed.

Lemma record_target_adds t st :
  adds (λ q, q = normpath t ∧ outside sd q = true) st (record_target fs sd t st).
Proof.
  unfold record_target. case_match eqn:Ho; [|apply adds_refl; intros q [-> ?]; congruence].
  case_decide as Hin; [apply adds_refl; by intros q [-> ?]|].
  split_and!; simpl.
  - intros q. rewrite elem_of_union, elem_of_singleton. intuition congruence.
  - intros d. rewrite elem_of_union, elem_of_singleton.
    assert (d = normpath t → fs_is_dir fs d = fs_is_dir fs (normpath t)) by congruence.
    assert (d = normpath t → d ∉ external_paths st) by congruence.
    destruct (fs_is_dir fs (normpath t));
      rewrite ?elem_of_app, ?list_elem_of_singleton; intuition congruence.
  - rewrite size_union, size_singleton by set_solver.
    case_match; rewrite ?length_app; simpl; lia.
Qed.

Lemma process_chain_S fuel vis p st :
  process_chain fs sd (S fuel) vis p st =
    match link_target fs p with
    | Some q => if decide (p ∈ vis) then Ok st
                else process_chain fs sd fuel ({[p]} ∪ vis) q (record_target fs sd q st)
    | None => Ok st
    end.
Proof.
  unfold link_target. cbn [process_chain]. destruct (fs_is_symlink fs p) eqn:Hl; simpl; [|done].
  destruct (is_symlink_inv fs p Hwf Hl) as (? & ? & ? & t & ? & _ & _ & _ & _ & _ & ->).
  destruct (fs_exists fs _); simpl; [done|by case_decide].
Qed.

(** How many links the lookup of a path leaves over; 0 when it fails. *)
Definition left_over (p : path) : nat :=
  match fs_stat fs p with Some r => S (f_left r) | None => 0 end.

Lemma left_over_le p : left_over p ≤ S max_links.
Proof.
  unfold left_over. destruct (fs_stat fs p) eqn:E; [|lia].
  unfold fs_stat in E. apply namei_left in E. lia.
Qed.

Lemma left_over_step p q : link_step p q → left_over p < left_over q.
Proof.
  intros H. unfold left_over. destruct (fs_stat fs p) as [r|] eqn:Hp.
  - destruct (link_target_left fs p q r Hwf H Hp) as (r' & -> & ?). lia.
  - unfold link_step, link_target in H. destruct (fs_is_symlink fs p); [|done].
    destruct (fs_readlink fs p); [|done]. destruct (fs_exists fs _) eqn:E; [|done].
    injection H as <-. unfold fs_exists in E. destruct (fs_stat fs _); [lia|done].
Qed.

Lemma link_step_det p q q' : link_step p q → link_step p q' → q = q'.
Proof. unfold link_step. congruence. Qed.

(** Enough fuel, and the whole chain is recorded; the cycle test never fires,
    because the lookups of a chain leave ever more links over. *)
Lemma process_chain_adds fuel : ∀ vis p st,
  S max_links < fuel + left_over p →
  (∀ v, v ∈ vis → left_over v < left_over p) →
  ∃ st', process_chain fs sd fuel vis p st = Ok st' ∧ adds (chain_adds p) st st'.
Proof.
  induction fuel as [|fuel IH]; intros vis p st Hf Hvis.
  { pose proof (left_over_le p). lia. }
  rewrite process_chain_S. destruct (link_target fs p) as [q|] eqn:Hq.
  - rewrite decide_False by (intros Hin%Hvis; lia).
    pose proof (left_over_step p q Hq).
    destruct (IH ({[p]} ∪ vis) q (record_target fs sd q st)) as (st' & -> & Hst'); [lia| |].
    { intros v [->%elem_of_singleton|Hv%Hvis]%elem_of_union; lia. }
    exists st'. split; [done|].
    eapply adds_iff; [|eapply adds_trans; [apply record_target_adds|exact Hst']].
    intros x. unfold chain_adds. split.
    + intros [[-> ?]|(t & ? & ? & ?)]; [exists q; eauto using tc_once|].
      exists t. eauto using tc_l.
    + intros (t & Ht & -> & ?). inversion Ht as [? ? Hs|? y ? Hs Hr]; subst.
      * assert (t = q) as -> by (by eapply link_step_det). by left.
      * assert (y = q) as -> by (by eapply link_step_det). right. eauto.
  - exists st. split; [done|]. apply adds_refl.
    intros x (t & Ht & _). inversion Ht; unfold link_step in *; congruence.
Qed.

Lemma process_symlink_adds p st :
  ∃ st', process_symlink fs p sd st = Ok st' ∧ adds (chain_adds p) st st'.
Proof. apply process_chain_adds; [unfold chain_fuel; lia|set_solver]. Qed.

Lemma scan_entry_adds root name st :
  ∃ st', scan_entry fs sd root name st = Ok st' ∧ adds (entry_adds root name) st st'.
Proof.
  unfold scan_entry, entry_adds. destruct (fs_is_symlink fs _) eqn:Hl; [destruct (startswith name _)|].
  - exists st. split; [done|]. apply adds_refl. by intros q [? _].
  - destruct (process_symlink_adds (path_child root name) st) as (st' & -> & Hst').
    exists st'. split; [done|]. eapply adds_iff, Hst'. intros q. tauto.
  - exists st. split; [done|]. apply adds_refl. intros q (_ & t & Ht & _). exfalso.
    inversion Ht as [? ? Hs|? ? ? Hs]; unfold link_step, link_target in Hs; by rewrite Hl in Hs.
Qed.

Lemma scan_entries_adds root names : ∀ st,
  ∃ st', scan_entries fs sd root names st = Ok st' ∧
    adds (λ q, ∃ name, name ∈ names ∧ entry_adds root name q) st st'.
Proof.
  induction names as [|name names IH]; intros st; cbn [scan_entries].
  - exists st. split; [done|]. apply adds_refl. by intros q (? & ?%elem_of_nil & _).
  - destruct (scan_entry_adds root name st) as (st1 & -> & H1).
    destruct (IH st1) as (st2 & Hst2 & H2). exists st2. split; [done|].
    eapply adds_iff; [|by eapply adds_trans]. intros q. simpl.
    setoid_rewrite elem_of_cons. split; [|intros (n & [->|?] & ?); eauto].
    intros [?|(n & ? & ?)]; eauto.
Qed.

Lemma scan_visits_adds vs : ∀ st,
  ∃ st', scan_visits fs sd vs st = Ok st' ∧ adds (visits_add vs) st st'.
Proof.
  induction vs as [|v vs IH]; intros st; cbn [scan_visits].
  - exists st. split; [done|]. apply adds_refl. by intros q (? & ? & ?%elem_of_nil & _).
  - destruct (scan_entries_adds (v_root v) (v_dirs v ++ v_files v) st) as (st1 & -> & H1).
    destruct (IH st1) as (st2 & Hst2 & H2). exists st2. split; [done|].
    eapply adds_iff; [|by eapply adds_trans]. intros q. unfold visits_add. simpl.
    split; [intros [(n & ? & ?)|(w & n & ? & ? & ?)]|intros (w & n & [->|?]%elem_of_cons & ? & ?)];
      [exists v, n|exists w, n|..]; eauto using list_elem_of_here, list_elem_of_further.
    right. eauto.
Qed.

(** The invariant of the [while worklist] loop. *)
Record scan_inv (scanned : gset path) (st : scan_state) : Prop := {
  inv_sound q : q ∈ external_paths st → external q;
  inv_work d : d ∈ worklist st → d = sd ∨ (external d ∧ fs_is_dir fs d = true);
  inv_pending d : d = sd ∨ (d ∈ external_paths st ∧ fs_is_dir fs d = true) →
    d ∈ scanned ∨ d ∈ worklist st;
  inv_closed d q : d ∈ scanned → dir_adds d q → q ∈ external_paths st
}.

Lemma scan_inv_init : scan_inv ∅ (ScanState ∅ [sd]).
Proof. split; set_solver. Qed.

Lemma scan_inv_skip scanned d wl ext :
  scan_inv scanned (ScanState ext (d :: wl)) → d ∈ scanned → scan_inv scanned (ScanState ext wl).
Proof.
  intros [H1 H2 H3 H4] Hd. split; simpl in *; [done|set_solver| |done].
  intros e He. destruct (H3 e He) as [|[->|]%elem_of_cons]; auto.
Qed.

Lemma scan_inv_step scanned d wl ext st' :
  scan_inv scanned (ScanState ext (d :: wl)) →
  adds (dir_adds d) (ScanState ext wl) st' → scan_inv ({[d]} ∪ scanned) st'.
Proof.
  intros [H1 H2 H3 H4] (A1 & A2 & _). simpl in *.
  assert (∀ q, dir_adds d q → external q) as Hnew.
  { intros q Hq. destruct (H2 d) as [->|[? ?]]; [set_solver|by apply external_scan|].
    by eapply external_dir. }
  assert (∀ q, q ∈ external_paths st' → external q) as Hs.
  { intros q [?|?]%A1; auto. }
  split; [done|..].
  - intros e [?|(? & ? & ?)]%A2; [apply H2; set_solver|right; auto].
  - intros e He. rewrite elem_of_union, elem_of_singleton, A2.
    destruct (decide (e = sd ∨ (e ∈ ext ∧ fs_is_dir fs e = true))) as [Ho|Hn].
    + destruct (H3 e Ho) as [|[->|]%elem_of_cons]; auto.
    + right. right. naive_solver.
  - intros e q [->%elem_of_singleton|He]%elem_of_union Hq; apply A1; [by right|left; eauto].
Qed.

Lemma scan_inv_done scanned ext q :
  scan_inv scanned (ScanState ext []) → q ∈ ext ↔ external q.
Proof.
  intros [H1 _ H3 H4]. simpl in *. split; [apply H1|].
  assert (∀ d, d = sd ∨ (d ∈ ext ∧ fs_is_dir fs d = true) → d ∈ scanned) as Hall.
  { intros d Hd. destruct (H3 d Hd) as [|?%elem_of_nil]; done. }
  induction 1 as [q Hq|d q Hd IHd Hdir Hq]; eapply H4; eauto.
Qed.

(** With enough fuel for every external path the loop ends, and the result is
    exactly the set of external paths. *)
Lemma scan_loop_spec (U : gset path) (HU : ∀ q, external q → q ∈ U) fuel : ∀ scanned st,
  scan_inv scanned st →
  length (worklist st) + size U ≤ fuel + size (external_paths st) →
  ∃ R, scan_loop fs sd fuel scanned st = Ok R ∧ ∀ q, q ∈ R ↔ external q.
Proof.
  induction fuel as [|fuel IH]; intros scanned [ext wl] Hinv Hf.
  all: assert (size ext ≤ size U) as Hsz by
    (apply subseteq_size; intros q Hq; by eapply HU, (inv_sound _ _ Hinv)).
  all: destruct wl as [|d wl]; simpl in *; [|try lia].
  1, 2: exists ext; split; [done|]; intros q; by eapply scan_inv_done.
  case_decide as Hd.
  - apply IH; [by eapply scan_inv_skip|simpl; lia].
  - destruct (scan_visits_adds (os_walk fs prune_venv d) (ScanState ext wl)) as (st' & -> & Hst').
    simpl. apply IH; [by eapply scan_inv_step|].
    destruct Hst' as (_ & _ & Hlen). simpl in Hlen. lia.
Qed.

(** ** The scan ends

    Every external path is made of components the tree contains and its
    length is bounded, so there are finitely many. *)
Let root := fs_root fs.
Hypothesis sd_abs : p_abs sd = true.
Hypothesis sd_norm : ".." ∉ p_parts sd.

Definition alphabet : list str :=
  strings root ++ concat ((λ s, p_parts (path_of_str s)) <$> strings root).

Definition max_parts : nat := max_list ((λ s, length (p_parts (path_of_str s))) <$> strings root).

Definition path_ok (k : nat) (p : path) : Prop :=
  p_abs p = true ∧ length (p_parts p) ≤ k ∧ p_parts p ⊆ alphabet.

Lemma path_ok_join k p s :
  path_ok k p → s ∈ strings root → path_ok (k + max_parts) (path_join p (path_of_str s)).
Proof.
  intros (Habs & Hlen & Hsub) Hs.
  assert (length (p_parts (path_of_str s)) ≤ max_parts).
  { apply max_list_elem_of_le, list_elem_of_fmap. eauto. }
  assert (p_parts (path_of_str s) ⊆ alphabet).
  { intros x Hx. apply elem_of_app. right. apply list_elem_of_In, in_concat.
    exists (p_parts (path_of_str s)). rewrite <-!list_elem_of_In. split; [|done].
    apply list_elem_of_fmap. eauto. }
  unfold path_join. case_match; [split_and!; [done|lia|done]|].
  split_and!; cbn [p_abs p_parts]; [done|rewrite length_app; lia|set_solver].
Qed.

Lemma path_ok_parent k p : path_ok k p → path_ok k (path_parent p).
Proof.
  intros (? & ? & Hs). unfold path_parent.
  destruct (decide (p_parts p = [])) as [Hnil|Hne].
  - split_and!; cbn [p_abs p_parts]; rewrite ?Hnil; [done|simpl; lia|simpl; set_solver].
  - rewrite (app_removelast_last [] Hne) in Hs.
    assert (length (removelast (p_parts p)) ≤ length (p_parts p)).
    { rewrite (app_removelast_last [] Hne) at 2. rewrite length_app. lia. }
    split_and!; simpl; [done|lia|set_solver].
Qed.

Lemma walk_ok h : ∀ k n p v, height n ≤ h → strings n ⊆ strings root → path_ok k p →
  v ∈ walk_node fs prune_venv p n →
  path_ok (k + h * max_parts) (v_root v) ∧ v_dirs v ++ v_files v ⊆ strings root.
Proof.
  induction h as [|h IH]; intros k n p v Hh Hs Hp Hv.
  all: destruct n as [|es|]; try by apply elem_of_nil in Hv.
  { simpl in Hh. lia. }
  assert (∀ (P : str * node → bool), (List.filter P es).*1 ⊆ strings root) as Hkeys.
  { intros P x ([c n] & -> & Hx)%list_elem_of_fmap. apply list_elem_of_In, filter_In in Hx as [Hx _].
    apply list_elem_of_In in Hx. apply Hs. by apply strings_entry in Hx as [? _]. }
  apply elem_of_walk_dir in Hv as [->|(c & n' & Hin & Hc & Hv)]; simpl.
  - split; [destruct Hp as (? & ? & ?); split_and!; [done|lia|done]|].
    pose proof (remove_first_subset ".venv" (List.filter (entry_is_dir fs p) es).*1).
    unfold prune_venv. set_solver.
  - destruct (strings_entry _ _ _ Hin). pose proof (height_entry _ _ _ Hin).
    destruct (IH (k + max_parts) n' (path_child p c) v) as [Hok ?]; [lia|set_solver| |done|].
    { apply path_ok_join; [done|set_solver]. }
    split; [|done]. destruct Hok as (? & ? & ?). split_and!; [done|lia|done].
Qed.

Lemma link_step_ok k p q : path_ok k p → link_step p q → path_ok (k + max_parts) q.
Proof.
  intros Hp. unfold link_step, link_target. destruct (fs_is_symlink fs p) eqn:Hl; [|done].
  destruct (is_symlink_inv fs p Hwf Hl) as (xs & c & es & t & r0 & _ & _ & H0 & Hd & Ht & ->).
  case_match; [|done]. intros; simplify_eq. apply path_ok_join; [by apply path_ok_parent|].
  apply dict_get_elem in Ht. destruct (strings_entry _ _ _ Ht) as [_ Hs].
  apply node_at_bounds in Hd as (_ & Hd & _). apply Hd, Hs. simpl. set_solver.
Qed.

Lemma chain_ok p t : tc link_step p t → ∀ k, path_ok k p →
  path_ok (k + (left_over t - left_over p) * max_parts) t.
Proof.
  assert (∀ k k' p, path_ok k p → k ≤ k' → path_ok k' p) as Hmono.
  { intros k k' x (? & ? & ?) ?. split_and!; [done|lia|done]. }
  assert (∀ x y, tc link_step x y → left_over x < left_over y) as Hlt.
  { induction 1 as [x y H|x y z H _ IH]; apply left_over_step in H; lia. }
  induction 1 as [p t H|p q t H Ht IH]; intros k Hk; pose proof (left_over_step _ _ H);
    pose proof (link_step_ok _ _ _ Hk H) as Hq.
  - eapply Hmono; [exact Hq|]. nia.
  - apply Hlt in Ht. eapply Hmono; [by apply IH|].
    replace (left_over t - left_over p) with (S (left_over q - left_over p - 1) + (left_over t - left_over q)) by lia.
    nia.
Qed.

Lemma normpath_ok k t : path_ok k t → path_ok k (normpath t) ∧ ".." ∉ p_parts (normpath t).
Proof.
  intros (Habs & ? & ?). unfold normpath. rewrite Habs.
  destruct (norm_parts_spec true (p_parts t) []) as (? & ? & Hdd). simpl in *.
  split; [split_and!; simpl; [done|lia|set_solver]|]. apply Hdd; [done|set_solver].
Qed.

(** The length bound: a path the kernel can look up, a walk below it, and a
    chain of links. *)
Definition stat_bound : nat := max_links * S (height root) + height root.
Definition length_bound : nat :=
  stat_bound + height root * max_parts + max_parts + S max_links * max_parts.

Lemma dir_adds_ok d q : p_abs d = true → ".." ∉ p_parts d → dir_adds d q →
  path_ok length_bound q ∧ ".." ∉ p_parts q.
Proof.
  intros Habs Hdd (v & name & Hv & Hname & _ & t & Ht & -> & _).
  unfold os_walk in Hv. destruct (fs_stat fs d) as [r|] eqn:Hd; [|by apply elem_of_nil in Hv].
  assert (path_ok stat_bound d) as Hok.
  { unfold fs_stat in Hd. apply namei_bound in Hd as [Hsub Hlen]; [|done].
    split_and!; [done| |unfold alphabet; fold root in Hsub; set_solver].
    unfold stat_bound. fold root in Hlen. lia. }
  assert (strings (f_node r) ⊆ strings root ∧ height (f_node r) ≤ height root) as [Hs Hh].
  { unfold fs_stat in Hd. apply namei_node_at, node_at_bounds in Hd as (_ & ? & ?).
    unfold root. split; [done|lia]. }
  destruct r as [w n k]. simpl in *.
  destruct (walk_ok (height root) _ _ _ _ Hh Hs Hok Hv) as [Hroot Hnames].
  apply normpath_ok.
  assert (path_ok (stat_bound + height root * max_parts + max_parts) (path_child (v_root v) name)) as Hp.
  { apply path_ok_join; [done|]. by apply Hnames. }
  destruct (chain_ok _ _ Ht _ Hp) as (? & Hlen & ?). split_and!; [done| |done].
  pose proof (left_over_le t). unfold length_bound. etrans; [exact Hlen|].
  apply Nat.add_le_mono_l, Nat.mul_le_mono_r. lia.
Qed.

Lemma external_ok q : external q → path_ok length_bound q ∧ ".." ∉ p_parts q.
Proof.
  induction 1 as [q Hq|d q _ [(? & _) ?] _ Hq]; by eapply dir_adds_ok.
Qed.

Lemma external_finite : ∃ U : gset path, ∀ q, external q → q ∈ U.
Proof.
  exists (list_to_set (Path true <$> lists_upto alphabet length_bound)).
  intros q ((Habs & ? & ?) & _)%external_ok. apply elem_of_list_to_set, list_elem_of_fmap.
  exists (p_parts q). split; [destruct q; simpl in *; by subst|by apply elem_of_lists_upto].
Qed.
End Scan.

Lemma resolve_inv fs p q : resolve fs p = Ok q → q = realpath fs p.
Proof. unfold resolve. repeat case_match; congruence. Qed.

Lemma resolve_error fs p e : resolve fs p = Raise e → e = RuntimeError.
Proof. unfold resolve. repeat case_match; congruence. Qed.

(** Scanning from [scan_dir] needs some number of iterations and no more, and
    finds exactly the external paths. *)
Lemma list_external_mounts_spec fs scan_dir sd :
  fsys_wf fs → resolve fs scan_dir = Ok sd → ∃ fuel0, ∀ fuel, fuel0 ≤ fuel →
    ∃ R, list_external_mounts fs fuel scan_dir = Ok R ∧ ∀ q, q ∈ R ↔ external fs sd q.
Proof.
  intros Hwf Hsd. unfold list_external_mounts. rewrite Hsd. cbn [mbind res_bind]. apply resolve_inv in Hsd.
  destruct (external_finite fs sd Hwf) as [U HU]; [by subst sd| |].
  { subst sd. unfold realpath, normpath. cbn [p_parts p_abs].
    apply (proj2 (proj2 (norm_parts_spec true _ []))); [done|set_solver]. }
  exists (S (size U)). intros fuel Hf.
  apply (scan_loop_spec fs sd Hwf U HU); [by apply scan_inv_init|].
  cbn [worklist external_paths length]. lia.
Qed.

Lemma scan_loop_more fs sd fuel : ∀ scanned st R,
  scan_loop fs sd fuel scanned st = Ok R → scan_loop fs sd (S fuel) scanned st = Ok R.
Proof.
  induction fuel as [|fuel IH]; intros scanned st R H.
  { cbn [scan_loop] in *. destruct (worklist st); [done|]. discriminate. }
  cbn [scan_loop] in H. change (scan_loop fs sd (S (S fuel)) scanned st) with
    (match worklist st with
     | [] => Ok (external_paths st)
     | d :: rest =>
         if decide (d ∈ scanned) then scan_loop fs sd (S fuel) scanned (ScanState (external_paths st) rest)
         else st ← scan_visits fs sd (os_walk fs prune_venv d) (ScanState (external_paths st) rest);
              scan_loop fs sd (S fuel) ({[d]} ∪ scanned) st
     end).
  destruct (worklist st); [done|]. case_decide; [by apply IH|].
  destruct (scan_visits _ _ _ _); [by apply IH|done].
Qed.

(** Whenever the scan ends, its result is the set of external paths. *)
Lemma list_external_mounts_exact fs fuel scan_dir R :
  fsys_wf fs → list_external_mounts fs fuel scan_dir = Ok R →
  ∃ sd, resolve fs scan_dir = Ok sd ∧ ∀ q, q ∈ R ↔ external fs sd q.
Proof.
  intros Hwf HR. destruct (resolve fs scan_dir) as [sd|] eqn:Hsd;
    [|unfold list_external_mounts in HR; by rewrite Hsd in HR].
  exists sd. split; [done|]. destruct (list_external_mounts_spec fs scan_dir sd Hwf Hsd) as [fuel0 H].
  destruct (H (fuel0 + fuel)) as (R' & HR' & Hspec); [lia|].
  assert (list_external_mounts fs (fuel0 + fuel) scan_dir = Ok R) as HR2.
  { clear H HR' Hspec. unfold list_external_mounts in *. rewrite Hsd in *. cbn [mbind res_bind] in *.
    induction fuel0 as [|k IH]; [done|]. by apply scan_loop_more. }
  rewrite HR2 in HR'. by simplify_eq.
Qed.

(** ** Properties *)

(** [_minimize_paths] keeps exactly the paths that have no proper ancestor
    in the input: every input path lies under a kept one, and no kept path
    lies under another. *)
Theorem minimize_paths_correct (paths : gset path) :
  (∀ p, p ∈ minimize_paths paths ↔ is_minimal (.∈ paths) p) ∧
  (∀ p, p ∈ paths → ∃ q, q ∈ minimize_paths paths ∧ is_relative_to p q = true) ∧
  (∀ p q, p ∈ minimize_paths paths → q ∈ minimize_paths paths → is_relative_to p q = true → p = q).
Proof.
  split_and!; [apply elem_of_minimize|apply minimize_covers|].
  intros p q [? H]%elem_of_minimize [? _]%elem_of_minimize ?. symmetry. by apply H.
Qed.


(** A project whose [lib] link leads to an external directory that holds a
    link to another one, beside a [bazel-] link that is ignored, and a loop of links. *)
Definition sample_fs : fsys :=
  {| fs_root := NDir [("p", NDir [("lib", NLink "/ext/a"); ("bazel-out", NLink "/tmp"); ("f", NFile [])]);
                      ("ext", NDir [("a", NDir [("l", NLink "../b/c")]); ("b", NDir [("c", NDir [])])]);
                      ("tmp", NDir [("loop", NLink "pool"); ("pool", NLink "loop")])];
     fs_cwd := ["p"] |}.

Example sample_scan :
  list_external_mounts sample_fs 10 (path_of_str "/p") =
  Ok {[path_of_str "/ext/a"; path_of_str "/ext/b/c"]}.
Proof. apply (bool_decide_eq_true_1 _). vm_compute. reflexivity. Qed.

(** [resolve] fails inside a loop, and not on a path that only leaves it. *)
Example sample_resolve :
  resolve sample_fs (path_of_str "/tmp/loop/x") = Raise RuntimeError ∧
  resolve sample_fs (path_of_str "/tmp/loop/../none") = Ok (path_of_str "/tmp/none") ∧
  resolve_strict sample_fs (path_of_str "/p/lib/l") = Ok (path_of_str "/ext/b/c") ∧
  resolve_strict sample_fs (path_of_str "/p/lib/none") = Raise FileNotFoundError ∧
  resolve_strict sample_fs (path_of_str "/p/f/none") = Raise OSError.
Proof. split_and!; vm_compute; reflexivity. Qed.


(** What [get_minimal_mounts] is to cover: the requested mounts, their real
    paths, the external paths, and the real root when the root directory is a
    link. *)
Definition mount_wanted (fs : fsys) (root_dir : path) (existing_mounts : list path) (p : path) : Prop :=
  external fs (realpath fs root_dir) p ∨ p ∈ existing_mounts ∨
  (∃ m, m ∈ existing_mounts ∧ p = realpath fs m) ∨
  (fs_is_symlink fs root_dir = true ∧ p = realpath fs root_dir).

(** No path the program resolves has a loop of links. *)
Definition resolvable (fs : fsys) (root_dir : path) (existing_mounts : list path) : Prop :=
  ∀ p, p = root_dir ∨ p ∈ existing_mounts → resolve fs p = Ok (realpath fs p).

Lemma resolve_all fs ms : (∀ p, p ∈ ms → resolve fs p = Ok (realpath fs p)) →
  mapM (resolve fs) ms = Ok (realpath fs <$> ms).
Proof.
  induction ms as [|p ms IH]; intros H; [done|]. cbn. rewrite H by left. cbn [mbind res_bind].
  rewrite IH; [done|]. intros q Hq. apply H. by right.
Qed.

Lemma resolve_all_inv fs ms l : mapM (resolve fs) ms = Ok l → ∀ p, p ∈ ms → resolve fs p = Ok (realpath fs p).
Proof.
  revert l. induction ms as [|p ms IH]; intros l; cbn; [by intros _ ? ?%elem_of_nil|].
  destruct (resolve fs p) as [q|] eqn:Hq; [|done]. cbn [mbind res_bind].
  destruct (mapM (resolve fs) ms) as [l'|]; [|done]. intros _ x [->|Hx]%elem_of_cons; [|by eapply IH].
  by rewrite <-(resolve_inv _ _ _ Hq).
Qed.

Lemma resolve_all_error fs ms e : mapM (resolve fs) ms = Raise e → e = RuntimeError.
Proof.
  induction ms as [|p ms IH]; cbn; [done|]. destruct (resolve fs p) as [q|] eqn:Hq; cbn [mbind res_bind].
  - destruct (mapM (resolve fs) ms); cbn; [done|apply IH].
  - intros [= <-]. by eapply resolve_error.
Qed.

(** When [get_minimal_mounts] returns, no path has a loop, the result has
    exactly the minimal mount points of the paths it is to cover, and each of
    these is below a mount point. *)
Lemma get_minimal_mounts_spec fs fuel root_dir ms R :
  fsys_wf fs → get_minimal_mounts fs fuel root_dir ms = Ok R →
  resolvable fs root_dir ms ∧ (∀ p, p ∈ R ↔ is_minimal (mount_wanted fs root_dir ms) p) ∧
  (∀ p, mount_wanted fs root_dir ms p → ∃ q, q ∈ R ∧ is_relative_to p q = true).
Proof.
  intros Hwf Hm. unfold get_minimal_mounts in Hm.
  destruct (list_external_mounts fs fuel root_dir) as [E|] eqn:HE; [|done]. cbn [mbind res_bind] in Hm.
  apply list_external_mounts_exact in HE as (sd & Hsd & HS); [|done].
  destruct (mapM (resolve fs) ms) as [l|] eqn:Hl; [|done]. cbn [mbind res_bind] in Hm.
  pose proof (resolve_all_inv _ _ _ Hl) as Hms. pose proof (resolve_inv _ _ _ Hsd) as ->.
  rewrite (resolve_all fs ms Hms) in Hl. injection Hl as <-. split; [intros p [->|?]; auto|].
  rewrite Hsd in Hm. cbn [mbind res_bind] in Hm.
  assert (∃ X : gset path, R = minimize_paths X ∧ ∀ p, p ∈ X ↔ mount_wanted fs root_dir ms p) as (X & -> & HX).
  { destruct (fs_is_symlink fs root_dir) eqn:Hl; injection Hm as <-; (eexists; split; [reflexivity|]);
      intros p; unfold mount_wanted; rewrite Hl, elem_of_union, HS, ?elem_of_union, ?elem_of_singleton, !elem_of_list_to_set,
        list_elem_of_fmap; naive_solver. }
  split.
  - intros p. rewrite elem_of_minimize. by apply is_minimal_proper.
  - intros p Hp%HX. by apply minimize_covers.
Qed.

(** With enough fuel it returns when no path has a loop, and is a
    [RuntimeError] when one has. *)
Lemma get_minimal_mounts_total fs root_dir ms :
  fsys_wf fs → ∃ fuel0, ∀ fuel, fuel0 ≤ fuel →
    (resolvable fs root_dir ms ∧ ∃ R, get_minimal_mounts fs fuel root_dir ms = Ok R) ∨
    (¬ resolvable fs root_dir ms ∧ get_minimal_mounts fs fuel root_dir ms = Raise RuntimeError).
Proof.
  intros Hwf. destruct (resolve fs root_dir) as [sd|e] eqn:Hsd.
  - destruct (list_external_mounts_spec fs root_dir sd Hwf Hsd) as [fuel0 H]. exists fuel0. intros fuel Hf.
    destruct (H fuel Hf) as (E & HE & _). unfold get_minimal_mounts. rewrite HE. cbn [mbind res_bind].
    destruct (mapM (resolve fs) ms) as [l|e] eqn:Hl; cbn [mbind res_bind].
    + left. split; [|rewrite Hsd; case_match; eexists; reflexivity].
      intros p [->|Hp]; [|by eapply resolve_all_inv]. by rewrite <-(resolve_inv _ _ _ Hsd).
    + right. split; [|f_equal; by eapply resolve_all_error]. intros Hr.
      rewrite resolve_all in Hl; [done|]. intros p Hp. apply Hr. by right.
  - exists 0. intros fuel _. right. split; [intros Hr; rewrite Hr in Hsd by (by left); done|].
    unfold get_minimal_mounts, list_external_mounts. rewrite Hsd. cbn. f_equal. by eapply resolve_error.
Qed.

Example sample_minimal_mounts :
  get_minimal_mounts sample_fs 10 (path_of_str "/p") [path_of_str "/ext"; path_of_str "/p/f"] =
    Ok {[path_of_str "/ext"; path_of_str "/p/f"]} ∧
  get_minimal_mounts sample_fs 10 (path_of_str "/p") [path_of_str "/tmp/pool"] = Raise RuntimeError.
Proof. split; apply (bool_decide_eq_true_1 _); vm_compute; reflexivity. Qed.
