(* ===== verification/Graph.v ===== *)
(** * graphlib.TopologicalSorter

    [list(TopologicalSorter(graph).static_order())] for a dictionary from
    nodes to their predecessors.  The sorter hands out the ready nodes group
    by group and marks each node done in turn; a node becomes ready when its
    last predecessor is done.  A graph with a cycle is refused with
    [CycleError], before anything is handed out. *)
From stdpp Require Import finite.
From S2P Require Import Prelude PyStr.

Abbreviation graph := (list (str * list str)).

Definition add_node (ns : list str) (n : str) : list str :=
  if bool_decide (n ∈ ns) then ns else ns ++ [n].

(** The nodes in the order the sorter meets them. *)
Definition graph_nodes (g : graph) : list str :=
  foldl (λ ns e, foldl add_node (add_node ns e.1) e.2) [] g.

Definition preds (g : graph) (n : str) : list str := default [] (dict_get n g).

(** The nodes that name [p] as a predecessor. *)
Definition succs (g : graph) (p : str) : list str :=
  (List.filter (λ e, bool_decide (p ∈ e.2)) g).*1.

Definition all_done (g : graph) (done : list str) (n : str) : bool :=
  forallb (λ p, bool_decide (p ∈ done)) (preds g n).

(** [done(node)]: mark the node and collect the successors it was the last
    predecessor of. *)
Definition mark_done (g : graph) (st : list str * list str) (n : str) : list str * list str :=
  let '(done, ready) := st in
  let done' := done ++ [n] in
  (done', ready ++ List.filter (all_done g done') (succs g n)).

(** The loop of [static_order]; every iteration hands out at least one node. *)
Fixpoint order_loop (g : graph) (fuel : nat) (done ready : list str) : list str :=
  match fuel, ready with
  | S f, _ :: _ => let '(done', ready') := foldl (mark_done g) (done, []) ready in
                   order_loop g f done' ready'
  | _, _ => done
  end.

Definition kahn (g : graph) : list str :=
  let ns := graph_nodes g in
  order_loop g (length ns) [] (List.filter (all_done g []) ns).

(** Some node is never handed out exactly when the graph has a cycle. *)
Definition static_order (g : graph) : res (list str) :=
  if (length (kahn g) =? length (graph_nodes g))%nat then Ok (kahn g) else Raise CycleError.

(** ** Correctness *)

(** [p] is a predecessor of [n]. *)
Definition edge (g : graph) (p n : str) : Prop := ∃ ps, (n, ps) ∈ g ∧ p ∈ ps.

(** Every predecessor stands before its successors. *)
Definition topological (g : graph) (o : list str) : Prop :=
  ∀ p n, edge g p n → ∃ i j, o !! i = Some p ∧ o !! j = Some n ∧ i < j.

Definition graph_wf (g : graph) : Prop := NoDup g.*1.

Lemma add_node_spec ns n x : x ∈ add_node ns n ↔ x ∈ ns ∨ x = n.
Proof. unfold add_node. case_bool_decide; set_solver. Qed.

Lemma add_node_NoDup ns n : NoDup ns → NoDup (add_node ns n).
Proof.
  unfold add_node. case_bool_decide; [done|]. intros. apply NoDup_app.
  split_and!; [done|set_solver|apply NoDup_singleton].
Qed.

Lemma fold_add_node ps : ∀ ns,
  (NoDup ns → NoDup (foldl add_node ns ps)) ∧ (∀ x, x ∈ foldl add_node ns ps ↔ x ∈ ns ∨ x ∈ ps).
Proof.
  induction ps as [|p ps IH]; intros ns; simpl; [set_solver|].
  destruct (IH (add_node ns p)) as [H1 H2]. split; [intros; by apply H1, add_node_NoDup|].
  intros x. rewrite H2, add_node_spec. set_solver.
Qed.

Lemma fold_graph_nodes g : ∀ ns,
  let r := foldl (λ ns e, foldl add_node (add_node ns e.1) e.2) ns g in
  (NoDup ns → NoDup r) ∧ (∀ x, x ∈ r ↔ x ∈ ns ∨ ∃ n ps, (n, ps) ∈ g ∧ (x = n ∨ x ∈ ps)).
Proof.
  induction g as [|[n ps] g IH]; intros ns; simpl; [set_solver|].
  destruct (fold_add_node ps (add_node ns n)) as [H1 H2].
  destruct (IH (foldl add_node (add_node ns n) ps)) as [K1 K2].
  split; [intros; by apply K1, H1, add_node_NoDup|].
  intros x. rewrite K2, H2, add_node_spec. setoid_rewrite elem_of_cons. naive_solver.
Qed.

Lemma graph_nodes_NoDup g : NoDup (graph_nodes g).
Proof. apply (fold_graph_nodes g []). constructor. Qed.

Lemma elem_of_graph_nodes g x :
  x ∈ graph_nodes g ↔ ∃ n ps, (n, ps) ∈ g ∧ (x = n ∨ x ∈ ps).
Proof. rewrite (proj2 (fold_graph_nodes g [])). set_solver. Qed.

Section Kahn.
Context (g : graph) (Hg : graph_wf g).

Lemma elem_of_preds p n : p ∈ preds g n ↔ edge g p n.
Proof.
  unfold preds, edge. split.
  - destruct (dict_get n g) eqn:E; simpl; [|set_solver].
    apply dict_get_elem in E. eauto.
  - intros (ps & H & ?). by rewrite (dict_elem_get n ps g Hg H).
Qed.

Lemma elem_of_succs p n : n ∈ succs g p ↔ edge g p n.
Proof.
  unfold succs, edge. rewrite list_elem_of_fmap. setoid_rewrite list_elem_of_In.
  setoid_rewrite filter_In. setoid_rewrite <-list_elem_of_In. split.
  - intros ([n' ps] & -> & ? & ?%bool_decide_eq_true). eauto.
  - intros (ps & ? & ?). exists (n, ps). split_and!; [done..|by apply bool_decide_eq_true].
Qed.

Lemma succs_NoDup p : NoDup (succs g p).
Proof.
  unfold succs. unfold graph_wf in Hg. clear -Hg. induction g as [|e h IH]; csimpl; [constructor|].
  csimpl in Hg. apply NoDup_cons in Hg as [He Hh]. specialize (IH Hh).
  case_bool_decide; [|done]. csimpl. apply NoDup_cons. split; [|done].
  intros ([n ps] & Hn & Hin)%list_elem_of_fmap. apply He, list_elem_of_fmap.
  exists (n, ps). split; [done|]. by apply list_elem_of_In, filter_In in Hin as [?%list_elem_of_In _].
Qed.

Lemma all_done_spec done n : all_done g done n = true ↔ ∀ p, edge g p n → p ∈ done.
Proof.
  unfold all_done. rewrite forallb_forall. setoid_rewrite bool_decide_eq_true.
  setoid_rewrite <-list_elem_of_In. by setoid_rewrite elem_of_preds.
Qed.

(** The invariant while nodes are marked done: nothing is handed out twice,
    the nodes done form a topological prefix, and [ready] together with the
    rest of the current group are exactly the nodes all of whose predecessors
    are done. *)
Record kahn_inv (done group ready : list str) : Prop := {
  ki_nodup : NoDup (done ++ group ++ ready);
  ki_nodes n : n ∈ done ++ group ++ ready → n ∈ graph_nodes g;
  ki_ready n : n ∈ group ++ ready ↔ n ∈ graph_nodes g ∧ n ∉ done ∧ ∀ p, edge g p n → p ∈ done;
  ki_topo i n p : done !! i = Some n → edge g p n → p ∈ take i done
}.

Lemma edge_nodes p n : edge g p n → p ∈ graph_nodes g ∧ n ∈ graph_nodes g.
Proof. intros (ps & ? & ?). rewrite !elem_of_graph_nodes. naive_solver. Qed.

Lemma mark_done_inv done n group ready :
  kahn_inv done (n :: group) ready →
  let st := mark_done g (done, ready) n in kahn_inv st.1 group st.2.
Proof.
  intros [H1 H2 H3 H4]. simpl. set (new := List.filter _ _).
  assert (n ∈ graph_nodes g ∧ n ∉ done ∧ ∀ p, edge g p n → p ∈ done) as (Hn & Hnd & Hp)
    by (apply H3; set_solver).
  assert (∀ x, x ∈ new ↔ edge g n x ∧ ∀ p, edge g p x → p ∈ done ++ [n]) as Hnew.
  { intros x. unfold new. rewrite list_elem_of_In, filter_In, <-list_elem_of_In.
    by rewrite elem_of_succs, all_done_spec. }
  assert (NoDup new) by apply NoDup_ListNoDup, List.NoDup_filter, NoDup_ListNoDup, succs_NoDup.
  assert (∀ x, x ∈ new → x ∉ done ++ (n :: group) ++ ready) as Hfresh.
  { intros x [Hx _]%Hnew Hin. rewrite elem_of_app in Hin. destruct Hin as [Hin|Hin].
    - apply list_elem_of_lookup in Hin as [i Hi]. apply Hnd.
      pose proof (H4 i x n Hi Hx) as (k & ? & _)%elem_of_take.
      by eapply list_elem_of_lookup_2.
    - apply Hnd. by apply H3 in Hin as (_ & _ & Hall); apply Hall. }
  assert (n ∉ group ++ ready) as Hn'.
  { apply NoDup_app in H1 as (_ & _ & H1). by apply NoDup_cons in H1 as [? _]. }
  split.
  - replace ((done ++ [n]) ++ group ++ ready ++ new) with ((done ++ (n :: group) ++ ready) ++ new)
      by by rewrite <-!app_assoc.
    apply NoDup_app. split_and!; [done| |done]. intros x Hx ?. by eapply Hfresh.
  - intros x Hx. destruct (decide (x ∈ new)) as [[? _]%Hnew|]; [by eapply edge_nodes|].
    apply H2. set_solver.
  - intros x. specialize (H3 x). split.
    + rewrite app_assoc, elem_of_app. intros [Hx|Hx].
      * destruct H3 as [H3 _]. destruct H3 as (? & ? & ?); [set_solver|].
        split_and!; [done|set_solver|set_solver].
      * pose proof (Hfresh x Hx). apply Hnew in Hx as [Hx ?]. apply edge_nodes in Hx as [_ ?].
        split_and!; [done|set_solver|done].
    + intros (Hx & Hxd & Hxp). destruct (decide (n ∈ preds g x)) as [He%elem_of_preds|He].
      * assert (x ∈ new) by by apply Hnew. set_solver.
      * assert (x ∈ n :: group ++ ready) as [Heq|Hin]%elem_of_cons; [|subst; set_solver|set_solver].
        apply H3. split_and!; [done|set_solver|]. intros p Hpx. specialize (Hxp p Hpx).
        apply elem_of_app in Hxp as [Hin|Hin%list_elem_of_singleton]; [done|subst p].
        exfalso. by apply He, elem_of_preds.
  - intros i x p Hi He. apply lookup_app_Some in Hi as [Hi|[Hlen Hi]].
    + rewrite take_app_le by (apply lookup_lt_Some in Hi; lia). by eapply H4.
    + apply list_lookup_singleton_Some in Hi as [Hi ->].
      replace i with (length done) by lia. rewrite take_app_length. by apply Hp.
Qed.

Lemma mark_done_fold group : ∀ dn ready,
  kahn_inv dn group ready →
  let st := foldl (mark_done g) (dn, ready) group in
  kahn_inv st.1 [] st.2 ∧ length st.1 = length dn + length group.
Proof.
  induction group as [|n group IH]; intros dn ready H; simpl; [split; [done|lia]|].
  apply mark_done_inv in H. simpl in H. destruct (IH _ _ H) as [? ->]; simpl in *.
  split; [done|]. rewrite length_app. simpl. lia.
Qed.

Lemma order_loop_inv fuel : ∀ dn ready,
  kahn_inv dn [] ready → length (graph_nodes g) ≤ fuel + length dn →
  kahn_inv (order_loop g fuel dn ready) [] [].
Proof.
  induction fuel as [|fuel IH]; intros dn ready H Hf; simpl.
  - destruct ready as [|n ready]; [done|]. exfalso.
    assert (length (dn ++ n :: ready) ≤ length (graph_nodes g)) as Hlen.
    { apply NoDup_incl_length; [by apply NoDup_ListNoDup, (ki_nodup _ _ _ H)|].
      intros x Hx%list_elem_of_In. by apply list_elem_of_In, (ki_nodes _ _ _ H). }
    rewrite length_app in Hlen. simpl in Hlen. lia.
  - destruct ready as [|n ready]; [done|].
    assert (kahn_inv dn (n :: ready) []) as H'.
    { destruct H as [H1 H2 H3 H4]. simpl in *. split; rewrite ?app_nil_r in *; try done. }
    apply mark_done_fold in H'. destruct (foldl _ _ _) as [dn' ready']. simpl in H'.
    destruct H' as [H' Hlen]. apply IH; [done|]. simpl in Hlen. lia.
Qed.

Lemma kahn_final : kahn_inv (kahn g) [] [].
Proof.
  apply order_loop_inv; [|lia]. split; simpl.
  - apply NoDup_ListNoDup, List.NoDup_filter, NoDup_ListNoDup, graph_nodes_NoDup.
  - intros n. rewrite list_elem_of_In, filter_In, <-list_elem_of_In. tauto.
  - intros n. rewrite list_elem_of_In, filter_In, <-list_elem_of_In, all_done_spec. set_solver.
  - done.
Qed.

Lemma kahn_subset : kahn g ⊆ graph_nodes g.
Proof. intros x Hx. apply (ki_nodes _ _ _ kahn_final). by rewrite !app_nil_r. Qed.

Lemma kahn_NoDup : NoDup (kahn g).
Proof. pose proof (ki_nodup _ _ _ kahn_final) as H. by rewrite !app_nil_r in H. Qed.

Lemma kahn_topological : kahn g ≡ₚ graph_nodes g → topological g (kahn g).
Proof.
  intros Hperm p n He. assert (n ∈ kahn g) as [j Hj]%list_elem_of_lookup.
  { rewrite Hperm. by apply edge_nodes in He as [_ ?]. }
  pose proof (ki_topo _ _ _ kahn_final j n p Hj He) as Hp.
  apply elem_of_take in Hp as (i & Hi & ?). eauto.
Qed.

(** A node that is never handed out has a predecessor that is not. *)
Lemma leftover_pred n : n ∈ graph_nodes g → n ∉ kahn g → ∃ p, edge g p n ∧ p ∉ kahn g.
Proof.
  intros Hn Hk. destruct (decide (Exists (λ p, p ∉ kahn g) (preds g n))) as [He|He].
  - apply Exists_exists in He as (p & ?%elem_of_preds & ?). eauto.
  - exfalso. assert (n ∈ [] ++ []) as ?%elem_of_nil; [|done].
    apply (ki_ready _ _ _ kahn_final). split_and!; [done..|].
    intros p Hp%elem_of_preds. apply dec_stable. intros ?. apply He, Exists_exists. eauto.
Qed.

(** Backwards walks among left-over nodes, of any length. *)
Lemma leftover_walk k : ∀ n, n ∈ graph_nodes g → n ∉ kahn g →
  ∃ l, length l = S k ∧ hd_error l = Some n ∧ (∀ x, x ∈ l → x ∈ graph_nodes g) ∧
    ∀ i x y, l !! i = Some x → l !! S i = Some y → edge g y x.
Proof.
  induction k as [|k IH]; intros n Hn Hk.
  - exists [n]. split_and!; [done..|set_solver|]. by intros [|i] x y ? ?.
  - destruct (leftover_pred n Hn Hk) as (p & Hp & Hpk).
    destruct (IH p) as (l & Hlen & Hhd & Hl & Hw); [by apply edge_nodes in Hp as [? _]|done|].
    exists (n :: l). split_and!; [simpl; lia|done|set_solver|].
    intros [|i] x y Hx Hy; simpl in *; [|by eapply Hw].
    destruct l; simplify_eq/=. done.
Qed.

Lemma walk_tc (l : list str) : (∀ i x y, l !! i = Some x → l !! S i = Some y → edge g y x) →
  ∀ d i x y, l !! i = Some x → l !! (S d + i) = Some y → tc (edge g) y x.
Proof.
  intros Hw d. induction d as [|d IH]; intros i x y Hx Hy; [by eapply tc_once, Hw|].
  destruct (lookup_lt_is_Some_2 l (S d + i)) as [z Hz].
  { apply lookup_lt_Some in Hy. lia. }
  eapply tc_l; [|by eapply IH]. eapply Hw; [exact Hz|exact Hy].
Qed.

Lemma leftover_cycle n : n ∈ graph_nodes g → n ∉ kahn g → ∃ x, tc (edge g) x x.
Proof.
  intros Hn Hk. destruct (leftover_walk (length (graph_nodes g)) n Hn Hk) as (l & Hlen & _ & Hl & Hw).
  destruct (list_pigeonhole l (graph_nodes g)) as (i & j & x & Hij & Hi & Hj); [done|lia|].
  exists x. eapply (walk_tc l Hw (j - i - 1) i); [done|].
  by replace (S (j - i - 1) + i) with j by lia.
Qed.

(** In a topological order positions grow along every path. *)
Lemma topological_tc o p n : NoDup o → topological g o → tc (edge g) p n →
  ∃ i j, o !! i = Some p ∧ o !! j = Some n ∧ i < j.
Proof.
  intros Hnd Ht. induction 1 as [p n He|p q n He _ (i & j & Hi & Hj & ?)]; [by apply Ht|].
  destruct (Ht _ _ He) as (i' & j' & Hi' & Hj' & ?).
  assert (j' = i) as -> by (by eapply NoDup_lookup). exists i', j. split_and!; [done..|lia].
Qed.

Lemma static_order_Ok o : static_order g = Ok o →
  o ≡ₚ graph_nodes g ∧ topological g o ∧ ∀ x, ¬ tc (edge g) x x.
Proof.
  unfold static_order. case_match eqn:E; [|done]. intros; simplify_eq.
  apply Nat.eqb_eq in E.
  assert (kahn g ≡ₚ graph_nodes g) as Hp.
  { apply submseteq_length_Permutation; [|lia].
    apply NoDup_submseteq; [apply kahn_NoDup|apply kahn_subset]. }
  split_and!; [done|by apply kahn_topological|].
  intros x Hx. destruct (topological_tc _ _ _ kahn_NoDup (kahn_topological Hp) Hx) as (i & j & Hi & Hj & ?).
  assert (i = j) by (eapply NoDup_lookup; [apply kahn_NoDup|done..]). lia.
Qed.

Lemma static_order_Raise e : static_order g = Raise e →
  e = CycleError ∧ ∃ x, tc (edge g) x x.
Proof.
  unfold static_order. case_match eqn:E; [done|]. intros; simplify_eq. split; [done|].
  apply Nat.eqb_neq in E.
  destruct (decide (Exists (λ n, n ∉ kahn g) (graph_nodes g))) as [(n & ? & ?)%Exists_exists|Hn].
  - by eapply leftover_cycle.
  - exfalso. apply E, Nat.le_antisymm; apply submseteq_length, NoDup_submseteq.
    + apply kahn_NoDup.
    + apply kahn_subset.
    + apply graph_nodes_NoDup.
    + intros x Hx. apply dec_stable. intros ?. apply Hn, Exists_exists. eauto.
Qed.
End Kahn.
