(* ===== verification/DockerConfig.v ===== *)
(** * Configuration of the image builder

    The parts of [docker/build.py] that read [devkit.json]: the schema and its
    validator, the registry settings, and the image prefix the clean-up
    script shares with the builder. *)
From S2P Require Import Prelude PyStr Json PyPath Fs.

(** ** Schemas *)

(** The types the schema names. *)
Inductive pytype := PyDict | PyList | PyStrT.

#[export] Instance pytype_eq_dec : EqDecision pytype.
Proof. solve_decision. Defined.

(** [t.__name__] and [type(data).__name__]. *)
Definition pytype_name (t : pytype) : str :=
  match t with PyDict => "dict" | PyList => "list" | PyStrT => "str" end.
Definition json_type_name (j : json) : str :=
  match j with
  | JNull => "NoneType" | JBool _ => "bool" | JInt _ => "int" | JFloat _ => "float"
  | JStr _ => "str" | JList _ => "list" | JDict _ => "dict"
  end.

Definition isinstance (j : json) (t : pytype) : bool :=
  match j, t with
  | JDict _, PyDict | JList _, PyList | JStr _, PyStrT => true
  | _, _ => false
  end.

(** A schema dictionary: its ["type"], its ["properties"], and its
    ["additional_properties"]: absent, [False], or a schema. *)
Inductive schema :=
  Schema (ty : option pytype) (properties : list (str * schema))
         (additional_properties : option (option schema)).

Definition str_schema : schema := Schema (Some PyStrT) [] None.
Definition str_map_schema : schema := Schema (Some PyDict) [] (Some (Some str_schema)).

Definition registry_schema : schema :=
  Schema (Some PyDict)
    [("host", str_schema); ("project", str_schema); ("repository", str_schema);
     ("namespace", str_schema)]
    (Some None).
Definition image_schema : schema :=
  Schema (Some PyDict)
    [("packages", str_map_schema); ("keys", str_map_schema); ("repositories", str_map_schema)]
    (Some None).
Definition docker_schema : schema :=
  Schema (Some PyDict)
    [("registry", registry_schema); ("run", Schema (Some PyList) [] None);
     ("images", Schema (Some PyDict) [] (Some (Some image_schema)))]
    (Some None).
Definition CONFIG_SCHEMA : schema :=
  Schema (Some PyDict) [("docker", docker_schema)] (Some None).

(** [f"{path}.{key}" if path else key]. *)
Definition sub_path (path key : str) : str :=
  if bool_decide (path = []) then key else path ++ "." ++ key.

Definition extra_keys (d : list (str * json)) (props : list (str * schema)) : list str :=
  List.filter (λ k, negb (dict_in k props)) (dict_keys d).

Fixpoint validate_config (s : schema) (data : json) (path : str) : res () :=
  match s with
  | Schema ty properties additional =>
      _ ← match ty with
          | Some t =>
              if isinstance data t then Ok ()
              else Raise (ValueError ("Invalid type at '" ++ path ++ "'. Expected " ++
                     pytype_name t ++ ", got " ++ json_type_name data ++ "."))
          | None => Ok ()
          end;
      match data with
      | JDict d =>
          _ ← match additional, extra_keys d properties with
              | Some None, (_ :: _) as extra =>
                  Raise (ValueError ("Unexpected fields at '" ++ path ++ "': " ++
                                     join ", " (py_sorted extra)))
              | _, _ => Ok ()
              end;
          _ ← res_each (λ e,
                 match dict_get e.1 d with
                 | Some v => validate_config e.2 v (sub_path path e.1)
                 | None => Ok ()
                 end) properties;
          match additional with
          | Some (Some s') =>
              res_each (λ e,
                if dict_in e.1 properties then Ok ()
                else validate_config s' e.2 (sub_path path e.1)) d
          | _ => Ok ()
          end
      | _ => Ok ()
      end
  end.

(** *** What a schema means *)

Inductive conforms : schema → json → Prop :=
  | conforms_intro ty props addl data :
      (∀ t, ty = Some t → isinstance data t = true) →
      (∀ d, data = JDict d → addl = Some None → ∀ k, k ∈ dict_keys d → k ∈ dict_keys props) →
      (∀ d k s v, data = JDict d → (k, s) ∈ props → dict_get k d = Some v → conforms s v) →
      (∀ d s k v, data = JDict d → addl = Some (Some s) → (k, v) ∈ d →
        k ∉ dict_keys props → conforms s v) →
      conforms (Schema ty props addl) data.

Section SchemaInd.
Variable P : schema → Prop.
Hypothesis step : ∀ ty props addl,
  Forall (λ e, P e.2) props → match addl with Some (Some s) => P s | _ => True end →
  P (Schema ty props addl).

Fixpoint schema_ind_nested (s : schema) : P s :=
  match s with
  | Schema ty props addl =>
      step ty props addl
        ((fix go (ps : list (str * schema)) : Forall (λ e, P e.2) ps :=
            match ps with
            | [] => Forall_nil_2 _
            | e :: ps => Forall_cons_2 _ _ _ (schema_ind_nested e.2) (go ps)
            end) props)
        (match addl with Some (Some s') => schema_ind_nested s' | _ => I end)
  end.
End SchemaInd.

Lemma extra_keys_nil d props :
  extra_keys d props = [] ↔ ∀ k, k ∈ dict_keys d → k ∈ dict_keys props.
Proof.
  unfold extra_keys. induction (dict_keys d) as [|k ks IH]; simpl; [set_solver|].
  unfold dict_in at 1. case_bool_decide; simpl; [rewrite IH; set_solver|].
  split; [done|]. set_solver.
Qed.

(** Validation succeeds exactly on the values that conform to the schema. *)
Lemma validate_config_iff s : ∀ data path, validate_config s data path = Ok () ↔ conforms s data.
Proof.
  induction s as [ty props addl IHp IHa] using schema_ind_nested. intros data path.
  rewrite Forall_forall in IHp. cbn [validate_config]. rewrite res_bind_Ok. split.
  - intros ([] & Hty & H). constructor.
    + intros t ->. by destruct (isinstance data t).
    + intros d -> -> k Hk. apply res_bind_Ok in H as ([] & He & _).
      assert (extra_keys d props = []) as Hn by (by destruct (extra_keys d props)).
      by eapply extra_keys_nil in Hn.
    + intros d k s v -> Hks Hv. apply res_bind_Ok in H as ([] & _ & H).
      apply res_bind_Ok in H as ([] & Hp & _).
      pose proof (proj1 (res_each_Ok _ _) Hp _ Hks) as Hk. simpl in Hk. rewrite Hv in Hk. by eapply (IHp (k, s)).
    + intros d s k v -> -> Hkv Hk. apply res_bind_Ok in H as ([] & _ & H).
      apply res_bind_Ok in H as ([] & _ & H).
      pose proof (proj1 (res_each_Ok _ _) H _ Hkv) as Hi. simpl in Hi. unfold dict_in in Hi.
      rewrite bool_decide_eq_false_2 in Hi by done. by eapply IHa.
  - intros Hc. inversion Hc as [? ? ? ? Hty Hex Hpr Had]; subst. exists (). split.
    { destruct ty as [t|]; [|done]. by rewrite (Hty t eq_refl). }
    destruct data as [| | | | | |d]; try done. apply res_bind_Ok. exists (). split.
    { destruct addl as [[?|]|]; try done. specialize (Hex d eq_refl eq_refl).
      apply extra_keys_nil in Hex. by rewrite Hex. }
    apply res_bind_Ok. exists (). split.
    + apply res_each_Ok. intros [k s] Hks. simpl. destruct (dict_get k d) eqn:E; [|done].
      apply (IHp (k, s)); [done|]. by eapply Hpr.
    + destruct addl as [[s|]|]; try done. apply res_each_Ok. intros [k v] Hkv. simpl.
      unfold dict_in. case_bool_decide; [done|]. apply IHa. by eapply Had.
Qed.

(** Any failure is a [ValueError]. *)
Lemma validate_config_error s : ∀ data path e,
  validate_config s data path = Raise e → ∃ msg, e = ValueError msg.
Proof.
  induction s as [ty props addl IHp IHa] using schema_ind_nested. intros data path e.
  rewrite Forall_forall in IHp. cbn [validate_config].
  intros [He|([] & _ & H)]%res_bind_Raise.
  { destruct ty; [destruct (isinstance _ _)|]; naive_solver. }
  destruct data as [| | | | | |d]; try done.
  apply res_bind_Raise in H as [He|([] & _ & H)].
  { destruct addl as [[]|]; [done| |done]. destruct (extra_keys d props); naive_solver. }
  apply res_bind_Raise in H as [([k s] & Hks & He)%res_each_Raise|([] & _ & H)].
  { simpl in He. destruct (dict_get k d); [|done]. by eapply (IHp (k, s)). }
  destruct addl as [[s|]|]; try done. apply res_each_Raise in H as ([k v] & _ & He).
  simpl in He. destruct (dict_in k props); [done|]. by eapply IHa.
Qed.

(** C16: [validate_config] accepts exactly the values that conform to the
    schema: the required types, no unexpected keys where none are allowed, and
    conforming values under declared and additional keys at every depth; a
    value it refuses raises [ValueError] and nothing else. *)
Theorem validate_config_correct s data path :
  (validate_config s data path = Ok () ↔ conforms s data) ∧
  (∀ e, validate_config s data path = Raise e → ∃ msg, e = ValueError msg).
Proof. split; [apply validate_config_iff|apply validate_config_error]. Qed.

(** ** The registry settings *)

Section Registry.
Context `{JsonRepr}.

(** [a in j and b in j and c in j], evaluated left to right. *)
Fixpoint py_all_in (ks : list str) (j : json) : res bool :=
  match ks with
  | [] => Ok true
  | k :: ks => b ← py_in k j; if b : bool then py_all_in ks j else Ok false
  end.

(** The repository of a registry dictionary. *)
Definition registry_repo (registry : json) : res str :=
  present ← py_all_in ["host"; "project"; "repository"] registry;
  if present : bool then
    host ← py_item registry "host";
    project ← py_item registry "project";
    repository ← py_item registry "repository";
    if truthy host && truthy project && truthy repository
    then Ok (py_str host ++ "/" ++ py_str project ++ "/" ++ py_str repository)
    else Ok ""
  else Ok "".

Definition registry_namespace (registry : json) : res str :=
  present ← py_in "namespace" registry;
  if present : bool then
    namespace ← py_item registry "namespace";
    if truthy namespace then Ok ("devkit/" ++ py_str namespace) else Ok "devkit"
  else Ok "devkit".

(** Returns (repo, namespace). *)
Definition parse_registry_config (config : json) : res (str * str) :=
  has_docker ← py_in "docker" config;
  if has_docker : bool then
    docker_config ← py_item config "docker";
    has_registry ← py_in "registry" docker_config;
    if has_registry : bool then
      registry ← py_item docker_config "registry";
      repo ← registry_repo registry;
      namespace ← registry_namespace registry;
      Ok (repo, namespace)
    else Ok ("", "devkit")
  else Ok ("", "devkit").

(** [json.load] of an open file. *)
Definition load_json_file (fs : fsys) (p : path) : res json :=
  data ← fs_read fs p; json_load data.

Definition prefix_of (repo namespace : str) : str :=
  if bool_decide (repo = []) then namespace else repo ++ "/" ++ namespace.

Definition get_image_prefix (fs : fsys) (config_path : path) : res str :=
  if fs_exists fs config_path then
    match (config ← load_json_file fs config_path; parse_registry_config config) with
    | Ok (repo, namespace) => Ok (prefix_of repo namespace)
    | Raise e =>
        if is_JSONDecodeError e || is_KeyError e || is_ValueError e then Ok "devkit" else Raise e
    end
  else Ok "devkit".

(** *** Settings of a valid configuration *)

(** The string at a path of keys, [""] when there is none. *)
Fixpoint str_at (ks : list str) (j : json) : str :=
  match ks, j with
  | [], JStr s => s
  | k :: ks, JDict d => match dict_get k d with Some v => str_at ks v | None => [] end
  | _, _ => []
  end.

Definition spec_repo (config : json) : str :=
  let at_ k := str_at ["docker"; "registry"; k] config in
  if bool_decide (at_ "host" = []) || bool_decide (at_ "project" = []) ||
     bool_decide (at_ "repository" = []) then ""
  else at_ "host" ++ "/" ++ at_ "project" ++ "/" ++ at_ "repository".

Definition spec_namespace (config : json) : str :=
  let ns := str_at ["docker"; "registry"; "namespace"] config in
  if bool_decide (ns = []) then "devkit" else "devkit/" ++ ns.

Lemma conforms_dict props addl j :
  conforms (Schema (Some PyDict) props addl) j → ∃ d, j = JDict d ∧
    ∀ k s v, (k, s) ∈ props → dict_get k d = Some v → conforms s v.
Proof.
  inversion 1 as [? ? ? ? Hty ? Hp]; subst. specialize (Hty _ eq_refl).
  destruct j; try done. eauto.
Qed.

Lemma conforms_str j : conforms str_schema j → ∃ s, j = JStr s.
Proof.
  inversion 1 as [? ? ? ? Hty]; subst. specialize (Hty _ eq_refl). destruct j; try done. eauto.
Qed.

(** A key of a registry that conforms to its schema: absent or a string. *)
Lemma registry_key d k : conforms registry_schema (JDict d) →
  k ∈ ["host"; "project"; "repository"; "namespace"] →
  (dict_in k d = false ∧ dict_get k d = None ∧ str_at [k] (JDict d) = []) ∨
  (∃ s, dict_in k d = true ∧ dict_get k d = Some (JStr s) ∧ str_at [k] (JDict d) = s).
Proof.
  intros (d' & [= <-] & Hd)%conforms_dict Hk. unfold dict_in. simpl.
  destruct (dict_get k d) as [v|] eqn:E.
  - right. destruct (conforms_str v) as [s ->].
    { eapply Hd; [|exact E]. rewrite !elem_of_cons in *.
      repeat destruct Hk as [->|Hk]; [naive_solver..|by apply elem_of_nil in Hk]. }
    exists s. split_and!; [|done..]. apply bool_decide_eq_true, dict_get_Some. by eexists.
  - left. split_and!; [|done..]. apply bool_decide_eq_false. by apply dict_get_None.
Qed.

Ltac key d k := let E := fresh "E" in let G := fresh "G" in let A := fresh "A" in
  destruct (registry_key d k) as [(E & G & A)|(? & E & G & A)]; [done|set_solver|..].

Lemma registry_repo_spec d : conforms registry_schema (JDict d) →
  registry_repo (JDict d) = Ok (
    if bool_decide (str_at ["host"] (JDict d) = []) || bool_decide (str_at ["project"] (JDict d) = []) ||
       bool_decide (str_at ["repository"] (JDict d) = []) then ""
    else str_at ["host"] (JDict d) ++ "/" ++ str_at ["project"] (JDict d) ++ "/" ++
         str_at ["repository"] (JDict d)).
Proof.
  intros Hc. unfold registry_repo. cbn [py_all_in py_in py_item mbind res_bind].
  key d "host"; [by rewrite E, A|]. key d "project"; [rewrite E, E0, A0; simpl; by rewrite orb_true_r|].
  key d "repository"; rewrite E, E0, E1; cbn [mbind res_bind]; [by rewrite A1, orb_true_r|].
  rewrite G, G0, G1, A, A0, A1. cbn [mbind res_bind truthy py_str].
  repeat case_bool_decide; done.
Qed.

Lemma registry_namespace_spec d : conforms registry_schema (JDict d) →
  registry_namespace (JDict d) = Ok (
    if bool_decide (str_at ["namespace"] (JDict d) = []) then "devkit"
    else "devkit/" ++ str_at ["namespace"] (JDict d)).
Proof.
  intros Hc. unfold registry_namespace. cbn [py_in py_item mbind res_bind].
  key d "namespace"; rewrite E, A; [done|]. rewrite G. cbn [mbind res_bind truthy py_str].
  by case_bool_decide.
Qed.

(** On a valid configuration [parse_registry_config] raises nothing. *)
Lemma parse_registry_config_spec config : conforms CONFIG_SCHEMA config →
  parse_registry_config config = Ok (spec_repo config, spec_namespace config).
Proof.
  intros (d & -> & Hd)%conforms_dict. unfold parse_registry_config, spec_repo, spec_namespace.
  cbn [py_in py_item mbind res_bind str_at]. unfold dict_in.
  destruct (dict_get "docker" d) as [dk|] eqn:E.
  2: { by rewrite bool_decide_eq_false_2 by (by apply dict_get_None). }
  rewrite bool_decide_eq_true_2 by (apply dict_get_Some; by eexists).
  specialize (Hd "docker" docker_schema dk ltac:(by left) E).
  apply conforms_dict in Hd as (d' & -> & Hd'). cbn [py_in py_item mbind res_bind].
  unfold dict_in. destruct (dict_get "registry" d') as [rg|] eqn:E'.
  2: { by rewrite bool_decide_eq_false_2 by (by apply dict_get_None). }
  rewrite bool_decide_eq_true_2 by (apply dict_get_Some; by eexists).
  specialize (Hd' "registry" registry_schema rg ltac:(by left) E').
  destruct (conforms_dict _ _ _ Hd') as (r & -> & _). cbn [mbind res_bind].
  by rewrite registry_repo_spec, registry_namespace_spec by done.
Qed.
End Registry.
