(* ===== verification/Proc.v ===== *)
(** * Child processes

    [subprocess.run] against a host whose state the commands read and change:
    the Docker daemon and its registry, git, Bazel.  The host is a parameter;
    a command either cannot be found or ends with an exit code and output. *)
From S2P Require Import Prelude PyStr.

Record run_result := RunResult { returncode : Z; stdout : str; stderr : str }.

(** [None]: the command is not in PATH. *)
Class Host (X : Type) := exec : list str → X → option run_result * X.

(** [subprocess.run(cmd, check=check)]. *)
Definition subprocess_run `{Host X} (check : bool) (cmd : list str) : io X run_result := λ x,
  let '(r, x') := exec cmd x in
  ([EvRun cmd], x',
   match r with
   | None => Raise FileNotFoundError
   | Some r =>
       if check && negb (returncode r =? 0)%Z
       then Raise (CalledProcessError (returncode r) cmd (stdout r) (stderr r))
       else Ok r
   end).

Lemma emits_run `{Host X} P check cmd : P (EvRun cmd) → emits P (subprocess_run check cmd).
Proof.
  intros HP x. unfold io_trace, subprocess_run. destruct (exec cmd x). by repeat constructor.
Qed.

#[export] Hint Resolve emits_run : py.

(** [if text: logging.<level>(text.strip())]. *)
Definition log_output {S} (l : level) (text : str) : io S () :=
  if bool_decide (text = []) then mret () else log l (strip text).

(** Running a command, by what the host answers. *)
Lemma wp_subprocess `{Host X} check cmd (Q : run_result → X → Prop) (E : exn → X → Prop) x :
  (∀ r x', exec cmd x = (Some r, x') → check = false ∨ returncode r = 0%Z → Q r x') →
  (∀ r x', exec cmd x = (Some r, x') → check = true → returncode r ≠ 0%Z →
     E (CalledProcessError (returncode r) cmd (stdout r) (stderr r)) x') →
  (∀ x', exec cmd x = (None, x') → E FileNotFoundError x') →
  wp (subprocess_run check cmd) Q E x.
Proof.
  intros HQ HE HN. unfold wp, io_res, io_state, subprocess_run. destruct (exec cmd x) as [[r|] x'] eqn:He; cbn.
  - specialize (HQ r x' eq_refl). specialize (HE r x' eq_refl).
    destruct check; cbn; [|auto]. destruct (Z.eqb_spec (returncode r) 0); cbn; auto.
  - auto.
Qed.

Lemma wp_log_output {S} l text (Q : () → S → Prop) E s : Q () s → wp (log_output l text) Q E s.
Proof. unfold log_output. by case_bool_decide. Qed.

Lemma emits_log_output {S} P l text : P (EvLog l (strip text)) → emits P (log_output l text : io S ()).
Proof. unfold log_output. case_bool_decide; eauto with py. Qed.
#[export] Hint Resolve emits_log_output : py.

(** Trace predicates by the structure of the program: what is left are the
    commands and the values the program branches on. *)
Ltac emits_step :=
  match goal with
  | |- emits _ (mret _) => apply emits_ret
  | |- emits _ (raise _) => apply emits_raise
  | |- emits _ (sys_exit _) => apply emits_raise
  | |- emits _ (lift_res _) => apply emits_lift
  | |- emits _ get => apply emits_get
  | |- emits _ (put _) => apply emits_put
  | |- emits _ (emit _) => by apply emits_emit
  | |- emits _ (log _ _) => by apply emits_emit
  | |- emits _ (log_output _ _) => by apply emits_log_output
  | |- emits _ (on_fst _) => apply emits_on_fst
  | |- emits _ (on_snd _) => apply emits_on_snd
  | |- emits _ (subprocess_run _ _) => apply emits_run
  | |- emits _ (_ ≫= _) => apply emits_bind; [|intros ?]
  | |- emits _ (if _ then _ else _) => apply emits_if; intros ?
  end.
Ltac emits_auto := repeat emits_step.
