(* ===== verification/DockerBuild.v ===== *)
(** * The image builder

    [docker/build.py]: images are tagged with a digest of their Dockerfile and
    build arguments, the tags of the images they build on included; an image
    is then found locally, pulled, or built and pushed. *)
From S2P Require Import Prelude PyStr Json Sha256 PyPath Fs Graph DockerConfig Proc.

(** ** The Docker command line *)

Section Docker.
Context `{Host X}.

Definition check_docker_installed (log_file : bool) : io X () :=
  try_except
    (_ ← subprocess_run true ["docker"; "--version"]; log INFO "Docker is installed.")
    (λ e, if is_CalledProcessError e || is_FileNotFoundError e then
       let error_msg := "Docker is not installed or not in PATH. Please install Docker." in
       Some (log ERROR error_msg;;
             (if log_file then emit (EvErr ("ERROR: " ++ error_msg)) else mret ());;
             sys_exit 1)
     else None).

Definition check_docker_buildx_installed (log_file : bool) : io X () :=
  try_except
    (_ ← subprocess_run true ["docker"; "buildx"; "version"]; log INFO "Docker Buildx is installed.")
    (λ e, if is_CalledProcessError e || is_FileNotFoundError e then
       let error_msg := "Docker Buildx is not installed or not enabled. " ++
                        "Please install/enable Docker Buildx." in
       Some (log ERROR error_msg;;
             (if log_file then emit (EvErr ("ERROR: " ++ error_msg)) else mret ());;
             sys_exit 1)
     else None).

Definition check_if_image_exists_locally (tag : str) : io X bool :=
  log INFO ("Checking for local image: " ++ tag);;
  inspect_result ← subprocess_run false ["docker"; "image"; "inspect"; tag];
  if (returncode inspect_result =? 0)%Z
  then log INFO ("Image " ++ tag ++ " already exists locally.");; mret true
  else log INFO ("Image " ++ tag ++ " not found locally.");; mret false.

(** The [--build-arg] options of a list of names and values. *)
Fixpoint build_arg_options (build_args_list : list str) : res (list str) :=
  match build_args_list with
  | [] => Ok []
  | [_] => Raise IndexError
  | arg_name :: arg_value :: rest =>
      opts ← build_arg_options rest;
      Ok (["--build-arg"; arg_name ++ "=" ++ arg_value] ++ opts)
  end.

Definition build_cmd (tag dockerfile_path context_path : str) (no_cache : bool) (opts : list str) : list str :=
  ["docker"; "buildx"; "build"; "--tag"; tag; "--file"; dockerfile_path] ++
  (if no_cache then ["--no-cache"] else []) ++ opts ++ [context_path].

Definition build_image (tag dockerfile_path : str) (build_args_list : list str)
    (context_path : str) (no_cache : bool) : io X () :=
  emit (EvErr ("Building image: " ++ tag ++ "..."));;
  opts ← lift_res (build_arg_options build_args_list);
  let docker_build_cmd := build_cmd tag dockerfile_path context_path no_cache opts in
  log INFO ("Executing build: " ++ join " " docker_build_cmd);;
  process ← subprocess_run true docker_build_cmd;
  emit (EvErr " [OK]");;
  log_output INFO (stdout process);;
  log_output WARNING (stderr process);;
  log INFO ("Image " ++ tag ++ " built successfully.").

Definition check_if_image_exists_in_remote_registry (tag : str) : io X bool :=
  log INFO ("Checking for remote image manifest: " ++ tag);;
  manifest_result ← subprocess_run false ["docker"; "manifest"; "inspect"; tag];
  if (returncode manifest_result =? 0)%Z
  then log INFO ("Image " ++ tag ++ " found in remote registry.");; mret true
  else log INFO ("Image " ++ tag ++ " not found in remote registry.");; mret false.

Definition pull_image_from_registry (tag : str) : io X () :=
  emit (EvErr ("Pulling image: " ++ tag ++ "..."));;
  process ← subprocess_run true ["docker"; "pull"; tag];
  emit (EvErr " [OK]");;
  log_output INFO (stdout process);;
  log_output WARNING (stderr process);;
  log INFO ("Image " ++ tag ++ " pulled successfully.").

Definition push_image_to_registry (tag : str) : io X () :=
  log INFO ("Pushing image " ++ tag ++ "...");;
  emit (EvErr ("Pushing image: " ++ tag ++ "..."));;
  push_result ← subprocess_run false ["docker"; "push"; tag];
  if (returncode push_result =? 0)%Z then
    emit (EvErr " [OK]");;
    log_output INFO (stdout push_result);;
    log_output WARNING (stderr push_result);;
    log INFO ("Image " ++ tag ++ " pushed successfully.")
  else
    emit (EvErr " [FAILED]");;
    log WARNING ("Failed to push image " ++ tag ++ ". Continuing with local image.");;
    (if bool_decide (stderr push_result = []) then mret ()
     else log WARNING ("Details: " ++ strip (stderr push_result))).

(** The handlers of [manage_docker_image]. *)
Definition manage_handler (tag : str) (e : exn) : option (io X ()) :=
  match e with
  | CalledProcessError rc cmd out err =>
      Some (emit (EvErr " [FAILED]");;
            log ERROR ("Error during Docker operation for " ++ tag ++ ":");;
            log ERROR ("Command: " ++ join " " cmd);;
            (if bool_decide (out = []) then mret () else log ERROR ("Stdout: " ++ strip out));;
            (if bool_decide (err = []) then mret () else log ERROR ("Stderr: " ++ strip err));;
            sys_exit (if (rc =? 0)%Z then 1 else rc))
  | FileNotFoundError =>
      Some (log ERROR ("Docker command not found. " ++
                       "Please ensure Docker is installed and in PATH.");;
            sys_exit 1)
  | _ => None
  end.

Definition manage_docker_image (tag dockerfile_path : str) (build_args_list : list str)
    (context_path : str) (local_image_mode no_cache : bool) (repo : str) : io X () :=
  try_except
    (present ← (if no_cache then mret false else check_if_image_exists_locally tag);
     if present : bool then mret ()
     else if bool_decide (repo = []) || local_image_mode then
       (if bool_decide (repo = []) then log WARNING "Docker registry is not defined." else mret ());;
       build_image tag dockerfile_path build_args_list context_path no_cache
     else
       remote ← (if no_cache then mret false else check_if_image_exists_in_remote_registry tag);
       if remote : bool then pull_image_from_registry tag
       else
         build_image tag dockerfile_path build_args_list context_path no_cache;;
         push_image_to_registry tag)
    (manage_handler tag).
End Docker.

(** ** The builder object *)

(** The attributes [__init__] sets; [generated_tags], the one that changes
    afterwards, is the state the methods run in. *)
Record DockerBuilder := {
  config_path : path;
  search_paths : list path;
  repo : str;
  namespace : str;
  arch : str;
  extra_packages_map : list (str * list str);
  extra_keys_map : list (str * list str);
  extra_repositories_map : list (str * list str);
  image_configs_map : list (str * json)
}.

Abbreviation tags := (list (str * str)).

(** How many nested calls of [calculate_tag_for_image] the interpreter's
    recursion limit leaves room for. *)
Class RecursionLimit := recursion_limit : nat.

(** *** The interpreter of gcloud

    Run when the module is imported: [os.environ] gets [CLOUDSDK_PYTHON]
    unless it is set already or no candidate exists. *)
Definition CLOUDSDK_PYTHON_candidates : list str := ["/usr/bin/python3"; "/usr/bin/python"].

Definition ensure_cloudsdk_python_is_set (fs : fsys) (environ : list (str * str)) : list (str * str) :=
  if dict_in "CLOUDSDK_PYTHON" environ then environ
  else
    match List.find (λ candidate, fs_exists fs (path_of_str candidate)) CLOUDSDK_PYTHON_candidates with
    | Some candidate => dict_set "CLOUDSDK_PYTHON" candidate environ
    | None => environ
    end.

(** Nothing else in the environment changes, a value that was set is kept,
    and a value that is added names an existing file. *)
Lemma ensure_cloudsdk_python_keeps fs environ name value :
  dict_get name environ = Some value →
  dict_get name (ensure_cloudsdk_python_is_set fs environ) = Some value.
Proof.
  intros Hget. unfold ensure_cloudsdk_python_is_set.
  destruct (dict_in "CLOUDSDK_PYTHON" environ) eqn:Hin; [done|].
  destruct (List.find _ _) as [c|]; [|done].
  rewrite dict_get_set_ne; [done|]. intros ->.
  unfold dict_in in Hin. apply bool_decide_eq_false in Hin. apply Hin, dict_get_Some. by rewrite Hget.
Qed.

Lemma ensure_cloudsdk_python_adds fs environ name value :
  dict_get name environ = None →
  dict_get name (ensure_cloudsdk_python_is_set fs environ) = Some value →
  name = "CLOUDSDK_PYTHON" ∧ value ∈ CLOUDSDK_PYTHON_candidates ∧ fs_exists fs (path_of_str value) = true.
Proof.
  intros Hget. unfold ensure_cloudsdk_python_is_set.
  destruct (dict_in "CLOUDSDK_PYTHON" environ); [by rewrite Hget|].
  destruct (List.find _ _) as [c|] eqn:Hf; [|by rewrite Hget].
  rewrite dict_get_set. case_decide as Hn; [|by rewrite Hget].
  intros [= ->]. apply List.find_some in Hf as [Hin Hex].
  split_and!; [exact Hn|by apply list_elem_of_In|exact Hex].
Qed.

Section Builder.
Context `{JsonRepr} `{HexDigest} `{PySetOrder} `{RecursionLimit}.
Context (fs : fsys).

(** *** Loading the configuration *)

(** [f"{k}={v}"] for every item. *)
Definition key_values (items : list (str * json)) : list str :=
  (λ kv, kv.1 ++ "=" ++ py_str kv.2) <$> items.

(** The packages of one image; an empty version ends the program. *)
Definition load_packages {S : Type} (img : str) (items : list (str * json)) : io S (list str) :=
  fold_io (λ packages kv,
    if truthy kv.2 then mret (packages ++ [kv.1 ++ "=" ++ py_str kv.2])
    else
      log ERROR ("Package " ++ kv.1 ++ " in image " ++ img ++ " has an empty version. " ++
                 "Please specify a version or use '*'.");;
      sys_exit 1) [] items.

Definition load_image_settings {S : Type} (b : DockerBuilder) (img : str) (settings : json) : io S DockerBuilder :=
  has_packages ← lift_res (py_in "packages" settings);
  b ← (if has_packages : bool then
         items ← lift_res (j ← py_item settings "packages"; py_items j);
         packages ← load_packages img items;
         mret {| config_path := config_path b; search_paths := search_paths b; repo := repo b;
                 namespace := namespace b; arch := arch b;
                 extra_packages_map := dict_set img packages (extra_packages_map b);
                 extra_keys_map := extra_keys_map b;
                 extra_repositories_map := extra_repositories_map b;
                 image_configs_map := image_configs_map b |}
       else mret b);
  has_keys ← lift_res (py_in "keys" settings);
  b ← (if has_keys : bool then
         items ← lift_res (j ← py_item settings "keys"; py_items j);
         mret {| config_path := config_path b; search_paths := search_paths b; repo := repo b;
                 namespace := namespace b; arch := arch b;
                 extra_packages_map := extra_packages_map b;
                 extra_keys_map := dict_set img (key_values items) (extra_keys_map b);
                 extra_repositories_map := extra_repositories_map b;
                 image_configs_map := image_configs_map b |}
       else mret b);
  has_repositories ← lift_res (py_in "repositories" settings);
  if has_repositories : bool then
    items ← lift_res (j ← py_item settings "repositories"; py_items j);
    mret {| config_path := config_path b; search_paths := search_paths b; repo := repo b;
            namespace := namespace b; arch := arch b;
            extra_packages_map := extra_packages_map b;
            extra_keys_map := extra_keys_map b;
            extra_repositories_map := dict_set img (key_values items) (extra_repositories_map b);
            image_configs_map := image_configs_map b |}
  else mret b.

Definition load_images_config {S : Type} (b : DockerBuilder) (config : json) : io S DockerBuilder :=
  docker ← lift_res (py_item config "docker");
  has_images ← lift_res (py_in "images" docker);
  if has_images : bool then
    images ← lift_res (j ← py_item docker "images"; py_items j);
    fold_io (λ b kv, load_image_settings b kv.1 kv.2) b images
  else mret b.

Definition set_registry (b : DockerBuilder) (rn : str * str) : DockerBuilder :=
  {| config_path := config_path b; search_paths := search_paths b; repo := rn.1;
     namespace := rn.2; arch := arch b;
     extra_packages_map := extra_packages_map b; extra_keys_map := extra_keys_map b;
     extra_repositories_map := extra_repositories_map b;
     image_configs_map := image_configs_map b |}.

(** [_load_registry_config]. *)
Definition load_registry_config {S : Type} (b : DockerBuilder) (config : json) : io S DockerBuilder :=
  rn ← lift_res (parse_registry_config config);
  mret (set_registry b rn).

(** [_load_config]: opening the file is outside the [try], reading it inside. *)
Definition load_config {S : Type} (b : DockerBuilder) : io S DockerBuilder :=
  if fs_exists fs (config_path b) then
    data ← lift_res (fs_read fs (config_path b));
    try_except
      (config ← lift_res (json_load data);
       lift_res (validate_config CONFIG_SCHEMA config "");;
       has_docker ← lift_res (py_in "docker" config);
       if has_docker : bool then
         b ← load_registry_config b config;
         load_images_config b config
       else mret b)
      (λ e, if is_JSONDecodeError e || is_ValueError e then
         Some (log ERROR ("Could not load " ++ path_str (config_path b) ++ ": " ++ exn_text e);;
               sys_exit 1)
       else None)
  else
    log INFO ("devkit.json config file not found: " ++ path_str (config_path b));;
    mret b.

(** One search path of [load_image_configs]. *)
Definition load_deps_file {S : Type} (all_configs : list (str * json)) (p : path) : io S (list (str * json)) :=
  let deps_file := path_child p "deps.json" in
  if fs_exists fs deps_file then
    log INFO ("Loading image configs from " ++ path_str deps_file);;
    data ← lift_res (fs_read fs deps_file);
    try_except
      (configs ← lift_res (json_load data);
       match configs with
       | JDict d => mret (dict_update all_configs d)
       | _ => log WARNING (path_str deps_file ++ " does not contain a dict of configs.");;
              mret all_configs
       end)
      (λ e, if is_JSONDecodeError e then
         Some (log ERROR ("Could not decode " ++ path_str deps_file ++ ": " ++ exn_text e);;
               sys_exit 1)
       else None)
  else mret all_configs.

Definition load_image_configs {S : Type} (search_paths : list path) : io S (list (str * json)) :=
  fold_io load_deps_file [] search_paths.

(** [DockerBuilder(config_path, search_paths)]. *)
Definition init {S : Type} (config_path : path) (search_paths : list path) : io S DockerBuilder :=
  b ← load_config
        {| config_path := config_path; search_paths := search_paths; repo := "";
           namespace := "devkit"; arch := "amd64"; extra_packages_map := []; extra_keys_map := [];
           extra_repositories_map := []; image_configs_map := [] |};
  configs ← load_image_configs search_paths;
  mret {| config_path := DockerBuild.config_path b; search_paths := DockerBuild.search_paths b;
          repo := repo b; namespace := namespace b; arch := arch b;
          extra_packages_map := extra_packages_map b; extra_keys_map := extra_keys_map b;
          extra_repositories_map := extra_repositories_map b; image_configs_map := configs |}.

(** *** Dependencies *)

(** [conf["deps"]] as a dictionary of image names; a value that is not a
    string is outside the declared type [dict[str, str]]. *)
Fixpoint str_values (d : list (str * json)) : res (list (str * str)) :=
  match d with
  | [] => Ok []
  | (k, JStr s) :: d => r ← str_values d; Ok ((k, s) :: r)
  | _ :: _ => Raise IllTyped
  end.
Definition conf_deps (conf : json) : res (list (str * str)) :=
  deps ← py_item conf "deps";
  d ← py_items deps;
  str_values d.

Fixpoint full_graph (configs : list (str * json)) : res (list (str * gset str)) :=
  match configs with
  | [] => Ok []
  | (name, conf) :: configs =>
      deps ← conf_deps conf;
      g ← full_graph configs;
      Ok ((name, list_to_set deps.*2) :: g)
  end.

(** One iteration of the loop that collects the dependencies: an arbitrary
    node is popped and, when new, its dependencies are queued. *)
Definition visit_step (g : list (str * gset str)) (cur : str) (st : gset str * gset str) : gset str * gset str :=
  let '(nodes_to_visit, visited_nodes) := st in
  let nodes_to_visit := nodes_to_visit ∖ {[cur]} in
  if decide (cur ∈ visited_nodes) then (nodes_to_visit, visited_nodes)
  else (nodes_to_visit ∪ default ∅ (dict_get cur g), {[cur]} ∪ visited_nodes).

Fixpoint visit_loop (g : list (str * gset str)) (fuel : nat) (st : gset str * gset str) : option (gset str) :=
  match set_iter st.1 with
  | [] => Some st.2
  | cur :: _ =>
      match fuel with
      | O => None
      | S fuel => visit_loop g fuel (visit_step g cur st)
      end
  end.

(** Every name the loop can meet. *)
Definition universe (g : list (str * gset str)) (targets : gset str) : gset str :=
  targets ∪ ⋃ g.*2.
Definition visit_fuel (g : list (str * gset str)) (targets : gset str) : nat :=
  S (size (universe g targets)) * S (size (universe g targets)).

(** The graph given to the sorter, sets in iteration order. *)
Definition sorter_graph (g : list (str * gset str)) : graph := prod_map id set_iter <$> g.

Definition subgraph (g : list (str * gset str)) (visited_nodes : gset str) : list (str * gset str) :=
  omap (λ node, (λ deps, (node, deps)) <$> dict_get node g) (set_iter visited_nodes).

(** Sort, or report the cycle and exit. *)
Definition sort_or_exit {S : Type} (msg : str) (g : list (str * gset str)) : io S (list str) :=
  try_except (lift_res (static_order (sorter_graph g)))
    (λ e, if is_Exception e then Some (log ERROR (msg ++ exn_text e);; sys_exit 1) else None).

Definition get_dependency_subgraph {S : Type} (target_image_names : list str)
    (configs : list (str * json)) : io S (list str) :=
  g ← lift_res (full_graph configs);
  let targets := list_to_set target_image_names in
  match visit_loop g (visit_fuel g targets) (targets, ∅) with
  | Some visited_nodes =>
      sort_or_exit "Cycle detected in dependencies: " (subgraph g visited_nodes)
  | None => raise RecursionError
  end.

(** [get_build_order(target_images)]; the empty list stands for [None]. *)
Definition get_build_order {S : Type} (b : DockerBuilder) (target_images : list str) : io S (list str) :=
  match target_images with
  | _ :: _ =>
      images_to_process ← get_dependency_subgraph target_images (image_configs_map b);
      log INFO ("Processing Docker images " ++ join ", " target_images ++
                " and their dependencies: " ++ join ", " images_to_process ++ "...");;
      mret images_to_process
  | [] =>
      g ← lift_res (full_graph (image_configs_map b));
      images_to_process ← sort_or_exit "Cycle detected in image dependencies: " g;
      log INFO "Processing all Docker images...";;
      mret images_to_process
  end.

(** *** Tags *)

Definition get_image_tag (b : DockerBuilder) (image_name sha : str) : str :=
  let image_path := namespace b ++ "/" ++ image_name in
  let tag_suffix := arch b ++ "-" ++ sha in
  if bool_decide (repo b = []) then image_path ++ ":" ++ tag_suffix
  else repo b ++ "/" ++ image_path ++ ":" ++ tag_suffix.

Fixpoint encode_all (args : list str) : res bytes :=
  match args with
  | [] => Ok []
  | a :: args => x ← py_encode a; y ← encode_all args; Ok (x ++ y)
  end.

Definition calculate_sha256 (dockerfile_path : path) (sorted_build_args : list str) : res str :=
  content ← fs_read fs dockerfile_path;
  args ← encode_all sorted_build_args;
  Ok (hexdigest (content ++ args)).

(** The first search path that has the Dockerfile. *)
Fixpoint find_dockerfile (search_paths : list path) (dockerfile_name : str) : option path :=
  match search_paths with
  | [] => None
  | p :: search_paths =>
      let potential_path := path_of_str (os_path_join (path_str p) dockerfile_name) in
      if fs_exists fs potential_path then Some potential_path
      else find_dockerfile search_paths dockerfile_name
  end.

(** The text of a list of paths. *)
Definition paths_repr (l : list path) : str :=
  "[" ++ join ", " ((λ p, "PosixPath('" ++ path_str p ++ "')") <$> l) ++ "]".

(** The extra arguments of an image, in the order the maps are consulted. *)
Definition extra_args (b : DockerBuilder) (image_name : str) : list (str * str) :=
  omap (λ ma : list (str * list str) * str,
    match default [] (dict_get image_name ma.1) with
    | [] => None
    | val => Some (ma.2, join " " val)
    end)
    [(extra_packages_map b, "EXTRA_PACKAGES"); (extra_keys_map b, "EXTRA_KEYS");
     (extra_repositories_map b, "EXTRA_REPOSITORIES")].

Definition assign (kv : str * str) : str := kv.1 ++ "=" ++ kv.2.

(** [depth] bounds the nested calls, as the interpreter does. *)
Fixpoint calculate_tag_for_image (depth : nat) (b : DockerBuilder) (image_name : str) : io tags str :=
  match depth with
  | O => raise RecursionError
  | S depth =>
      generated_tags ← get;
      match dict_get image_name generated_tags with
      | Some tag => mret tag
      | None =>
          log INFO ("=== Calculating tag for: " ++ image_name ++ " ===");;
          image_conf ← lift_res (match dict_get image_name (image_configs_map b) with
                                 | Some conf => Ok conf
                                 | None => Raise (KeyError image_name)
                                 end);
          dependencies ← lift_res (conf_deps image_conf);
          let dockerfile_name := image_name ++ ".Dockerfile" in
          match find_dockerfile (search_paths b) dockerfile_name with
          | None =>
              log ERROR ("Dockerfile " ++ dockerfile_name ++ " not found for image '" ++ image_name ++
                         "' in any of the search paths: " ++
                         paths_repr (search_paths b) ++ ".");;
              sys_exit 1
          | Some dockerfile_path =>
              let dockerfile_path := realpath fs dockerfile_path in
              build_args_for_sha_calc ←
                fold_io (λ args ad,
                   dep_tag ← calculate_tag_for_image depth b ad.2;
                   mret (args ++ [assign (ad.1, dep_tag)])) [] dependencies;
              let build_args_for_sha_calc :=
                py_sorted (build_args_for_sha_calc ++ (assign <$> extra_args b image_name)) in
              sha ← lift_res (calculate_sha256 dockerfile_path build_args_for_sha_calc);
              let tag := get_image_tag b image_name sha in
              generated_tags ← get;
              put (dict_set image_name tag generated_tags);;
              log INFO ("Tag for " ++ image_name ++ ": " ++ tag);;
              mret tag
          end
      end
  end.

Definition lookup_tag (generated_tags : tags) (name : str) : res str :=
  match dict_get name generated_tags with Some t => Ok t | None => Raise (KeyError name) end.

Fixpoint lookup_tags (generated_tags : tags) (names : list str) : res (list str) :=
  match names with
  | [] => Ok []
  | n :: names => t ← lookup_tag generated_tags n; ts ← lookup_tags generated_tags names; Ok (t :: ts)
  end.

Definition calculate_tags (b : DockerBuilder) (target_images : list str) : io tags (list str) :=
  images_to_process ← get_build_order b target_images;
  for_each images_to_process (λ image_name,
    _ ← calculate_tag_for_image recursion_limit b image_name; mret ());;
  generated_tags ← get;
  lift_res (lookup_tags generated_tags images_to_process).

(** [get_all_docker_image_tags]: a fresh builder, its tags calculated. *)
Definition get_all_docker_image_tags (config_path : path) (search_paths : list path)
    (target_images : list str) : io tags (list str) :=
  b ← init config_path search_paths;
  put [];;
  calculate_tags b target_images.

(** *** Building *)

Context `{Host X}.

(** [local_flag or image_conf.get("local", False)]. *)
Definition local_mode (local_flag : bool) (image_conf : json) : res bool :=
  if local_flag then Ok true
  else match image_conf with
       | JDict d => Ok (match dict_get "local" d with Some v => truthy v | None => false end)
       | _ => Raise AttributeError
       end.

(** The names and values passed to [manage_docker_image]. *)
Definition manage_args (b : DockerBuilder) (image_name : str) (dependencies : list (str * str))
    (generated_tags : tags) : res (list str) :=
  dep_tags ← lookup_tags generated_tags dependencies.*2;
  Ok (concat (zip_with (λ ad t, [ad.1; t]) dependencies dep_tags) ++
      concat ((λ kv : str * str, [kv.1; kv.2]) <$> extra_args b image_name)).

Definition build_one (b : DockerBuilder) (print_target : option str) (no_cache local_flag : bool)
    (image_name : str) : io (tags * X) () :=
  tag ← on_fst (calculate_tag_for_image recursion_limit b image_name);
  image_conf ← lift_res (match dict_get image_name (image_configs_map b) with
                         | Some conf => Ok conf
                         | None => Raise (KeyError image_name)
                         end);
  local_image_mode ← lift_res (local_mode local_flag image_conf);
  let dockerfile_name := image_name ++ ".Dockerfile" in
  match find_dockerfile (search_paths b) dockerfile_name with
  | None => log ERROR ("Dockerfile " ++ dockerfile_name ++ " not found.");; sys_exit 1
  | Some dockerfile_path =>
      let dockerfile_path := realpath fs dockerfile_path in
      let context_path := path_parent dockerfile_path in
      dependencies ← lift_res (conf_deps image_conf);
      generated_tags ← on_fst get;
      build_args_for_manage ← lift_res (manage_args b image_name dependencies generated_tags);
      on_snd (manage_docker_image tag (path_str dockerfile_path) build_args_for_manage
                (path_str context_path) local_image_mode no_cache (repo b));;
      if bool_decide (print_target = Some image_name) then emit (EvOut tag);; sys_exit 0
      else mret ()
  end.

Definition build_images (b : DockerBuilder) (target_images : list str)
    (print_tag_mode no_cache local_flag : bool) : io (tags * X) () :=
  images_to_process ← get_build_order b target_images;
  print_target ← (if print_tag_mode then
                    match target_images with
                    | t :: _ => mret (Some t)
                    | [] => raise IndexError
                    end
                  else mret None);
  for_each images_to_process (build_one b print_target no_cache local_flag);;
  if print_tag_mode then mret ()
  else
    match target_images with
    | _ :: _ => log INFO ("Targeted Docker images " ++ join ", " target_images ++
                          " and dependencies processed successfully.")
    | [] => log INFO "All Docker images processed successfully."
    end.

(** The parsed command line. *)
Record build_args := BuildArgs {
  target_images : list str; print_tag : bool; config : path; search_path : list path;
  local : bool; no_cache : bool; log_file : option path
}.

Definition main (args : build_args) : io (tags * X) () :=
  let has_log := match log_file args with Some _ => true | None => false end in
  on_snd (check_docker_installed has_log);;
  on_snd (check_docker_buildx_installed has_log);;
  builder ← init (config args) (search_path args);
  let all_image_names := dict_keys (image_configs_map builder) in
  (if print_tag args then
     match target_images args with
     | [t] =>
         if bool_decide (t ∈ all_image_names) then mret ()
         else log ERROR ("Target image '" ++ t ++ "' for --print-tag is not a valid image name.");;
              sys_exit 1
     | _ => log ERROR "--print-tag requires exactly one target_image to be specified.";; sys_exit 1
     end
   else
     for_each (target_images args) (λ ti,
       if bool_decide (ti ∈ all_image_names) then mret ()
       else log ERROR ("Specified target image '" ++ ti ++ "' is not a valid image name.");;
            log ERROR ("Choose from: " ++ join ", " all_image_names);;
            sys_exit 1));;
  build_images builder (target_images args) (print_tag args) (no_cache args) (local args).
End Builder.
