(* ===== verification/DockerDeps.v ===== *)
(** * Build order

    The dependency graph of [docker/build.py]: the loop that collects what a
    set of target images depends on, and the order images are processed in. *)
From S2P Require Import Prelude PyStr Json Graph DockerBuild.

(** [y] is named among the dependencies of [x]. *)
Definition dep (g : list (str * gset str)) (x y : str) : Prop :=
  ∃ ds, dict_get x g = Some ds ∧ y ∈ ds.

(** [x] is one of the targets or something they depend on. *)
Definition needed (g : list (str * gset str)) (targets : gset str) (x : str) : Prop :=
  ∃ t, t ∈ targets ∧ rtc (dep g) t x.

Section Deps.
Context `{PySetOrder}.
Context (g : list (str * gset str)).

(** ** The collecting loop *)

Record visit_inv (targets nodes_to_visit visited_nodes : gset str) : Prop := {
  vi_sound x : x ∈ nodes_to_visit ∪ visited_nodes → needed g targets x;
  vi_targets : targets ⊆ nodes_to_visit ∪ visited_nodes;
  vi_closed x y : x ∈ visited_nodes → dep g x y → y ∈ nodes_to_visit ∪ visited_nodes
}.

Lemma dep_universe targets x y : dep g x y → y ∈ universe g targets.
Proof.
  intros (ds & Hds & Hy). unfold universe. apply elem_of_union_r, elem_of_union_list. exists ds. split; [|done].
  apply list_elem_of_fmap. exists (x, ds). split; [done|]. by apply dict_get_elem.
Qed.

Lemma needed_universe targets x : needed g targets x → x ∈ universe g targets.
Proof.
  intros (t & Ht & Hr). destruct (rtc_inv_r _ _ Hr) as [<-|(y & _ & Hy)].
  - unfold universe. by apply elem_of_union_l.
  - by eapply dep_universe.
Qed.

Lemma needed_dep targets x y : needed g targets x → dep g x y → needed g targets y.
Proof. intros (t & ? & ?) ?. exists t. split; [done|]. by eapply rtc_r. Qed.

Lemma elem_of_deps x y : y ∈ default ∅ (dict_get x g) ↔ dep g x y.
Proof. unfold dep. destruct (dict_get x g); simpl; set_solver. Qed.

Lemma visit_step_inv targets cur to_visit visited :
  cur ∈ to_visit → visit_inv targets to_visit visited →
  let st := visit_step g cur (to_visit, visited) in visit_inv targets st.1 st.2.
Proof.
  intros Hcur [H1 H2 H3]. simpl. case_decide as Hv; simpl.
  - split.
    + intros x Hx. apply H1. set_solver.
    + intros x Hx. destruct (decide (x = cur)); set_solver.
    + intros x y Hx Hd. specialize (H3 x y Hx Hd). destruct (decide (y = cur)); set_solver.
  - split.
    + intros x. destruct (decide (x ∈ default ∅ (dict_get cur g))) as [Hd%elem_of_deps|]; [|set_solver].
      intros _. eapply needed_dep; [|exact Hd]. set_solver.
    + intros x Hx. destruct (decide (x = cur)); set_solver.
    + intros x y Hx Hd. destruct (decide (y = cur)); [set_solver|].
      destruct (decide (x = cur)) as [->|]; [|set_solver].
      apply elem_of_deps in Hd. set_solver.
Qed.

Definition visit_measure (targets : gset str) (st : gset str * gset str) : nat :=
  size (universe g targets ∖ st.2) * S (size (universe g targets)) + size st.1.

Lemma visit_step_measure targets cur to_visit visited :
  cur ∈ to_visit → visit_inv targets to_visit visited →
  visit_measure targets (visit_step g cur (to_visit, visited)) < visit_measure targets (to_visit, visited).
Proof.
  intros Hcur Hinv. pose proof (visit_step_inv targets cur _ _ Hcur Hinv) as Hinv'.
  assert (∀ a b, visit_inv targets a b → size a ≤ size (universe g targets)) as Hle.
  { intros a b Hi. apply subseteq_size. intros x Hx.
    eapply needed_universe, (vi_sound _ _ _ Hi). set_solver. }
  apply Hle in Hinv'. unfold visit_measure. simpl in *. case_decide as Hv; simpl in *.
  - assert (size (to_visit ∖ {[cur]}) < size to_visit); [|lia]. apply subset_size. set_solver.
  - assert (size (universe g targets ∖ ({[cur]} ∪ visited)) < size (universe g targets ∖ visited)).
    + apply subset_size. assert (cur ∈ universe g targets); [|set_solver].
      eapply needed_universe, (vi_sound _ _ _ Hinv). set_solver.
    + nia.
Qed.

Lemma visit_end targets visited : visit_inv targets ∅ visited →
  ∀ x, x ∈ visited ↔ needed g targets x.
Proof.
  intros [H1 H2 H3] x. split; [set_solver|]. intros (t & Ht & Hr).
  assert (t ∈ visited) as Hv by set_solver. clear Ht.
  induction Hr as [|x y z Hd _ IH]; [done|]. specialize (H3 x y Hv Hd). set_solver.
Qed.

Lemma visit_loop_spec targets fuel : ∀ to_visit visited,
  visit_inv targets to_visit visited → visit_measure targets (to_visit, visited) ≤ fuel →
  ∃ V, visit_loop g fuel (to_visit, visited) = Some V ∧ ∀ x, x ∈ V ↔ needed g targets x.
Proof.
  induction fuel as [|fuel IH]; intros to_visit visited Hinv Hm; cbn [visit_loop fst snd];
    destruct (set_iter to_visit) as [|cur l] eqn:E;
    try (assert (cur ∈ to_visit) as Hcur by (apply elem_of_set_iter; rewrite E; set_solver);
         pose proof (visit_step_measure targets cur _ _ Hcur Hinv);
         pose proof (visit_step_inv targets cur _ _ Hcur Hinv) as Hinv');
    try (assert (to_visit = ∅) as ->
           by (apply set_eq; intros y; rewrite <-elem_of_set_iter, E; set_solver);
         eauto using visit_end).
  - lia.
  - destruct (visit_step g cur (to_visit, visited)) as [tv v]. apply IH; [done|lia].
Qed.

(** The loop ends, with exactly the nodes the targets need. *)
Lemma visit_loop_needed targets :
  ∃ V, visit_loop g (visit_fuel g targets) (targets, ∅) = Some V ∧ ∀ x, x ∈ V ↔ needed g targets x.
Proof.
  apply visit_loop_spec.
  - split; [|set_solver..]. intros x Hx. exists x. split; [set_solver|done].
  - unfold visit_measure, visit_fuel. simpl.
    assert (size targets ≤ size (universe g targets)) by (apply subseteq_size; unfold universe; set_solver).
    assert (size (universe g targets ∖ ∅) ≤ size (universe g targets)) by (apply subseteq_size; set_solver).
    nia.
Qed.
End Deps.

(** ** Sorting *)

Definition before (o : list str) (y x : str) : Prop :=
  ∃ i j, o !! i = Some y ∧ o !! j = Some x ∧ i < j.

(** A relation and its converse have the same cycles. *)
Lemma tc_converse {A} (R R' : relation A) x y :
  (∀ a b, R a b → R' b a) → tc R x y → tc R' y x.
Proof. intros HR. induction 1 as [|? ? ? ? _ IH]; [by apply tc_once, HR|]. eapply tc_r; [done|]. by apply HR. Qed.

Lemma tc_mono {A} (R R' : relation A) x y : (∀ a b, R a b → R' a b) → tc R x y → tc R' x y.
Proof. intros HR. induction 1 as [|? ? ? ? _ IH]; [by apply tc_once, HR|]. eapply tc_l; [by apply HR|done]. Qed.

Section Sort.
Context `{PySetOrder}.
Context (h : list (str * gset str)) (Hh : NoDup h.*1).

Lemma sorter_graph_wf : graph_wf (sorter_graph h).
Proof.
  unfold graph_wf, sorter_graph. rewrite <-list_fmap_compose.
  by replace (fst ∘ prod_map id set_iter <$> h) with h.*1 by (apply list_fmap_ext; by intros ? [? ?]).
Qed.

Lemma elem_of_sorter_graph n ps :
  (n, ps) ∈ sorter_graph h ↔ ∃ ds, dict_get n h = Some ds ∧ ps = set_iter ds.
Proof.
  unfold sorter_graph. rewrite list_elem_of_fmap. split.
  - intros ([n' ds] & [= -> ->] & Hn). exists ds. split; [|done]. by apply dict_elem_get.
  - intros (ds & Hd & ->). exists (n, ds). split; [done|]. by apply dict_get_elem.
Qed.

Lemma sorter_edge p n : edge (sorter_graph h) p n ↔ dep h n p.
Proof.
  unfold edge, dep. setoid_rewrite elem_of_sorter_graph. split.
  - intros (ps & (ds & ? & ->) & ?%elem_of_set_iter). eauto.
  - intros (ds & ? & ?). exists (set_iter ds). split; [eauto|by apply elem_of_set_iter].
Qed.

Lemma sorter_nodes x :
  x ∈ graph_nodes (sorter_graph h) ↔ x ∈ dict_keys h ∨ ∃ n, dep h n x.
Proof.
  rewrite elem_of_graph_nodes. setoid_rewrite elem_of_sorter_graph. rewrite <-dict_get_Some. split.
  - intros (n & ps & (ds & Hn & ->) & [->|Hx%elem_of_set_iter]); [left; by eexists|right].
    exists n, ds. done.
  - intros [[ds Hds]|(n & ds & ? & ?)]; [exists x|exists n]; exists (set_iter ds);
      (split; [by exists ds|]); [by left|right; by apply elem_of_set_iter].
Qed.

(** Either a topological order of the graph, or the program ends with exit
    code 1 and the graph has a cycle. *)
Lemma sort_or_exit_spec {S : Type} msg (s : S) :
  match io_res (sort_or_exit msg h s) with
  | Ok o => NoDup o ∧ (∀ x, x ∈ o ↔ x ∈ dict_keys h ∨ ∃ n, dep h n x) ∧
            (∀ x y, dep h x y → before o y x) ∧ (∀ x, ¬ tc (dep h) x x)
  | Raise e => e = SystemExit 1 ∧ ∃ x, tc (dep h) x x
  end.
Proof.
  unfold sort_or_exit, try_except, lift_res.
  destruct (static_order (sorter_graph h)) as [o|e] eqn:E.
  - apply (static_order_Ok _ sorter_graph_wf) in E as (Hp & Ht & Hc). cbn.
    split_and!.
    + rewrite Hp. apply graph_nodes_NoDup.
    + intros x. by rewrite Hp, sorter_nodes.
    + intros x y Hd%sorter_edge. by apply Ht.
    + intros x Hx. apply (Hc x). eapply tc_converse; [|exact Hx]. intros a b. apply sorter_edge.
  - apply (static_order_Raise _ sorter_graph_wf) in E as [-> [x Hx]]. cbn. split; [done|].
    exists x. eapply tc_converse; [|exact Hx]. intros a b. apply sorter_edge.
Qed.
End Sort.

(** ** Subgraphs *)

Section Subgraph.
Context `{PySetOrder}.
Context (g : list (str * gset str)) (V : gset str).

Lemma dict_get_omap (l : list str) n :
  dict_get n (omap (λ node, (λ deps, (node, deps)) <$> dict_get node g) l) =
    if bool_decide (n ∈ l) then dict_get n g else None.
Proof.
  induction l as [|m l IH]; csimpl; [done|]. destruct (decide (n = m)) as [->|Hnm].
  - rewrite bool_decide_eq_true_2 by set_solver. destruct (dict_get m g) as [ds|] eqn:E; csimpl.
    + by rewrite decide_True.
    + rewrite IH. by case_bool_decide.
  - rewrite (bool_decide_ext (n ∈ m :: l) (n ∈ l)) by (rewrite elem_of_cons; tauto).
    destruct (dict_get m g) as [ds|] eqn:E; csimpl; [rewrite decide_False by done|]; apply IH.
Qed.

Lemma subgraph_get n : dict_get n (subgraph g V) = if bool_decide (n ∈ V) then dict_get n g else None.
Proof.
  unfold subgraph. rewrite dict_get_omap.
  by rewrite (bool_decide_ext (n ∈ set_iter V) (n ∈ V)) by apply elem_of_set_iter.
Qed.

Lemma omap_keys_NoDup (l : list str) : NoDup l →
  NoDup (omap (λ node, (λ deps, (node, deps)) <$> dict_get node g) l).*1.
Proof.
  induction 1 as [|m l Hm Hl IH]; csimpl; [constructor|].
  destruct (dict_get m g) as [ds|]; csimpl; [|done]. apply NoDup_cons. split; [|done].
  intros ([m' d] & -> & (k & Hk & Hd)%list_elem_of_omap)%list_elem_of_fmap.
  destruct (dict_get k g); naive_solver.
Qed.

Lemma subgraph_NoDup : NoDup (subgraph g V).*1.
Proof. apply omap_keys_NoDup, NoDup_set_iter. Qed.

Lemma subgraph_dep x y : dep (subgraph g V) x y ↔ x ∈ V ∧ dep g x y.
Proof. unfold dep. rewrite subgraph_get. case_bool_decide; naive_solver. Qed.
End Subgraph.

(** ** The build order *)

(** [y] is named in the [deps] of the configuration of image [x]. *)
Definition image_dep (configs : list (str * json)) (x y : str) : Prop :=
  ∃ conf deps, dict_get x configs = Some conf ∧ conf_deps conf = Ok deps ∧ y ∈ deps.*2.

(** Every configuration has a dictionary of image names under [deps]. *)
Definition configs_typed (configs : list (str * json)) : Prop :=
  ∀ n conf, (n, conf) ∈ configs → ∃ deps, conf_deps conf = Ok deps.

(** No targets means all images. *)
Definition targets_or_all (configs : list (str * json)) (targets : list str) : list str :=
  match targets with [] => dict_keys configs | _ => targets end.

(** The images a run is about. *)
Definition wanted (configs : list (str * json)) (targets : list str) (x : str) : Prop :=
  ∃ t, t ∈ targets_or_all configs targets ∧ rtc (image_dep configs) t x.

Lemma full_graph_spec configs : configs_typed configs → ∃ g, full_graph configs = Ok g ∧
  dict_keys g = dict_keys configs ∧ ∀ x y, dep g x y ↔ image_dep configs x y.
Proof.
  unfold dict_keys. induction configs as [|[n conf] configs IH]; intros Ht.
  { exists []. split_and!; [done..|]. intros x y. split; [by intros (? & ? & ?)|by intros (? & ? & ? & ?)]. }
  destruct IH as (g & Hg & Hk & Hd). { intros n' conf' ?. eapply (Ht n'). set_solver. }
  destruct (Ht n conf) as [deps Hdeps]; [set_solver|].
  exists ((n, list_to_set deps.*2) :: g). cbn [full_graph]. rewrite Hdeps. cbn [mbind res_bind].
  rewrite Hg. split_and!; [done|csimpl; by rewrite Hk|].
  intros x y. specialize (Hd x y). unfold dep, image_dep in *. cbn [dict_get].
  case_decide; subst; [|done]. split.
  - intros (ds & [= <-] & ?%elem_of_list_to_set). eauto.
  - intros (conf' & deps' & [= <-] & Hd' & ?). rewrite Hdeps in Hd'. injection Hd' as <-.
    eexists. split; [done|]. by apply elem_of_list_to_set.
Qed.

Lemma rtc_dep_iff g configs x y : (∀ x y, dep g x y ↔ image_dep configs x y) →
  rtc (dep g) x y ↔ rtc (image_dep configs) x y.
Proof.
  intros Hd. split; (induction 1; [done|]); (eapply rtc_l; [|done]); by apply Hd.
Qed.

Section BuildOrder.
Context `{PySetOrder}.
Context (configs : list (str * json)) (Hnd : NoDup (dict_keys configs)) (Hty : configs_typed configs).

(** What both branches of [get_build_order] establish. *)
Definition order_result (targets : list str) (r : res (list str)) : Prop :=
  match r with
  | Ok o => NoDup o ∧ (∀ x, x ∈ o ↔ wanted configs targets x) ∧
            (∀ x y, x ∈ o → image_dep configs x y → before o y x) ∧
            (∀ x, wanted configs targets x → ¬ tc (image_dep configs) x x)
  | Raise e => e = SystemExit 1 ∧ ∃ x, wanted configs targets x ∧ tc (image_dep configs) x x
  end.

Lemma wanted_dep targets x y : wanted configs targets x → image_dep configs x y → wanted configs targets y.
Proof. intros (t & ? & ?) ?. exists t. split; [done|]. by eapply rtc_r. Qed.

(** The nodes of a graph on the wanted images. *)
Lemma order_result_sub targets h {S : Type} msg (s : S) :
  NoDup h.*1 →
  (∀ t, t ∈ targets_or_all configs targets → t ∈ dict_keys configs) →
  (∀ x, x ∈ dict_keys h ↔ wanted configs targets x ∧ x ∈ dict_keys configs) →
  (∀ x y, dep h x y ↔ wanted configs targets x ∧ image_dep configs x y) →
  order_result targets (io_res (sort_or_exit msg h s)).
Proof.
  intros Hh Ht Hk Hd. pose proof (sort_or_exit_spec h Hh msg s) as Hs.
  destruct (io_res _) as [o|e]; simpl.
  - destruct Hs as (Ho & Hin & Hb & Hc).
    assert (∀ x, x ∈ o ↔ wanted configs targets x) as Ho'.
    { intros x. rewrite Hin, Hk. setoid_rewrite Hd. split.
      - intros [[? _]|(n & ? & ?)]; [done|]. by eapply wanted_dep.
      - intros Hx. destruct Hx as (t & Htt & Hr). destruct (rtc_inv_r _ _ Hr) as [<-|(y & Hy & Hyx)].
        + left. split; [|by apply Ht]. by exists t.
        + right. exists y. split; [|done]. by exists t. }
    split_and!; [done..| |].
    + intros x y Hx Hxy. apply Hb, Hd. split; [by apply Ho'|done].
    + intros x Hx Hcy. apply (Hc x). clear Ht Hk Hin Hb Hc Ho Ho'.
      revert Hcy. generalize x at 2 4. intros z Hcy. induction Hcy as [x y ?|x y z ? _ IH]; [by apply tc_once, Hd|].
      eapply tc_l; [by apply Hd|]. apply IH. by eapply wanted_dep.
  - destruct Hs as [-> [x Hx]]. split; [done|]. exists x. split.
    + assert (∃ y, dep h x y) as [y Hy] by (inversion Hx; eauto). by apply Hd in Hy as [? _].
    + eapply tc_mono; [|exact Hx]. intros a b [_ ?]%Hd. done.
Qed.

Lemma get_dependency_subgraph_result targets {S : Type} (s : S) :
  targets ≠ [] → (∀ t, t ∈ targets → t ∈ dict_keys configs) →
  order_result targets (io_res (get_dependency_subgraph targets configs s)).
Proof.
  intros Hne Ht. destruct (full_graph_spec configs Hty) as (g & Hg & Hk & Hd).
  destruct (visit_loop_needed g (list_to_set targets)) as (V & HV & Hin).
  unfold get_dependency_subgraph, lift_res, mbind, io_bind. rewrite Hg, HV.
  assert (∀ x, x ∈ V ↔ wanted configs targets x) as Hw.
  { intros x. rewrite Hin. unfold needed, wanted. destruct targets; [done|]. cbn [targets_or_all].
    setoid_rewrite elem_of_list_to_set. by setoid_rewrite (rtc_dep_iff g configs _ _ Hd). }
  assert (order_result targets (io_res (sort_or_exit "Cycle detected in dependencies: " (subgraph g V) s))) as Hr.
  { apply order_result_sub.
    - apply subgraph_NoDup.
    - destruct targets; [done|]. done.
    - intros x. rewrite <-Hw, <-Hk, <-!dict_get_Some, subgraph_get.
      case_bool_decide; [tauto|]. split; [by intros [? ?]|tauto].
    - intros x y. by rewrite subgraph_dep, Hw, Hd. }
  by destruct (sort_or_exit _ _ s) as [[? ?] r].
Qed.
End BuildOrder.

(** Both branches of [get_build_order]. *)
Lemma get_build_order_result `{PySetOrder} (b : DockerBuilder) (targets : list str) {S : Type} (s : S) :
  NoDup (dict_keys (image_configs_map b)) → configs_typed (image_configs_map b) →
  (∀ t, t ∈ targets → t ∈ dict_keys (image_configs_map b)) →
  order_result (image_configs_map b) targets (io_res (get_build_order b targets s)).
Proof.
  intros Hnd Hty Ht. destruct targets as [|t targets]; cbn [get_build_order].
  - destruct (full_graph_spec _ Hty) as (g & Hg & Hk & Hd).
    assert (order_result (image_configs_map b) [] (io_res
      (sort_or_exit "Cycle detected in image dependencies: " g s))) as Hr.
    { assert (∀ x, x ∈ dict_keys g → wanted (image_configs_map b) [] x) as Hw.
      { intros x Hx. exists x. cbn. rewrite <-Hk. done. }
      apply order_result_sub.
      - by rewrite <-Hk in Hnd.
      - done.
      - intros x. rewrite <-Hk. split; [|tauto]. intros. split; [by apply Hw|done].
      - intros x y. rewrite Hd. split; [|tauto]. intros Hxy. split; [|done]. apply Hw.
        apply Hd in Hxy as (ds & ? & _). apply dict_get_Some. by eexists. }
    unfold lift_res, mbind, io_bind. rewrite Hg.
    by destruct (sort_or_exit _ g s) as [[? ?] [o|e]].
  - pose proof (get_dependency_subgraph_result _ Hty (t :: targets) s ltac:(done) Ht) as Hr.
    unfold mbind, io_bind.
    by destruct (get_dependency_subgraph _ _ s) as [[? ?] [o|e]].
Qed.

(** C5: [get_build_order] ends, whatever order sets iterate in.  For a
    loadable configuration and existing targets (none meaning all images) it
    returns, without repetition, exactly the targets and what they depend on,
    directly or through other images, every image after its dependencies; or
    it exits with code 1 because a wanted image depends on itself. *)
Theorem get_build_order_correct `{PySetOrder} (b : DockerBuilder) (targets : list str) {S : Type} (s : S) :
  NoDup (dict_keys (image_configs_map b)) → configs_typed (image_configs_map b) →
  (∀ t, t ∈ targets → t ∈ dict_keys (image_configs_map b)) →
  order_result (image_configs_map b) targets (io_res (get_build_order b targets s)).
Proof. apply get_build_order_result. Qed.
