(* ===== verification/DockerTags.v ===== *)
(** * Image tags

    [calculate_tag_for_image] keeps the tags it has computed in a dictionary.
    Here it is compared with [tag_ref], the tag as a plain recursive function
    of the configuration and the Dockerfiles. *)
From S2P Require Import Prelude PyStr Json Sha256 PyPath Fs DockerConfig DockerBuild.

Definition res_option {A} (r : res A) : option A := match r with Ok a => Some a | Raise _ => None end.

(** A step of a list-valued [mapM] seen as a relation. *)
Lemma mapM_mono {A B} (f f' : A → option B) l k :
  (∀ x y, f x = Some y → f' x = Some y) → mapM f l = Some k → mapM f' l = Some k.
Proof.
  intros Hf. rewrite !mapM_Some. intros H. eapply Forall2_impl; [exact H|]. auto.
Qed.

Section Tags.
Context `{HexDigest} (fs : fsys) (b : DockerBuilder).

(** The build arguments an image is hashed with. *)
Definition hashed_args (n : str) (deps : list (str * str)) (dep_tags : list str) : list str :=
  py_sorted (zip_with (λ ad t, assign (ad.1, t)) deps dep_tags ++ (assign <$> extra_args b n)).

(** The tag of an image whose chains of dependencies have less than [height]
    links. *)
Fixpoint tag_ref (height : nat) (n : str) : option str :=
  match height with
  | O => None
  | S h =>
      conf ← dict_get n (image_configs_map b);
      deps ← res_option (conf_deps conf);
      p ← find_dockerfile fs (search_paths b) (n ++ ".Dockerfile");
      dep_tags ← mapM (λ ad, tag_ref h ad.2) deps;
      sha ← res_option (calculate_sha256 fs (realpath fs p) (hashed_args n deps dep_tags));
      Some (get_image_tag b n sha)
  end.

(** [t] is the tag of image [n]. *)
Definition tag_of (n t : str) : Prop := ∃ h, tag_ref h n = Some t.

Lemma tag_ref_S h : ∀ n t, tag_ref h n = Some t → tag_ref (S h) n = Some t.
Proof.
  induction h as [|h IH]; intros n t; [done|]. cbn [tag_ref]. intros Ht.
  destruct (dict_get n _) as [conf|]; [|done].
  cbn [mbind option_bind] in *. destruct (res_option (conf_deps conf)) as [deps|]; [|done].
  cbn [mbind option_bind] in *. destruct (find_dockerfile _ _ _) as [p|]; [|done].
  cbn [mbind option_bind] in *. destruct (mapM _ _) as [ts|] eqn:E; [|done].
  erewrite mapM_mono; [exact Ht| |exact E]. intros [a d] y. apply IH.
Qed.

Lemma tag_ref_mono h h' n t : h ≤ h' → tag_ref h n = Some t → tag_ref h' n = Some t.
Proof. induction 1; auto using tag_ref_S. Qed.

Lemma tag_of_unique n t t' : tag_of n t → tag_of n t' → t = t'.
Proof.
  intros [h Hh] [h' Hh']. apply (tag_ref_mono h (h `max` h')) in Hh; [|lia].
  apply (tag_ref_mono h' (h `max` h')) in Hh'; [|lia]. congruence.
Qed.

(** The tags of finitely many images have a common height. *)
Lemma tag_of_height {A} (f : A → str) l ts : Forall2 (λ a t, tag_of (f a) t) l ts →
  ∃ h, mapM (λ a, tag_ref h (f a)) l = Some ts.
Proof.
  induction 1 as [|a t l ts [h Hh] _ [h' Hh']]; [by exists 0|].
  exists (h `max` h'). cbn [mapM]. rewrite (tag_ref_mono h _ (f a) t); [|lia|done].
  erewrite mapM_mono; [done| |exact Hh']. intros x y. apply tag_ref_mono. lia.
Qed.

(** ** The memo table *)

Definition tags_ok (tg : tags) : Prop := ∀ k t, dict_get k tg = Some t → tag_of k t.
Definition tags_le (tg tg' : tags) : Prop := ∀ k t, dict_get k tg = Some t → dict_get k tg' = Some t.

#[export] Instance tags_le_po : PreOrder tags_le.
Proof. split; [by intros ? ? ?|]. intros ? ? ? H1 H2 k t Hk. by apply H2, H1. Qed.

Lemma tags_set tg n t : tags_ok tg → tag_of n t →
  tags_ok (dict_set n t tg) ∧ tags_le tg (dict_set n t tg).
Proof.
  intros Hok Ht. split; intros k u; rewrite dict_get_set; case_decide; subst.
  - by intros [= <-].
  - apply Hok.
  - intros Hu%Hok. f_equal. by eapply tag_of_unique.
  - done.
Qed.

(** What a run of [calculate_tag_for_image] guarantees. *)
Record tag_run (depth : nat) (n : str) (tg : tags) (r : list event * tags * res str) : Prop := {
  tr_ok : tags_ok (io_state r);
  tr_le : tags_le tg (io_state r);
  tr_sound t : io_res r = Ok t → tag_of n t ∧ dict_get n (io_state r) = Some t;
  tr_complete h t : h ≤ depth → tag_ref h n = Some t → io_res r = Ok t
}.

(** The loop over the dependencies. *)
Lemma dep_tags_run depth (body : list str → str * str → io tags (list str)) deps :
  (∀ args ad tg, tags_ok tg → ∃ r, tag_run depth ad.2 tg r ∧
     body args ad tg = (io_trace r, io_state r, (λ t, args ++ [assign (ad.1, t)]) <$> io_res r)) →
  ∀ args tg, tags_ok tg → let r := fold_io body args deps tg in
    tags_ok (io_state r) ∧ tags_le tg (io_state r) ∧
    (∀ args', io_res r = Ok args' → ∃ ts, Forall2 (λ ad t, tag_of ad.2 t) deps ts ∧
       args' = args ++ zip_with (λ ad t, assign (ad.1, t)) deps ts) ∧
    (∀ h ts, h ≤ depth → mapM (λ ad, tag_ref h ad.2) deps = Some ts → ∃ args', io_res r = Ok args').
Proof.
  intros Hbody. induction deps as [|ad deps IH]; intros args tg Hok; cbn [fold_io].
  { cbn. split_and!; [done|done| |eauto]. intros args' [= <-]. exists []. split; [constructor|].
    by rewrite app_nil_r. }
  destruct (Hbody args ad tg Hok) as ([[tr tg1] q] & [H1 H2 H3 H4] & Hb).
  unfold mbind, io_bind. rewrite Hb. cbn [io_trace io_state io_res fst snd fmap res_fmap] in *.
  destruct q as [t|e]; cbn [res_fmap fmap] in *.
  - destruct (IH (args ++ [assign (ad.1, t)]) tg1 H1) as (J1 & J2 & J3 & J4).
    destruct (fold_io _ _ deps tg1) as [[tr' tg2] q']. cbn [io_state io_res fst snd] in *.
    split_and!; [done|by etrans| |].
    + intros args' Ha. destruct (J3 _ Ha) as (ts & ? & ->). exists (t :: ts).
      split; [constructor; [by apply H3|done]|]. cbn [zip_with]. by rewrite <-app_assoc.
    + intros h ts Hh Hts. cbn [mapM mbind option_bind] in Hts.
      destruct (tag_ref h ad.2); [|done]. cbn [mbind option_bind] in Hts.
      destruct (mapM _ deps) eqn:E; [|done]. by eapply J4.
  - cbn. split_and!; [done|done|done|]. intros h ts Hh Hts. cbn [mapM mbind option_bind] in Hts.
    destruct (tag_ref h ad.2) as [t|] eqn:E; [|done]. by pose proof (H4 h t Hh E).
Qed.

(** Emitting a log record changes neither state nor result. *)
Lemma tag_run_log depth n tg l msg (m : io tags str) :
  tag_run depth n tg (m tg) → tag_run depth n tg ((log l msg;; m) tg).
Proof.
  intros [H1 H2 H3 H4]. unfold log, emit, mbind, io_bind. destruct (m tg) as [[? ?] ?]. by split.
Qed.

Lemma tag_run_raise depth n tg e : tags_ok tg → (∀ h, tag_ref h n = None) →
  tag_run depth n tg (raise e tg).
Proof. intros ? Hn. split; cbn; [done..|]. intros h t _ Ht. by rewrite Hn in Ht. Qed.

Lemma tag_ref_unfold h n conf deps p t :
  dict_get n (image_configs_map b) = Some conf → conf_deps conf = Ok deps →
  find_dockerfile fs (search_paths b) (n ++ ".Dockerfile") = Some p →
  tag_ref (S h) n = Some t ↔ ∃ ts sha, mapM (λ ad, tag_ref h ad.2) deps = Some ts ∧
    calculate_sha256 fs (realpath fs p) (hashed_args n deps ts) = Ok sha ∧ t = get_image_tag b n sha.
Proof.
  intros Hc Hd Hp. cbn [tag_ref]. rewrite Hc. cbn [mbind option_bind]. rewrite Hd. cbn [res_option].
  rewrite Hp. cbn [mbind option_bind]. destruct (mapM _ _) as [ts|]; cbn [mbind option_bind].
  - destruct (calculate_sha256 _ _ (hashed_args n deps ts)) as [sha|e] eqn:E; cbn; split.
    + intros [= <-]. eauto.
    + intros (? & ? & [= <-] & Hs & ->). rewrite E in Hs. by injection Hs as <-.
    + done.
    + intros (? & ? & [= <-] & Hs & _). by rewrite E in Hs.
  - split; [done|]. by intros (? & ? & ? & _).
Qed.

Lemma mapM_tag_of h deps ts ts' : Forall2 (λ ad : str * str, tag_of ad.2) deps ts →
  mapM (λ ad, tag_ref h ad.2) deps = Some ts' → ts' = ts.
Proof.
  rewrite mapM_Some. intros Hts. revert ts'.
  induction Hts as [|ad t deps ts Ht _ IH]; intros ts' Hts'; inversion Hts'; subst; [done|].
  f_equal; [|by apply IH]. eapply tag_of_unique; [by exists h|done].
Qed.

Lemma calculate_tag_run depth : ∀ n tg, tags_ok tg → tag_run depth n tg (calculate_tag_for_image fs depth b n tg).
Proof.
  induction depth as [|depth IH]; intros n tg Hok; cbn [calculate_tag_for_image].
  { split; cbn; [done..|]. intros h t Hh Ht. assert (h = 0) as -> by lia. done. }
  rewrite bind_get. destruct (dict_get n tg) as [t|] eqn:Etg.
  { split; cbn; [done..| |].
    - intros ? [= <-]. split; [by apply Hok|done].
    - intros h t' _ Ht. f_equal. eapply tag_of_unique; [by apply Hok|by exists h]. }
  apply tag_run_log. destruct (dict_get n (image_configs_map b)) as [conf|] eqn:Econf.
  2: { rewrite bind_lift_Raise. apply tag_run_raise; [done|]. intros [|h]; [done|]. cbn. by rewrite Econf. }
  rewrite bind_lift_Ok. destruct (conf_deps conf) as [deps|e] eqn:Edeps.
  2: { rewrite bind_lift_Raise. apply tag_run_raise; [done|]. intros [|h]; [done|]. cbn.
       rewrite Econf. cbn. by rewrite Edeps. }
  rewrite bind_lift_Ok. destruct (find_dockerfile _ _ _) as [p|] eqn:Ep.
  2: { apply tag_run_log, tag_run_raise; [done|]. intros [|h]; [done|]. cbn [tag_ref].
       rewrite Econf. cbn [mbind option_bind]. rewrite Edeps. cbn [res_option]. by rewrite Ep. }
  set (body := λ args ad, dep_tag ← calculate_tag_for_image fs depth b ad.2; _).
  destruct (dep_tags_run depth body deps) with (args := @nil str) (tg := tg)
    as (H1 & H2 & H3 & H4); [|done|].
  { intros args ad tg' Hok'. exists (calculate_tag_for_image fs depth b ad.2 tg').
    split; [by apply IH|]. unfold body, mbind, io_bind.
    destruct (calculate_tag_for_image _ _ _ _ _) as [[? ?] [?|?]]; [|done]. cbn. by rewrite app_nil_r. }
  unfold mbind at 1, io_bind at 1.
  destruct (fold_io body [] deps tg) as [[tr tg1] [args|e]]; cbn [io_state io_res fst snd] in *.
  2: { split; [done..|]. intros [|h] t Hh Ht; [done|].
       apply (tag_ref_unfold h n conf deps p) in Ht as (ts & sha & Hts & _); [|done..].
       by destruct (H4 h ts) as [? ?]; [lia|..]. }
  destruct (H3 args eq_refl) as (ts & Hts & ->). cbn [app]. fold (hashed_args n deps ts).
  destruct (calculate_sha256 _ _ _) as [sha|e] eqn:Esha.
  2: { split; [done..|]. cbn. intros [|h] t Hh Ht; [done|].
       apply (tag_ref_unfold h n conf deps p) in Ht as (ts' & sha & Hts' & Hsha & _); [|done..].
       apply (mapM_tag_of _ _ ts) in Hts' as ->; [|done]. by rewrite Esha in Hsha. }
  assert (tag_of n (get_image_tag b n sha)) as Htag.
  { destruct (tag_of_height snd deps ts Hts) as [h Hh]. exists (S h).
    apply (tag_ref_unfold h n conf deps p); [done..|]. by exists ts, sha. }
  rewrite bind_lift_Ok, bind_get, bind_put. destruct (tags_set tg1 n _ H1 Htag) as [? ?].
  split; cbn; [done|by etrans| |].
  - intros t [= <-]. split; [done|apply dict_get_set_eq].
  - intros h t Hh Ht. by rewrite (tag_of_unique n _ t Htag (ex_intro _ h Ht)).
Qed.
End Tags.

(** ** A sample project

    Two images, the second built on the first. *)
Definition sample_deps : str :=
  dq "{'app': {'deps': {'BASE_IMAGE': 'base'}}, 'base': {'deps': {}}}".
Definition sample_devkit : str :=
  dq "{'docker': {'registry': {'host': 'h', 'project': 'p', 'repository': 'r', 'namespace': 'n'},
       'images': {'app': {'packages': {'curl': '*'}}}}}".
Definition sample_fs : fsys :=
  {| fs_root := NDir
       [("devkit.json", NFile sample_devkit);
        ("images", NDir [("deps.json", NFile sample_deps);
                         ("app.Dockerfile", NFile "FROM ${BASE_IMAGE}");
                         ("base.Dockerfile", NFile "FROM scratch")])];
     fs_cwd := [] |}.

Definition sample_configs : list (str * json) :=
  [("app", JDict [("deps", JDict [("BASE_IMAGE", JStr "base")])]); ("base", JDict [("deps", JDict [])])].
Definition sample_builder : DockerBuilder :=
  {| config_path := path_of_str "/devkit.json"; search_paths := [path_of_str "/images"];
     repo := "h/p/r"; namespace := "devkit/n"; arch := "amd64";
     extra_packages_map := [("app", ["curl=*"])]; extra_keys_map := [];
     extra_repositories_map := []; image_configs_map := sample_configs |}.

Definition sample_base_tag : str :=
  "h/p/r/devkit/n/base:amd64-67c4282c6928ae380489b6392127b14bb16d8c2f5ba5fa285a934f4f94387b5e".
Definition sample_app_tag : str :=
  "h/p/r/devkit/n/app:amd64-e189371aee55e979a70cb30a91423fbd72899bf9add626174f3d522f93839f91".

(** ** Claims *)

(** C3: started from a table of correct tags, [calculate_tag_for_image] keeps
    the table correct and loses no entry; a tag it returns is the image's tag
    and is in the table; and an image whose tag exists at a height within the
    recursion limit gets it, so the table never changes a result. *)
Theorem calculate_tag_for_image_correct `{HexDigest} fs b depth n tg :
  tags_ok fs b tg →
  let r := calculate_tag_for_image fs depth b n tg in
  tags_ok fs b (io_state r) ∧ tags_le tg (io_state r) ∧
  (∀ t, io_res r = Ok t → tag_of fs b n t ∧ dict_get n (io_state r) = Some t) ∧
  (∀ h t, h ≤ depth → tag_ref fs b h n = Some t → io_res r = Ok t).
Proof. intros Hok. by destruct (calculate_tag_run fs b depth n tg Hok). Qed.

(** *** The order of declarations *)

(** Two configurations that name the same images with the same dependencies,
    in any order. *)
Definition same_deps (c1 c2 : list (str * json)) : Prop := ∀ n,
  match dict_get n c1, dict_get n c2 with
  | Some j1, Some j2 =>
      match conf_deps j1, conf_deps j2 with
      | Ok d1, Ok d2 => d1 ≡ₚ d2
      | Raise _, Raise _ => True
      | _, _ => False
      end
  | None, None => True
  | _, _ => False
  end.

Definition with_configs (b : DockerBuilder) (configs : list (str * json)) : DockerBuilder :=
  {| config_path := config_path b; search_paths := search_paths b; repo := repo b;
     namespace := namespace b; arch := arch b; extra_packages_map := extra_packages_map b;
     extra_keys_map := extra_keys_map b; extra_repositories_map := extra_repositories_map b;
     image_configs_map := configs |}.

Definition opt_perm {A} (o1 o2 : option (list A)) : Prop :=
  match o1, o2 with Some a, Some b => a ≡ₚ b | None, None => True | _, _ => False end.

Lemma mapM_perm {A B} (f : A → option B) l k : l ≡ₚ k → opt_perm (mapM f l) (mapM f k).
Proof.
  induction 1 as [|x l k _ IH|x y l|l m k _ IH1 _ IH2]; cbn [mapM].
  - constructor.
  - destruct (f x); [|done]. cbn. destruct (mapM f l), (mapM f k); cbn in *; try done. by f_equiv.
  - destruct (f x), (f y); cbn; try done. destruct (mapM f l); cbn; [apply Permutation_swap|done].
  - destruct (mapM f l), (mapM f m), (mapM f k); cbn in *; try done. by etrans.
Qed.

(** The assignments of dependencies and their tags. *)
Lemma mapM_assign (f : str → option str) deps :
  mapM (λ ad : str * str, (λ t, assign (ad.1, t)) <$> f ad.2) deps =
  zip_with (λ ad t, assign (ad.1, t)) deps <$> mapM (λ ad, f ad.2) deps.
Proof.
  induction deps as [|[a d] deps IH]; [done|]. cbn [mapM fst snd]. rewrite IH.
  destruct (f d); [|done]. by destruct (mapM (λ ad, f ad.2) deps).
Qed.

Section Order.
Context `{HexDigest} (fs : fsys) (b : DockerBuilder) (c1 c2 : list (str * json)) (Hc : same_deps c1 c2).

Lemma tag_ref_same h : ∀ n, tag_ref fs (with_configs b c1) h n = tag_ref fs (with_configs b c2) h n.
Proof.
  induction h as [|h IH]; intros n; [done|]. cbn [tag_ref image_configs_map with_configs search_paths].
  specialize (Hc n). destruct (dict_get n c1) as [j1|], (dict_get n c2) as [j2|]; try done.
  cbn [mbind option_bind]. destruct (conf_deps j1) as [d1|], (conf_deps j2) as [d2|]; try done.
  cbn [res_option mbind option_bind]. destruct (find_dockerfile _ _ _) as [p|]; [|done].
  cbn [mbind option_bind].
  pose proof (mapM_perm (λ ad : str * str, (λ t, assign (ad.1, t)) <$>
    tag_ref fs (with_configs b c1) h ad.2) d1 d2 Hc) as Hp. rewrite !mapM_assign in Hp.
  rewrite (mapM_ext (λ ad : str * str, tag_ref fs (with_configs b c2) h ad.2)
    (λ ad, tag_ref fs (with_configs b c1) h ad.2) d2) by (intros ad; by rewrite IH).
  destruct (mapM _ d1) as [t1|], (mapM _ d2) as [t2|]; try done. cbn [mbind option_bind].
  cbn in Hp. unfold hashed_args. by rewrite Hp.
Qed.
End Order.

(** C27: the tag of an image does not depend on the order in which the
    configuration lists images or the dependencies of an image, nor on what is
    already in the table of tags. *)
Theorem tag_order_independent `{HexDigest} fs b c1 c2 depth1 depth2 tg1 tg2 n t1 t2 :
  same_deps c1 c2 → tags_ok fs (with_configs b c1) tg1 → tags_ok fs (with_configs b c2) tg2 →
  io_res (calculate_tag_for_image fs depth1 (with_configs b c1) n tg1) = Ok t1 →
  io_res (calculate_tag_for_image fs depth2 (with_configs b c2) n tg2) = Ok t2 →
  t1 = t2.
Proof.
  intros Hc Hok1 Hok2 H1 H2.
  apply (tr_sound _ _ _ _ _ _ (calculate_tag_run fs _ depth1 n tg1 Hok1)) in H1 as [H1 _].
  apply (tr_sound _ _ _ _ _ _ (calculate_tag_run fs _ depth2 n tg2 Hok2)) in H2 as [[h2 H2] _].
  eapply tag_of_unique; [exact H1|]. exists h2. by rewrite (tag_ref_same fs b c1 c2 Hc).
Qed.

(** *** Concatenated arguments *)

Lemma py_encode_app a b : py_encode (a ++ b) = (x ← py_encode a; y ← py_encode b; Ok (x ++ y)).
Proof.
  unfold py_encode, utf8_encode. rewrite existsb_app, fmap_app, concat_app.
  by destruct (existsb _ a), (existsb _ b).
Qed.

Lemma encode_all_concat args : encode_all args = py_encode (concat args).
Proof.
  induction args as [|a args IH]; cbn [encode_all concat]; [done|]. by rewrite py_encode_app, IH.
Qed.

(** The digest sees only the concatenation of the arguments. *)
Lemma calculate_sha256_concat `{HexDigest} fs p args1 args2 : concat args1 = concat args2 →
  calculate_sha256 fs p args1 = calculate_sha256 fs p args2.
Proof. intros Hc. unfold calculate_sha256. by rewrite !encode_all_concat, Hc. Qed.

(** The builder with other packages and keys for one image. *)
Definition with_settings (b : DockerBuilder) (n : str) (packages keys : list str) : DockerBuilder :=
  {| config_path := config_path b; search_paths := search_paths b; repo := repo b;
     namespace := namespace b; arch := arch b;
     extra_packages_map := dict_set n packages (extra_packages_map b);
     extra_keys_map := dict_set n keys (extra_keys_map b);
     extra_repositories_map := extra_repositories_map b; image_configs_map := image_configs_map b |}.

(** The argument of a map, when it has values for the image. *)
Definition setting_arg (name : str) (values : list str) : list (str * str) :=
  match values with [] => [] | _ => [(name, join " " values)] end.

Lemma extra_args_settings b n packages keys :
  extra_args (with_settings b n packages keys) n =
    setting_arg "EXTRA_PACKAGES" packages ++ setting_arg "EXTRA_KEYS" keys ++
    setting_arg "EXTRA_REPOSITORIES" (default [] (dict_get n (extra_repositories_map b))).
Proof.
  unfold extra_args. cbn [with_settings extra_packages_map extra_keys_map extra_repositories_map].
  cbn [omap list_omap fst snd]. rewrite !dict_get_set_eq. cbn [default].
  by destruct packages, keys, (default [] (dict_get n (extra_repositories_map b))).
Qed.

(** The arguments in the order they are hashed in. *)
Lemma sorted_settings b n packages keys :
  py_sorted (assign <$> extra_args (with_settings b n packages keys) n) =
    (assign <$> setting_arg "EXTRA_KEYS" keys) ++ (assign <$> setting_arg "EXTRA_PACKAGES" packages) ++
    (assign <$> setting_arg "EXTRA_REPOSITORIES" (default [] (dict_get n (extra_repositories_map b)))).
Proof.
  rewrite extra_args_settings, !fmap_app.
  rewrite (py_sorted_unique _ ((assign <$> setting_arg "EXTRA_KEYS" keys) ++ (assign <$> setting_arg "EXTRA_PACKAGES" packages) ++
    (assign <$> setting_arg "EXTRA_REPOSITORIES" (default [] (dict_get n (extra_repositories_map b)))))) by solve_Permutation.
  apply py_sorted_sorted. by destruct keys, packages, (default [] (dict_get n (extra_repositories_map b))); repeat constructor.
Qed.

(** The tag of an image without dependencies depends on the concatenation of
    its extra arguments only. *)
Lemma calculate_tag_concat `{HexDigest} fs b n conf p1 k1 p2 k2 depth tg :
  dict_get n (image_configs_map b) = Some conf → conf_deps conf = Ok [] →
  concat (py_sorted (assign <$> extra_args (with_settings b n p1 k1) n)) =
  concat (py_sorted (assign <$> extra_args (with_settings b n p2 k2) n)) →
  calculate_tag_for_image fs depth (with_settings b n p1 k1) n tg =
  calculate_tag_for_image fs depth (with_settings b n p2 k2) n tg.
Proof.
  intros Hc Hd Ha. destruct depth as [|depth]; [done|]. cbn [calculate_tag_for_image with_settings image_configs_map search_paths].
  rewrite !bind_get. destruct (dict_get n tg) as [t|]; [done|].
  unfold mbind, io_bind, lift_res, log, emit, mret, io_ret, get, put. rewrite Hc, Hd.
  destruct (find_dockerfile fs (search_paths b) (n ++ ".Dockerfile")) as [p|]; [|done].
  cbn [fold_io]. unfold mret, io_ret. cbn [app]. by rewrite (calculate_sha256_concat fs (realpath fs p) _ _ Ha).
Qed.

(** C37: the digest of a tag runs over the build arguments without delimiters.
    For every image without dependencies, every keys and packages for it, and
    whatever the hash function, moving the packages to the end of the keys, as
    the text of their argument, gives the image the same tag, though other
    arguments are passed to its build. *)
Theorem tag_arguments_undelimited `{HexDigest} fs b n conf keys packages keys' depth tg :
  dict_get n (image_configs_map b) = Some conf → conf_deps conf = Ok [] → keys ≠ [] → packages ≠ [] →
  keys' ≠ [] → join " " keys' = join " " keys ++ "EXTRA_PACKAGES=" ++ join " " packages →
  calculate_tag_for_image fs depth (with_settings b n packages keys) n tg =
  calculate_tag_for_image fs depth (with_settings b n [] keys') n tg ∧
  extra_args (with_settings b n packages keys) n ≠ extra_args (with_settings b n [] keys') n.
Proof.
  intros Hc Hd Hk Hp Hk' Hj. split.
  - eapply calculate_tag_concat; [done..|]. rewrite !sorted_settings.
    destruct keys as [|k ks], packages as [|q qs], keys' as [|k' ks']; try done. cbn [setting_arg fmap list_fmap app].
    unfold assign. cbn [fst snd concat]. rewrite Hj, <-!app_assoc. done.
  - rewrite !extra_args_settings. by destruct keys as [|k ks], packages as [|q qs], keys' as [|k' ks'].
Qed.

(** ** The claims on the sample project *)

#[local] Existing Instance sha256_digest.

Lemma calculate_tag_for_image_correct_witness :
  let r := calculate_tag_for_image sample_fs 2 sample_builder "app" [] in
  io_res r = Ok sample_app_tag.
Proof.
  assert (tags_ok sample_fs sample_builder []) as Hok by (intros k t; discriminate).
  destruct (calculate_tag_for_image_correct sample_fs sample_builder 2 "app" [] Hok)
    as (_ & _ & _ & Hc).
  apply (Hc 2 sample_app_tag (le_n 2)). vm_compute. reflexivity.
Defined.

(** A key and a package, or a key whose value ends in what looks like the
    argument with the package. *)
Lemma tag_arguments_undelimited_witness :
  io_res (calculate_tag_for_image sample_fs 1 (with_settings sample_builder "base" ["p=1"] ["k=v"]) "base" []) =
  io_res (calculate_tag_for_image sample_fs 1 (with_settings sample_builder "base" [] ["k=vEXTRA_PACKAGES=p=1"]) "base" []) ∧
  ∃ t, io_res (calculate_tag_for_image sample_fs 1 (with_settings sample_builder "base" ["p=1"] ["k=v"]) "base" []) = Ok t.
Proof.
  split; [|eexists; vm_compute; reflexivity].
  rewrite (proj1 (tag_arguments_undelimited sample_fs sample_builder "base" (JDict [("deps", JDict [])]) ["k=v"] ["p=1"]
    ["k=vEXTRA_PACKAGES=p=1"] 1 [] ltac:(vm_compute; reflexivity) ltac:(reflexivity) ltac:(discriminate)
    ltac:(discriminate) ltac:(discriminate) ltac:(reflexivity))).
  reflexivity.
Defined.

Definition sample_configs_swapped : list (str * json) :=
  [("base", JDict [("deps", JDict [])]); ("app", JDict [("deps", JDict [("BASE_IMAGE", JStr "base")])])].

Lemma tag_order_independent_witness :
  let app c := io_res (calculate_tag_for_image sample_fs 5
                         (with_configs sample_builder c) "app" []) in
  same_deps sample_configs sample_configs_swapped ∧ app sample_configs = Ok sample_app_tag ∧
  ∀ t, app sample_configs_swapped = Ok t → t = sample_app_tag.
Proof.
  intros app. assert (same_deps sample_configs sample_configs_swapped) as Hs.
  { intros n. unfold sample_configs, sample_configs_swapped. cbn [dict_get].
    repeat case_decide; subst; try done; vm_compute; repeat constructor. }
  assert (app sample_configs = Ok sample_app_tag) as H1 by (vm_compute; reflexivity).
  split; [exact Hs|]. split; [exact H1|]. intros t Ht. symmetry.
  exact (tag_order_independent sample_fs sample_builder sample_configs
    sample_configs_swapped 5 5 [] [] "app" sample_app_tag t Hs ltac:(intros ? ?; discriminate)
    ltac:(intros ? ?; discriminate) H1 Ht).
Defined.
