(* ===== verification/DockerImages.v ===== *)
(** * Tags and images of a run

    [calculate_tags] and [build_images]: the tags of all wanted images, and
    the Docker commands that make the images available. *)
From S2P Require Import Prelude PyStr Json Sha256 PyPath Fs Graph DockerConfig Proc DockerBuild DockerDeps DockerTags.

(** ** All tags of a run *)

Section Calculate.
Context `{HexDigest} `{PySetOrder} (fs : fsys) (b : DockerBuilder).

(** An image with a tag only depends on images with tags of lesser height. *)
Lemma tag_ref_dep h x y t : tag_ref fs b h x = Some t → image_dep (image_configs_map b) x y →
  ∃ h' t', h = S h' ∧ tag_ref fs b h' y = Some t'.
Proof.
  intros Ht (conf & deps & Hc & Hd & Hy). destruct h as [|h]; [done|].
  destruct (find_dockerfile fs (search_paths b) (x ++ ".Dockerfile")) as [p|] eqn:Hp.
  - apply (tag_ref_unfold fs b h x conf deps p) in Ht as (ts & sha & Hts & _); [|done..].
    apply mapM_Some in Hts. apply list_elem_of_fmap in Hy as ([a d] & -> & Hin).
    apply list_elem_of_lookup in Hin as [i Hi].
    destruct (Forall2_lookup_l _ _ _ _ _ Hts Hi) as (t' & _ & Ht'). eauto.
  - exfalso. cbn [tag_ref] in Ht. rewrite Hc in Ht. cbn [mbind option_bind] in Ht.
    rewrite Hd in Ht. cbn [res_option mbind option_bind] in Ht. by rewrite Hp in Ht.
Qed.

Lemma tag_ref_tc x y : tc (image_dep (image_configs_map b)) x y → ∀ h t, tag_ref fs b h x = Some t →
  ∃ h' t', h' < h ∧ tag_ref fs b h' y = Some t'.
Proof.
  induction 1 as [x y Hd|x y z Hd _ IH]; intros h t Ht.
  all: destruct (tag_ref_dep h x y t Ht Hd) as (h' & t' & -> & Ht').
  - exists h', t'. split; [lia|done].
  - destruct (IH h' t' Ht') as (h2 & t2 & ? & ?). exists h2, t2. split; [lia|done].
Qed.

(** An image with a tag is on no cycle. *)
Lemma tag_ref_acyclic h : ∀ x t, tag_ref fs b h x = Some t → ¬ tc (image_dep (image_configs_map b)) x x.
Proof.
  induction (lt_wf h) as [h _ IH]. intros x t Ht Hc.
  destruct (tag_ref_tc x x Hc h t Ht) as (h' & t' & Hlt & Ht'). by eapply IH.
Qed.

Lemma calculate_all depth o : ∀ tg, tags_ok fs b tg →
  (∀ n, n ∈ o → ∃ h t, h ≤ depth ∧ tag_ref fs b h n = Some t) →
  let r := for_each o (λ n, _ ← calculate_tag_for_image fs depth b n; mret ()) tg in
  io_res r = Ok () ∧ tags_ok fs b (io_state r) ∧ tags_le tg (io_state r) ∧
  (∀ n, n ∈ o → is_Some (dict_get n (io_state r))).
Proof.
  induction o as [|n o IH]; intros tg Hok Ho; cbn [for_each].
  { cbn. split_and!; [done|done|by intros ? ?|set_solver]. }
  destruct (Ho n) as (h & t & Hh & Ht); [set_solver|].
  destruct (calculate_tag_run fs b depth n tg Hok) as [H1 H2 H3 H4].
  specialize (H4 h t Hh Ht). destruct (H3 t H4) as [_ H5].
  unfold mbind, io_bind. destruct (calculate_tag_for_image _ _ _ _ _) as [[tr tg1] q]. cbn in *. subst q.
  destruct (IH tg1 H1) as (J1 & J2 & J3 & J4); [set_solver|].
  destruct (for_each o _ tg1) as [[tr' tg2] q']. cbn in *. subst q'. split_and!; [done..|by intros k u Hk; apply J3, H2|].
  intros m [->|?]%elem_of_cons; [|by apply J4]. eexists. by apply J3.
Qed.

Lemma lookup_tags_spec tg o : tags_ok fs b tg → (∀ n, n ∈ o → is_Some (dict_get n tg)) →
  ∃ ts, lookup_tags tg o = Ok ts ∧ Forall2 (tag_of fs b) o ts.
Proof.
  intros Hok. induction o as [|n o IH]; intros Ho; cbn [lookup_tags]; [by exists []|].
  destruct IH as (ts & Hts & ?); [set_solver|]. destruct (Ho n) as [t Ht]; [set_solver|].
  exists (t :: ts). unfold lookup_tag. rewrite Ht, Hts. split; [done|]. constructor; [by apply Hok|done].
Qed.

Lemma sort_or_exit_state {S : Type} msg g (s : S) : io_state (sort_or_exit msg g s) = s.
Proof.
  unfold sort_or_exit, try_except, lift_res. destruct (static_order _) as [o|e]; [done|].
  by destruct (is_Exception e).
Qed.

Lemma get_build_order_state targets {S : Type} (s : S) : io_state (get_build_order b targets s) = s.
Proof.
  destruct targets as [|t targets]; cbn [get_build_order].
  - destruct (full_graph _) as [g|]; [rewrite bind_lift_Ok|done].
    pose proof (sort_or_exit_state "Cycle detected in image dependencies: " g s) as Hs.
    unfold mbind, io_bind. by destruct (sort_or_exit _ g s) as [[? ?] [o|e]].
  - unfold get_dependency_subgraph. destruct (full_graph _) as [g|]; [|done].
    unfold mbind, io_bind, lift_res. cbn beta iota.
    destruct (visit_loop g _ _) as [V|]; [|done].
    pose proof (sort_or_exit_state "Cycle detected in dependencies: " (subgraph g V) s) as Hs.
    by destruct (sort_or_exit _ _ s) as [[? ?] [o|e]].
Qed.
End Calculate.

(** All tags of a run. *)
Lemma calculate_tags_result `{HexDigest} `{PySetOrder} `{RecursionLimit} fs b targets tg :
  let configs := image_configs_map b in
  NoDup (dict_keys configs) → configs_typed configs → (∀ t, t ∈ targets → t ∈ dict_keys configs) →
  tags_ok fs b tg →
  (∀ n, wanted configs targets n → ∃ h t, h ≤ recursion_limit ∧ tag_ref fs b h n = Some t) →
  ∃ o ts, io_res (get_build_order b targets tg) = Ok o ∧ order_result configs targets (Ok o) ∧
    io_res (calculate_tags fs b targets tg) = Ok ts ∧ Forall2 (tag_of fs b) o ts.
Proof.
  intros configs Hnd Hty Ht Hok Hall.
  pose proof (get_build_order_result b targets tg Hnd Hty Ht) as Ho.
  pose proof (get_build_order_state b targets tg) as Hs.
  unfold calculate_tags, mbind at 1, io_bind at 1. fold configs in Ho.
  destruct (get_build_order b targets tg) as [[tr s] [o|e]]; cbn [io_res io_state fst snd] in *; subst s.
  2: { destruct Ho as [_ (x & Hx & Hcy)]. destruct (Hall x Hx) as (h & t & _ & Htag).
       by eapply tag_ref_acyclic in Htag. }
  exists o. assert (∀ n, n ∈ o → ∃ h t, h ≤ recursion_limit ∧ tag_ref fs b h n = Some t) as Hall'.
  { destruct Ho as (_ & Hin & _). intros n Hn. by apply Hall, Hin. }
  destruct (calculate_all fs b recursion_limit o tg Hok Hall') as (Q1 & Q2 & _ & Q3).
  unfold mbind, io_bind. destruct (for_each o _ tg) as [[tr' tg'] q]. cbn [io_res io_state fst snd] in *. subst q.
  destruct (lookup_tags_spec fs b tg' o Q2 Q3) as (ts & Hts & Hf). exists ts. cbn. by rewrite Hts.
Qed.

(** C28: when every wanted image has a tag within the recursion limit,
    [calculate_tags] returns: the tags, one for each image of the build order
    and in that order. *)
Theorem calculate_tags_correct `{HexDigest} `{PySetOrder} `{RecursionLimit} fs b targets tg :
  let configs := image_configs_map b in
  NoDup (dict_keys configs) → configs_typed configs → (∀ t, t ∈ targets → t ∈ dict_keys configs) →
  tags_ok fs b tg →
  (∀ n, wanted configs targets n → ∃ h t, h ≤ recursion_limit ∧ tag_ref fs b h n = Some t) →
  ∃ o ts, io_res (get_build_order b targets tg) = Ok o ∧ order_result configs targets (Ok o) ∧
    io_res (calculate_tags fs b targets tg) = Ok ts ∧ Forall2 (tag_of fs b) o ts.
Proof. apply calculate_tags_result. Qed.

(** ** The sample project *)

#[local] Existing Instance sha256_digest.
#[local] Existing Instance encoding_order.
#[local] Instance sample_limit : RecursionLimit := 100.

Lemma sample_typed : configs_typed sample_configs.
Proof. intros n conf. unfold sample_configs. rewrite !elem_of_cons. intros [[= -> ->]|[[= -> ->]|[]%elem_of_nil]]; by eexists. Qed.

Lemma sample_NoDup : NoDup (dict_keys sample_configs).
Proof. apply (bool_decide_eq_true_1 _). vm_compute. reflexivity. Qed.

Lemma sample_targets t : t ∈ ["app"] → t ∈ dict_keys sample_configs.
Proof. set_solver. Qed.

Lemma sample_wanted n : wanted sample_configs ["app"] n → n = "app" ∨ n = "base".
Proof.
  intros (t & Ht & Hr). apply list_elem_of_singleton in Ht.
  assert (t = "app" ∨ t = "base") as Ht' by (by left). clear Ht.
  induction Hr as [|x y z (conf & deps & Hc & Hd & Hy) _ IH]; [done|]. apply IH.
  destruct Ht' as [-> | ->]; vm_compute in Hc; injection Hc as <-; vm_compute in Hd; injection Hd as <-.
  - right. by apply list_elem_of_singleton in Hy.
  - by apply elem_of_nil in Hy.
Qed.

Lemma get_build_order_correct_witness :
  order_result sample_configs ["app"] (io_res (get_build_order sample_builder ["app"] ())) ∧
  io_res (get_build_order sample_builder ["app"] ()) = Ok ["base"; "app"].
Proof.
  split; [|vm_compute; reflexivity].
  exact (get_build_order_correct sample_builder ["app"] () sample_NoDup sample_typed sample_targets).
Defined.

Lemma calculate_tags_correct_witness :
  ∃ o ts, io_res (get_build_order sample_builder ["app"] ([] : tags)) = Ok o ∧
    io_res (calculate_tags sample_fs sample_builder ["app"] []) = Ok ts ∧
    Forall2 (tag_of sample_fs sample_builder) o ts.
Proof.
  destruct (calculate_tags_correct sample_fs sample_builder ["app"] [] sample_NoDup sample_typed
    sample_targets) as (o & ts & H1 & _ & H2 & H3).
  - intros k t. discriminate.
  - intros n [-> | ->]%sample_wanted.
    + exists 2, sample_app_tag. split; [unfold recursion_limit, sample_limit; lia|vm_compute; reflexivity].
    + exists 1, sample_base_tag. split; [unfold recursion_limit, sample_limit; lia|vm_compute; reflexivity].
  - exists o, ts. split; [exact H1|]. split; [exact H2|exact H3].
Defined.
