(* ===== verification/DockerManage.v ===== *)
(** * Making an image available

    [manage_docker_image] against a Docker command line that keeps its
    documented promises. *)
From S2P Require Import Prelude PyStr Proc DockerBuild.

(** What the [docker] commands promise about the images present locally.  No
    command of the script removes an image; an inspection that succeeds found
    the image (one that fails tells nothing: the daemon may be unreachable);
    a pull that succeeds, and a build with the options the script passes that
    succeeds, leave the image there.  The last is what the default builder of
    [buildx], the [docker] driver, does: the script does not pass [--load],
    which other drivers need for it. *)
Class DockerLaws (X : Type) `{Host X} := {
  local_images : X → gset str;
  inspect_law tag x r x' : exec ["docker"; "image"; "inspect"; tag] x = (r, x') →
    local_images x ⊆ local_images x' ∧
    match r with
    | Some r => returncode r = 0%Z → tag ∈ local_images x
    | None => True
    end;
  manifest_law tag x r x' : exec ["docker"; "manifest"; "inspect"; tag] x = (r, x') →
    local_images x ⊆ local_images x';
  build_law tag file context no_cache args opts x r x' : build_arg_options args = Ok opts →
    exec (build_cmd tag file context no_cache opts) x = (r, x') →
    local_images x ⊆ local_images x' ∧
    match r with Some r => returncode r = 0%Z → tag ∈ local_images x' | None => True end;
  pull_law tag x r x' : exec ["docker"; "pull"; tag] x = (r, x') →
    local_images x ⊆ local_images x' ∧
    match r with Some r => returncode r = 0%Z → tag ∈ local_images x' | None => True end;
  push_law tag x r x' : exec ["docker"; "push"; tag] x = (r, x') →
    local_images x ⊆ local_images x'
}.

(** A list of names and values has an even length. *)
Lemma build_arg_options_even l : Nat.even (length l) = true → ∃ opts, build_arg_options l = Ok opts.
Proof.
  revert l. fix IH 1. intros [|a [|v l]] Hl; [by eexists|done|].
  destruct (IH l Hl) as [opts Ho]. cbn [build_arg_options]. rewrite Ho. by eexists.
Qed.

Lemma build_arg_options_odd l : Nat.even (length l) = false → build_arg_options l = Raise IndexError.
Proof.
  revert l. fix IH 1. intros [|a [|v l]] Hl; [done|done|].
  cbn [build_arg_options]. by rewrite (IH l Hl).
Qed.

(** ** What becomes of the images *)

Section Manage.
Context `{DockerLaws X}.

(** The commands that are run with [check=True]: pulling and building. *)
Definition must_succeed (cmd : list str) : Prop :=
  (∃ tag, cmd = ["docker"; "pull"; tag]) ∨
  (∃ tag file context no_cache opts, cmd = build_cmd tag file context no_cache opts).

(** The last command, which led to the state [x'], failed: it was not found,
    or it was not to fail and ended with the code [c]. *)
Definition command_failed (c : Z) (x' : X) : Prop := ∃ cmd x o, exec cmd x = (o, x') ∧
  match o with
  | None => c = 1%Z
  | Some r => must_succeed cmd ∧ returncode r = c ∧ c ≠ 0%Z
  end.

Lemma command_failed_nonzero c x' : command_failed c x' → c ≠ 0%Z.
Proof. by intros (cmd & x & [r|] & _ & Hc); [apply Hc|subst c]. Qed.

(** The errors of a [docker] command, before they are handled. *)
Definition docker_error (e : exn) (x' : X) : Prop :=
  match e with
  | FileNotFoundError => command_failed 1 x'
  | CalledProcessError rc _ _ _ => command_failed rc x'
  | _ => False
  end.

Lemma not_found_error cmd x x' : exec cmd x = (None, x') → docker_error FileNotFoundError x'.
Proof. intros He. by exists cmd, x, None. Qed.

Lemma failed_error cmd x r x' : exec cmd x = (Some r, x') → must_succeed cmd → returncode r ≠ 0%Z →
  docker_error (CalledProcessError (returncode r) cmd (stdout r) (stderr r)) x'.
Proof. intros He Hm Hr. by exists cmd, x, (Some r). Qed.

Lemma must_pull tag : must_succeed ["docker"; "pull"; tag].
Proof. left. by exists tag. Qed.
Lemma must_build tag file context no_cache opts : must_succeed (build_cmd tag file context no_cache opts).
Proof. right. by exists tag, file, context, no_cache, opts. Qed.
#[local] Hint Resolve not_found_error failed_error must_pull must_build : core.

Lemma wp_exists_locally tag (Q : bool → X → Prop) E x :
  (∀ b x', local_images x ⊆ local_images x' → (b = true → tag ∈ local_images x) → Q b x') →
  (∀ e x', docker_error e x' → local_images x ⊆ local_images x' → E e x') →
  wp (check_if_image_exists_locally tag) Q E x.
Proof.
  intros HQ HE. unfold check_if_image_exists_locally. repeat wp_step. apply wp_subprocess.
  - intros r x' [? Hr]%inspect_law _. destruct (Z.eqb_spec (returncode r) 0); wp_run; apply HQ; naive_solver.
  - done.
  - intros x' He. pose proof (inspect_law _ _ _ _ He) as [? _]. eauto.
Qed.

Lemma wp_exists_remotely tag (Q : bool → X → Prop) E x :
  (∀ b x', local_images x ⊆ local_images x' → Q b x') →
  (∀ e x', docker_error e x' → local_images x ⊆ local_images x' → E e x') →
  wp (check_if_image_exists_in_remote_registry tag) Q E x.
Proof.
  intros HQ HE. unfold check_if_image_exists_in_remote_registry. repeat wp_step. apply wp_subprocess.
  - intros r x' ?%manifest_law _. destruct (_ =? _)%Z; wp_run; by apply HQ.
  - done.
  - intros x' He. pose proof (manifest_law _ _ _ _ He). eauto.
Qed.

Lemma wp_build_image tag file args context no_cache (Q : () → X → Prop) E x :
  Nat.even (length args) = true →
  (∀ x', local_images x ⊆ local_images x' → tag ∈ local_images x' → Q () x') →
  (∀ e x', docker_error e x' → local_images x ⊆ local_images x' → E e x') →
  wp (build_image tag file args context no_cache) Q E x.
Proof.
  intros [opts Ho]%build_arg_options_even HQ HE. unfold build_image. wp_run. rewrite Ho. wp_run.
  apply wp_subprocess.
  - intros r x' [? Hr]%(build_law _ _ _ _ _ _ _ _ _ Ho) [?|?]; [done|]. wp_run. apply wp_log_output. wp_run. apply wp_log_output.
    wp_run. by apply HQ; [|apply Hr].
  - intros r x' He _ ?. pose proof (build_law _ _ _ _ _ _ _ _ _ Ho He) as [? _]. apply HE; eauto.
  - intros x' He. pose proof (build_law _ _ _ _ _ _ _ _ _ Ho He) as [? _]. apply HE; eauto.
Qed.

Lemma wp_pull_image tag (Q : () → X → Prop) E x :
  (∀ x', local_images x ⊆ local_images x' → tag ∈ local_images x' → Q () x') →
  (∀ e x', docker_error e x' → local_images x ⊆ local_images x' → E e x') →
  wp (pull_image_from_registry tag) Q E x.
Proof.
  intros HQ HE. unfold pull_image_from_registry. wp_run. apply wp_subprocess.
  - intros r x' [? Hr]%pull_law [?|?]; [done|]. wp_run. apply wp_log_output. wp_run. apply wp_log_output.
    wp_run. by apply HQ; [|apply Hr].
  - intros r x' He _ ?. pose proof (pull_law _ _ _ _ He) as [? _]. apply HE; eauto.
  - intros x' He. pose proof (pull_law _ _ _ _ He) as [? _]. apply HE; eauto.
Qed.

Lemma wp_push_image tag (Q : () → X → Prop) E x :
  (∀ x', local_images x ⊆ local_images x' → Q () x') →
  (∀ e x', docker_error e x' → local_images x ⊆ local_images x' → E e x') →
  wp (push_image_to_registry tag) Q E x.
Proof.
  intros HQ HE. unfold push_image_to_registry. wp_run. apply wp_subprocess.
  - intros r x' ?%push_law _. wp_run; try (apply wp_log_output; wp_run); try (apply wp_log_output; wp_run);
      by apply HQ.
  - done.
  - intros x' He. pose proof (push_law _ _ _ _ He). eauto.
Qed.

(** An error of a command ends the program with a non-zero code. *)
Lemma wp_manage_handler tag e (Q : () → X → Prop) E x :
  docker_error e x → (∀ c, command_failed c x → E (SystemExit c) x) →
  match manage_handler tag e with Some k => wp k Q E x | None => E e x end.
Proof.
  intros He HE. destruct e; try done; cbn [manage_handler docker_error] in *; wp_run; apply HE; try done;
    (case_match eqn:Hz; [|done]); apply Z.eqb_eq in Hz; by apply command_failed_nonzero in He.
Qed.

Lemma wp_manage_docker_image tag file args context local_mode no_cache repo (Q : () → X → Prop) E x :
  Nat.even (length args) = true →
  (∀ x', local_images x ⊆ local_images x' → tag ∈ local_images x' → Q () x') →
  (∀ c x', command_failed c x' → local_images x ⊆ local_images x' → E (SystemExit c) x') →
  wp (manage_docker_image tag file args context local_mode no_cache repo) Q E x.
Proof.
  intros Ha HQ HE. unfold manage_docker_image. apply wp_try, wp_bind.
  set (E' := λ e s', match manage_handler tag e with Some k => wp k Q E s' | None => E e s' end).
  assert (∀ e x', docker_error e x' → local_images x ⊆ local_images x' → E' e x') as HH.
  { intros e x' He Hx. apply wp_manage_handler; [done|]. intros c Hc. by apply HE. }
  assert (∀ x1 R, local_images x ⊆ local_images x1 →
    (∀ x', local_images x ⊆ local_images x' → tag ∈ local_images x' → R () x') →
    wp (build_image tag file args context no_cache) R E' x1) as HB.
  { intros x1 R Hx1 HR. apply wp_build_image; [done| |].
    - intros x' ? ?. apply HR; [by etrans|done].
    - intros e x' He ?. apply HH; [done|by etrans]. }
  apply (wp_mono _ (λ p x1, local_images x ⊆ local_images x1 ∧ (p = true → tag ∈ local_images x1)) _ E' _); [| |done].
  { destruct no_cache; [by wp_run|]. apply wp_exists_locally; [|done].
    intros p x1 Hx1 Hp. split; [done|]. intros ->. set_solver. }
  intros [] x1 [Hx1 Hp]; [wp_run; by apply HQ; [|apply Hp]|].
  destruct (bool_decide (repo = []) || local_mode); [wp_run; by apply HB|].
  apply wp_bind, (wp_mono _ (λ p x2, local_images x ⊆ local_images x2) _ E' _); [| |done].
  { destruct no_cache; [by wp_run|]. apply wp_exists_remotely; intros; [by etrans|].
    apply HH; [done|by etrans]. }
  intros [] x2 Hx2.
  - apply wp_pull_image; intros; [apply HQ|apply HH]; try done; by etrans.
  - wp_run. apply HB; [done|]. intros x3 Hx3 ?.
    apply wp_push_image; [intros x4 ?; apply HQ; [by etrans|set_solver]|].
    intros e x4 ? ?. apply HH; [done|by etrans].
Qed.
End Manage.

(** ** The commands it runs *)

Definition manage_event (tag file : str) (args : list str) (context : str) (local_mode no_cache : bool)
    (repo : str) (e : event) : Prop :=
  match e with
  | EvRun cmd =>
      (cmd = ["docker"; "image"; "inspect"; tag] ∧ no_cache = false) ∨
      ((cmd = ["docker"; "manifest"; "inspect"; tag] ∨ cmd = ["docker"; "pull"; tag]) ∧
        no_cache = false ∧ repo ≠ [] ∧ local_mode = false) ∨
      (∃ opts, build_arg_options args = Ok opts ∧ cmd = build_cmd tag file context no_cache opts) ∨
      (cmd = ["docker"; "push"; tag] ∧ repo ≠ [] ∧ local_mode = false)
  | EvLog _ _ | EvErr _ => True
  | _ => False
  end.

Section Commands.
Context `{Host X}.
Context (tag file : str) (args : list str) (context : str) (local_mode no_cache : bool) (repo : str).
#[local] Abbreviation P := (manage_event tag file args context local_mode no_cache repo).

Lemma emits_build_image : emits P (build_image tag file args context no_cache : io X ()).
Proof.
  unfold build_image. apply emits_bind; [by apply emits_emit|intros _].
  apply emits_bind_val; [apply emits_lift|]. intros s opts Ho. cbn in Ho. emits_auto. cbn. eauto 10.
Qed.

Lemma emits_handler e k : manage_handler tag e = Some k → emits P (k : io X ()).
Proof. destruct e; cbn; intros [= <-]; emits_auto. Qed.
End Commands.

Lemma manage_event_emits `{Host X} tag file args context local_mode no_cache repo :
  emits (manage_event tag file args context local_mode no_cache repo)
    (manage_docker_image tag file args context local_mode no_cache repo : io X ()).
Proof.
  pose proof (emits_build_image (X := X) tag file args context local_mode no_cache repo) as HB.
  apply emits_try; [|apply emits_handler].
  apply emits_bind; [|intros []; [apply emits_ret|]].
  { unfold check_if_image_exists_locally. emits_auto. cbn. auto. }
  apply emits_if; intros Hr; [emits_auto; done|].
  apply orb_false_iff in Hr as [Hr%bool_decide_eq_false Hl].
  apply emits_bind_val; [|intros s [] Hs].
  - unfold check_if_image_exists_in_remote_registry. emits_auto. cbn. naive_solver.
  - assert (no_cache = false) by (by destruct no_cache). unfold pull_image_from_registry.
    emits_auto. cbn. naive_solver.
  - apply emits_bind; [done|intros _]. unfold push_image_to_registry. emits_auto. cbn. naive_solver.
Qed.

(** C30: whatever Docker answers, [manage_docker_image] runs no other commands
    than these, on the given tag: [inspect] unless the cache is off; [manifest
    inspect] and [pull] only with the cache on, a registry configured and the
    image not local-only; [build] with the given file, context and arguments;
    and [push] only with a registry and an image that is not local-only.  It
    prints nothing on the standard output. *)
Theorem manage_docker_image_commands `{Host X} tag file args context local_mode no_cache repo :
  emits (manage_event tag file args context local_mode no_cache repo)
    (manage_docker_image tag file args context local_mode no_cache repo : io X ()).
Proof. apply manage_event_emits. Qed.

(** C6: on a Docker that keeps its promises, [manage_docker_image] either
    returns with the image present locally or ends the program with a non-zero
    exit code, and that only because the last command was not found or was a
    build or a pull that failed with this code; either way no local image is
    lost.  Build arguments come as names followed by values. *)
Theorem manage_docker_image_correct `{DockerLaws X} tag file args context local_mode no_cache repo x :
  Nat.even (length args) = true →
  let r := manage_docker_image tag file args context local_mode no_cache repo x in
  local_images x ⊆ local_images (io_state r) ∧
  match io_res r with
  | Ok _ => tag ∈ local_images (io_state r)
  | Raise e => ∃ c, e = SystemExit c ∧ c ≠ 0%Z ∧ command_failed c (io_state r)
  end.
Proof.
  intros Ha r.
  pose proof (wp_manage_docker_image tag file args context local_mode no_cache repo
    (λ _ x', local_images x ⊆ local_images x' ∧ tag ∈ local_images x')
    (λ e x', local_images x ⊆ local_images x' ∧ ∃ c, e = SystemExit c ∧ c ≠ 0%Z ∧ command_failed c x') x Ha) as Hw.
  unfold wp in Hw. fold r in Hw. pose proof command_failed_nonzero. destruct (io_res r); apply Hw; naive_solver.
Qed.

(** An image that is present locally is left alone unless the cache is
    off: the one command run is [inspect], and nothing is built, pulled or
    pushed. *)
Theorem manage_docker_image_cached `{Host X} tag file args context local_mode repo x out err x' :
  exec ["docker"; "image"; "inspect"; tag] x = (Some (RunResult 0 out err), x') →
  manage_docker_image tag file args context local_mode false repo x =
    ([EvLog INFO ("Checking for local image: " ++ tag); EvRun ["docker"; "image"; "inspect"; tag];
      EvLog INFO ("Image " ++ tag ++ " already exists locally.")], x', Ok ()).
Proof.
  intros He. unfold manage_docker_image, check_if_image_exists_locally, try_except, subprocess_run,
    mbind, io_bind, log, emit. by rewrite He.
Qed.

(** ** A sample Docker

    The images present locally and in the registry; every command succeeds
    except inspections of absent images and pulls of images the registry does
    not have. *)
Definition sample_docker : Type := gset str * gset str.

#[export] Instance sample_host : Host sample_docker := λ cmd x,
  let answer ok x' := (Some (RunResult (if ok : bool then 0 else 1) "" ""), x') in
  match cmd with
  | c1 :: c2 :: tag :: [] =>
      if bool_decide (c1 = "docker" ∧ c2 = "pull") then
        if bool_decide (tag ∈ x.2) then answer true ({[tag]} ∪ x.1, x.2) else answer false x
      else if bool_decide (c1 = "docker" ∧ c2 = "push") then answer true (x.1, {[tag]} ∪ x.2)
      else answer true x
  | c1 :: c2 :: c3 :: tag :: [] =>
      if bool_decide (c1 = "docker" ∧ c2 = "image" ∧ c3 = "inspect")
      then answer (bool_decide (tag ∈ x.1)) x
      else if bool_decide (c1 = "docker" ∧ c2 = "manifest" ∧ c3 = "inspect")
      then answer (bool_decide (tag ∈ x.2)) x
      else answer true x
  | c1 :: c2 :: c3 :: c4 :: tag :: _ =>
      if bool_decide (c1 = "docker" ∧ c2 = "buildx" ∧ c3 = "build" ∧ c4 = "--tag")
      then answer true ({[tag]} ∪ x.1, x.2)
      else answer true x
  | _ => answer true x
  end.

#[export] Program Instance sample_docker_laws : DockerLaws sample_docker :=
  {| local_images := fst |}.
Next Obligation. intros tag x r x' [= <- <-]. split; [done|]. cbn. by case_bool_decide. Qed.
Next Obligation. by intros tag x r x' [= <- <-]. Qed.
Next Obligation. intros tag file context no_cache args opts x r x' _ [= <- <-]. cbn. set_solver. Qed.
Next Obligation.
  intros tag x r x'. unfold exec, sample_host. rewrite bool_decide_eq_true_2 by done.
  case_bool_decide; intros [= <- <-]; cbn; set_solver.
Qed.
Next Obligation. by intros tag x r x' [= <- <-]. Qed.

Lemma manage_docker_image_correct_witness :
  let r := manage_docker_image "t:1" "/d/a.Dockerfile" ["A"; "1"] "/d" false false "h/p/r"
             ((∅, {["t:1"]}) : sample_docker) in
  io_res r = Ok () ∧ "t:1" ∈ (io_state r).1.
Proof.
  intros r. assert (io_res r = Ok ()) as Hr by (vm_compute; reflexivity). split; [exact Hr|].
  destruct (manage_docker_image_correct "t:1" "/d/a.Dockerfile" ["A"; "1"] "/d" false false "h/p/r"
    ((∅, {["t:1"]}) : sample_docker) eq_refl) as [_ H]. fold r in H. rewrite Hr in H. exact H.
Defined.

Lemma manage_docker_image_cached_witness :
  io_res (manage_docker_image "t:1" "/d/a.Dockerfile" ["A"; "1"] "/d" false false "h/p/r"
    (({["t:1"]}, ∅) : sample_docker)) = Ok ().
Proof.
  rewrite (manage_docker_image_cached (X := sample_docker) "t:1" "/d/a.Dockerfile" ["A"; "1"] "/d" false "h/p/r"
    ({["t:1"]}, ∅) "" "" ({["t:1"]}, ∅)); [reflexivity|]. vm_compute. reflexivity.
Defined.
