(* ===== verification/BuildImages.v ===== *)
(** * Building all wanted images

    [build_images]: the loop over the build order, its effect on the images
    Docker has, and the [--print-tag] mode. *)
From S2P Require Import Prelude PyStr Json Sha256 PyPath Fs Graph DockerConfig Proc DockerBuild DockerDeps DockerTags DockerImages DockerManage.

Lemma tag_ref_inv `{HexDigest} fs b h n t : tag_ref fs b h n = Some t → ∃ conf deps p,
  dict_get n (image_configs_map b) = Some conf ∧ conf_deps conf = Ok deps ∧
  find_dockerfile fs (search_paths b) (n ++ ".Dockerfile") = Some p.
Proof.
  destruct h as [|h]; [done|]. cbn [tag_ref].
  destruct (dict_get n _) as [conf|]; [|done]. cbn [mbind option_bind].
  destruct (conf_deps conf) as [deps|] eqn:Hd; [|done]. cbn [res_option mbind option_bind].
  destruct (find_dockerfile _ _ _) as [p|]; [|done]. intros _. eauto 10.
Qed.

Lemma conf_deps_dict conf deps : conf_deps conf = Ok deps → ∃ d, conf = JDict d.
Proof. unfold conf_deps. destruct conf; cbn; try done. eauto. Qed.

Lemma even_pairs (l : list (list str)) : Forall (λ p, length p = 2) l → Nat.even (length (concat l)) = true.
Proof. induction 1 as [|p l Hp _ IH]; cbn [concat]; [done|]. by rewrite length_app, Hp. Qed.

Lemma manage_args_ok b n deps tg : (∀ y, y ∈ deps.*2 → is_Some (dict_get y tg)) →
  ∃ l, manage_args b n deps tg = Ok l ∧ Nat.even (length l) = true.
Proof.
  intros Hd. unfold manage_args.
  assert (∃ ts, lookup_tags tg deps.*2 = Ok ts) as [ts ->].
  { induction (deps.*2) as [|y ys IH]; cbn [lookup_tags]; [by eexists|].
    destruct IH as [ts ->]; [set_solver|]. destruct (Hd y) as [t Ht]; [set_solver|].
    unfold lookup_tag. rewrite Ht. by eexists. }
  cbn [mbind res_bind]. eexists. split; [done|]. rewrite length_app, Nat.even_add.
  rewrite !even_pairs; [done|..]; apply Forall_forall.
  - intros p (kv & -> & _)%list_elem_of_fmap. done.
  - intros p Hp. apply elem_of_lookup_zip_with in Hp as (? & ? & ? & -> & _). done.
Qed.

Section Loop.
Context `{HexDigest} `{PySetOrder} `{RecursionLimit} `{DockerLaws X}.
Context (fs : fsys) (b : DockerBuilder).
Abbreviation configs := (image_configs_map b).

(** The images of [pre] have their tags in the table and are present. *)
Definition loop_inv (pre : list str) (s : tags * X) : Prop :=
  tags_ok fs b s.1 ∧ ∀ n, n ∈ pre → ∃ t, dict_get n s.1 = Some t ∧ t ∈ local_images s.2.

Definition taggable (n : str) : Prop := ∃ h t, h ≤ recursion_limit ∧ tag_ref fs b h n = Some t.

Lemma wp_calculate_tag n tg (Q : str → tags → Prop) E : tags_ok fs b tg → taggable n →
  (∀ t tg', tags_ok fs b tg' → tags_le tg tg' → dict_get n tg' = Some t → Q t tg') →
  wp (calculate_tag_for_image fs recursion_limit b n) Q E tg.
Proof.
  intros Hok (h & t & Hh & Ht) HQ. destruct (calculate_tag_run fs b recursion_limit n tg Hok) as [K1 K2 K3 K4].
  unfold wp. rewrite (K4 h t Hh Ht). destruct (K3 t (K4 h t Hh Ht)). by apply HQ.
Qed.

Definition exit_failure (e : exn) (x : X) : Prop := ∃ c, e = SystemExit c ∧ command_failed c x.

Lemma calculate_tag_logs depth : ∀ n, emits is_log (calculate_tag_for_image fs depth b n).
Proof.
  induction depth as [|depth IH]; intros n; cbn [calculate_tag_for_image]; emits_auto.
  destruct (dict_get n _); emits_auto. destruct (find_dockerfile _ _ _); emits_auto.
  apply emits_fold. intros args ad _. apply emits_bind; [apply IH|intros ?; apply emits_ret].
Qed.

Lemma manage_silent tag file args context lm nc rp :
  emits silent (manage_docker_image tag file args context lm nc rp : io X ()).
Proof.
  intros s. eapply Forall_impl; [apply manage_event_emits|]. by intros [] ?.
Qed.

Lemma wp_build_one pre print_target no_cache local_flag n s (Q : () → list str → tags * X → Prop) E :
  loop_inv pre s → taggable n → (∀ y, image_dep configs n y → y ∈ pre) →
  (∀ s', loop_inv (pre ++ [n]) s' → print_target ≠ Some n → Q () [] s') →
  (∀ e s', exit_failure e s'.2 → E e [] s') →
  (∀ t s', loop_inv (pre ++ [n]) s' → print_target = Some n → dict_get n s'.1 = Some t →
     t ∈ local_images s'.2 → E (SystemExit 0) [t] s') →
  wp_out (build_one fs b print_target no_cache local_flag n) Q E s.
Proof.
  destruct s as [tg x]. intros [Hok Hpre] Hn Hdep HQ HE HE0. cbn [fst snd] in *.
  unfold build_one. apply wp_out_silent; [by apply emits_on_fst, emits_logs; [apply calculate_tag_logs|]|].
  apply wp_on_fst. apply wp_calculate_tag; [done..|].
  intros t tg' Hok' Hle Ht. cbn [fst snd].
  destruct Hn as (h & u & _ & (conf & deps & p & Hc & Hd & Hp)%tag_ref_inv).
  destruct (conf_deps_dict _ _ Hd) as [d ->].
  destruct (manage_args_ok b n deps tg') as (l & Hl & Hlen).
  { intros y Hy. destruct (Hpre y) as (ty & Hty & _); [apply Hdep; unfold image_dep; eauto|].
    eexists. by apply Hle. }
  rewrite Hc. apply wp_out_silent; [apply emits_lift|]; wp_step.
  assert (∃ lm, local_mode local_flag (JDict d) = Ok lm) as [lm Hlm] by (destruct local_flag; by eexists).
  rewrite Hlm. apply wp_out_silent; [apply emits_lift|]; wp_step. rewrite Hp.
  rewrite Hd. apply wp_out_silent; [apply emits_lift|]; wp_step.
  apply wp_out_silent; [apply emits_on_fst, emits_get|]. wp_run. cbn [fst]. rewrite Hl.
  apply wp_out_silent; [apply emits_lift|]; wp_step.
  apply wp_out_silent; [apply emits_on_snd, manage_silent|]. apply wp_on_snd, wp_manage_docker_image; [done|..].
  2: { intros c x' Hc' _. apply HE. by exists c. }
  intros x' Hx' Hin. cbn [fst snd]. assert (loop_inv (pre ++ [n]) (tg', x')) as Hinv.
  { split; [done|]. cbn. intros m [Hm|Hm%list_elem_of_singleton]%elem_of_app.
    - destruct (Hpre m Hm) as (tm & Htm & ?). exists tm. split; [by apply Hle|set_solver].
    - subst m. eauto. }
  case_bool_decide; [by apply HE0|by apply HQ].
Qed.

(** The whole loop. *)
Lemma wp_build_loop print_target no_cache local_flag suf : ∀ pre s (Q : () → list str → tags * X → Prop) E,
  loop_inv pre s → (∀ n, n ∈ suf → taggable n) →
  (∀ x y, x ∈ pre ++ suf → image_dep configs x y → before (pre ++ suf) y x) → NoDup (pre ++ suf) →
  (∀ s', loop_inv (pre ++ suf) s' → (∀ t, print_target = Some t → t ∉ suf) → Q () [] s') →
  (∀ e s', exit_failure e s'.2 → E e [] s') →
  (∀ n t s', print_target = Some n → n ∈ suf → tags_ok fs b s'.1 → dict_get n s'.1 = Some t →
     t ∈ local_images s'.2 → E (SystemExit 0) [t] s') →
  wp_out (for_each suf (build_one fs b print_target no_cache local_flag)) Q E s.
Proof.
  induction suf as [|n suf IH]; intros pre s Q E Hinv Htag Hbef Hnd HQ HE HE0; cbn [for_each].
  { rewrite app_nil_r in HQ. apply HQ; [done|set_solver]. }
  apply wp_out_bind, (wp_build_one pre); [done|set_solver| | |done|].
  - intros y Hy. destruct (Hbef n y) as (i & j & Hi & Hj & Hlt); [set_solver|done|].
    assert (j = length pre) as ->.
    { eapply NoDup_lookup; [done..|]. by rewrite list_lookup_middle. }
    rewrite lookup_app_l in Hi by done. by eapply list_elem_of_lookup_2.
  - intros s' Hs' Hne. rewrite cons_middle, app_assoc in Hbef, Hnd, HQ.
    apply (IH (pre ++ [n])); [done|set_solver|done|done| |done|].
    + intros s2 ? Hpt. apply HQ; [done|]. intros t ->. specialize (Hpt t eq_refl). set_solver.
    + intros m t s2 -> ?. apply HE0; [done|set_solver].
  - intros t s' [Hok Hp] ->. apply (HE0 n); [done|set_solver|done].
Qed.
End Loop.

Section Run.
Context `{HexDigest} `{PySetOrder} `{RecursionLimit} `{DockerLaws X}.
Context (fs : fsys) (b : DockerBuilder) (targets : list str).
Abbreviation configs := (image_configs_map b).

(** A loadable configuration, existing targets, and a tag for everything
    they need. *)
Record buildable : Prop := {
  bd_keys : NoDup (dict_keys configs);
  bd_typed : configs_typed configs;
  bd_targets t : t ∈ targets → t ∈ dict_keys configs;
  bd_tags n : wanted configs targets n → taggable fs b n
}.

Lemma wp_build_order {S : Type} (s : S) (Q : list str → S → Prop) E : buildable →
  (∀ o, order_result configs targets (Ok o) → Q o s) → wp (get_build_order b targets) Q E s.
Proof.
  intros [K1 K2 K3 K4] HQ. pose proof (get_build_order_result b targets s K1 K2 K3) as Ho.
  unfold wp. rewrite get_build_order_state. destruct (io_res _) as [o|e]; [by apply HQ|].
  destruct Ho as [_ (x & Hx & Hcy)]. destruct (K4 x Hx) as (h & t & _ & Ht). by apply tag_ref_acyclic in Ht.
Qed.

Lemma get_build_order_logs {S : Type} : emits is_log (get_build_order b targets : io S (list str)).
Proof.
  assert (∀ msg g, emits is_log (sort_or_exit msg g : io S (list str))) as Hs.
  { intros. apply emits_try; [apply emits_lift|]. intros e k. destruct (is_Exception e); [|done].
    intros [= <-]. emits_auto. }
  destruct targets; cbn [get_build_order]; emits_auto; [apply Hs|].
  unfold get_dependency_subgraph. emits_auto. destruct (visit_loop _ _ _); [apply Hs|emits_auto].
Qed.

(** How a run ends: the printed lines, the table of tags and Docker. *)
Lemma wp_build_images print_tag_mode no_cache local_flag s (Q : () → list str → tags * X → Prop) E :
  buildable → tags_ok fs b s.1 → (print_tag_mode = true → ∃ t, targets = [t]) →
  (∀ s', print_tag_mode = false → (∀ n, wanted configs targets n →
     ∃ t, tag_of fs b n t ∧ t ∈ local_images s'.2) → Q () [] s') →
  (∀ e s', exit_failure e s'.2 → E e [] s') →
  (∀ n t s', print_tag_mode = true → targets = [n] → tag_of fs b n t → t ∈ local_images s'.2 →
     E (SystemExit 0) [t] s') →
  wp_out (build_images fs b targets print_tag_mode no_cache local_flag) Q E s.
Proof.
  intros Hb Hok Hpt HQ HE HE0. unfold build_images.
  apply wp_out_silent; [by apply emits_logs; [apply get_build_order_logs|]|]. apply wp_build_order; [done|].
  intros o (Hnd & Hin & Hbef & _).
  set (pt := if print_tag_mode then hd_error targets else None).
  apply wp_out_silent; [by destruct print_tag_mode, targets; emits_auto|].
  apply (wp_mono _ (λ p s', p = pt ∧ s' = s) _ (λ _ _, False)); [|intros ? ? [-> ->]|done].
  { destruct print_tag_mode; [|by wp_run]. destruct Hpt as [t ->]; done. }
  apply wp_out_bind, (wp_build_loop fs b pt no_cache local_flag o []); [| |done..| |done|].
  - split; [done|set_solver].
  - intros n Hn. by apply (bd_tags Hb), Hin.
  - intros s' [Hok' Hall] Hnot. destruct print_tag_mode.
    + exfalso. destruct Hpt as [t Ht]; [done|]. apply (Hnot t); [unfold pt; by rewrite Ht|].
      apply Hin. exists t. rewrite Ht. cbn. split; [set_solver|done].
    + apply wp_out_last; [destruct targets; emits_auto|].
      assert (∀ n, wanted configs targets n → ∃ t, tag_of fs b n t ∧ t ∈ local_images s'.2) as Hp.
      { intros n Hn%Hin. destruct (Hall n Hn) as (t & Ht & ?). exists t. split; [by apply Hok'|done]. }
      destruct targets; wp_run; by apply HQ.
  - intros n t s' Hn _ Hok' Ht Hloc. unfold pt in Hn. destruct print_tag_mode; [|done].
    destruct Hpt as [u Hu]; [done|]. rewrite Hu in Hn. injection Hn as ->.
    apply (HE0 n); [done..|by apply Hok'|done].
Qed.
End Run.

(** C2: for a buildable configuration and a Docker that keeps its promises,
    [build_images] either returns with the image of every wanted name present
    locally under its tag, or ends the program with a non-zero exit code
    because the last command was not found or was a build or a pull that
    failed with this code; in this mode it prints nothing. *)
Theorem build_images_correct `{HexDigest} `{PySetOrder} `{RecursionLimit} `{DockerLaws X}
    fs b targets no_cache local_flag tg x :
  buildable fs b targets → tags_ok fs b tg →
  let r := build_images fs b targets false no_cache local_flag (tg, x) in
  outs (io_trace r) = [] ∧
  match io_res r with
  | Ok _ => ∀ n, wanted (image_configs_map b) targets n →
              ∃ t, tag_of fs b n t ∧ t ∈ local_images (io_state r).2
  | Raise e => ∃ c, e = SystemExit c ∧ c ≠ 0%Z ∧ command_failed c (io_state r).2
  end.
Proof.
  intros Hb Hok r. pose proof (wp_build_images fs b targets false no_cache local_flag (tg, x)
    (λ _ o s', o = [] ∧ ∀ n, wanted (image_configs_map b) targets n → ∃ t, tag_of fs b n t ∧ t ∈ local_images s'.2)
    (λ e o s', o = [] ∧ ∃ c, e = SystemExit c ∧ c ≠ 0%Z ∧ command_failed c s'.2) Hb Hok) as Hw.
  unfold wp_out in Hw. fold r in Hw. pose proof (command_failed_nonzero (X := X)). unfold exit_failure in Hw. destruct (io_res r); apply Hw; naive_solver.
Qed.

(** With [--print-tag] and one target, [build_images] never returns
    normally: it ends the program with the non-zero code of a command that
    failed and prints nothing, or with code 0 after printing exactly the target's tag, whose image is then
    present locally. *)
Theorem build_images_print_tag `{HexDigest} `{PySetOrder} `{RecursionLimit} `{DockerLaws X}
    fs b target no_cache local_flag tg x :
  buildable fs b [target] → tags_ok fs b tg →
  let r := build_images fs b [target] true no_cache local_flag (tg, x) in
  ∃ c, io_res r = Raise (SystemExit c) ∧
    ((c ≠ 0%Z ∧ command_failed c (io_state r).2 ∧ outs (io_trace r) = []) ∨
     (c = 0%Z ∧ ∃ t, tag_of fs b target t ∧ outs (io_trace r) = [t] ∧ t ∈ local_images (io_state r).2)).
Proof.
  intros Hb Hok r. pose proof (wp_build_images fs b [target] true no_cache local_flag (tg, x)
    (λ _ _ _, False)
    (λ e o s', ∃ c, e = SystemExit c ∧ ((c ≠ 0%Z ∧ command_failed c s'.2 ∧ o = []) ∨
       (c = 0%Z ∧ ∃ t, tag_of fs b target t ∧ o = [t] ∧ t ∈ local_images s'.2))) Hb Hok) as Hw.
  unfold wp_out in Hw. fold r in Hw. pose proof (command_failed_nonzero (X := X)).
  destruct (io_res r) as [u|e].
  - exfalso. apply Hw; unfold exit_failure; naive_solver.
  - destruct Hw as (c & -> & Hc); unfold exit_failure; [naive_solver..|]. eauto.
Qed.

(** ** The sample project *)

#[local] Existing Instance sha256_digest.
#[local] Existing Instance encoding_order.
#[local] Instance sample_limit : RecursionLimit := 100.

Lemma sample_buildable : buildable sample_fs sample_builder ["app"].
Proof.
  split; [apply sample_NoDup|apply sample_typed|apply sample_targets|].
  intros n [-> | ->]%sample_wanted; [exists 2, sample_app_tag|exists 1, sample_base_tag];
    (split; [unfold recursion_limit, sample_limit; lia|vm_compute; reflexivity]).
Qed.

Definition empty_docker : sample_docker := (∅, ∅).

Lemma sample_no_tags : tags_ok sample_fs sample_builder [].
Proof. intros k t. discriminate. Qed.

Lemma build_images_correct_witness :
  let r := build_images sample_fs sample_builder ["app"] false false false ([], empty_docker) in
  io_res r = Ok () ∧ outs (io_trace r) = [].
Proof.
  intros r. split; [vm_compute; reflexivity|].
  destruct (build_images_correct (X := sample_docker) sample_fs sample_builder ["app"] false false []
    empty_docker sample_buildable sample_no_tags) as [Ho _]. exact Ho.
Defined.

Lemma build_images_print_tag_witness :
  let r := build_images sample_fs sample_builder ["app"] true false false ([], empty_docker) in
  outs (io_trace r) = [sample_app_tag] ∧ ∃ c, io_res r = Raise (SystemExit c).
Proof.
  intros r. split; [vm_compute; reflexivity|].
  destruct (build_images_print_tag (X := sample_docker) sample_fs sample_builder "app" false false []
    empty_docker sample_buildable sample_no_tags) as (c & Hc & _).
  exists c. exact Hc.
Defined.
