(* ===== verification/BuilderInit.v ===== *)
(** * Loading the configuration

    [DockerBuilder.__init__]: what [devkit.json] and the [deps.json] files
    make of a builder, and the programs [build.py] and
    [get_all_docker_image_tags] started from it. *)
From S2P Require Import Prelude PyStr Json Sha256 PyPath Fs Graph DockerConfig Proc DockerBuild DockerDeps DockerTags DockerImages DockerManage BuildImages.

(** ** The settings of images *)

(** The items of one setting of an image. *)
Definition setting_items (key : str) (settings : json) : option (list (str * json)) :=
  match settings with
  | JDict d => match dict_get key d with Some (JDict items) => Some items | _ => None end
  | _ => None
  end.

(** The setting [key] of image [img] in a configuration. *)
Definition image_setting (key : str) (config : json) (img : str) : option (list (str * json)) :=
  match config with
  | JDict c =>
      match dict_get "docker" c with
      | Some docker => images ← setting_items "images" docker;
                       settings ← dict_get img images;
                       setting_items key settings
      | None => None
      end
  | _ => None
  end.

Section Settings.
Context `{JsonRepr}.

Definition add_setting (key : str) (m : list (str * list str)) (kv : str * json) : list (str * list str) :=
  match setting_items key kv.2 with
  | Some items => dict_set kv.1 (key_values items) m
  | None => m
  end.

Definition add_settings (b : DockerBuilder) (images : list (str * json)) : DockerBuilder :=
  {| config_path := config_path b; search_paths := search_paths b; repo := repo b;
     namespace := namespace b; arch := arch b;
     extra_packages_map := foldl (add_setting "packages") (extra_packages_map b) images;
     extra_keys_map := foldl (add_setting "keys") (extra_keys_map b) images;
     extra_repositories_map := foldl (add_setting "repositories") (extra_repositories_map b) images;
     image_configs_map := image_configs_map b |}.

(** Every package has a version. *)
Definition versions_given (settings : json) : Prop :=
  ∀ items k v, setting_items "packages" settings = Some items → (k, v) ∈ items → truthy v = true.

Lemma add_settings_get key images img : NoDup (dict_keys images) → ∀ m, 
  dict_get img (foldl (add_setting key) m images) =
    match (settings ← dict_get img images; setting_items key settings) with
    | Some items => Some (key_values items)
    | None => dict_get img m
    end.
Proof.
  unfold dict_keys. induction images as [|[k v] images IH]; intros Hnd m; [done|].
  apply NoDup_cons in Hnd as [Hk Hnd]. cbn [foldl dict_get]. rewrite IH by done.
  unfold add_setting at 1. cbn [fst snd] in *. case_decide as Hik; subst.
  - assert (dict_get k images = None) as Hn by (by apply dict_get_None). rewrite Hn. cbn [mbind option_bind].
    destruct (setting_items key v); [apply dict_get_set_eq|done].
  - destruct (dict_get img images ≫= setting_items key); [done|].
    destruct (setting_items key v); [by apply dict_get_set_ne|done].
Qed.

(** ** Running the loops *)

Lemma wp_load_packages {S : Type} img items (s : S) (Q : list str → S → Prop) (E : exn → S → Prop) :
  ((∀ k v, (k, v) ∈ items → truthy v = true) → Q (key_values items) s) →
  (¬ (∀ k v, (k, v) ∈ items → truthy v = true) → E (SystemExit 1) s) →
  wp (load_packages img items) Q E s.
Proof.
  intros HQ HE. unfold load_packages.
  assert (∀ acc, ((∀ k v, (k, v) ∈ items → truthy v = true) → Q (acc ++ key_values items) s) →
    wp (fold_io (λ packages kv, if truthy kv.2 then mret (packages ++ [kv.1 ++ "=" ++ py_str kv.2])
      else log ERROR ("Package " ++ kv.1 ++ " in image " ++ img ++ " has an empty version. " ++
                 "Please specify a version or use '*'.");; sys_exit 1) acc items) Q E s) as Hgen.
  2: { by apply (Hgen []). }
  clear HQ. induction items as [|[k v] items IH]; intros acc HQ; cbn [fold_io].
  - wp_run. rewrite <-(app_nil_r acc). apply HQ. set_solver.
  - apply wp_bind. destruct (truthy v) eqn:Hv; cbn [snd]; rewrite Hv; wp_run.
    2: { apply HE. intros Hall. by rewrite (Hall k v) in Hv by left. }
    apply IH; [intros Hno; apply HE; intros Hall; apply Hno; intros k' v' ?; apply (Hall k'); by right|].
    intros Hall. rewrite <-app_assoc. apply HQ. intros k' v' [[= -> ->]|?]%elem_of_cons; eauto.
Qed.

(** A setting of a conforming image is absent or a dictionary. *)
Lemma image_key d k : conforms image_schema (JDict d) → k ∈ ["packages"; "keys"; "repositories"] →
  match dict_get k d with
  | None => dict_in k d = false
  | Some v => dict_in k d = true ∧ ∃ items, v = JDict items
  end.
Proof.
  intros (d' & [= <-] & Hd)%conforms_dict Hk. unfold dict_in.
  destruct (dict_get k d) as [v|] eqn:E.
  - split; [apply bool_decide_eq_true, dict_get_Some; by eexists|].
    destruct (conforms_dict [] (Some (Some str_schema)) v) as (items & -> & _); [|eauto].
    eapply Hd; [|exact E]. rewrite !elem_of_cons in *.
    repeat destruct Hk as [->|Hk]; [naive_solver..|by apply elem_of_nil in Hk].
  - apply bool_decide_eq_false. by apply dict_get_None.
Qed.

Lemma wp_load_image_settings {S : Type} b img settings (s : S) (Q : DockerBuilder → S → Prop) (E : exn → S → Prop) :
  conforms image_schema settings →
  (versions_given settings → Q (add_settings b [(img, settings)]) s) →
  (¬ versions_given settings → E (SystemExit 1) s) →
  wp (load_image_settings b img settings) Q E s.
Proof.
  intros Hc HQ HE. destruct (conforms_dict _ _ _ Hc) as (d & -> & _). destruct b.
  pose proof (image_key d "packages" Hc ltac:(set_solver)) as Hp.
  pose proof (image_key d "keys" Hc ltac:(set_solver)) as Hk.
  pose proof (image_key d "repositories" Hc ltac:(set_solver)) as Hr.
  unfold versions_given, add_settings, add_setting in *. cbn [foldl setting_items fst snd] in *.
  unfold load_image_settings. cbn [py_in py_item].
  destruct (dict_get "packages" d) as [vp|]; [destruct Hp as [Hp [ip ->]]|];
  destruct (dict_get "keys" d) as [vk|]; [destruct Hk as [Hk [ik ->]]| |destruct Hk as [Hk [ik ->]]|];
  (destruct (dict_get "repositories" d) as [vr|]; [destruct Hr as [Hr [ir ->]]|]);
  rewrite Hp, Hk, Hr; repeat (wp_step; cbn [mbind res_bind py_items]); try apply wp_load_packages;
  try intros Hv; repeat wp_step; first [apply HQ; cbn; naive_solver|apply HE; cbn; naive_solver].
Qed.

Lemma wp_load_all_settings {S : Type} images (s : S) (E : exn → S → Prop) :
  (∀ k v, (k, v) ∈ images → conforms image_schema v) →
  (¬ (∀ k v, (k, v) ∈ images → versions_given v) → E (SystemExit 1) s) →
  ∀ b (Q : DockerBuilder → S → Prop),
  ((∀ k v, (k, v) ∈ images → versions_given v) → Q (add_settings b images) s) →
  wp (fold_io (λ b kv, load_image_settings b kv.1 kv.2) b images) Q E s.
Proof.
  intros Hc HE. induction images as [|[k v] images IH]; intros b Q HQ; cbn [fold_io].
  - wp_run. destruct b. apply HQ. set_solver.
  - apply wp_bind, wp_load_image_settings; [eapply Hc; by left| |].
    2: { intros Hno. apply HE. intros Hall. apply Hno, (Hall k). by left. }
    intros Hv. apply IH; [intros; eapply Hc; by right| |].
    { intros Hno. apply HE. intros Hall. apply Hno. intros k' v' ?. apply (Hall k'). by right. }
    intros Hall. apply HQ.
    intros k' v' [[= -> ->]|?]%elem_of_cons; eauto.
Qed.

(** The registry of a configuration without one. *)
Lemma spec_no_docker c : dict_get "docker" c = None →
  spec_repo (JDict c) = "" ∧ spec_namespace (JDict c) = "devkit".
Proof. intros Hd. unfold spec_repo, spec_namespace. cbn [str_at]. by rewrite Hd. Qed.

(** The images of a conforming configuration conform too. *)
Lemma conforms_images c docker images : conforms CONFIG_SCHEMA (JDict c) →
  dict_get "docker" c = Some (JDict docker) → dict_get "images" docker = Some (JDict images) →
  ∀ k v, (k, v) ∈ images → conforms image_schema v.
Proof.
  intros (c' & [= <-] & Hc)%conforms_dict Hd Hi k v Hkv.
  apply (Hc "docker" docker_schema) in Hd; [|by left].
  apply conforms_dict in Hd as (d' & [= <-] & Hd).
  apply (Hd "images" (Schema (Some PyDict) [] (Some (Some image_schema)))) in Hi; [|set_solver].
  inversion Hi as [? ? ? ? _ _ _ Ha]; subst. eapply Ha; [done..|set_solver].
Qed.
End Settings.

(** ** A loaded builder *)

(** Every package of every image has a version. *)
Definition versions_complete (config : json) : Prop :=
  ∀ img items k v, image_setting "packages" config img = Some items → (k, v) ∈ items → truthy v = true.

(** What the settings of a builder are for a configuration. *)
Record configured `{JsonRepr} (config : json) (b : DockerBuilder) : Prop := {
  cf_repo : repo b = spec_repo config;
  cf_namespace : namespace b = spec_namespace config;
  cf_arch : arch b = "amd64";
  cf_packages img : dict_get img (extra_packages_map b) = key_values <$> image_setting "packages" config img;
  cf_keys img : dict_get img (extra_keys_map b) = key_values <$> image_setting "keys" config img;
  cf_repositories img :
    dict_get img (extra_repositories_map b) = key_values <$> image_setting "repositories" config img;
  cf_versions : versions_complete config
}.

Section Load.
Context `{JsonRepr} (fs : fsys).

(** The object before [_load_config] runs. *)
Definition fresh_builder (config_path : path) (search_paths : list path) : DockerBuilder :=
  {| config_path := config_path; search_paths := search_paths; repo := ""; namespace := "devkit";
     arch := "amd64"; extra_packages_map := []; extra_keys_map := []; extra_repositories_map := [];
     image_configs_map := [] |}.

Lemma wp_load_docker {S : Type} cp sps c (s : S) (Q : DockerBuilder → S → Prop) (E : exn → S → Prop) :
  conforms CONFIG_SCHEMA (JDict c) → json_wf (JDict c) → is_Some (dict_get "docker" c) →
  (∀ b, configured (JDict c) b → search_paths b = sps → Q b s) →
  (¬ versions_complete (JDict c) → E (SystemExit 1) s) →
  wp (b ← load_registry_config (fresh_builder cp sps) (JDict c); load_images_config b (JDict c)) Q E s.
Proof.
  intros Hc Hwf [dk Hdk] HQ HE. unfold load_registry_config. wp_run.
  rewrite parse_registry_config_spec by done. wp_run. unfold load_images_config.
  assert (∃ d, dk = JDict d) as [docker ->].
  { destruct (conforms_dict _ _ _ Hc) as (c' & [= <-] & Hp).
    destruct (conforms_dict _ _ _ (Hp "docker" docker_schema dk ltac:(by left) Hdk)) as (d & -> & _). eauto. }
  assert (∀ key img, image_setting key (JDict c) img =
    images ← setting_items "images" (JDict docker); settings ← dict_get img images; setting_items key settings)
    as Himg by (intros; cbn [image_setting]; by rewrite Hdk).
  wp_step. apply wp_lift. cbn [py_item]. rewrite Hdk. wp_step. apply wp_lift. cbn [py_in].
  destruct (dict_get "images" docker) as [im|] eqn:Him; unfold dict_in.
  - rewrite bool_decide_eq_true_2 by (apply dict_get_Some; by eexists).
    assert (∃ images, im = JDict images) as [images ->].
    { destruct (conforms_dict _ _ _ Hc) as (c' & [= <-] & Hp).
      destruct (conforms_dict _ _ _ (Hp "docker" docker_schema _ ltac:(by left) Hdk)) as (d & [= <-] & Hq).
      destruct (conforms_dict _ _ _ (Hq "images" (Schema (Some PyDict) [] (Some (Some image_schema))) _
        ltac:(set_solver) Him)) as (i & -> & _). eauto. }
    assert (NoDup (dict_keys images)) as Hnd by eauto using json_wf_keys, json_wf_item.
    wp_step. apply wp_lift. cbn [py_item]. rewrite Him. cbn [mbind res_bind py_items].
    cbn [setting_items] in Himg. rewrite Him in Himg. cbn [mbind option_bind] in Himg.
    apply wp_load_all_settings; [by eapply conforms_images| |].
    { intros Hno. apply HE. intros Hall. apply Hno. intros img st Hin items k v Hs. apply (Hall img).
      rewrite Himg. by rewrite (dict_elem_get img st images Hnd Hin). }
    intros Hv. apply HQ; [|done].
    split; try done; cbn [add_settings extra_packages_map extra_keys_map extra_repositories_map set_registry
      fresh_builder]; intros img; rewrite Himg.
    1,2,3: rewrite add_settings_get by done;
      by destruct (dict_get img images ≫= _).
    intros items k v Hs Hin. destruct (dict_get img images) as [st|] eqn:Es; [|done].
    eapply (Hv img st); [by apply dict_get_elem|done..].
  - rewrite bool_decide_eq_false_2 by (by apply dict_get_None). wp_run. apply HQ; [|done].
    cbn [setting_items] in Himg. rewrite Him in Himg.
    split; try done; intros img; by rewrite Himg.
Qed.

(** The text of the configuration; a missing file counts as an empty one. *)
Definition config_text (cp : path) : res bytes :=
  if fs_exists fs cp then fs_read fs cp else Ok ("{}" : str).

(** [_load_config] on a readable file, or none. *)
Lemma wp_load_config {S : Type} cp sps data (s : S) (Q : DockerBuilder → S → Prop) (E : exn → S → Prop) :
  config_text cp = Ok data →
  (∀ config b, json_load data = Ok config → conforms CONFIG_SCHEMA config → configured config b →
     search_paths b = sps → Q b s) →
  ((∀ config, json_load data = Ok config → conforms CONFIG_SCHEMA config → ¬ versions_complete config) →
     E (SystemExit 1) s) →
  wp (load_config fs (fresh_builder cp sps)) Q E s.
Proof.
  unfold config_text. intros Hr HQ HE. unfold load_config. cbn [config_path fresh_builder].
  destruct (fs_exists fs cp).
  2: { wp_run. injection Hr as <-. apply (HQ (JDict [])); [by vm_compute|by apply (validate_config_iff _ _ "")|by split|done]. }
  rewrite Hr. wp_run. destruct (json_load data) as [config|e] eqn:Hj.
  2: { assert (is_ValueError e = true) as Hv by (by eapply json_load_errors). rewrite Hv, orb_true_r. wp_run. by apply HE. }
  wp_run. destruct (validate_config CONFIG_SCHEMA config "") as [[]|e] eqn:Hv.
  2: { destruct (validate_config_error _ _ _ _ Hv) as [msg ->]. cbn. wp_run. apply HE. intros c [= <-] Hc.
       apply (validate_config_iff _ _ "") in Hc. congruence. }
  apply validate_config_iff in Hv. destruct (conforms_dict _ _ _ Hv) as (c & -> & _). cbn [py_in]. wp_step. wp_step.
  unfold dict_in. destruct (dict_get "docker" c) as [dk|] eqn:Hdk.
  - rewrite bool_decide_eq_true_2 by (apply dict_get_Some; by eexists).
    apply wp_load_docker; [done|by eapply json_load_wf|by eexists|by eauto|].
    intros Hno. apply HE. by intros ? [= <-].
  - rewrite bool_decide_eq_false_2 by (by apply dict_get_None). wp_run.
    eapply HQ; [done|done| |done]. destruct (spec_no_docker c Hdk) as [H1 H2].
    split; cbn; rewrite ?Hdk; try done. intros img items k v. cbn. by rewrite Hdk.
Qed.

(** ** The configurations of the images *)

(** The images a search path configures; a file that is not a dictionary
    configures none. *)
Definition deps_of (p : path) : res (list (str * json)) :=
  let deps_file := path_child p "deps.json" in
  if fs_exists fs deps_file then
    data ← fs_read fs deps_file; j ← json_load data;
    Ok (match j with JDict d => d | _ => [] end)
  else Ok [].

(** The configuration of an image: that of the last search path with one. *)
Definition image_config (sps : list path) (n : str) : option json :=
  foldl (λ conf p, match deps_of p with
                   | Ok d => match dict_get n d with Some v => Some v | None => conf end
                   | Raise _ => conf
                   end) None sps.

(** The first file that cannot be read or decoded ends the program: invalid
    JSON with code 1. *)
Definition deps_failure (sps : list path) (e : exn) : Prop :=
  ∃ l1 p l2 e', sps = l1 ++ p :: l2 ∧ (∀ q, q ∈ l1 → ∃ d, deps_of q = Ok d) ∧ deps_of p = Raise e' ∧
    e = if is_JSONDecodeError e' then SystemExit 1 else e'.

Lemma wp_load_deps {S : Type} configs p (s : S) :
  wp (load_deps_file fs configs p)
    (λ configs' s', s' = s ∧ ∃ d, deps_of p = Ok d ∧ NoDup (dict_keys d) ∧ configs' = dict_update configs d)
    (λ e s', s' = s ∧ ∃ e', deps_of p = Raise e' ∧ e = if is_JSONDecodeError e' then SystemExit 1 else e') s.
Proof.
  unfold load_deps_file, deps_of. destruct (fs_exists fs _); wp_run.
  2: { split; [done|]. exists []. split_and!; [done|constructor|done]. }
  destruct (fs_read _ _) as [data|e] eqn:Hr; wp_run.
  2: { split; [done|]. exists e. split; [done|]. pose proof (fs_read_error _ _ _ Hr). by destruct e. }
  cbn [mbind res_bind]. destruct (json_load data) as [j|e] eqn:Hj; cbn [mbind res_bind]; wp_run.
  2: { destruct (is_JSONDecodeError e) eqn:He; wp_run; (split; [done|]); exists e; by rewrite He. }
  destruct j; wp_run; (split; [done|]); (eexists; split_and!; [reflexivity| |reflexivity]); try constructor.
  by eapply json_wf_keys, json_load_wf.
Qed.

Lemma wp_load_image_configs {S : Type} sps (s : S) :
  wp (load_image_configs fs sps)
    (λ configs s', s' = s ∧ (∀ p, p ∈ sps → ∃ d, deps_of p = Ok d) ∧ NoDup (dict_keys configs) ∧
       ∀ n, dict_get n configs = image_config sps n)
    (λ e s', s' = s ∧ deps_failure sps e) s.
Proof.
  unfold load_image_configs, image_config.
  assert (∀ acc conf, NoDup (dict_keys acc) → (∀ n, dict_get n acc = conf n) →
    wp (fold_io (load_deps_file fs) acc sps)
      (λ configs s', s' = s ∧ (∀ p, p ∈ sps → ∃ d, deps_of p = Ok d) ∧ NoDup (dict_keys configs) ∧
         ∀ n, dict_get n configs = foldl (λ conf p, match deps_of p with
           | Ok d => match dict_get n d with Some v => Some v | None => conf end | Raise _ => conf end) (conf n) sps)
      (λ e s', s' = s ∧ deps_failure sps e) s) as Hgen.
  2: { apply Hgen; [constructor|done]. }
  induction sps as [|p sps IH]; intros acc conf Hnd Hacc; cbn [fold_io foldl].
  { wp_run. split_and!; try done. by intros p ?%elem_of_nil. }
  apply wp_bind. eapply wp_mono; [apply wp_load_deps|intros acc' ? (-> & d & Hd & Hndd & ->)|].
  - rewrite Hd. eapply wp_mono; [apply IH; [by apply dict_update_NoDup|]| |].
    + intros n. rewrite dict_get_update, Hacc by done. reflexivity.
    + intros configs ? (-> & Hp & ? & Hn). split_and!; try done.
      intros q [->|Hq]%elem_of_cons; [by exists d|by apply Hp].
    + intros e ? (-> & l1 & q & l2 & e' & -> & Hl & Hq & ->). split; [done|].
      exists (p :: l1), q, l2, e'. split_and!; try done. intros x [->|Hx]%elem_of_cons; [by exists d|by apply Hl].
  - intros e ? (-> & e' & He & ->). split; [done|]. exists [], p, sps, e'. split_and!; try done. by intros ? ?%elem_of_nil.
Qed.
End Load.

(** How the constructor ends. *)
Lemma init_spec `{JsonRepr} fs cp sps data {S : Type} (s : S) :
  config_text fs cp = Ok data →
  match io_res (init fs cp sps s) with
  | Ok b => ∃ config, json_load data = Ok config ∧ conforms CONFIG_SCHEMA config ∧ configured config b ∧
              search_paths b = sps ∧ NoDup (dict_keys (image_configs_map b)) ∧
              (∀ n, dict_get n (image_configs_map b) = image_config fs sps n) ∧
              ∀ p, p ∈ sps → ∃ d, deps_of fs p = Ok d
  | Raise e =>
      (∃ config, json_load data = Ok config ∧ conforms CONFIG_SCHEMA config ∧ versions_complete config ∧
         deps_failure fs sps e) ∨
      (e = SystemExit 1 ∧
       ∀ config, json_load data = Ok config → conforms CONFIG_SCHEMA config → ¬ versions_complete config)
  end.
Proof.
  intros Hr. apply wp_res. unfold init. apply wp_bind. eapply wp_load_config; [done| |by right].
  intros config b Hj Hc Hb Hs. apply wp_bind.
  eapply wp_mono; [apply wp_load_image_configs|intros configs ? (-> & Hp & Hnd & Hn)|].
  - wp_run. exists config. split_and!; try done. by destruct Hb; split.
  - intros e ? [-> He]. left. exists config. by destruct Hb.
Qed.

Lemma init_result `{JsonRepr} fs cp sps data {S : Type} (s : S) b :
  fs_exists fs cp = true → fs_read fs cp = Ok data → io_res (init fs cp sps s) = Ok b →
  ∃ config, json_load data = Ok config ∧ conforms CONFIG_SCHEMA config ∧ configured config b ∧
    search_paths b = sps ∧ NoDup (dict_keys (image_configs_map b)).
Proof.
  intros He Hr Hb. pose proof (init_spec fs cp sps data s) as Hi. unfold config_text in Hi. rewrite He, Hb in Hi.
  naive_solver.
Qed.

(** C15: [DockerBuilder(config_path, search_paths)] on a readable
    configuration file, or on none, which counts as an empty object.  When the
    file is JSON that conforms to the schema and gives every package a
    version, the constructor returns exactly when the [deps.json] of every
    search path that has one can be read and decoded; the builder then has
    exactly the registry, namespace, packages, keys and repositories of the
    file, and for each image the configuration of the last search path with
    one, every image once.  The first [deps.json] that fails ends it with its
    error, invalid JSON with exit code 1.  On every other configuration file,
    one that is not JSON, does not conform or has a package without a version,
    the program exits with code 1. *)
Theorem init_correct `{JsonRepr} fs cp sps data {S : Type} (s : S) :
  config_text fs cp = Ok data →
  (∀ config, json_load data = Ok config → conforms CONFIG_SCHEMA config → versions_complete config →
    match io_res (init fs cp sps s) with
    | Ok b => configured config b ∧ search_paths b = sps ∧ NoDup (dict_keys (image_configs_map b)) ∧
        (∀ n, dict_get n (image_configs_map b) = image_config fs sps n) ∧
        (∀ p, p ∈ sps → ∃ d, deps_of fs p = Ok d)
    | Raise e => deps_failure fs sps e
    end) ∧
  ((∀ config, json_load data = Ok config → conforms CONFIG_SCHEMA config → ¬ versions_complete config) →
   io_res (init fs cp sps s) = Raise (SystemExit 1)).
Proof.
  intros Hr. pose proof (init_spec fs cp sps data s Hr) as Hi. split.
  - intros config Hj Hc Hv. rewrite Hj in Hi. destruct (io_res _) as [b|e]; [naive_solver|].
    destruct Hi as [(c & ? & ? & ? & ?)|[_ Hno]]; [done|]. by destruct (Hno config).
  - intros Hno. destruct (io_res _) as [b|e].
    + destruct Hi as (c & Hj & Hc & Hb & _). by destruct (Hno c Hj Hc (cf_versions _ _ Hb)).
    + destruct Hi as [(c & Hj & Hc & Hv & _)|[-> _]]; [by destruct (Hno c Hj Hc)|done].
Qed.

(** ** The whole program *)

(** Statements that leave the state alone. *)
Definition keeps {S A} (m : io S A) : Prop := ∀ s, io_state (m s) = s.

Section Keeps.
Context {S : Type}.

Lemma keeps_bind {A B} (m : io S A) (k : A → io S B) : keeps m → (∀ a, keeps (k a)) → keeps (m ≫= k).
Proof.
  intros Hm Hk s. specialize (Hm s). unfold io_state, mbind, io_bind in *.
  destruct (m s) as [[t s'] [a|e]]; cbn in *; [|done]. specialize (Hk a s'). unfold io_state in Hk.
  destruct (k a s') as [[? ?] ?]; cbn in *. congruence.
Qed.

Lemma keeps_try {A} (m : io S A) h : keeps m → (∀ e k, h e = Some k → keeps k) → keeps (try_except m h).
Proof.
  intros Hm Hh s. specialize (Hm s). unfold io_state, try_except in *.
  destruct (m s) as [[t s'] [a|e]]; cbn in *; [done|]. destruct (h e) as [k|] eqn:Hk; [|done].
  specialize (Hh e k Hk s'). unfold io_state in Hh. destruct (k s') as [[? ?] ?]; cbn in *. congruence.
Qed.

Lemma keeps_fold {A B} (body : B → A → io S B) l : (∀ b x, keeps (body b x)) → ∀ b, keeps (fold_io body b l).
Proof.
  intros Hb. induction l as [|x l IH]; intros b; cbn [fold_io]; [by intros s|]. by apply keeps_bind.
Qed.
End Keeps.

Ltac keeps_step :=
  match goal with
  | |- keeps (_ ≫= _) => apply keeps_bind; [|intros ?]
  | |- keeps (try_except _ _) => apply keeps_try; [|intros ? ?; cbn; case_match; [intros [= <-]|done]]
  | |- keeps (fold_io _ _ _) => apply keeps_fold; intros ? ?
  | |- keeps (if ?b then _ else _) => destruct b
  | |- keeps _ => by intros ?
  end.

Section InitKeeps.
Context `{JsonRepr} (fs : fsys) {S : Type}.

Lemma load_deps_keeps configs p : keeps (load_deps_file fs configs p : io S _).
Proof. unfold load_deps_file. repeat keeps_step. case_match; repeat keeps_step. Qed.

Lemma init_keeps cp sps : keeps (init fs cp sps : io S _).
Proof.
  unfold init, load_image_configs, load_config, load_registry_config, load_images_config, load_image_settings, load_packages.
  repeat first [apply load_deps_keeps | keeps_step].
Qed.

Lemma load_deps_logs configs p : emits is_log (load_deps_file fs configs p : io S _).
Proof.
  unfold load_deps_file. emits_auto. apply emits_try; [emits_auto; case_match; emits_auto|].
  intros e k. cbn. case_match; [intros [= <-]; emits_auto|done].
Qed.

Lemma load_images_logs b config : emits is_log (load_images_config b config : io S _).
Proof.
  unfold load_images_config, load_image_settings, load_packages.
  repeat first [emits_step | apply emits_fold; intros ? ? _].
Qed.

Lemma init_logs cp sps : emits is_log (init fs cp sps : io S _).
Proof.
  unfold init. apply emits_bind; [|intros b; apply emits_bind; [|intros c; apply emits_ret]].
  - unfold load_config, load_registry_config. emits_auto. apply emits_try; [emits_auto; apply load_images_logs|].
    intros e k. cbn. case_match; [intros [= <-]; emits_auto|done].
  - apply emits_fold. intros. apply load_deps_logs.
Qed.
End InitKeeps.

(** What the checks at the start refuse: a [docker] without a working
    [--version] or [buildx version], unknown targets, and [--print-tag] with
    no target or several. *)
Definition docker_missing `{Host X} (x' : X) : Prop := ∃ cmd x o, exec cmd x = (o, x') ∧
  (cmd = ["docker"; "--version"] ∨ cmd = ["docker"; "buildx"; "version"]) ∧
  match o with Some r => returncode r ≠ 0%Z | None => True end.

Definition bad_targets (print_tag_mode : bool) (targets names : list str) : Prop :=
  (∃ t, t ∈ targets ∧ t ∉ names) ∨ (print_tag_mode = true ∧ length targets ≠ 1).

Section Checks.
Context `{Host X}.

Lemma wp_check_docker has_log (Q : () → X → Prop) (E : exn → X → Prop) x :
  (∀ x', Q () x') → (∀ x', docker_missing x' → E (SystemExit 1) x') → wp (check_docker_installed has_log) Q E x.
Proof.
  intros HQ HE. unfold check_docker_installed. wp_step. wp_step.
  apply wp_subprocess; intros; cbn; repeat wp_step; auto; apply HE; do 3 eexists; eauto.
Qed.

Lemma wp_check_buildx has_log (Q : () → X → Prop) (E : exn → X → Prop) x :
  (∀ x', Q () x') → (∀ x', docker_missing x' → E (SystemExit 1) x') → wp (check_docker_buildx_installed has_log) Q E x.
Proof.
  intros HQ HE. unfold check_docker_buildx_installed. wp_step. wp_step.
  apply wp_subprocess; intros; cbn; repeat wp_step; auto; apply HE; do 3 eexists; eauto.
Qed.

Lemma check_docker_silent has_log : emits silent (check_docker_installed has_log : io X ()).
Proof.
  apply emits_try; [emits_auto; done|]. intros e k. case_match; [|done]. intros [= <-].
  destruct has_log; emits_auto.
Qed.

Lemma check_buildx_silent has_log : emits silent (check_docker_buildx_installed has_log : io X ()).
Proof.
  apply emits_try; [emits_auto; done|]. intros e k. case_match; [|done]. intros [= <-].
  destruct has_log; emits_auto.
Qed.
End Checks.

(** The loop that refuses unknown targets. *)
Lemma wp_check_targets {S : Type} names targets (s : S) (Q : () → S → Prop) (E : exn → S → Prop) :
  ((∀ t, t ∈ targets → t ∈ names) → Q () s) → ((∃ t, t ∈ targets ∧ t ∉ names) → E (SystemExit 1) s) →
  wp (for_each targets (λ ti,
       if bool_decide (ti ∈ names) then mret ()
       else log ERROR ("Specified target image '" ++ ti ++ "' is not a valid image name.");;
            log ERROR ("Choose from: " ++ join ", " names);;
            sys_exit 1)) Q E s.
Proof.
  intros HQ HE. induction targets as [|t targets IH]; cbn [for_each]; wp_run; [apply HQ; set_solver| |].
  - apply IH; [intros Hall; apply HQ; apply bool_decide_eq_true in Heqb; set_solver|].
    intros (u & ? & ?). apply HE. exists u. set_solver.
  - apply HE. exists t. apply bool_decide_eq_false in Heqb. set_solver.
Qed.

(** How a run of [main] ends. *)
Lemma build_main_run `{JsonRepr} `{HexDigest} `{PySetOrder} `{RecursionLimit} `{DockerLaws X} fs args b x :
  let configs := image_configs_map b in
  (∀ s : tags * X, io_res (init fs (config args) (search_path args) s) = Ok b) →
  NoDup (dict_keys configs) → configs_typed configs →
  (∀ n, wanted configs (target_images args) n → taggable fs b n) →
  let r := main fs args ([], x) in
  match io_res r with
  | Ok _ => print_tag args = false ∧ outs (io_trace r) = [] ∧
      ∀ n, wanted configs (target_images args) n → ∃ t, tag_of fs b n t ∧ t ∈ local_images (io_state r).2
  | Raise e => ∃ c, e = SystemExit c ∧
      ((c ≠ 0%Z ∧ outs (io_trace r) = [] ∧ (command_failed c (io_state r).2 ∨ docker_missing (io_state r).2 ∨
          bad_targets (print_tag args) (target_images args) (dict_keys configs))) ∨
       (c = 0%Z ∧ print_tag args = true ∧ ∃ n t, target_images args = [n] ∧ tag_of fs b n t ∧
          outs (io_trace r) = [t] ∧ t ∈ local_images (io_state r).2))
  end.
Proof.
  intros configs Hinit Hnd Hty Htags r.
  set (P := λ (q : res ()) (o : list str) (s : tags * X), match q with
    | Ok _ => print_tag args = false ∧ o = [] ∧
        ∀ n, wanted configs (target_images args) n → ∃ t, tag_of fs b n t ∧ t ∈ local_images s.2
    | Raise e => ∃ c, e = SystemExit c ∧ ((c ≠ 0%Z ∧ o = [] ∧
          (command_failed c s.2 ∨ docker_missing s.2 ∨ bad_targets (print_tag args) (target_images args) (dict_keys configs))) ∨
        (c = 0%Z ∧ print_tag args = true ∧ ∃ n t, target_images args = [n] ∧ tag_of fs b n t ∧
          o = [t] ∧ t ∈ local_images s.2)) end).
  assert (wp_out (main fs args) (λ a, P (Ok a)) (λ e, P (Raise e)) ([], x)) as Hw.
  2: { unfold wp_out in Hw. fold r in Hw. by destruct (io_res r). }
  unfold main.
  apply wp_out_silent; [apply emits_on_snd, check_docker_silent|].
  apply wp_on_snd, wp_check_docker; [|intros; exists 1%Z; naive_solver]. intros x1.
  apply wp_out_silent; [apply emits_on_snd, check_buildx_silent|].
  apply wp_on_snd, wp_check_buildx; [|intros; exists 1%Z; naive_solver]. intros x2.
  apply wp_out_silent; [by apply emits_logs; [apply init_logs|]|]. unfold wp. rewrite Hinit, init_keeps. cbn [fst snd].
  set (tg := @nil (str * str)).
  assert ((∀ t, t ∈ target_images args → t ∈ dict_keys configs) →
    (print_tag args = true → ∃ t, target_images args = [t]) →
    wp_out (build_images fs b (target_images args) (print_tag args) (no_cache args) (local args))
      (λ a, P (Ok a)) (λ e, P (Raise e)) (tg, x2)) as Hrun.
  { intros Ht Hpt. apply wp_build_images; [by split|by intros ? ?|done|done| |].
    - intros e s' (c & -> & Hc). exists c. pose proof (command_failed_nonzero _ _ Hc). auto 8.
    - intros n t s' ? ? ? ?. exists 0%Z. split; [done|]. right. eauto 10. }
  destruct (print_tag args) eqn:Hp.
  - apply wp_out_silent; [repeat case_match; emits_auto|].
    assert (bad_targets true (target_images args) (dict_keys configs) → P (Raise (SystemExit 1)) [] (tg, x2)) as Hbad.
    { intros Hbad. exists 1%Z. split; [done|]. left. auto. }
    destruct (target_images args) as [|t [|]] eqn:Ht; repeat wp_step.
    + apply Hbad. by right.
    + apply Hrun; [|eauto]. apply bool_decide_eq_true in Heqb0. set_solver.
    + apply Hbad. left. exists t. apply bool_decide_eq_false in Heqb0. set_solver.
    + apply Hbad. by right.
  - apply wp_out_silent; [apply emits_for_each; intros; emits_auto|].
    apply wp_check_targets; [intros Ht; by apply Hrun|]. intros Ht. exists 1%Z. unfold bad_targets. auto 8.
Qed.

(** C1: a run of [build.py] whose configuration loads into a builder with
    well-typed dependencies and a tag, within the recursion limit, for every
    image the targets need: its dependencies are known and have no cycle, its
    Dockerfile is there and readable, its arguments can be encoded.  The run
    returns only without [--print-tag], having printed nothing and with every
    wanted image present locally under its tag.  Otherwise it ends with an
    exit code: a non-zero one, nothing printed, because a check at the start
    refuses the Docker installation or the targets or because the last command
    failed; or zero, only with [--print-tag] and one target, whose tag is the
    one line printed, and which is present. *)
Theorem build_main_correct `{JsonRepr} `{HexDigest} `{PySetOrder} `{RecursionLimit} `{DockerLaws X} fs args b x :
  let configs := image_configs_map b in
  (∀ s : tags * X, io_res (init fs (config args) (search_path args) s) = Ok b) →
  NoDup (dict_keys configs) → configs_typed configs →
  (∀ n, wanted configs (target_images args) n → taggable fs b n) →
  let r := main fs args ([], x) in
  match io_res r with
  | Ok _ => print_tag args = false ∧ outs (io_trace r) = [] ∧
      ∀ n, wanted configs (target_images args) n → ∃ t, tag_of fs b n t ∧ t ∈ local_images (io_state r).2
  | Raise e => ∃ c, e = SystemExit c ∧
      ((c ≠ 0%Z ∧ outs (io_trace r) = [] ∧ (command_failed c (io_state r).2 ∨ docker_missing (io_state r).2 ∨
          bad_targets (print_tag args) (target_images args) (dict_keys configs))) ∨
       (c = 0%Z ∧ print_tag args = true ∧ ∃ n t, target_images args = [n] ∧ tag_of fs b n t ∧
          outs (io_trace r) = [t] ∧ t ∈ local_images (io_state r).2))
  end.
Proof. apply build_main_run. Qed.

#[local] Existing Instance sha256_digest.
#[local] Existing Instance encoding_order.
#[local] Instance sample_limit : RecursionLimit := 100.
#[local] Instance sample_repr : JsonRepr := λ _, [].

Definition sample_args : build_args :=
  BuildArgs ["app"] true (path_of_str "/devkit.json") [path_of_str "/images"] false false None.

Lemma init_correct_witness :
  match io_res (init sample_fs (path_of_str "/devkit.json") [path_of_str "/images"] ()) with
  | Ok b => repo b = "h/p/r"
  | Raise _ => False
  end ∧
  io_res (init (Fsys (NDir [("devkit.json", NFile ("{1" : str))]) []) (path_of_str "/devkit.json") [] ()) = Raise (SystemExit 1).
Proof.
  split.
  - pose proof (init_spec sample_fs (path_of_str "/devkit.json") [path_of_str "/images"] sample_devkit ()
      ltac:(vm_compute; reflexivity)) as Hs.
    destruct (init_correct sample_fs (path_of_str "/devkit.json") [path_of_str "/images"] sample_devkit ()
      ltac:(vm_compute; reflexivity)) as [Hok _].
    destruct (io_res _) as [b|e] eqn:Hr; [|vm_compute in Hr; discriminate Hr].
    destruct Hs as (config & Hj & Hc & Hb & _). destruct (Hok config Hj Hc (cf_versions _ _ Hb)) as [Hb' _].
    rewrite (cf_repo _ _ Hb'). vm_compute in Hj. injection Hj as <-. vm_compute. reflexivity.
  - apply (init_correct (Fsys (NDir [("devkit.json", NFile ("{1" : str))]) []) (path_of_str "/devkit.json") [] ("{1" : str) ()).
    + vm_compute. reflexivity.
    + intros config Hj. vm_compute in Hj. discriminate Hj.
Defined.

Lemma build_main_correct_witness :
  let r := main sample_fs sample_args ([], empty_docker) in
  outs (io_trace r) = [sample_app_tag] ∧
  match io_res r with Ok _ => False | Raise e => ∃ c, e = SystemExit c end.
Proof.
  intros r. split; [vm_compute; reflexivity|].
  pose proof (build_main_correct (X := sample_docker) sample_fs sample_args sample_builder empty_docker) as H.
  cbv zeta in H. fold r in H. destruct (io_res r) as [u|e] eqn:Hr; [vm_compute in Hr; discriminate|].
  destruct H as (c & Hc & _); [| | | |exists c; exact Hc].
  - intros s. vm_compute. reflexivity.
  - exact sample_NoDup.
  - exact sample_typed.
  - exact (bd_tags _ _ _ sample_buildable).
Defined.
