(* ===== verification/Cleanup.v ===== *)
(** * Image clean-up

    [docker_cleanup.py]: old images of this project, except those the current
    configuration would use, are removed in batches by a background thread
    that can be cancelled at any time. *)
From S2P Require Import Prelude PyStr Json Sha256 PyPath Fs DockerConfig Proc DockerBuild.

(** ** Image names *)

Definition ALLOWED_IMAGE_NAMES : list str :=
  ["build-env"; "build-env-debian"; "build-env-rockylinux"; "clion-ide"; "dev-env"; "gcloud-env";
   "goland-ide"; "ide-env"; "intellij-ide"; "nitro-cli-linux6"; "pycharm-ide"; "tool-env";
   "vscode-ide"; "vscode-server"].

(** The text around the last [c]. *)
Fixpoint rpartition (c : N) (s : str) : option (str * str) :=
  match s with
  | [] => None
  | x :: s' =>
      match rpartition c s' with
      | Some (a, b) => Some (x :: a, b)
      | None => if (x =? c)%N then Some ([], s') else None
      end
  end.

(** [([a-zA-Z0-9_]+)-([a-f0-9]{64})]. *)
Definition match_suffix (s : str) : bool :=
  match split1 s 45 with
  | Some (arch, hash) =>
      negb (bool_decide (arch = [])) && forallb is_word arch &&
      (length hash =? 64)%nat && forallb is_lower_hex hash
  | None => false
  end.

(** The part before the name: an optional path and a slash, [devkit], and an
    optional slash and path, that is, a path one of whose components is
    [devkit]; the dot of the pattern does not match a line feed. *)
Definition match_prefix (s : str) : bool :=
  negb (bool_decide (10%N ∈ s)) && bool_decide ("devkit" ∈ split s 47).

(** Group 1 of a match of the pattern. *)
Definition match_core (img : str) : option str :=
  '(path, suffix) ← rpartition 58 img;
  '(prefix, name) ← rpartition 47 path;
  if match_prefix prefix && negb (bool_decide (name = [])) && negb (bool_decide (58%N ∈ name)) && match_suffix suffix
  then Some name else None.

(** [IMAGE_PATTERN.match(img)], as group 1; [$] also matches before a line
    feed that ends the text. *)
Definition IMAGE_PATTERN (img : str) : option str :=
  match rpartition 10 img with
  | Some (core, []) => match_core core
  | _ => match_core img
  end.

Definition filter_allowed_images {S : Type} (images : list str) : io S (list str) :=
  fold_io (λ allowed_images img,
    match IMAGE_PATTERN img with
    | Some image_name =>
        if bool_decide (image_name ∈ ALLOWED_IMAGE_NAMES) then mret (allowed_images ++ [img])
        else log INFO ("Skipping image " ++ img ++ " as it is not in the allowlist.");; mret allowed_images
    | None =>
        log INFO ("Skipping image " ++ img ++ " as it does not match the expected format.");;
        mret allowed_images
    end) [] images.

(** ** Candidates *)

(** Run a computation in a state of its own. *)
Definition run_fresh {S T A} (s0 : S) (m : io S A) : io T A := λ x,
  let '(t, _, r) := m s0 in (t, x, r).

Section Cleanup.
Context `{JsonRepr} `{HexDigest} `{PySetOrder} `{RecursionLimit} (fs : fsys).

Definition get_ignored_images {T : Type} (config_path : path) (search_paths : list path) : io T (list str) :=
  try_except
    (ignored_images ← run_fresh [] (get_all_docker_image_tags fs config_path search_paths []);
     log INFO ("Determined " ++ str_of_Z (Z.of_nat (length ignored_images)) ++
               " images to ignore during cleanup.");;
     mret ignored_images)
    (λ e, if is_Exception e then
       Some (log WARNING ("Failed to calculate ignored images for cleanup: " ++ exn_text e);; mret [])
     else None).

Context `{Host X}.

Definition images_cmd (image_prefix : str) (threshold_hours : Z) : list str :=
  ["docker"; "images"; "--filter"; "reference=" ++ image_prefix ++ "/*"; "--filter";
   "until=" ++ str_of_Z threshold_hours ++ "h"; "--format"; "{{.Repository}}:{{.Tag}}"].

Definition get_images (image_prefix : str) (threshold_days : Z) : io X (list str) :=
  let threshold_hours := (threshold_days * 24)%Z in
  try_except
    (result ← subprocess_run true (images_cmd image_prefix threshold_hours);
     mret (splitlines (strip (stdout result))))
    (λ e, if is_CalledProcessError e || is_FileNotFoundError e then
       Some (log WARNING ("Failed to list docker images: " ++ exn_text e);; mret [])
     else None).

Definition get_images_to_cleanup (config_path : path) (search_paths : list path)
    (threshold_days : Z) : io X (list str) :=
  image_prefix ← lift_res (get_image_prefix fs config_path);
  all_images ← get_images image_prefix threshold_days;
  match all_images with
  | [] => log INFO "No images found for cleanup.";; mret []
  | _ =>
      allowed_images ← filter_allowed_images all_images;
      match allowed_images with
      | [] => log INFO "No allowed images found for cleanup.";; mret []
      | _ =>
          ignored_images ← get_ignored_images config_path search_paths;
          let all_to_cleanup := List.filter (λ img, negb (bool_decide (img ∈ ignored_images))) allowed_images in
          match all_to_cleanup with
          | [] => log INFO "All found images are in the ignore list. Nothing to clean up.";; mret []
          | _ =>
              log INFO ("Found " ++ str_of_Z (Z.of_nat (length all_to_cleanup)) ++ " images to clean up.");;
              mret all_to_cleanup
          end
      end
  end.
End Cleanup.

(** ** Removal *)

(** The cancel event, as seen by the thread that polls it: it is never set,
    it is set after [n] more polls that find it clear (once set it stays set),
    or Ctrl-C arrives during the poll after [n] more.  Only the main thread
    gets Ctrl-C; one that arrives between two polls shows at the next. *)
Inductive cancel :=
  | Never
  | SetAfter (n : nat)
  | InterruptAfter (n : nat).

(** A child process that is polled: how often it is found running, [None]
    when it does not end by itself, and the host when it is terminated or
    interrupted before it ends. *)
Class Popen (X : Type) := {
  polls_running : list str → X → option nat;
  terminated : list str → X → X
}.

Section Removal.
Context `{Host X} `{Popen X}.

(** [cancel_event.is_set()] and [cancel_event.wait(t)]. *)
Definition check_cancel : io (cancel * X) bool := λ '(c, x),
  match c with
  | Never => ([], (c, x), Ok false)
  | SetAfter O => ([], (c, x), Ok true)
  | SetAfter (S n) => ([], (SetAfter n, x), Ok false)
  | InterruptAfter O => ([], (Never, x), Raise KeyboardInterrupt)
  | InterruptAfter (S n) => ([], (InterruptAfter n, x), Ok false)
  end.

(** [while proc.poll() is None]; [false] when the process was terminated.
    [running] polls find the process running; then it has ended, when it
    [ends] at all. *)
Fixpoint poll_loop (running : nat) (ends : bool) (tag : str) : io (cancel * X) bool :=
  match running with
  | O => if ends then mret true else raise Diverges
  | S running =>
      cancelled ← check_cancel;
      if cancelled : bool then
        log INFO ("Cleanup cancelled; exiting removal loop for " ++ tag);;
        emit (EvTerminate ["docker"; "rmi"; tag]);;
        mret false
      else poll_loop running ends tag
  end.

(** The polls up to the one that stops the loop from outside. *)
Definition polls_left (c : cancel) : nat :=
  match c with Never => 0 | SetAfter n | InterruptAfter n => S n end.

(** The polls of a process: until it ends or the loop is stopped. *)
Definition poll_process (running : option nat) (tag : str) : io (cancel * X) bool :=
  match running with
  | Some n => poll_loop n true tag
  | None => '(c, _) ← get; poll_loop (polls_left c) false tag
  end.

(** [for line in text.strip().splitlines(): log(prefix + line)]. *)
Definition log_lines {S : Type} (l : level) (prefix text : str) : io S () :=
  if bool_decide (text = []) then mret ()
  else for_each (splitlines (strip text)) (λ line, log l (prefix ++ line)).

(** One [docker rmi]; [false] when the batch is to return.  An interrupt also
    reaches the child, and leaves the [with] block. *)
Definition remove_image (tag : str) : io (cancel * X) bool :=
  let cmd := ["docker"; "rmi"; tag] in
  try_except
    (emit (EvRun cmd);;
     '(c, x) ← get;
     match exec cmd x with
     | (None, x') => put (c, x');; raise FileNotFoundError
     | (Some r, x') =>
         ended ←
           try_except (poll_process (polls_running cmd x) tag)
             (λ e, match e with
                   | KeyboardInterrupt => Some ('(c', _) ← get; put (c', terminated cmd x);; raise KeyboardInterrupt)
                   | _ => None
                   end);
         if ended : bool then
           '(c', _) ← get; put (c', x');;
           log_lines INFO "[docker rmi stdout]: " (stdout r);;
           log_lines WARNING "[docker rmi stderr]: " (stderr r);;
           (if (returncode r =? 0)%Z then mret ()
            else log WARNING ("Failed to remove image " ++ tag ++ " (exit code " ++
                              str_of_Z (returncode r) ++ ")"));;
           mret true
         else '(c', _) ← get; put (c', terminated cmd x);; mret false
     end)
    (λ e, if is_Exception e then
       Some (log WARNING ("Error during image removal of " ++ tag ++ ": " ++ exn_text e);; mret true)
     else None).

(** The loop over the tags of a batch. *)
Fixpoint remove_images (tags : list str) : io (cancel * X) () :=
  match tags with
  | [] => mret ()
  | tag :: tags =>
      cancelled ← check_cancel;
      if cancelled : bool then mret ()
      else
        log INFO ("Removing image: " ++ tag);;
        continue ← remove_image tag;
        if continue : bool then remove_images tags else mret ()
  end.

Definition cleanup_images_batch (images_to_cleanup : list str) : io (cancel * X) () :=
  match images_to_cleanup with
  | [] => mret ()
  | _ =>
      log INFO ("Cleaning up " ++ str_of_Z (Z.of_nat (length images_to_cleanup)) ++ " images in this batch.");;
      remove_images images_to_cleanup
  end.

(** [l[i : i + n]] for [i] in [range(0, len(l), n)]; [fuel] bounds the number
    of batches, each of which takes at least one element. *)
Fixpoint batches_from (fuel n : nat) (l : list str) : list (list str) :=
  match fuel, l with
  | S fuel, _ :: _ => take n l :: batches_from fuel n (drop n l)
  | _, _ => []
  end.
Definition batches (batch_size : Z) (l : list str) : res (list (list str)) :=
  if (batch_size =? 0)%Z then Raise (ValueError "range() arg 3 must not be zero")
  else Ok (batches_from (length l) (Z.to_nat batch_size) (if (batch_size <? 0)%Z then [] else l)).

Fixpoint cleanup_loop (bs : list (list str)) : io (cancel * X) () :=
  match bs with
  | [] => mret ()
  | batch :: bs =>
      cleanup_images_batch batch;;
      cancelled ← check_cancel;
      if cancelled : bool then mret () else cleanup_loop bs
  end.

Context `{JsonRepr} `{HexDigest} `{PySetOrder} `{RecursionLimit} (fs : fsys).

Definition cleanup_images (config_path : path) (search_paths : list path)
    (batch_size threshold_days : Z) : io (cancel * X) () :=
  cancelled ← check_cancel;
  if cancelled : bool then mret ()
  else
    all_to_cleanup ← on_snd (get_images_to_cleanup fs config_path search_paths threshold_days);
    bs ← lift_res (batches batch_size all_to_cleanup);
    cleanup_loop bs.

(** [start_background_cleanup]: the thread's body, with the default batch size
    and age. *)
Definition CLEANUP_BATCH_SIZE : Z := 4.
Definition CLEANUP_THRESHOLD_DAYS : Z := 7.

Definition cleanup_thread_name : str := "DockerCleanupThread".

Definition start_background_cleanup {T : Type} (config_path : path) (search_paths : list path) :
    io T (io (cancel * X) ()) :=
  emit (EvStart cleanup_thread_name);;
  mret (cleanup_images config_path search_paths CLEANUP_BATCH_SIZE CLEANUP_THRESHOLD_DAYS).

(** The parsed command line; the delays only decide when polls happen. *)
Record cleanup_args := CleanupArgs {
  cleanup_config_path : path; cleanup_search_path : list path;
  cleanup_batch_size : Z; cleanup_threshold_days : Z
}.

Definition main (args : cleanup_args) : io (cancel * X) () :=
  try_except
    (cleanup_images (cleanup_config_path args) (cleanup_search_path args)
       (cleanup_batch_size args) (cleanup_threshold_days args))
    (λ e, match e with
          | KeyboardInterrupt =>
              Some (log INFO "Cleanup interrupted by user.";; '(_, x) ← get; put (SetAfter O, x))
          | _ => None
          end).
End Removal.
