(* ===== verification/CleanupFacts.v ===== *)
(** * What clean-up removes

    The image pattern and the candidates of [docker_cleanup.py], the removals
    of a run under cancellation, and their relation to the tags of the
    builder. *)
From S2P Require Import Prelude PyStr Json Sha256 PyPath Fs Graph DockerConfig Proc DockerBuild DockerDeps DockerTags DockerImages DockerManage BuildImages BuilderInit Cleanup.

(** ** The image pattern *)

Lemma rpartition_None c s : rpartition c s = None ↔ c ∉ s.
Proof.
  induction s as [|x s IH]; cbn [rpartition]; [set_solver|].
  destruct (rpartition c s) as [[a b]|].
  - split; [done|]. intros Hx. exfalso. assert (c ∈ s) by (apply dec_stable; intros ?%IH; done). set_solver.
  - destruct (N.eqb_spec x c) as [->|]; set_solver.
Qed.

Lemma rpartition_Some c s a b : rpartition c s = Some (a, b) ↔ s = a ++ c :: b ∧ c ∉ b.
Proof.
  revert a. induction s as [|x s IH]; intros a; cbn [rpartition].
  - split; [done|]. by intros [?%app_cons_not_nil _].
  - destruct (rpartition c s) as [[a' b']|] eqn:E.
    + split.
      * intros [= <- <-]. destruct (proj1 (IH a') eq_refl) as [-> ?]. done.
      * intros [Hs Hb]. destruct a as [|y a]; injection Hs as -> Hs.
        { exfalso. subst s. pose proof (proj2 (rpartition_None c b) Hb). congruence. }
        assert (Some (a', b') = Some (a, b)) as [= -> ->]; [|done]. by apply IH.
    + pose proof (proj1 (rpartition_None c s) E) as Hn. destruct (N.eqb_spec x c) as [->|Hx].
      * split; [intros [= <- <-]; done|]. intros [Hs Hb].
        destruct a as [|y a]; [by injection Hs as ->|injection Hs as -> Hs]. set_solver.
      * split; [done|]. intros [Hs Hb]. destruct a as [|y a]; injection Hs as -> Hs; subst; [done|set_solver].
Qed.

(** A component of a path, with what stands around it. *)
Definition component (sep : N) (w s : str) : Prop :=
  sep ∉ w ∧ ∃ pre post, s = pre ++ w ++ post ∧
    (pre = [] ∨ ∃ p, pre = p ++ [sep]) ∧ (post = [] ∨ ∃ p, post = sep :: p).

Lemma elem_of_split w s sep : w ∈ split s sep ↔ component sep w s.
Proof.
  split.
  - intros Hw. split; [by eapply (proj1 (Forall_forall _ _) (split_no_sep s sep))|].
    rewrite <-(join_split s sep). induction (split s sep) as [|v l IH]; [by apply elem_of_nil in Hw|].
    destruct l as [|v' l].
    { apply list_elem_of_singleton in Hw as ->. exists [], []. rewrite app_nil_r. auto. }
    change (join [sep] (v :: v' :: l)) with (v ++ [sep] ++ join [sep] (v' :: l)).
    apply elem_of_cons in Hw as [->|Hw].
    + exists [], ([sep] ++ join [sep] (v' :: l)). split_and!; [done|by left|right; by eexists].
    + destruct (IH Hw) as (pre & post & -> & Hpre & Hpost). exists (v ++ [sep] ++ pre), post.
      split_and!; [by rewrite <-!app_assoc| |done]. right.
      destruct Hpre as [->|[p ->]]; [by exists v|exists (v ++ [sep] ++ p)]. by rewrite <-!app_assoc.
  - intros (Hw & pre & post & -> & Hpre & Hpost).
    assert (w ∈ split (w ++ post) sep) as Hin.
    { destruct Hpost as [->|[p ->]]; [rewrite app_nil_r, split_sep_notin by done; set_solver|].
      rewrite split_app_gen, split_sep_notin by done. set_solver. }
    destruct Hpre as [->|[p ->]]; [done|]. rewrite <-app_assoc. cbn [app]. rewrite split_app_gen. set_solver.
Qed.

(** The pattern of the source, part by part. *)
Record image_pattern (img name : str) : Prop := ImagePattern {
  ip_parts : ∃ pre post arch hash nl,
    img = pre ++ "devkit" ++ post ++ "/" ++ name ++ ":" ++ arch ++ "-" ++ hash ++ nl ∧
    (pre = [] ∨ ∃ p, pre = p ++ "/" ∧ 10%N ∉ p) ∧ (post = [] ∨ ∃ p, post = "/" ++ p ∧ 10%N ∉ p) ∧
    (arch ≠ [] ∧ Forall is_word arch) ∧ (length hash = 64 ∧ Forall is_lower_hex hash) ∧
    (nl = [] ∨ nl = [10%N]);
  ip_name : name ≠ [] ∧ 47%N ∉ name ∧ 58%N ∉ name
}.

Definition suffix_parts (s arch hash : str) : Prop :=
  s = arch ++ "-" ++ hash ∧ (arch ≠ [] ∧ Forall is_word arch) ∧ (length hash = 64 ∧ Forall is_lower_hex hash).

(** No character of a class is the separator [c]. *)
Lemma class_notin (P : N → bool) (c : N) s : P c = false → Forall P s → c ∉ s.
Proof. intros Hc Hs Hin. apply (proj1 (Forall_forall _ _) Hs) in Hin. by rewrite Hc in Hin. Qed.

Lemma match_suffix_spec s : match_suffix s = true ↔ ∃ arch hash, suffix_parts s arch hash.
Proof.
  unfold match_suffix, suffix_parts. split.
  - destruct (split1 s 45) as [[arch hash]|] eqn:E; [|done]. apply split1_Some in E as [-> _].
    intros [[[?%negb_true_iff%bool_decide_eq_false ?]%andb_true_iff ?%Nat.eqb_eq]%andb_true_iff ?]%andb_true_iff.
    exists arch, hash. split_and!; [done..| |done|]; by apply forallb_True, Is_true_true.
  - intros (arch & hash & -> & [? Ha] & ? & Hh).
    rewrite (proj2 (split1_Some (arch ++ "-" ++ hash) 45 arch hash)).
    2: { split; [done|]. by eapply (class_notin is_word). }
    rewrite bool_decide_eq_false_2 by done. apply forallb_True, Is_true_true in Ha, Hh. rewrite Ha, Hh.
    by rewrite (proj2 (Nat.eqb_eq _ _)).
Qed.

Lemma suffix_no_colon s arch hash : suffix_parts s arch hash → 58%N ∉ s ∧ 10%N ∉ s ∧ ∃ c s', s = s' ++ [c] ∧ c ≠ 10%N.
Proof.
  intros (-> & [_ Ha] & Hl & Hh).
  assert (∀ c, is_word c = false → is_lower_hex c = false → c ≠ 45%N → c ∉ arch ++ "-" ++ hash) as Hn.
  { intros c H1 H2 Hc. pose proof (class_notin _ _ _ H1 Ha). pose proof (class_notin _ _ _ H2 Hh). set_solver. }
  split_and!; [by apply Hn..|]. destruct hash as [|c hash] using rev_ind; [done|]. clear IHhash.
  exists c, (arch ++ "-" ++ hash). split; [by rewrite <-!app_assoc|].
  intros ->. apply Forall_app in Hh as [_ Hh]. by inversion Hh.
Qed.

Lemma match_core_spec img name : match_core img = Some name ↔
  ∃ prefix suffix, img = prefix ++ "/" ++ name ++ ":" ++ suffix ∧ match_prefix prefix = true ∧
    (∃ arch hash, suffix_parts suffix arch hash) ∧ name ≠ [] ∧ 47%N ∉ name ∧ 58%N ∉ name.
Proof.
  unfold match_core. split.
  - destruct (rpartition 58 img) as [[p suffix]|] eqn:E1; [|done]. cbn [mbind option_bind].
    destruct (rpartition 47 p) as [[prefix n]|] eqn:E2; [|done]. cbn [mbind option_bind].
    apply rpartition_Some in E1 as [-> _], E2 as [-> ?]. case_match eqn:E; [|done]. intros [= <-].
    apply andb_true_iff in E as [[[? ?%negb_true_iff%bool_decide_eq_false]%andb_true_iff
      ?%negb_true_iff%bool_decide_eq_false]%andb_true_iff ?%match_suffix_spec].
    exists prefix, suffix. split_and!; try done. by rewrite <-!app_assoc.
  - intros (prefix & suffix & -> & Hp & Hs & Hn & Hn1 & Hn2).
    assert (58%N ∉ suffix) by (destruct Hs as (? & ? & [? _]%suffix_no_colon); done).
    rewrite (proj2 (rpartition_Some 58 _ (prefix ++ "/" ++ name) suffix)) by (by rewrite <-!app_assoc).
    cbn [mbind option_bind]. rewrite (proj2 (rpartition_Some 47 _ prefix name)) by done.
    cbn [mbind option_bind]. rewrite Hp, (proj2 (match_suffix_spec suffix) Hs).
    by rewrite !bool_decide_eq_false_2.
Qed.

Lemma match_prefix_spec prefix : match_prefix prefix = true ↔ ∃ pre post,
  prefix = pre ++ "devkit" ++ post ∧
  (pre = [] ∨ ∃ p, pre = p ++ "/" ∧ 10%N ∉ p) ∧ (post = [] ∨ ∃ p, post = "/" ++ p ∧ 10%N ∉ p).
Proof.
  unfold match_prefix. rewrite andb_true_iff, negb_true_iff, bool_decide_eq_false, bool_decide_eq_true, elem_of_split.
  split.
  - intros (Hnl & _ & pre & post & -> & Hpre & Hpost). exists pre, post. split; [done|]. split.
    + destruct Hpre as [->|[p ->]]; [by left|]. right. exists p. split; [done|]. set_solver.
    + destruct Hpost as [->|[p ->]]; [by left|]. right. exists p. split; [done|]. set_solver.
  - intros (pre & post & -> & Hpre & Hpost). split; [|split; [by apply (bool_decide_eq_true_1 _)|]].
    + assert (10%N ∉ "devkit") by by apply (bool_decide_eq_true_1 _).
      assert (10%N ∉ "/") by by apply (bool_decide_eq_true_1 _).
      rewrite !not_elem_of_app. split_and!; [|done|].
      * destruct Hpre as [->|(p & -> & ?)]; [set_solver|]. by apply not_elem_of_app.
      * destruct Hpost as [->|(p & -> & ?)]; [set_solver|]. by apply not_elem_of_app.
    + exists pre, post. split_and!; [done|naive_solver..].
Qed.

(** The optional line feed at the end. *)
Lemma IMAGE_PATTERN_core img name : IMAGE_PATTERN img = Some name ↔
  ∃ core nl, img = core ++ nl ∧ (nl = [] ∨ nl = [10%N]) ∧ match_core core = Some name.
Proof.
  unfold IMAGE_PATTERN.
  assert (∀ core, match_core (core ++ [10%N]) = Some name → False) as Hno.
  { intros core (prefix & suffix & Hc & _ & (arch & hash & Hs) & _)%match_core_spec.
    destruct (suffix_no_colon _ _ _ Hs) as (_ & _ & c & s' & -> & Hne).
    rewrite !app_assoc in Hc. by apply app_inj_tail in Hc as [_ <-]. }
  destruct (rpartition 10 img) as [[core [|x l]]|] eqn:E.
  - apply rpartition_Some in E as [-> _]. split; [intros; by exists core, [10%N]; auto|].
    intros (core' & nl & Hc & [-> | ->] & Hm).
    + rewrite app_nil_r in Hc. subst core'. by apply Hno in Hm.
    + by apply app_inj_tail in Hc as [-> _].
  - split; [intros; exists img, []; rewrite app_nil_r; auto|].
    intros (core' & nl & -> & [-> | ->] & Hm); [by rewrite app_nil_r|].
    rewrite (proj2 (rpartition_Some 10 _ core' [])) in E by (split; [done|set_solver]). done.
  - split; [intros; exists img, []; rewrite app_nil_r; auto|].
    intros (core' & nl & -> & [-> | ->] & Hm); [by rewrite app_nil_r|].
    apply rpartition_None in E. set_solver.
Qed.

Lemma IMAGE_PATTERN_iff img name : IMAGE_PATTERN img = Some name ↔ image_pattern img name.
Proof.
  rewrite IMAGE_PATTERN_core. setoid_rewrite match_core_spec. setoid_rewrite match_prefix_spec. split.
  - intros (core & nl & -> & Hnl & prefix & suffix & -> & (pre & post & -> & ? & ?) &
      (arch & hash & -> & ? & ?) & ? & ? & ?).
    split; [|done]. exists pre, post, arch, hash, nl. split; [by rewrite <-!app_assoc|auto 10].
  - intros [(pre & post & arch & hash & nl & -> & ? & ? & ? & ? & ?) (? & ? & ?)].
    exists (pre ++ "devkit" ++ post ++ "/" ++ name ++ ":" ++ arch ++ "-" ++ hash), nl.
    split; [by rewrite <-!app_assoc|]. split; [done|].
    exists (pre ++ "devkit" ++ post), (arch ++ "-" ++ hash). split; [by rewrite <-!app_assoc|].
    split; [by exists pre, post|]. split; [by exists arch, hash|done].
Qed.

(** C19: [IMAGE_PATTERN] matches exactly the texts of its form - an optional
    path, the component [devkit], optionally more components, then
    [/name:arch-hash] with a hash of 64 lower-case hexadecimal digits, and at
    most a line feed after it - and group 1 is the name. *)
Theorem IMAGE_PATTERN_correct img name : IMAGE_PATTERN img = Some name ↔ image_pattern img name.
Proof. apply IMAGE_PATTERN_iff. Qed.

(** ** Candidates *)

Definition allowed_image (img : str) : bool :=
  match IMAGE_PATTERN img with Some name => bool_decide (name ∈ ALLOWED_IMAGE_NAMES) | None => false end.

Lemma wp_filter_allowed {S : Type} images (s : S) (Q : list str → S → Prop) E :
  Q (List.filter allowed_image images) s → wp (filter_allowed_images images) Q E s.
Proof.
  unfold filter_allowed_images. set (body := λ allowed_images img, _).
  assert (∀ acc, Q (acc ++ List.filter allowed_image images) s → wp (fold_io body acc images) Q E s) as Hgen;
    [|by apply (Hgen [])].
  induction images as [|img images IH]; intros acc HQ; cbn [fold_io].
  - wp_run. by rewrite app_nil_r in HQ.
  - cbn [List.filter] in HQ. unfold allowed_image in HQ at 1. apply wp_bind. unfold body at 1.
    destruct (IMAGE_PATTERN img); wp_run; apply IH; rewrite ?Heqb in HQ; [|done..].
    by rewrite <-app_assoc.
Qed.

Section Candidates.
Context `{JsonRepr} `{HexDigest} `{PySetOrder} `{RecursionLimit} (fs : fsys).

Definition current_tags (cp : path) (sps : list path) : res (list str) :=
  io_res (get_all_docker_image_tags fs cp sps [] []).

Lemma wp_ignored {T : Type} cp sps (s : T) (Q : list str → T → Prop) (E : exn → T → Prop) :
  (∀ l, (∀ ts, current_tags cp sps = Ok ts → l = ts) → Q l s) →
  (∀ e, current_tags cp sps = Raise e → is_Exception e = false → E e s) →
  wp (get_ignored_images fs cp sps) Q E s.
Proof.
  unfold current_tags. intros HQ HE. unfold get_ignored_images, wp, io_res, io_state, try_except, run_fresh, mbind, io_bind in *.
  destruct (get_all_docker_image_tags fs cp sps [] []) as [[tr tg] [ts|e]]; cbn in *.
  - apply HQ. by intros ? [= ->].
  - destruct (is_Exception e) eqn:Hx; cbn; [by apply HQ|by apply HE].
Qed.

Context `{Host X}.

(** A candidate matches the pattern, is on the allowlist, and is not a
    current tag. *)
Definition removable (cp : path) (sps : list path) (img : str) : Prop :=
  allowed_image img = true ∧ ∀ ts, current_tags cp sps = Ok ts → img ∉ ts.

Lemma wp_candidates cp sps days (x : X) (Q : list str → X → Prop) (E : exn → X → Prop) :
  (∀ l x', Forall (removable cp sps) l → Q l x') → (∀ e x', E e x') →
  wp (get_images_to_cleanup fs cp sps days) Q E x.
Proof.
  intros HQ HE. unfold get_images_to_cleanup. apply wp_bind, wp_lift.
  destruct (get_image_prefix fs cp) as [prefix|]; [|done]. apply wp_bind.
  apply (wp_mono _ (λ _ _, True) _ (λ _ _, True) _); [unfold wp; by destruct (io_res _)| |done].
  intros all x' _. destruct all as [|i l]; [wp_run; by apply HQ|].
  apply wp_bind, wp_filter_allowed. destruct (List.filter allowed_image (i :: l)) as [|a al] eqn:Ef;
    [wp_run; by apply HQ|].
  apply wp_bind, wp_ignored; [|done]. intros ign Hign.
  assert (Forall (removable cp sps) (List.filter (λ img, negb (bool_decide (img ∈ ign))) (a :: al))) as Hl.
  { apply Forall_forall. intros img [Hin Hn]%list_elem_of_In%filter_In. split.
    - rewrite <-Ef in Hin. by apply filter_In in Hin as [_ ?].
    - intros ts Hts. rewrite (Hign ts Hts) in Hn. by apply negb_true_iff, bool_decide_eq_false in Hn. }
  destruct (List.filter _ (a :: al)) as [|r rs]; wp_run; by apply HQ.
Qed.
End Candidates.

(** ** Removals *)

Definition removal (e : event) : option str :=
  match e with
  | EvRun [a; b; tag] => if bool_decide (a = "docker" ∧ b = "rmi") then Some tag else None
  | _ => None
  end.

(** The tags for which [docker rmi] was started. *)
Definition removals (t : list event) : list str := omap removal t.

Lemma removals_app t t' : removals (t ++ t') = removals t ++ removals t'.
Proof. apply omap_app. Qed.

Lemma removals_log l text t : removals (EvLog l text :: t) = removals t.
Proof. done. Qed.

Definition no_removal (e : event) : Prop := removal e = None.

Lemma removals_none t : Forall no_removal t → removals t = [].
Proof. induction 1 as [|e t He _ IH]; [done|]. cbn. by rewrite He. Qed.

Section Runs.
Context `{Host X} `{Popen X}.

(** The event after a statement that may have polled it, and how the
    statement ended: [false] only when the event was found set. *)
Definition event_after (c c' : cancel) (r : res bool) : Prop :=
  match c with
  | Never => c' = Never ∧ (r = Ok true ∨ r = Raise Diverges)
  | SetAfter n => ∃ n', c' = SetAfter n' ∧ n' ≤ n ∧ (r = Ok true ∨ r = Ok false ∧ n' = 0)
  | InterruptAfter n => (∃ n', c' = InterruptAfter n' ∧ n' ≤ n ∧ r = Ok true) ∨ c' = Never ∧ r = Raise KeyboardInterrupt
  end.

Lemma event_after_refl c : event_after c c (Ok true).
Proof. destruct c as [|n|n]; cbn; eauto 10. Qed.

Lemma event_after_step c c1 c' r (x : X) : check_cancel (c, x) = ([], (c1, x), Ok false) → event_after c1 c' r → event_after c c' r.
Proof.
  destruct c as [|[|n]|[|n]]; cbn; intros [= <-]; cbn; [done|..].
  - intros (n' & -> & ? & Hr). exists n'. split_and!; [done|lia|done].
  - intros [(n' & -> & ? & ->)|?]; [left; exists n'; split_and!; [done|lia|done]|by right].
Qed.

Lemma poll_loop_run running ends tag : ∀ c (x : X), (ends = false → c ≠ Never → running = polls_left c) → ∃ t c' r,
  poll_loop running ends tag (c, x) = (t, (c', x), r) ∧ removals t = [] ∧ event_after c c' r ∧
  (ends = true → r ≠ Raise Diverges).
Proof.
  induction running as [|running IH]; intros c x Hl; cbn [poll_loop].
  - destruct ends; [eexists _, c, (Ok true)|eexists _, c, (Raise Diverges)]; (split_and!; [reflexivity|done| |done]).
    + apply event_after_refl.
    + destruct c; [by split; [|right]|by specialize (Hl eq_refl ltac:(done))..].
  - unfold mbind, io_bind. destruct (check_cancel (c, x)) as [[t0 [c1 x1]] r0] eqn:E.
    destruct r0 as [[]|e].
    + destruct c as [|[|n]|[|n]]; try done. injection E as <- <- <-.
      eexists _, _, (Ok false). split_and!; [reflexivity|done| |done]. exists 0. auto.
    + assert (t0 = [] ∧ x1 = x) as [-> ->] by (by destruct c as [|[|n]|[|n]]; simplify_eq/=).
      destruct (IH c1 x) as (t & c' & r & -> & Ht & Hc & Hd).
      { intros He Hne. destruct c as [|[|n]|[|n]]; simplify_eq/=; by apply eq_add_S, Hl. }
      eexists _, _, r. split_and!; [done..| |done]. by eapply event_after_step.
    + destruct c as [|[|n]|[|n]]; try done. injection E as <- <- <- <-.
      eexists _, _, (Raise KeyboardInterrupt). split_and!; [reflexivity|done| |done]. by right.
Qed.

(** Polling a process that ends, or that is stopped. *)
Lemma poll_process_run running tag c (x : X) : ∃ t c' r,
  poll_process running tag (c, x) = (t, (c', x), r) ∧ removals t = [] ∧ event_after c c' r ∧
  (is_Some running → r ≠ Raise Diverges).
Proof.
  unfold poll_process. destruct running as [n|]; [|rewrite bind_get].
  - destruct (poll_loop_run n true tag c x) as (t & c' & r & ? & ? & ? & ?); [done|].
    exists t, c', r. split_and!; auto.
  - destruct (poll_loop_run (polls_left c) false tag c x) as (t & c' & r & ? & ? & ? & ?); [done|].
    exists t, c', r. split_and!; try done.
Qed.

Lemma log_lines_run {S : Type} l prefix text (s : S) :
  ∃ t, log_lines l prefix text s = (t, s, Ok ()) ∧ removals t = [].
Proof.
  unfold log_lines. case_bool_decide; [by exists []|].
  induction (splitlines (strip text)) as [|line lines IH]; cbn [for_each]; [by exists []|].
  destruct IH as (t & Ht & Hr). unfold mbind, io_bind, log at 1, emit at 1. rewrite Ht. by eexists.
Qed.

Lemma remove_image_run tag c (x : X) : ∃ t c' x' r,
  remove_image tag (c, x) = (t, (c', x'), r) ∧ removals t = [tag] ∧ event_after c c' r ∧
  (is_Some (polls_running ["docker"; "rmi"; tag] x) → r ≠ Raise Diverges).
Proof.
  unfold remove_image, try_except, mbind, io_bind, emit, get, put. cbn [fst snd].
  destruct (exec ["docker"; "rmi"; tag] x) as [[r|] x'].
  2: { eexists _, c, x', (Ok true). split_and!; [reflexivity|done| |done]. apply event_after_refl. }
  destruct (poll_process_run (polls_running ["docker"; "rmi"; tag] x) tag c x) as (t & c' & b & -> & Ht & Hc & Hd).
  destruct b as [[]|e].
  - destruct (log_lines_run INFO "[docker rmi stdout]: " (stdout r) (c', x')) as (t1 & E1 & H1).
    destruct (log_lines_run WARNING "[docker rmi stderr]: " (stderr r) (c', x')) as (t2 & E2 & H2).
    rewrite E1, E2. destruct (returncode r =? 0)%Z; eexists _, c', x', (Ok true);
      (split_and!; [reflexivity| |done|done]); cbn; unfold removals in *; rewrite ?omap_app, ?Ht, ?H1, ?H2; reflexivity.
  - eexists _, c', _, (Ok false). split_and!; [reflexivity| |done|done]. cbn. unfold removals in *. by rewrite omap_app, Ht.
  - assert (e = KeyboardInterrupt ∨ e = Diverges) as [-> | ->]
      by (destruct c as [|n|n]; cbn in Hc; naive_solver).
    + eexists _, c', _, (Raise KeyboardInterrupt). split_and!; [reflexivity| |done|done].
      cbn. unfold removals in *. rewrite ?omap_app, ?Ht. done.
    + eexists _, c', _, (Raise Diverges). split_and!; [reflexivity| |done|done]. cbn. unfold removals in *. by rewrite Ht.
Qed.

(** Every [docker rmi] ends by itself. *)
Definition rmi_ends : Prop := ∀ tag (x : X), is_Some (polls_running ["docker"; "rmi"; tag] x).

(** How a run that started with event state [c] got through [todo], and how
    it ended. *)
Definition progress (todo done : list str) (c c' : cancel) (r : res ()) : Prop :=
  done `prefix_of` todo ∧ (rmi_ends → r ≠ Raise Diverges) ∧
  match c with
  | Never => c' = Never ∧ (r = Ok () ∧ done = todo ∨ r = Raise Diverges)
  | SetAfter n => r = Ok () ∧ ∃ n', c' = SetAfter n' ∧ length done + n' ≤ n ∧ (done = todo ∨ n' = 0)
  | InterruptAfter n => length done ≤ n ∧
      (r = Ok () ∧ done = todo ∧ (∃ n', c' = InterruptAfter n' ∧ length done + n' ≤ n) ∨
       r = Raise KeyboardInterrupt ∧ c' = Never)
  end.

Lemma progress_nil c : progress [] [] c c (Ok ()).
Proof. split_and!; [done..|]. destruct c as [|n|n]; cbn; eauto 10 with lia. Qed.

Lemma remove_images_run tags : ∀ c (x : X), ∃ t c' x' r,
  remove_images tags (c, x) = (t, (c', x'), r) ∧ progress tags (removals t) c c' r.
Proof.
  induction tags as [|tag tags IH]; intros c x; cbn [remove_images].
  { exists [], c, x, (Ok ()). split; [done|apply progress_nil]. }
  unfold mbind, io_bind. destruct c as [|[|n]|[|n]]; cbn [check_cancel].
  2: { eexists [], (SetAfter 0), x, (Ok ()). split; [done|]. split_and!; [apply prefix_nil|done|done|]. exists 0. cbn. auto. }
  3: { eexists [], Never, x, _. split; [reflexivity|]. split_and!; [apply prefix_nil|done|cbn; lia|]. by right. }
  all: unfold log, emit; cbn [fst snd app].
  - destruct (remove_image_run tag Never x) as (t & c' & x' & b & -> & Ht & [-> [-> | ->]] & Hd).
    + destruct (IH Never x') as (t2 & c2 & x2 & r & -> & Hp & Hr & -> & Hd2). eexists _, _, _, r.
      split; [reflexivity|]. rewrite removals_log, removals_app, Ht.
      split_and!; [by apply prefix_cons|done|done|]. destruct Hd2 as [[-> ->]| ->]; auto.
    + eexists _, _, _, (Raise Diverges). split; [reflexivity|]. rewrite removals_log, Ht.
      split_and!; [by apply prefix_cons, prefix_nil|intros He; by destruct (Hd (He tag x))|done|by right].
  - destruct (remove_image_run tag (SetAfter n) x) as (t & c' & x' & b & -> & Ht & (n1 & -> & Hn & [-> |[-> ->]]) & Hd).
    + destruct (IH (SetAfter n1) x') as (t2 & c2 & x2 & r & -> & Hp & Hr & -> & n2 & -> & Hl & Hd2). eexists _, _, _, _.
      split; [reflexivity|]. rewrite removals_log, removals_app, Ht.
      split_and!; [by apply prefix_cons|done|done|]. exists n2. cbn [app length]. split_and!; [done|lia|]. destruct Hd2 as [->| ->]; auto.
    + eexists _, _, _, _. split; [reflexivity|]. rewrite app_nil_r, removals_log, Ht.
      split_and!; [by apply prefix_cons, prefix_nil|done|done|]. exists 0. split_and!; [done|cbn; lia|auto].
  - destruct (remove_image_run tag (InterruptAfter n) x) as (t & c' & x' & b & -> & Ht & [(n1 & -> & Hn & ->)|[-> ->]] & Hd).
    + destruct (IH (InterruptAfter n1) x') as (t2 & c2 & x2 & r & -> & Hp & Hr & Hl & Hd2). eexists _, _, _, _.
      split; [reflexivity|]. rewrite removals_log, removals_app, Ht. cbn [app].
      split_and!; [by apply prefix_cons|done|cbn [length]; lia|].
      destruct Hd2 as [(-> & -> & n2 & -> & ?)|?]; [left|by right]. split_and!; [done|done|]. exists n2. cbn [length]. split; [done|lia].
    + eexists _, _, _, (Raise KeyboardInterrupt). split; [reflexivity|]. rewrite removals_log, Ht.
      split_and!; [by apply prefix_cons, prefix_nil|done|cbn; lia|by right].
Qed.

Lemma cleanup_batch_run batch c (x : X) : ∃ t c' x' r,
  cleanup_images_batch batch (c, x) = (t, (c', x'), r) ∧ progress batch (removals t) c c' r.
Proof.
  unfold cleanup_images_batch. destruct batch as [|b batch].
  { exists [], c, x, (Ok ()). split; [done|apply progress_nil]. }
  destruct (remove_images_run (b :: batch) c x) as (t & c' & x' & r & E & Hp).
  unfold mbind, io_bind, log, emit. rewrite E. eexists _, _, _, r. split; [reflexivity|done].
Qed.

Lemma cleanup_loop_run bs : ∀ c (x : X), ∃ t c' x' r,
  cleanup_loop bs (c, x) = (t, (c', x'), r) ∧ progress (concat bs) (removals t) c c' r.
Proof.
  induction bs as [|batch bs IH]; intros c x; cbn [cleanup_loop concat].
  { exists [], c, x, (Ok ()). split; [done|apply progress_nil]. }
  destruct (cleanup_batch_run batch c x) as (t & c1 & x1 & r & E & Hp & Hr & Hc).
  unfold mbind, io_bind. rewrite E. destruct c as [|n|n].
  - destruct Hc as [-> [[-> Hd]| ->]]; cbn [check_cancel].
    + destruct (IH Never x1) as (t2 & c2 & x2 & r2 & -> & Hp2 & Hr2 & -> & Hd2).
      eexists _, _, _, r2. split; [reflexivity|]. cbn [fst snd app]. rewrite removals_app, Hd.
      split_and!; [by apply prefix_app|done|done|]. destruct Hd2 as [[-> ->]| ->]; auto.
    + eexists _, _, _, _. split; [reflexivity|]. split_and!; [by apply prefix_app_r|done|done|by right].
  - destruct Hc as (-> & n1 & -> & Hl & Hd). destruct n1 as [|n1]; cbn [check_cancel].
    + eexists _, _, _, _. split; [reflexivity|]. cbn [fst snd app]. rewrite app_nil_r.
      split_and!; [by apply prefix_app_r|done|done|]. exists 0. auto.
    + destruct Hd as [Hd|]; [|done].
      destruct (IH (SetAfter n1) x1) as (t2 & c2 & x2 & r2 & -> & Hp2 & Hr2 & -> & n2 & -> & Hl2 & Hd2).
      eexists _, _, _, _. split; [reflexivity|]. cbn [fst snd app]. rewrite removals_app, Hd.
      split_and!; [by apply prefix_app|done|done|].
      exists n2. rewrite Hd in Hl. rewrite length_app. split_and!; [done|lia|]. destruct Hd2 as [->| ->]; auto.
  - destruct Hc as [Hl [(-> & Hd & n1 & -> & Hn)|[-> ->]]]; [destruct n1 as [|n1]; cbn [check_cancel]|].
    + eexists _, _, _, _. split; [reflexivity|]. cbn [fst snd app]. rewrite app_nil_r.
      split_and!; [by apply prefix_app_r|done|done|by right].
    + destruct (IH (InterruptAfter n1) x1) as (t2 & c2 & x2 & r2 & -> & Hp2 & Hr2 & Hl2 & Hd2).
      eexists _, _, _, r2. split; [reflexivity|]. cbn [fst snd app]. rewrite removals_app, Hd. rewrite Hd in Hn.
      split_and!; [by apply prefix_app|done|rewrite length_app; lia|].
      destruct Hd2 as [(-> & -> & n2 & -> & ?)|?]; [left|by right]. split_and!; [done..|]. exists n2. rewrite length_app. split; [done|lia].
    + eexists _, _, _, _. split; [reflexivity|]. split_and!; [by apply prefix_app_r|done|done|by right].
Qed.
End Runs.

(** Batches of a positive size cover the list, in order. *)
Lemma batches_from_concat fuel n l : 0 < n → length l ≤ fuel → concat (batches_from fuel n l) = l.
Proof.
  intros Hn. revert l. induction fuel as [|fuel IH]; intros [|a l] Hl; cbn [batches_from length] in *; try done; [lia|].
  cbn [concat]. rewrite IH; [apply take_drop|]. rewrite length_drop. cbn [length]. lia.
Qed.

Lemma batches_concat n l : (0 < n)%Z → ∃ bs, batches n l = Ok bs ∧ concat bs = l.
Proof.
  intros Hn. unfold batches. rewrite (proj2 (Z.eqb_neq n 0)), (proj2 (Z.ltb_ge n 0)) by lia.
  eexists. split; [done|]. apply batches_from_concat; lia.
Qed.

Lemma batches_inv n l bs : batches n l = Ok bs → concat bs = l ∨ bs = [] ∧ (n < 0)%Z.
Proof.
  intros Hb. destruct (decide (0 < n)%Z) as [Hn|].
  { destruct (batches_concat n l Hn) as (bs' & ? & ?). left. congruence. }
  right. unfold batches in Hb. destruct (Z.eqb_spec n 0); [done|].
  rewrite (proj2 (Z.ltb_lt n 0)) in Hb by lia. injection Hb as <-. split; [by destruct l|lia].
Qed.

Section Cleanup.
Context `{JsonRepr} `{HexDigest} `{PySetOrder} `{RecursionLimit} (fs : fsys).

Lemma all_tags_logs cp sps targets : emits is_log (get_all_docker_image_tags fs cp sps targets).
Proof.
  unfold get_all_docker_image_tags, calculate_tags. apply emits_bind; [apply init_logs|intros b].
  apply emits_bind; [apply emits_put|intros _]. apply emits_bind; [apply get_build_order_logs|intros o].
  apply emits_bind; [|intros _; emits_auto]. apply emits_for_each. intros n _.
  apply emits_bind; [apply calculate_tag_logs|intros _; apply emits_ret].
Qed.

Lemma candidates_no_removal `{Host X} cp sps days :
  emits no_removal (get_images_to_cleanup fs cp sps days : io X (list str)).
Proof.
  unfold get_images_to_cleanup. apply emits_bind; [apply emits_lift|intros prefix].
  apply emits_bind.
  { apply emits_try; [emits_auto; done|]. intros e k. case_match; [|done]. intros [= <-]. emits_auto. }
  intros [|i l]; [emits_auto|]. apply emits_bind.
  { apply emits_fold. intros acc img _. case_match; emits_auto. }
  intros [|a al]; [emits_auto|]. apply emits_bind; [|intros ign; case_match; emits_auto].
  apply emits_try; [|intros e k; case_match; [intros [= <-]; emits_auto|done]].
  apply emits_bind; [|intros; emits_auto]. intros s. unfold io_trace, run_fresh.
  pose proof (all_tags_logs cp sps [] []) as Hl. unfold io_trace in Hl.
  destruct (get_all_docker_image_tags fs cp sps [] []) as [[t ?] ?]. cbn in *.
  eapply Forall_impl; [exact Hl|]. by intros [] [].
Qed.

(** What the first poll of [cleanup_images] finds. *)
Lemma first_poll `{Host X} c (x : X) :
  c = SetAfter 0 ∧ check_cancel (c, x) = ([], (c, x), Ok true) ∨
  c = InterruptAfter 0 ∧ check_cancel (c, x) = ([], (Never, x), Raise KeyboardInterrupt) ∨
  ∃ c1, check_cancel (c, x) = ([], (c1, x), Ok false) ∧
    match c with
    | Never => c1 = Never
    | SetAfter n => ∃ k, n = S k ∧ c1 = SetAfter k
    | InterruptAfter n => ∃ k, n = S k ∧ c1 = InterruptAfter k
    end.
Proof. destruct c as [|[|n]|[|n]]; cbn; eauto 10. Qed.

(** What a run of [cleanup_images] removes and how it ends, by its list of
    candidates. *)
Definition cleanup_outcome_of `{Host X} `{Popen X} (l : list str) (c : cancel) (r : list event * (cancel * X) * res ()) : Prop :=
  removals (io_trace r) `prefix_of` l ∧
  match c with
  | Never => rmi_ends (X := X) → io_res r = Ok () ∧ removals (io_trace r) = l
  | SetAfter n => io_res r = Ok () ∧ length (removals (io_trace r)) ≤ n
  | InterruptAfter n => length (removals (io_trace r)) ≤ n ∧
      (io_res r = Ok () ∧ removals (io_trace r) = l ∨ io_res r = Raise KeyboardInterrupt)
  end.

Lemma cleanup_images_run `{Host X} `{Popen X} cp sps bsz days c (x : X) :
  let r := cleanup_images fs cp sps bsz days (c, x) in
  match io_res (get_images_to_cleanup fs cp sps days x) with
  | Ok l => removals (io_trace r) ⊆ l ∧ ((0 < bsz)%Z → cleanup_outcome_of l c r)
  | Raise e => removals (io_trace r) = [] ∧
      io_res r = match c with SetAfter 0 => Ok () | InterruptAfter 0 => Raise KeyboardInterrupt | _ => Raise e end
  end.
Proof.
  intros r. pose proof (removals_none _ (candidates_no_removal cp sps days x)) as Hno.
  unfold r, cleanup_images, mbind, io_bind.
  destruct (first_poll c x) as [[-> ->]|[[-> ->]|(c1 & -> & Hc)]].
  1,2: destruct (io_res (get_images_to_cleanup fs cp sps days x)); [|done]; (split; [set_solver|]); intros _;
    (split; [apply prefix_nil|]); cbn; auto.
  unfold on_snd. cbn [fst snd].
  destruct (get_images_to_cleanup fs cp sps days x) as [[t x1] [l|e]]; unfold io_trace, io_res in *; cbn [fst snd] in *.
  2: { split; [done|]. destruct c as [|[|n]|[|n]]; try done; by destruct Hc as (? & ? & _). }
  unfold lift_res. destruct (batches bsz l) as [bs|e] eqn:Eb; cbn [fst snd].
  2: { cbn [app]. rewrite app_nil_r. split; [rewrite Hno; set_solver|]. intros Hb.
       destruct (batches_concat bsz l Hb) as (? & ? & _). congruence. }
  destruct (cleanup_loop_run bs c1 x1) as (t2 & c2 & x2 & r2 & E2 & Hp & Hr). rewrite E2.
  cbn [fst snd app]. rewrite removals_app, Hno. cbn [app]. split.
  - destruct (batches_inv bsz l bs Eb) as [<-|[-> _]].
    + intros i Hi. destruct Hp as [k ->]. apply elem_of_app. by left.
    + apply prefix_nil_inv in Hp. rewrite Hp. apply list_subseteq_nil.
  - intros Hb. destruct (batches_concat bsz l Hb) as (bs' & Eb' & <-). rewrite Eb in Eb'. injection Eb' as <-.
    unfold cleanup_outcome_of, io_trace, io_res. cbn [fst snd]. rewrite removals_app, Hno. cbn [app]. split; [done|].
    destruct Hr as [Hd Hr]. destruct c as [|n|n]; cbn in Hc.
    + subst c1. destruct Hr as [_ [[-> ->]|Hr]]; [done|]. intros He. by destruct (Hd He).
    + destruct Hc as (k & -> & ->). destruct Hr as (-> & n' & _ & Hl & _). split; [done|lia].
    + destruct Hc as (k & -> & ->). destruct Hr as [Hl Hr]. split; [lia|]. destruct Hr as [(-> & -> & _)|[-> _]]; auto.
Qed.
End Cleanup.


(** Every removal of a run is of a removable image. *)
Lemma cleanup_removable `{JsonRepr} `{HexDigest} `{PySetOrder} `{RecursionLimit} `{Host X} `{Popen X}
    fs cp sps bsz days c (x : X) t :
  t ∈ removals (io_trace (cleanup_images fs cp sps bsz days (c, x))) → removable fs cp sps t.
Proof.
  intros Ht. pose proof (cleanup_images_run fs cp sps bsz days c x) as Hr. cbv zeta in Hr.
  pose proof (wp_candidates fs cp sps days x (λ l _, Forall (removable fs cp sps) l) (λ _ _, True)) as Hw.
  unfold wp in Hw. destruct (io_res (get_images_to_cleanup fs cp sps days x)) as [l|e].
  - assert (Forall (removable fs cp sps) l) as Hl by auto. destruct Hr as [Hr _].
    eapply (proj1 (Forall_forall _ _) Hl). by apply Hr.
  - rewrite (proj1 Hr) in Ht. by apply elem_of_nil in Ht.
Qed.

(** Whatever the host and the moment of cancellation, clean-up only
    removes images whose reference matches [IMAGE_PATTERN] with a name on the
    allowlist, and none that the current tags, when they could be computed,
    contain. *)
Theorem cleanup_images_removes `{JsonRepr} `{HexDigest} `{PySetOrder} `{RecursionLimit} `{Host X} `{Popen X}
    fs cp sps bsz days c (x : X) t :
  t ∈ removals (io_trace (cleanup_images fs cp sps bsz days (c, x))) →
  (∃ name, image_pattern t name ∧ name ∈ ALLOWED_IMAGE_NAMES) ∧
  (∀ ts, current_tags fs cp sps = Ok ts → t ∉ ts).
Proof.
  intros [Ha Hc]%cleanup_removable. split; [|done]. unfold allowed_image in Ha.
  destruct (IMAGE_PATTERN t) as [name|] eqn:E; [|done]. exists name.
  split; [by apply IMAGE_PATTERN_iff|by apply bool_decide_eq_true in Ha].
Qed.

(** The current tags are those of all configured images. *)
Lemma current_tags_spec `{JsonRepr} `{HexDigest} `{PySetOrder} `{RecursionLimit} fs cp sps b :
  (∀ s : tags, io_res (init fs cp sps s) = Ok b) → buildable fs b [] →
  ∃ ts, current_tags fs cp sps = Ok ts ∧ ∀ n t, n ∈ dict_keys (image_configs_map b) → tag_of fs b n t → t ∈ ts.
Proof.
  intros Hinit [K1 K2 K3 K4].
  destruct (calculate_tags_result fs b [] [] K1 K2 K3) as (o & ts & _ & (_ & Ho & _) & Hts & Hf);
    [by intros ? ?|exact K4|].
  exists ts. split.
  - unfold current_tags, get_all_docker_image_tags, mbind, io_bind. specialize (Hinit []).
    pose proof (init_keeps fs cp sps ([] : tags)) as Hk. unfold io_res, io_state in *.
    destruct (init fs cp sps []) as [[t0 s0] r0]. cbn in Hinit, Hk. subst. unfold put. cbn [fst snd].
    by destruct (calculate_tags fs b [] []) as [[? ?] ?].
  - intros n t Hn Ht. assert (n ∈ o) as Hin by (apply Ho; exists n; split; [done|apply rtc_refl]).
    apply list_elem_of_lookup in Hin as [i Hi]. destruct (Forall2_lookup_l _ _ _ _ _ Hf Hi) as (t' & Hi' & Ht').
    rewrite (tag_of_unique fs b n t t') by done. by eapply list_elem_of_lookup_2.
Qed.

(** C4: clean-up never removes an image of the current configuration: when
    the configuration loads and its tags can be computed, no removal is of the
    tag of a configured image. *)
Theorem cleanup_keeps_current `{JsonRepr} `{HexDigest} `{PySetOrder} `{RecursionLimit} `{Host X} `{Popen X}
    fs cp sps bsz days c (x : X) b n t :
  (∀ s : tags, io_res (init fs cp sps s) = Ok b) → buildable fs b [] →
  n ∈ dict_keys (image_configs_map b) → tag_of fs b n t →
  t ∉ removals (io_trace (cleanup_images fs cp sps bsz days (c, x))).
Proof.
  intros Hinit Hb Hn Ht [_ Hr]%cleanup_removable.
  destruct (current_tags_spec fs cp sps b Hinit Hb) as (ts & Hts & Hall).
  by apply (Hr ts Hts), (Hall n t).
Qed.

(** ** The tags of the builder *)

Lemma get_image_tag_prefix b n sha :
  get_image_tag b n sha = prefix_of (repo b) (namespace b) ++ "/" ++ n ++ ":" ++ arch b ++ "-" ++ sha.
Proof. unfold get_image_tag, prefix_of. case_bool_decide; by rewrite <-?app_assoc. Qed.

(** C31: the tag the builder computes for an image whose name is not empty
    and has no slash or colon, for a registry without line feeds, is a match
    of [IMAGE_PATTERN] with the image's name as group 1, so outdated images
    are recognised by name. *)
Theorem tags_match_pattern `{JsonRepr} `{HexDigest} fs b config n t :
  configured config b → 10%N ∉ spec_repo config → 10%N ∉ spec_namespace config →
  n ≠ [] → 47%N ∉ n → 58%N ∉ n → tag_of fs b n t → IMAGE_PATTERN t = Some n.
Proof.
  intros Hcf Hr Hns Hn1 Hn2 Hn3 [h Ht]. destruct h as [|h]; [done|].
  destruct (tag_ref_inv _ _ _ _ _ Ht) as (conf & deps & p & Hc & Hd & Hp).
  apply (tag_ref_unfold fs b h n conf deps p) in Ht as (ts & sha & _ & Hsha & ->); [|done..].
  apply IMAGE_PATTERN_iff. rewrite get_image_tag_prefix, (cf_repo _ _ Hcf), (cf_namespace _ _ Hcf), (cf_arch _ _ Hcf).
  assert (∃ data, sha = hexdigest data) as [data ->].
  { unfold calculate_sha256 in Hsha. apply res_bind_Ok in Hsha as (content & _ & Hsha).
    apply res_bind_Ok in Hsha as (args & _ & [= <-]). eauto. }
  assert (∃ post, spec_namespace config = "devkit" ++ post ∧ (post = [] ∨ ∃ q, post = "/" ++ q ∧ 10%N ∉ q))
    as (post & Hpost & Hq).
  { unfold spec_namespace in *. case_bool_decide; [exists []; auto|]. eexists. split; [reflexivity|]. right.
    eexists. split; [reflexivity|]. set_solver. }
  split; [|done]. unfold prefix_of. rewrite Hpost.
  eexists (if bool_decide (spec_repo config = []) then [] else spec_repo config ++ "/"), post, "amd64",
    (hexdigest data), [].
  split; [|split_and!].
  - case_bool_decide; by rewrite <-?app_assoc, ?app_nil_r.
  - case_bool_decide; [by left|right; by eexists].
  - done.
  - by apply (bool_decide_eq_true_1 _).
  - by apply (bool_decide_eq_true_1 _).
  - apply hexdigest_length.
  - eapply Forall_impl; [apply hexdigest_hex|]. intros ? ->. done.
  - by left.
Qed.

(** The prefix under which clean-up lists images is the one the builder
    tags them with: for a configuration file from which a builder loads,
    [get_image_prefix] returns [repo/namespace] of that builder, and every tag
    is this prefix followed by [/name:arch-digest]. *)
Theorem get_image_prefix_correct `{JsonRepr} fs cp sps data {S : Type} (s : S) b :
  fs_exists fs cp = true → fs_read fs cp = Ok data → io_res (init fs cp sps s) = Ok b →
  ∃ prefix, get_image_prefix fs cp = Ok prefix ∧
    ∀ n sha, get_image_tag b n sha = prefix ++ "/" ++ n ++ ":" ++ arch b ++ "-" ++ sha.
Proof.
  intros He Hr Hb. pose proof (init_result fs cp sps data s b He Hr Hb) as Hi.
  destruct Hi as (config & Hj & Hc & Hcf & _). exists (prefix_of (repo b) (namespace b)).
  split; [|apply get_image_tag_prefix]. unfold get_image_prefix, load_json_file. rewrite He, Hr. cbn [mbind res_bind].
  rewrite Hj. cbn [mbind res_bind]. rewrite parse_registry_config_spec by done.
  by rewrite (cf_repo _ _ Hcf), (cf_namespace _ _ Hcf).
Qed.

(** ** The sample project

    A host that lists two images: the current one of the sample project and an
    old one. *)
#[local] Existing Instance sha256_digest.
#[local] Existing Instance encoding_order.
#[local] Instance sample_limit : RecursionLimit := 100.
#[local] Instance sample_repr : JsonRepr := λ _, [].

Definition old_tag : str :=
  "h/p/r/devkit/n/dev-env:amd64-0123456789abcdef0123456789abcdef0123456789abcdef0123456789abcdef".
#[local] Instance listing_host : Host (list str) := λ cmd x,
  match cmd with
  | _ :: c :: _ => if bool_decide (c = "images") then (Some (RunResult 0 (join [10%N] x) ""), x)
                   else (Some (RunResult 1 "" "conflict"), x)
  | _ => (None, x)
  end.
#[local] Instance listing_popen : Popen (list str) := {| polls_running := λ _ _, Some 2; terminated := λ _ x, x |}.

Abbreviation sample_cleanup c :=
  (cleanup_images sample_fs (path_of_str "/devkit.json") [path_of_str "/images"] 4 7
     (c : cancel, [sample_app_tag; old_tag])).


(** A removal that does not end by itself is stopped by the event, and by an
    interrupt, which [main] logs. *)
Example sample_stopped :
  let stuck : Popen (list str) := {| polls_running := λ _ _, None; terminated := λ _ x, x |} in
  let args := CleanupArgs (path_of_str "/devkit.json") [path_of_str "/images"] 4 7 in
  let run c := main sample_fs args (c, [sample_app_tag; old_tag]) in
  io_res (run (SetAfter 5)) = Ok () ∧ EvTerminate ["docker"; "rmi"; old_tag] ∈ io_trace (run (SetAfter 5)) ∧
  io_res (run (InterruptAfter 5)) = Ok () ∧ EvLog INFO "Cleanup interrupted by user." ∈ io_trace (run (InterruptAfter 5)) ∧
  (io_state (run (InterruptAfter 5))).1 = SetAfter 0.
Proof. split_and!; first [vm_compute; reflexivity|apply (bool_decide_eq_true_1 _); vm_compute; reflexivity]. Qed.

Lemma cleanup_images_removes_witness : ∃ name, image_pattern old_tag name.
Proof.
  destruct (cleanup_images_removes sample_fs (path_of_str "/devkit.json") [path_of_str "/images"] 4 7 Never
    [sample_app_tag; old_tag] old_tag) as [(name & Hn & _) _].
  - apply (bool_decide_eq_true_1 _). vm_compute. reflexivity.
  - exists name. exact Hn.
Defined.

Lemma sample_all_buildable : buildable sample_fs sample_builder [].
Proof.
  split; [apply sample_NoDup|apply sample_typed|set_solver|].
  intros n (t & Ht & Hr). cbn in Ht. apply (bd_tags _ _ _ sample_buildable).
  rewrite !elem_of_cons in Ht. destruct Ht as [->|[->|[]%elem_of_nil]].
  - exists "app". split; [set_solver|done].
  - exists "app". split; [set_solver|]. eapply rtc_l; [|exact Hr].
    eexists _, _. split; [reflexivity|]. split; [reflexivity|]. by apply (bool_decide_eq_true_1 _).
Qed.

Lemma cleanup_keeps_current_witness : sample_app_tag ∉ removals (io_trace (sample_cleanup Never)).
Proof.
  apply (cleanup_keeps_current sample_fs (path_of_str "/devkit.json") [path_of_str "/images"] 4 7 Never
    [sample_app_tag; old_tag] sample_builder "app").
  - intros s. vm_compute. reflexivity.
  - exact sample_all_buildable.
  - apply (bool_decide_eq_true_1 _). vm_compute. reflexivity.
  - exists 2. vm_compute. reflexivity.
Defined.

Lemma sample_init : io_res (init sample_fs (path_of_str "/devkit.json") [path_of_str "/images"] ()) = Ok sample_builder.
Proof. vm_compute. reflexivity. Qed.

Lemma tags_match_pattern_witness : IMAGE_PATTERN sample_app_tag = Some "app".
Proof.
  pose proof (init_result sample_fs (path_of_str "/devkit.json") [path_of_str "/images"] sample_devkit ()
    sample_builder ltac:(vm_compute; reflexivity) ltac:(vm_compute; reflexivity) sample_init) as Hi.
  destruct Hi as (config & _ & _ & Hcf & _).
  apply (tags_match_pattern sample_fs sample_builder config).
  - exact Hcf.
  - rewrite <-(cf_repo _ _ Hcf). by apply (bool_decide_eq_true_1 _).
  - rewrite <-(cf_namespace _ _ Hcf). by apply (bool_decide_eq_true_1 _).
  - discriminate.
  - by apply (bool_decide_eq_true_1 _).
  - by apply (bool_decide_eq_true_1 _).
  - exists 2. vm_compute. reflexivity.
Defined.

Lemma get_image_prefix_correct_witness :
  ∃ prefix, get_image_prefix sample_fs (path_of_str "/devkit.json") = Ok prefix.
Proof.
  destruct (get_image_prefix_correct sample_fs (path_of_str "/devkit.json") [path_of_str "/images"] sample_devkit
    () sample_builder ltac:(vm_compute; reflexivity) ltac:(vm_compute; reflexivity) sample_init) as (prefix & Hp & _).
  exists prefix. exact Hp.
Defined.
