(* ===== verification/FsWrite.v ===== *)
(** * Changing the file system

    The calls with which the scripts change the tree of [Fs]: [mkdir] with
    missing parents, [touch], and writing a text file.  Every call looks its
    path up as the kernel does, links included, and either gives the changed
    file system or the exception; a failed call changes nothing. *)
From S2P Require Import Prelude PyStr PyPath Fs.

(** The tree [n] with [new] at the end of a chain of real directories; the
    chain up to the last component must be there. *)
Fixpoint set_node (n : node) (ps : list str) (new : node) : node :=
  match ps with
  | [] => new
  | c :: ps =>
      match n with
      | NDir es =>
          match dict_get c es, ps with
          | Some n', _ => NDir (dict_set c (set_node n' ps new) es)
          | None, [] => NDir (dict_set c new es)
          | None, _ => n
          end
      | _ => n
      end
  end.

Definition fs_set (fs : fsys) (w : list str) (new : node) : fsys := Fsys (set_node (fs_root fs) w new) (fs_cwd fs).

(** [os.mkdir(p)]: the parent must be a directory, and the name be free.  A
    parent that cannot be looked up counts as missing; where it lies below a
    file or a loop of links, [mkdir] fails on its way up with [OSError], the
    error the system call gives at once. *)
Definition os_mkdir (fs : fsys) (p : path) : res fsys :=
  match fs_lstat fs p with
  | Some _ => Raise OSError
  | None =>
      match fs_stat fs (path_parent p) with
      | Some (Found w (NDir _) _) => Ok (fs_set fs (w ++ [path_name p]) (NDir []))
      | Some _ => Raise OSError
      | None => Raise FileNotFoundError
      end
  end.

(** [p.mkdir(parents=True, exist_ok=True)]; [n] bounds the number of parents. *)
Fixpoint mkdir_parents (n : nat) (fs : fsys) (p : path) : res fsys :=
  match os_mkdir fs p with
  | Ok fs' => Ok fs'
  | Raise e =>
      if is_FileNotFoundError e then
        match n with
        | O => Raise e
        | S n =>
            fs1 ← mkdir_parents n fs (path_parent p);
            match os_mkdir fs1 p with
            | Ok fs' => Ok fs'
            | Raise e => if fs_is_dir fs1 p then Ok fs1 else Raise e
            end
        end
      else if fs_is_dir fs p then Ok fs else Raise e
  end.

Definition fs_mkdir (fs : fsys) (p : path) : res fsys := mkdir_parents (length (p_parts p)) fs p.

(** Where [open] with [O_CREAT] finds or puts a file: a final link is
    followed even when its target is missing. *)
Fixpoint creat_at (fuel : nat) (root : node) (links : nat) (cur todo : list str) : res (list str) :=
  match namei root false links cur todo with
  | Some (Found w (NFile _) _) => Ok w
  | Some (Found _ (NDir _) _) => Raise OSError
  | Some (Found w (NLink t) l) =>
      match fuel, l with
      | S fuel, S l =>
          let q := path_of_str t in
          creat_at fuel root l (if p_abs q then [] else removelast w) (p_parts q)
      | _, _ => Raise OSError
      end
  | None =>
      match namei root true links cur (removelast todo) with
      | Some (Found w (NDir _) _) => Ok (w ++ [List.last todo []])
      | Some _ => Raise OSError
      | None => Raise match lookup_from root true links cur (removelast todo) with
                      | inr e => errno_exn e
                      | inl _ => OSError
                      end
      end
  end.

Definition fs_creat (fs : fsys) (p : path) : res (list str) :=
  creat_at (S max_links) (fs_root fs) max_links (start_dir fs p) (p_parts p).

(** [open(p, "w")] and writing [data]. *)
Definition fs_write (fs : fsys) (p : path) (data : bytes) : res fsys :=
  w ← fs_creat fs p; Ok (fs_set fs w (NFile data)).

(** [p.touch(exist_ok=True)]. *)
Definition fs_touch (fs : fsys) (p : path) : res fsys :=
  if fs_exists fs p then Ok fs else w ← fs_creat fs p; Ok (fs_set fs w (NFile [])).

(** ** What a change leaves in place *)

(** The same kind of node: a file with any contents, a directory with any
    entries, the same link. *)
Definition same_kind (n n' : node) : Prop :=
  match n, n' with
  | NFile _, NFile _ | NDir _, NDir _ => True
  | NLink t, NLink t' => t = t'
  | _, _ => False
  end.

(** Nothing of the tree has disappeared or changed its kind. *)
Definition grows (n n' : node) : Prop :=
  ∀ ps m, node_at n ps = Some m → ∃ m', node_at n' ps = Some m' ∧ same_kind m m'.

Lemma same_kind_refl n : same_kind n n.
Proof. by destruct n. Qed.
Lemma same_kind_trans n1 n2 n3 : same_kind n1 n2 → same_kind n2 n3 → same_kind n1 n3.
Proof. destruct n1, n2, n3; naive_solver. Qed.

Lemma grows_refl n : grows n n.
Proof. intros ps m H. exists m. by split; [|apply same_kind_refl]. Qed.
Lemma grows_trans n1 n2 n3 : grows n1 n2 → grows n2 n3 → grows n1 n3.
Proof.
  intros H12 H23 ps m (m' & (m'' & ? & ?)%H23 & ?)%H12. exists m''. eauto using same_kind_trans.
Qed.
#[export] Hint Resolve grows_refl grows_trans same_kind_refl same_kind_trans : py.

(** The place [ps] of [n] is a file to be overwritten, or free in a directory. *)
Definition place (n : node) (ps : list str) (new : node) : Prop :=
  match node_at n ps with
  | Some old => ∃ d d', old = NFile d ∧ new = NFile d'
  | None => ∃ es, ps ≠ [] ∧ node_at n (removelast ps) = Some (NDir es)
  end.

Lemma place_cons n c ps new : place n (c :: ps) new → ∃ es, n = NDir es ∧
  match dict_get c es with Some n' => place n' ps new | None => ps = [] end.
Proof.
  unfold place. destruct n as [|es|]; cbn [node_at]; [by destruct ps; intros (?&?&?)| |by destruct ps; intros (?&?&?)].
  intros Hp. exists es. split; [done|]. destruct (dict_get c es) as [n'|] eqn:E.
  - destruct (node_at n' ps) eqn:E2; [done|]. destruct Hp as (es' & _ & Hp). exists es'.
    destruct ps as [|c' ps]; [done|]. split; [done|]. cbn [removelast node_at] in Hp. by rewrite E in Hp.
  - destruct Hp as (es' & _ & Hp). destruct ps as [|c' ps]; [done|]. cbn [removelast node_at] in Hp. by rewrite E in Hp.
Qed.

(** The new node is where it was put. *)
Lemma node_at_set ps : ∀ n new, place n ps new → node_at (set_node n ps new) ps = Some new.
Proof.
  induction ps as [|c ps IH]; intros n new Hp; [done|].
  apply place_cons in Hp as (es & -> & Hp). cbn [set_node]. destruct (dict_get c es) as [n'|] eqn:E.
  - cbn [node_at]. rewrite dict_get_set_eq. by apply IH.
  - subst ps. cbn [node_at]. by rewrite dict_get_set_eq.
Qed.

(** Places that are neither above nor below it keep what they have. *)
Lemma node_at_set_ne ps : ∀ n new qs, place n ps new → ¬ ps `prefix_of` qs → ¬ qs `prefix_of` ps →
  node_at (set_node n ps new) qs = node_at n qs.
Proof.
  induction ps as [|c ps IH]; intros n new qs Hp H1 H2; [by destruct H1; apply prefix_nil|].
  destruct qs as [|q qs]; [by destruct H2; apply prefix_nil|].
  apply place_cons in Hp as (es & -> & Hp). cbn [set_node].
  destruct (decide (q = c)) as [->|Hne].
  - destruct (dict_get c es) as [n'|] eqn:E.
    + cbn [node_at]. rewrite dict_get_set_eq, E. apply IH; [done|..]; intros Hx; [apply H1|apply H2]; by apply prefix_cons.
    + subst ps. destruct H1. apply prefix_cons, prefix_nil.
  - destruct (dict_get c es) as [n'|]; [|subst ps]; cbn [node_at]; by rewrite dict_get_set_ne.
Qed.

(** Nothing disappears. *)
Lemma set_node_grows ps : ∀ n new, place n ps new → grows n (set_node n ps new).
Proof.
  induction ps as [|c ps IH]; intros n new Hp qs m Hm.
  { destruct Hp as (d & d' & -> & ->). destruct qs; [|done]. cbn in *. simplify_eq. by exists (NFile d'). }
  apply place_cons in Hp as (es & -> & Hp). destruct qs as [|q qs].
  { injection Hm as <-. cbn [set_node]. destruct (dict_get c es), ps; eexists; split; done. }
  cbn [node_at] in Hm. cbn [set_node]. destruct (decide (q = c)) as [->|Hne].
  - destruct (dict_get c es) as [n'|] eqn:E; [|done]. cbn [node_at]. rewrite dict_get_set_eq. by eapply IH.
  - assert (node_at (NDir es) (q :: qs) = Some m) as Hm' by done.
    destruct (dict_get c es) as [n'|]; [|subst ps]; cbn [node_at]; rewrite dict_get_set_ne by done;
      exists m; by split; [|apply same_kind_refl].
Qed.

Lemma grows_dir root root' cur es : grows root root' → node_at root cur = Some (NDir es) →
  ∃ es', node_at root' cur = Some (NDir es') ∧
    ∀ c m, dict_get c es = Some m → ∃ m', dict_get c es' = Some m' ∧ same_kind m m'.
Proof.
  intros Hg E. destruct (Hg _ _ E) as ([|es'|] & E' & Hk); [done| |done]. exists es'. split; [done|].
  intros c m Hc. destruct (Hg (cur ++ [c]) m) as (m' & Hm' & Hmm).
  { rewrite node_at_app, E. cbn. by rewrite Hc. }
  rewrite node_at_app, E' in Hm'. cbn in Hm'. exists m'. by destruct (dict_get c es').
Qed.

(** A lookup that succeeds still does, at the same place. *)
Lemma namei_grows root root' f L : grows root root' → ∀ cur todo w n k,
  namei root f L cur todo = Some (Found w n k) →
  ∃ n', namei root' f L cur todo = Some (Found w n' k) ∧ same_kind n n'.
Proof.
  intros Hg. induction L as [|L IHL]; intros cur todo; revert cur; induction todo as [|c todo IH];
    intros cur w n k.
  1, 3: rewrite !namei_nil; intros H; destruct (node_at root cur) as [m|] eqn:E; [|done];
    apply Hg in E as (m' & -> & ?); cbn in *; simplify_eq; eauto.
  all: rewrite !namei_cons; destruct (node_at root cur) as [[|es|]|] eqn:E; try done;
    destruct (grows_dir _ _ _ _ Hg E) as (es' & -> & Hes);
    (case_bool_decide; [apply IH|]);
    (destruct (dict_get c es) as [m|] eqn:Ec; [|done]);
    destruct (Hes _ _ Ec) as (m' & -> & Hmm);
    destruct m as [|?|t], m' as [|?|t']; try done; try apply IH;
    cbn in Hmm; subst t'; (case_match; [intros; simplify_eq; by exists (NLink t)|]);
    first [done|apply IHL].
Qed.

Lemma stat_grows root root' cwd p w n k : grows root root' →
  fs_stat (Fsys root cwd) p = Some (Found w n k) →
  ∃ n', fs_stat (Fsys root' cwd) p = Some (Found w n' k) ∧ same_kind n n'.
Proof. intros Hg. unfold fs_stat, start_dir. cbn [fs_root fs_cwd]. by apply namei_grows. Qed.

(** [fs'] is [fs] after creating or overwriting some files and creating some
    directories. *)
Definition fs_grows (fs fs' : fsys) : Prop := grows (fs_root fs) (fs_root fs') ∧ fs_cwd fs' = fs_cwd fs.

Lemma fs_grows_refl fs : fs_grows fs fs.
Proof. split; [apply grows_refl|done]. Qed.
Lemma fs_grows_trans fs1 fs2 fs3 : fs_grows fs1 fs2 → fs_grows fs2 fs3 → fs_grows fs1 fs3.
Proof. intros [??] [??]. split; [by eapply grows_trans|congruence]. Qed.
#[export] Hint Resolve fs_grows_refl fs_grows_trans : py.

Lemma fs_is_dir_grows fs fs' p : fs_grows fs fs' → fs_is_dir fs p = true → fs_is_dir fs' p = true.
Proof.
  intros [Hg Hc]. destruct fs as [root cwd], fs' as [root' cwd']. cbn in *. subst cwd'. unfold fs_is_dir.
  destruct (fs_stat (Fsys root cwd) p) as [[w [| |] k]|] eqn:E; try done.
  destruct (stat_grows _ _ _ _ _ _ _ Hg E) as ([| |] & -> & ?); done.
Qed.

Lemma fs_exists_grows fs fs' p : fs_grows fs fs' → fs_exists fs p = true → fs_exists fs' p = true.
Proof.
  intros [Hg Hc]. destruct fs as [root cwd], fs' as [root' cwd']. cbn in *. subst cwd'. unfold fs_exists.
  destruct (fs_stat (Fsys root cwd) p) as [[w n k]|] eqn:E; [|done].
  by destruct (stat_grows _ _ _ _ _ _ _ Hg E) as (? & -> & ?).
Qed.

(** ** Creating *)

(** Looking up the last component in the directory found for the others. *)
Lemma namei_last f L root cur todo w es k : todo ≠ [] →
  namei root true L cur (removelast todo) = Some (Found w (NDir es) k) →
  namei root f L cur todo = namei root f k w [List.last todo []].
Proof. intros Hne H. rewrite (app_removelast_last [] Hne) at 1. rewrite namei_app by done. by rewrite H. Qed.

(** A free name in a directory can be taken, and is then found. *)
Lemma create_last root L cur todo w es k new :
  namei root false L cur todo = None →
  namei root true L cur (removelast todo) = Some (Found w (NDir es) k) →
  (∀ t, new ≠ NLink t) →
  place root (w ++ [List.last todo []]) new ∧
  namei (set_node root (w ++ [List.last todo []]) new) true L cur todo =
    Some (Found (w ++ [List.last todo []]) new k).
Proof.
  intros El Es Hnl. set (c := List.last todo []).
  assert (todo ≠ []) as Hne.
  { intros ->. cbn [removelast] in Es. rewrite namei_nil in El, Es. by destruct (node_at root cur). }
  rewrite (namei_last _ _ _ _ _ _ _ _ Hne Es) in El. fold c in El.
  pose proof (namei_node_at _ _ _ _ _ _ Es) as Hw. cbn in Hw.
  rewrite namei_cons, Hw in El. case_bool_decide as Hdd.
  { rewrite namei_nil in El. destruct (node_at_removelast _ _ _ Hw) as [es' He]. by rewrite He in El. }
  destruct (dict_get c es) as [m|] eqn:Ed.
  { destruct m; [rewrite namei_nil, node_at_app, Hw in El; cbn in El; by rewrite Ed in El..|by cbn in El]. }
  assert (place root (w ++ [c]) new) as Hpl.
  { unfold place. rewrite node_at_app, Hw. cbn. rewrite Ed. exists es. by rewrite removelast_last; destruct w. }
  split; [done|]. set (root' := set_node root (w ++ [c]) new).
  assert (grows root root') as Hg by by apply set_node_grows.
  destruct (namei_grows _ _ _ _ Hg _ _ _ _ _ Es) as ([|es'|] & Es' & ?); [done| |done].
  rewrite (namei_last _ _ _ _ _ _ _ _ Hne Es'), namei_cons. fold c.
  pose proof (namei_node_at _ _ _ _ _ _ Es') as Hw'. cbn in Hw'.
  pose proof (node_at_set _ _ _ Hpl) as Hn. fold root' in Hn.
  assert (dict_get c es' = Some new) as Hc.
  { rewrite node_at_app, Hw' in Hn. cbn in Hn. by destruct (dict_get c es'). }
  rewrite Hw', bool_decide_eq_false_2, Hc by done.
  rewrite namei_nil, Hn. destruct new; [done..|by destruct (Hnl target)].
Qed.

(** ** Directories *)

Lemma os_mkdir_ok fs p fs' : os_mkdir fs p = Ok fs' → fs_grows fs fs' ∧ fs_is_dir fs' p = true.
Proof.
  destruct fs as [root cwd]. unfold os_mkdir. destruct (fs_lstat _ p) eqn:El; [done|].
  destruct (fs_stat _ (path_parent p)) as [[w [|es|] k]|] eqn:Es; try done. intros [= <-].
  destruct (create_last _ _ _ _ _ _ _ (NDir []) El Es) as [Hpl Hn]; [done|].
  split; [by split; [apply set_node_grows|]|]. unfold fs_is_dir, fs_stat, fs_set, start_dir, path_name in *. cbn [fs_root fs_cwd] in *. by rewrite Hn.
Qed.

Lemma mkdir_parents_ok n : ∀ fs p fs', mkdir_parents n fs p = Ok fs' → fs_grows fs fs' ∧ fs_is_dir fs' p = true.
Proof.
  induction n as [|n IH]; intros fs p fs'; cbn [mkdir_parents]; destruct (os_mkdir fs p) as [fs1|e] eqn:E1.
  1, 3: intros [= <-]; by apply os_mkdir_ok.
  all: destruct (is_FileNotFoundError e); [|destruct (fs_is_dir fs p) eqn:?; [intros [= <-]; split; auto with py|done]].
  { done. }
  destruct (mkdir_parents n fs (path_parent p)) as [fs1|] eqn:E2; [|done]. cbn [mbind res_bind].
  apply IH in E2 as [Hg _]. destruct (os_mkdir fs1 p) as [fs2|] eqn:E3.
  - intros [= <-]. apply os_mkdir_ok in E3 as [? ?]. eauto with py.
  - destruct (fs_is_dir fs1 p) eqn:?; [|done]. intros [= <-]. by split.
Qed.

(** [mkdir] that returns has made the directory, and kept everything else. *)
Lemma fs_mkdir_ok fs p fs' : fs_mkdir fs p = Ok fs' → fs_grows fs fs' ∧ fs_is_dir fs' p = true.
Proof. apply mkdir_parents_ok. Qed.

(** ** Files *)

Lemma namei_follow root f L : ∀ cur todo w n k, (∀ t, n ≠ NLink t) →
  namei root f L cur todo = Some (Found w n k) → namei root true L cur todo = Some (Found w n k).
Proof.
  induction L as [|L IHL]; intros cur todo; revert cur; induction todo as [|c todo IH];
    intros cur w n k Hn.
  1, 3: by rewrite !namei_nil.
  all: rewrite !namei_cons; destruct (node_at root cur) as [[|es|]|] eqn:E; try done;
    (case_bool_decide; [exact (IH _ _ _ _ Hn)|]);
    (destruct (dict_get c es) as [[| |t]|] eqn:Ec; [exact (IH _ _ _ _ Hn)..| |done]);
    cbn [negb]; rewrite andb_false_r; (case_match; [intros; simplify_eq; by destruct (Hn t)|]);
    first [done|exact (IHL _ _ _ _ _ Hn)].
Qed.

Definition is_link (n : node) : Prop := match n with NLink _ => True | _ => False end.

Lemma root_not_link root cur n : node_at root cur = Some n → ¬ is_link n → ¬ is_link root.
Proof. destruct cur, root; cbn; naive_solver. Qed.

(** Following the link a lookup ends at. *)
Lemma namei_link root L : ∀ cur todo w t l, (∀ n, node_at root cur = Some n → ¬ is_link n) →
  namei root false L cur todo = Some (Found w (NLink t) (S l)) →
  namei root true L cur todo = namei root true l (if p_abs (path_of_str t) then [] else removelast w)
    (p_parts (path_of_str t)).
Proof.
  induction L as [|L IHL]; intros cur todo; revert cur; induction todo as [|c todo IH];
    intros cur w t l Hcur.
  1, 3: rewrite !namei_nil; intros H; destruct (node_at root cur); [|done]; cbn in *; simplify_eq;
    by destruct (Hcur _ eq_refl).
  all: rewrite !namei_cons; destruct (node_at root cur) as [[|es|]|] eqn:E; try done;
    (case_bool_decide; [apply IH; intros n Hn; destruct (node_at_removelast _ _ _ E); naive_solver|]);
    (destruct (dict_get c es) as [[| |t']|] eqn:Ec;
       [apply IH; rewrite node_at_app, E; cbn; rewrite Ec; naive_solver..| |done]);
    cbn [negb]; rewrite andb_false_r, andb_true_r; case_bool_decide as Hr;
    (try by intros; simplify_eq).
  - intros [= <- <- <-]. subst todo. by rewrite removelast_last, app_nil_r.
  - apply IHL. case_match; [|naive_solver]. intros n [= <-]. eapply root_not_link; [exact E|by intros []].
Qed.

(** What a file found by a lookup becomes by writing to it. *)
Lemma namei_overwrite root L cur todo w d0 d k : namei root false L cur todo = Some (Found w (NFile d0) k) →
  place root w (NFile d) ∧ namei (set_node root w (NFile d)) true L cur todo = Some (Found w (NFile d) k).
Proof.
  intros E. pose proof (namei_node_at _ _ _ _ _ _ E) as Hw. cbn in Hw.
  assert (place root w (NFile d)) as Hpl by (unfold place; rewrite Hw; eauto). split; [done|].
  destruct (namei_grows _ _ false L (set_node_grows _ _ _ Hpl) _ _ _ _ _ E) as ([d1| |] & E' & ?); try done.
  pose proof (namei_node_at _ _ _ _ _ _ E') as Hw'. cbn in Hw'. rewrite node_at_set in Hw' by done.
  simplify_eq. by eapply namei_follow in E'.
Qed.

(** The place [open] chooses can be written, and is then where the path leads. *)
Lemma creat_at_ok fuel root d : ∀ L cur todo w, (∀ n, node_at root cur = Some n → ¬ is_link n) →
  creat_at fuel root L cur todo = Ok w →
  place root w (NFile d) ∧
  ∃ k, namei (set_node root w (NFile d)) true L cur todo = Some (Found w (NFile d) k).
Proof.
  induction fuel as [|fuel IH]; intros L cur todo w Hcur; cbn [creat_at];
    destruct (namei root false L cur todo) as [[w0 [d0|es0|t] l]|] eqn:E; try done.
  1, 3: intros [= <-]; destruct (namei_overwrite _ _ _ _ _ _ d _ E); eauto.
  1, 3: destruct (namei root true L cur (removelast todo)) as [[w1 [|es|] k]|] eqn:Es; try done;
    intros [= <-]; destruct (create_last _ _ _ _ _ _ _ (NFile d) E Es) as [? ?]; [done|eauto].
  destruct l as [|l]; [done|]. intros Hc.
  assert (¬ is_link root) as Hroot.
  { destruct (node_at root cur) as [n|] eqn:Ec; [eapply root_not_link; eauto|].
    destruct todo; [rewrite namei_nil in E|rewrite namei_cons in E]; by rewrite Ec in E. }
  assert (∃ es, node_at root (removelast w0) = Some (NDir es)) as [es Hes].
  { pose proof (namei_node_at _ _ _ _ _ _ E) as Hw. cbn in Hw.
    destruct (decide (w0 = [])) as [->|Hne]; [cbn in Hw; simplify_eq; by destruct Hroot|].
    rewrite (app_removelast_last [] Hne), node_at_app in Hw.
    destruct (node_at root (removelast w0)) as [[|es|]|]; cbn in Hw; try done. by exists es. }
  apply IH in Hc as [Hpl [k Hk]]; [|case_match; [by intros n [= <-]|intros n Hn; rewrite Hes in Hn; injection Hn as <-; by intros []]].
  split; [done|]. exists k. rewrite <-Hk.
  pose proof (set_node_grows _ _ _ Hpl) as Hg.
  destruct (namei_grows _ _ false L Hg _ _ _ _ _ E) as ([| |t'] & E' & Ht); try done. cbn in Ht. subst t'.
  apply namei_link in E'; [done|]. intros n Hn.
  destruct (node_at root cur) as [m|] eqn:Ec; [|destruct todo; [rewrite namei_nil in E|rewrite namei_cons in E]; by rewrite Ec in E].
  destruct (Hg _ _ Ec) as (m' & Hm' & Hk'). simplify_eq. specialize (Hcur m eq_refl). by destruct m, n.
Qed.

Lemma start_not_link fs p n : fsys_wf fs → node_at (fs_root fs) (start_dir fs p) = Some n → ¬ is_link n.
Proof. intros Hwf Hn. destruct (start_dir_wf fs p Hwf) as [es Hes]. rewrite Hes in Hn. injection Hn as <-. by intros []. Qed.

Lemma fs_creat_ok fs p w d : fsys_wf fs → fs_creat fs p = Ok w →
  fs_grows fs (fs_set fs w (NFile d)) ∧ fs_read (fs_set fs w (NFile d)) p = Ok d.
Proof.
  intros Hwf Hc. destruct fs as [root cwd].
  eapply (creat_at_ok _ _ d) in Hc as [Hpl [k Hk]]; [|intros n; by apply (start_not_link (Fsys root cwd) p)].
  split; [by split; [apply set_node_grows|]|]. unfold fs_read, fs_stat, fs_set, start_dir in *.
  cbn [fs_root fs_cwd] in *. by rewrite Hk.
Qed.

(** Reading back what was written, through the path it was written to. *)
Lemma fs_write_ok fs p data fs' : fsys_wf fs → fs_write fs p data = Ok fs' →
  fs_grows fs fs' ∧ fs_read fs' p = Ok data.
Proof.
  intros Hwf. unfold fs_write. destruct (fs_creat fs p) as [w|] eqn:E; [|done]. intros [= <-]. by apply fs_creat_ok.
Qed.

Lemma fs_touch_ok fs p fs' : fsys_wf fs → fs_touch fs p = Ok fs' → fs_grows fs fs' ∧ fs_exists fs' p = true.
Proof.
  intros Hwf. unfold fs_touch. destruct (fs_exists fs p) eqn:Hx; [intros [= <-]; auto with py|].
  destruct (fs_creat fs p) as [w|] eqn:E; [|done]. intros [= <-].
  apply (fs_creat_ok _ _ _ []) in E as [Hg Hr]; [|done]. split; [done|].
  unfold fs_read in Hr. unfold fs_exists. by destruct (fs_stat _ p).
Qed.

Lemma fs_grows_wf fs fs' : fs_grows fs fs' → fsys_wf fs → fsys_wf fs'.
Proof.
  intros [Hg Hc] [es Hes]. unfold fsys_wf. rewrite Hc. destruct (Hg _ _ Hes) as ([|es'|] & He & ?); try done. by exists es'.
Qed.

(** *** The errors *)

Lemma os_mkdir_errors fs p e : os_mkdir fs p = Raise e → is_OSError e = true.
Proof. unfold os_mkdir. repeat case_match; intros; simplify_eq; done. Qed.

Lemma fs_mkdir_errors fs p e : fs_mkdir fs p = Raise e → is_OSError e = true.
Proof.
  unfold fs_mkdir. generalize (length (p_parts p)). intros n. revert fs p e.
  induction n as [|n IH]; intros fs p e; cbn [mkdir_parents];
    destruct (os_mkdir fs p) as [|e'] eqn:E; try done; apply os_mkdir_errors in E.
  - repeat case_match; intros; by simplify_eq.
  - destruct (is_FileNotFoundError e'); [|case_match; intros; by simplify_eq].
    intros [?|(fs1 & _ & H)]%res_bind_Raise; [by eapply IH|].
    destruct (os_mkdir fs1 p) as [|e2] eqn:E2; [done|]. apply os_mkdir_errors in E2.
    case_match; by simplify_eq.
Qed.
