(* ===== verification/Shlex.v ===== *)
(** * Shell words

    [shlex.split], [shlex.join] and [os.path.expandvars] of the Python
    library, and that splitting undoes joining. *)
From S2P Require Import Prelude PyStr.

Abbreviation squote := 39%N.
Abbreviation dquote := 34%N.
Abbreviation backslash := 92%N.

(** [shlex.whitespace]. *)
Definition shlex_space (c : N) : bool := (c =? 32)%N || (c =? 9)%N || (c =? 13)%N || (c =? 10)%N.

(** The states of [shlex.read_token] in POSIX mode: between tokens, in a
    token, in quotes, after a backslash that came in a token or in quotes. *)
Inductive lex_state := Between | InToken | InQuote (q : N) | Escaped (from : option N).

(** [shlex.split(s)]: [tok] is the token so far, [quoted] whether it had
    quotes, so that an empty one counts. *)
Fixpoint shlex_from (st : lex_state) (tok : str) (quoted : bool) (s : str) : res (list str) :=
  let emit (rest : res (list str)) :=
    if bool_decide (tok = []) && negb quoted then rest else ts ← rest; Ok (tok :: ts) in
  match s with
  | [] =>
      match st with
      | Between | InToken => emit (Ok [])
      | InQuote _ => Raise (ValueError "No closing quotation")
      | Escaped _ => Raise (ValueError "No escaped character")
      end
  | c :: s =>
      match st with
      | Between =>
          if shlex_space c then emit (shlex_from Between [] false s)
          else if (c =? backslash)%N then shlex_from (Escaped None) tok quoted s
          else if (c =? squote)%N || (c =? dquote)%N then shlex_from (InQuote c) tok quoted s
          else shlex_from InToken [c] quoted s
      | InToken =>
          if shlex_space c then emit (shlex_from Between [] false s)
          else if (c =? squote)%N || (c =? dquote)%N then shlex_from (InQuote c) tok quoted s
          else if (c =? backslash)%N then shlex_from (Escaped None) tok quoted s
          else shlex_from InToken (tok ++ [c]) quoted s
      | InQuote q =>
          if (c =? q)%N then shlex_from InToken tok true s
          else if (c =? backslash)%N && (q =? dquote)%N then shlex_from (Escaped (Some q)) tok true s
          else shlex_from (InQuote q) (tok ++ [c]) true s
      | Escaped None => shlex_from InToken (tok ++ [c]) quoted s
      | Escaped (Some q) =>
          if negb (c =? backslash)%N && negb (c =? q)%N
          then shlex_from (InQuote q) (tok ++ [backslash; c]) quoted s
          else shlex_from (InQuote q) (tok ++ [c]) quoted s
      end
  end.

Definition shlex_split (s : str) : res (list str) := shlex_from Between [] false s.

(** The characters [shlex.quote] leaves alone. *)
Definition shlex_safe (c : N) : bool := is_word c || bool_decide (c ∈ ("@%+=:,./-" : str)).

Definition shlex_quote (s : str) : str :=
  match s with
  | [] => [squote; squote]
  | _ =>
      if forallb shlex_safe s then s
      else squote :: replace s [squote] [squote; dquote; squote; dquote; squote] ++ [squote]
  end.

Definition shlex_join (args : list str) : str := join " " (shlex_quote <$> args).

(** ** Environment variables in text *)

Fixpoint take_while (f : N → bool) (s : str) : str :=
  match s with c :: s' => if f c then c :: take_while f s' else [] | [] => [] end.

(** The match of [\$(\w+|\{[^}]*\})] after the dollar sign: the name, and the
    length of the match. *)
Definition variable_at (s : str) : option (str * nat) :=
  match s with
  | c :: s' =>
      if (c =? 123)%N then
        let name := take_while (λ c, negb (c =? 125)%N) s' in
        if (length name <? length s')%nat then Some (name, 2 + length name) else None
      else
        match take_while is_word s with [] => None | name => Some (name, length name) end
  | [] => None
  end.

(** [os.path.expandvars]: a variable that is not set stays as it is, and
    values are not expanded again; [skip] counts characters of a match still
    to be passed over. *)
Fixpoint expand_from (environ : list (str * str)) (skip : nat) (s : str) : str :=
  match s with
  | [] => []
  | c :: s' =>
      match skip with
      | S k => expand_from environ k s'
      | O =>
          match (if (c =? 36)%N then variable_at s' else None) with
          | Some (name, len) =>
              (match dict_get name environ with Some v => v | None => c :: take len s' end) ++
              expand_from environ len s'
          | None => c :: expand_from environ 0 s'
          end
      end
  end.

Definition expandvars (environ : list (str * str)) (s : str) : str := expand_from environ 0 s.

Lemma expandvars_id environ s : 36%N ∉ s → expandvars environ s = s.
Proof.
  unfold expandvars. induction s as [|c s IH]; intros Hs; [done|]. cbn [expand_from].
  rewrite (proj2 (N.eqb_neq c 36)) by set_solver. by rewrite IH by set_solver.
Qed.

Example expandvars_sample :
  expandvars [(("A" : str), ("x$B" : str)); (("A_1" : str), ("y" : str))] "$A-${A_1}-$B-${B-$$A" = "x$B-y-$B-${B-$x$B".
Proof. by vm_compute. Qed.

(** ** Splitting undoes joining *)

Lemma safe_char c : shlex_safe c = true →
  shlex_space c = false ∧ (c =? squote)%N = false ∧ (c =? dquote)%N = false ∧ (c =? backslash)%N = false.
Proof.
  intros Hc. assert (∀ b, shlex_safe b = false → (c =? b)%N = false) as Hne.
  { intros b Hb. apply N.eqb_neq. intros ->. congruence. }
  unfold shlex_space. rewrite !Hne by done. done.
Qed.

Lemma split_safe s : ∀ tok q rest, forallb shlex_safe s = true →
  shlex_from InToken tok q (s ++ rest) = shlex_from InToken (tok ++ s) q rest.
Proof.
  induction s as [|c s IH]; intros tok q rest Hs; [by rewrite app_nil_r|].
  apply andb_true_iff in Hs as [(H1 & H2 & H3 & H4)%safe_char Hs]. cbn [app shlex_from].
  rewrite H1, H2, H3, H4. cbn [orb]. rewrite IH by done. by rewrite <-app_assoc.
Qed.

Definition escape_squotes (s : str) : str := replace s [squote] [squote; dquote; squote; dquote; squote].

Lemma escape_cons c s : escape_squotes (c :: s) =
  (if (c =? squote)%N then [squote; dquote; squote; dquote; squote] else [c]) ++ escape_squotes s.
Proof.
  unfold escape_squotes, replace. cbn [replace_from startswith length].
  rewrite andb_true_r, (N.eqb_sym squote c). by destruct (c =? squote)%N.
Qed.

Lemma split_quoted s : ∀ tok q rest,
  shlex_from (InQuote squote) tok q (escape_squotes s ++ squote :: rest) = shlex_from InToken (tok ++ s) true rest.
Proof.
  induction s as [|c s IH]; intros tok q rest; [cbn; by rewrite app_nil_r|].
  rewrite escape_cons. destruct (N.eqb_spec c squote) as [->|Hc]; rewrite <-app_assoc.
  - cbn. rewrite IH. by rewrite <-app_assoc.
  - cbn [app shlex_from]. rewrite (proj2 (N.eqb_neq c squote)) by done.
    rewrite andb_false_r. rewrite IH. by rewrite <-app_assoc.
Qed.

(** A quoted argument is read as one token. *)
Lemma split_quote a rest : ∃ q, (a = [] → q = true) ∧
  shlex_from Between [] false (shlex_quote a ++ rest) = shlex_from InToken a q rest.
Proof.
  unfold shlex_quote. destruct a as [|c a]; [by exists true|].
  destruct (forallb shlex_safe (c :: a)) eqn:Hs.
  - exists false. split; [done|]. pose proof Hs as Hs'. apply andb_true_iff in Hs as [(H1 & H2 & H3 & H4)%safe_char Hs].
    cbn [app shlex_from]. rewrite H1, H2, H3, H4. cbn [orb]. by rewrite split_safe.
  - exists true. split; [done|]. fold (escape_squotes (c :: a)). cbn [app shlex_from].
    change (shlex_space squote) with false. cbv iota. change (squote =? backslash)%N with false.
    change ((squote =? squote)%N || (squote =? dquote)%N) with true. cbv iota.
    rewrite <-app_assoc. change ([squote] ++ rest) with (squote :: rest). by rewrite split_quoted.
Qed.

Lemma shlex_emit a q s : (a = [] → q = true) →
  shlex_from InToken a q (32%N :: s) = ts ← shlex_split s; Ok (a :: ts).
Proof.
  intros Hq. cbn [shlex_from]. change (shlex_space 32) with true. cbv iota.
  case_bool_decide as Ha; [|done]. by rewrite (Hq Ha).
Qed.

Lemma shlex_roundtrip args : shlex_split (shlex_join args) = Ok args.
Proof.
  unfold shlex_join. induction args as [|a args IH]; [done|]. unfold shlex_split.
  destruct args as [|b args].
  - cbn [fmap list_fmap join]. rewrite <-(app_nil_r (shlex_quote a)).
    destruct (split_quote a []) as (q & Hq & ->). cbn. case_bool_decide as Ha; [|done]. by rewrite (Hq Ha).
  - change (join " " (shlex_quote <$> a :: b :: args)) with
      (shlex_quote a ++ 32%N :: join " " (shlex_quote <$> b :: args)).
    destruct (split_quote a (32%N :: join " " (shlex_quote <$> b :: args))) as (q & Hq & ->).
    rewrite shlex_emit by done. by rewrite IH.
Qed.
