(* ===== verification/Argparse.v ===== *)
(** * argparse

    [argparse.ArgumentParser] as the scripts use it: options that store a
    value, a list of values or [True], that append, or that print the help,
    and at most one positional argument with [nargs="*"].  The algorithm is
    that of CPython 3.12: every argument is first classified as an option or
    not, abbreviations included, then options and positional arguments are
    consumed from left to right. *)
From S2P Require Import Prelude PyStr PyFloat PyPath.

(** ** Parsers *)

Inductive nargs := NOne | NZero | NStar | NPlus.
Inductive argtype := TStr | TPath | TFloat | TInt.
Inductive action := Store | StoreTrue | Append | Help.

(** What [setattr(namespace, dest, value)] stores. *)
Inductive value :=
  | VNone
  | VBool (b : bool)
  | VStr (s : str)
  | VPath (p : path)
  | VFloat (x : float)
  | VInt (z : Z)
  | VList (l : list value).

(** One [add_argument]; a positional argument has no option strings. *)
Record argument := Argument {
  option_strings : list str;
  dest : str;
  act : action;
  arg_nargs : nargs;
  arg_type : argtype;
  choices : option (list str);
  required : bool;
  default_value : value
}.

Record parser := Parser { options : list argument; positional : option argument }.

(** [_option_string_actions]. *)
Definition option_string_actions (p : parser) : list (str * argument) :=
  concat ((λ a, (λ o, (o, a)) <$> option_strings a) <$> options p).

(** How parsing ends early. *)
Inductive perror :=
  | EAmbiguous (arg : str)
  | EExplicit (arg : str)
  | EExpected (dest : str)
  | EInvalid (dest arg : str)
  | EChoice (dest arg : str)
  | ERequired (dests : list str)
  | EUnrecognized (args : list str).

Inductive presult (A : Type) :=
  | PDone (a : A)
  | PHelp
  | PError (e : perror).
Arguments PDone {A} a.
Arguments PHelp {A}.
Arguments PError {A} e.

#[export] Instance presult_ret : MRet presult := λ A a, PDone a.
#[export] Instance presult_bind : MBind presult :=
  λ A B f r, match r with PDone a => f a | PHelp => PHelp | PError e => PError e end.

Lemma presult_bind_Done {A B} (r : presult A) (f : A → presult B) b :
  r ≫= f = PDone b ↔ ∃ a, r = PDone a ∧ f a = PDone b.
Proof. destruct r; unfold mbind; simpl; naive_solver. Qed.

(** ** Classification *)

Definition dash : N := 45.

(** A reading of an argument as an option: its action, the option string, the
    separator and the explicit argument. *)
Record opt_tuple := OptTuple {
  ot_arg : argument; ot_string : str; ot_sep : option str; ot_explicit : option str
}.

(** A positional argument, the first ["--"], or an option with its readings;
    none when no such option exists. *)
Inductive cls := CArg | CDash | COpt (readings : list opt_tuple).

(** [s.partition("=")]. *)
Definition partition_eq (s : str) : str * option str * option str :=
  match split1 s 61 with
  | Some (prefix, explicit_arg) => (prefix, Some "=", Some explicit_arg)
  | None => (s, None, None)
  end.

(** [_get_option_tuples]. *)
Definition get_option_tuples (p : parser) (s : str) : list opt_tuple :=
  let '(option_prefix, sep, explicit_arg) := partition_eq s in
  if startswith s "--" then
    omap (λ oa, if startswith oa.1 option_prefix
                then Some (OptTuple oa.2 oa.1 sep explicit_arg) else None) (option_string_actions p)
  else
    omap (λ oa, if bool_decide (oa.1 = take 2 s) then Some (OptTuple oa.2 oa.1 (Some "") (Some (drop 2 s)))
                else if startswith oa.1 option_prefix
                then Some (OptTuple oa.2 oa.1 sep explicit_arg) else None) (option_string_actions p).

Definition is_digit (c : N) : bool := match digit_value c with Some _ => true | None => false end.

(** [re.match('^-\d+$|^-\d*\.\d+$', s)]; [$] also matches before a final
    newline. *)
Definition negative_number (s : str) : bool :=
  match s with
  | c :: t =>
      let t := if endswith t [10%N] then removelast t else t in
      (c =? dash)%N &&
      match split1 t 46 with
      | None => negb (bool_decide (t = [])) && forallb is_digit t
      | Some (a, b) => forallb is_digit a && negb (bool_decide (b = [])) && forallb is_digit b
      end
  | [] => false
  end.

(** [_parse_optional]. *)
Definition parse_optional (p : parser) (s : str) : cls :=
  match s with
  | [] => CArg
  | c :: t =>
      if negb (c =? dash)%N then CArg
      else
        match dict_get s (option_string_actions p) with
        | Some a => COpt [OptTuple a s None None]
        | None =>
            if bool_decide (t = []) then CArg
            else
              let '(option_string, sep, explicit_arg) := partition_eq s in
              match sep, dict_get option_string (option_string_actions p) with
              | Some _, Some a => COpt [OptTuple a option_string sep explicit_arg]
              | _, _ =>
                  match get_option_tuples p s with
                  | [] => if negative_number s then CArg
                          else if contains s " " then CArg
                          else COpt []
                  | readings => COpt readings
                  end
              end
        end
  end.

(** All arguments after the first ["--"] are positional. *)
Fixpoint classify (p : parser) (argv : list str) : list (str * cls) :=
  match argv with
  | [] => []
  | s :: argv =>
      if bool_decide (s = "--") then (s, CDash) :: ((λ s, (s, CArg)) <$> argv)
      else (s, parse_optional p s) :: classify p argv
  end.

Definition is_arg (sc : str * cls) : bool := match sc.2 with CArg => true | _ => false end.
Definition is_opt (sc : str * cls) : bool := match sc.2 with COpt _ => true | _ => false end.
Definition is_dash (sc : str * cls) : bool := match sc.2 with CDash => true | _ => false end.

(** The longest prefix whose elements satisfy [f]. *)
Fixpoint leading {A} (f : A → bool) (l : list A) : nat :=
  match l with x :: l => if f x then S (leading f l) else 0 | [] => 0 end.

(** [_match_argument] for an option: how many of the arguments that follow
    belong to it. *)
Definition match_argument (a : argument) (l : list (str * cls)) : presult nat :=
  let n := leading is_arg l in
  match arg_nargs a, n with
  | NZero, _ => PDone 0
  | NOne, S _ => PDone 1
  | NStar, _ => PDone n
  | NPlus, S _ => PDone n
  | NOne, O | NPlus, O => PError (EExpected (dest a))
  end.

(** ** Values *)

(** [_get_value] and [_check_value]. *)
Definition get_value (a : argument) (s : str) : presult value :=
  match arg_type a with
  | TStr => PDone (VStr s)
  | TPath => PDone (VPath (path_of_str s))
  | TFloat => match py_float s with Ok x => PDone (VFloat x) | Raise _ => PError (EInvalid (dest a) s) end
  | TInt => match py_int s with Ok z => PDone (VInt z) | Raise _ => PError (EInvalid (dest a) s) end
  end.

Definition check_value (a : argument) (s : str) (v : value) : presult value :=
  match choices a with
  | Some cs => if bool_decide (s ∈ cs) then PDone v else PError (EChoice (dest a) s)
  | None => PDone v
  end.

Fixpoint get_list (a : argument) (args : list str) : presult (list value) :=
  match args with
  | [] => PDone []
  | s :: args =>
      v ← get_value a s; _ ← check_value a s v;
      vs ← get_list a args; PDone (v :: vs)
  end.

(** [_get_values]. *)
Definition get_values (a : argument) (args : list str) : presult value :=
  match option_strings a, arg_nargs a, args with
  | [], NStar, [] => PDone (default_value a)
  | _, NOne, [s] => v ← get_value a s; check_value a s v
  | _, _, _ => vs ← get_list a args; PDone (VList vs)
  end.

(** ** Actions *)

Record pstate := PState {
  ps_namespace : list (str * value);
  ps_seen : list str;
  ps_extras : list str;
  ps_positionals : option argument
}.

Definition add_extra (s : str) (st : pstate) : pstate :=
  PState (ps_namespace st) (ps_seen st) (ps_extras st ++ [s]) (ps_positionals st).
Definition no_positionals (st : pstate) : pstate :=
  PState (ps_namespace st) (ps_seen st) (ps_extras st) None.

(** The [__call__] of the action classes. *)
Definition perform (a : argument) (v : value) (ns : list (str * value)) : presult (list (str * value)) :=
  match act a with
  | Store => PDone (dict_set (dest a) v ns)
  | StoreTrue => PDone (dict_set (dest a) (VBool true) ns)
  | Append =>
      let items := match dict_get (dest a) ns with Some (VList l) => l | _ => [] end in
      PDone (dict_set (dest a) (VList (items ++ [v])) ns)
  | Help => PHelp
  end.

Definition take_action (st : pstate) (aa : argument * list str) : presult pstate :=
  let '(a, args) := aa in
  v ← get_values a args;
  ns ← perform a v (ps_namespace st);
  PDone (PState ns (dest a :: ps_seen st) (ps_extras st) (ps_positionals st)).

Fixpoint take_actions (st : pstate) (l : list (argument * list str)) : presult pstate :=
  match l with
  | [] => PDone st
  | aa :: l => st ← take_action st aa; take_actions st l
  end.

(** ** Consuming the arguments *)

(** What is left of an option after its explicit argument was used: nothing,
    an unknown rest, or the arguments that follow it. *)
Inductive remainder := RNone | RExtra (s : str) | RFollowing (a : argument).

(** The loop of [consume_optional] on an explicit argument: single-dash
    options without arguments can be joined, as in [-xyz]. *)
Fixpoint explicit_argument (p : parser) (a : argument) (option_string : str) (sep : option str)
    (explicit_arg : str) (acc : list (argument * list str)) : presult (list (argument * list str) * remainder) :=
  arg_count ← match_argument a [(explicit_arg, CArg)];
  match arg_count, explicit_arg with
  | O, c :: rest =>
      if startswith option_string "--" then PError (EExplicit explicit_arg)
      else if bool_decide (sep = Some "=") || (c =? dash)%N then PError (EExplicit explicit_arg)
      else
        let acc := acc ++ [(a, [])] in
        match dict_get [dash; c] (option_string_actions p) with
        | Some a' =>
            match rest with
            | [] => PDone (acc, RFollowing a')
            | d :: rest' =>
                if (d =? 61)%N then explicit_argument p a' [dash; c] (Some "=") rest' acc
                else explicit_argument p a' [dash; c] (Some "") rest acc
            end
        | None => PDone (acc, RExtra (dash :: explicit_arg))
        end
  | S O, _ => PDone (acc ++ [(a, [explicit_arg])], RNone)
  | _, _ => PError (EExplicit explicit_arg)
  end.

(** [consume_optional]: the state, and how many of the following arguments
    were used. *)
Definition consume_optional (p : parser) (s : str) (readings : list opt_tuple) (rest : list (str * cls))
    (st : pstate) : presult (pstate * nat) :=
  match readings with
  | [] => PDone (add_extra s st, 0)
  | [t] =>
      '(acc, r) ← match ot_explicit t with
                  | None => PDone ([], RFollowing (ot_arg t))
                  | Some e => explicit_argument p (ot_arg t) (ot_string t) (ot_sep t) e []
                  end;
      match r with
      | RNone => st ← take_actions st acc; PDone (st, 0)
      | RExtra x => st ← take_actions (add_extra x st) acc; PDone (st, 0)
      | RFollowing a =>
          n ← match_argument a rest;
          st ← take_actions st (acc ++ [(a, (take n rest).*1)]);
          PDone (st, n)
      end
  | _ => PError (EAmbiguous s)
  end.

(** [consume_positionals]: the positional argument, if it is left, takes the
    longest run of arguments; a ["--"] among them is removed. *)
Definition positional_count (l : list (str * cls)) : nat := leading (λ sc, negb (is_opt sc)) l.
Definition positional_args (l : list (str * cls)) : list str := (List.filter (λ sc, negb (is_dash sc)) l).*1.

Definition consume_positionals (l : list (str * cls)) (st : pstate) : presult (pstate * nat) :=
  match ps_positionals st with
  | None => PDone (st, 0)
  | Some a =>
      let n := positional_count l in
      st ← take_action (no_positionals st) (a, positional_args (take n l));
      PDone (st, n)
  end.

(** The main loop of [_parse_known_args]: [skip] arguments belong to an
    earlier one. *)
Fixpoint consume (p : parser) (l : list (str * cls)) (skip : nat) (st : pstate) : presult pstate :=
  match skip, l with
  | S skip, _ :: rest => consume p rest skip st
  | _, [] => '(st, _) ← consume_positionals [] st; PDone st
  | O, (s, c) :: rest =>
      if existsb is_opt l then
        match c with
        | COpt readings =>
            '(st, n) ← consume_optional p s readings rest st;
            consume p rest n st
        | _ =>
            '(st, n) ← consume_positionals l st;
            match n with
            | O => consume p rest 0 (add_extra s st)
            | S n => consume p rest n st
            end
        end
      else
        '(st, n) ← consume_positionals l st;
        PDone (PState (ps_namespace st) (ps_seen st) (ps_extras st ++ (drop n l).*1) (ps_positionals st))
  end.

(** [_actions], without the help action, whose default is suppressed. *)
Definition actions (p : parser) : list argument :=
  options p ++ match positional p with Some a => [a] | None => [] end.
Definition defaults (p : parser) : list (str * value) :=
  omap (λ a, match act a with Help => None | _ => Some (dest a, default_value a) end) (actions p).

Definition missing (p : parser) (st : pstate) : list str :=
  dest <$> List.filter (λ a, required a && negb (bool_decide (dest a ∈ ps_seen st))) (actions p).

Definition parse_known_args (p : parser) (argv : list str) : presult (list (str * value) * list str) :=
  st ← consume p (classify p argv) 0 (PState (defaults p) [] [] (positional p));
  match missing p st with
  | [] => PDone (ps_namespace st, ps_extras st)
  | ds => PError (ERequired ds)
  end.

Definition parse_args (p : parser) (argv : list str) : presult (list (str * value)) :=
  '(ns, xs) ← parse_known_args p argv;
  match xs with [] => PDone ns | _ => PError (EUnrecognized xs) end.
