(* ===== verification/ArgparseFacts.v ===== *)
(** * Correctness of argument parsing

    Every parsed namespace is well typed; a command line of complete options
    is read as exactly these options; what an option does to the namespace. *)
From S2P Require Import Prelude PyStr PyFloat PyPath Argparse.

(** ** Types *)

Definition of_type (t : argtype) (v : value) : Prop :=
  match t, v with
  | TStr, VStr _ | TPath, VPath _ | TFloat, VFloat _ | TInt, VInt _ => True
  | _, _ => False
  end.

(** The value is that of one of the declared choices, if there are any. *)
Definition chosen (a : argument) (v : value) : Prop :=
  ∀ cs, choices a = Some cs → ∃ s, s ∈ cs ∧ get_value a s = PDone v.

(** What an argument that was given stores. *)
Definition value_ok (a : argument) (v : value) : Prop :=
  match act a, arg_nargs a with
  | Store, NOne => of_type (arg_type a) v ∧ chosen a v
  | Store, _ => ∃ l, v = VList l ∧ Forall (of_type (arg_type a)) l
  | StoreTrue, _ => v = VBool true
  | Append, _ => ∃ l, v = VList l ∧ l ≠ [] ∧ Forall (of_type (arg_type a)) l
  | Help, _ => True
  end.

(** How an argument has to be declared. *)
Definition argument_ok (a : argument) : Prop :=
  match act a with
  | Store => True
  | StoreTrue | Help => arg_nargs a = NZero
  | Append => arg_nargs a = NOne ∧ ∀ l, default_value a = VList l → Forall (of_type (arg_type a)) l
  end.

Record parser_ok (p : parser) : Prop := {
  po_dests : NoDup (dest <$> actions p);
  po_args : Forall argument_ok (actions p);
  po_options : Forall (λ a, option_strings a ≠ []) (options p);
  po_positional a : positional p = Some a → act a = Store ∧ arg_nargs a = NStar ∧
    ∃ l, default_value a = VList l ∧ Forall (of_type (arg_type a)) l
}.

(** The arguments of an action are as many as it takes. *)
Definition shape (a : argument) (args : list str) : Prop :=
  match arg_nargs a with NOne => ∃ s, args = [s] | NZero => args = [] | NStar => True | NPlus => args ≠ [] end.

Lemma get_value_type a s v : get_value a s = PDone v → of_type (arg_type a) v.
Proof. unfold get_value. repeat case_match; intros; simplify_eq; done. Qed.

Lemma get_list_type a args vs : get_list a args = PDone vs → Forall (of_type (arg_type a)) vs.
Proof.
  revert vs. induction args as [|s args IH]; cbn [get_list]; intros vs; [by intros [= <-]|].
  intros (v & Hv & (? & _ & (ws & Hws & [= <-])%presult_bind_Done)%presult_bind_Done)%presult_bind_Done.
  constructor; [by eapply get_value_type|by apply IH].
Qed.

Lemma check_value_same a s v v' : check_value a s v = PDone v' → v' = v.
Proof. unfold check_value. repeat case_match; intros; by simplify_eq. Qed.

Lemma get_values_type a args v : shape a args → get_values a args = PDone v →
  match arg_nargs a with
  | NOne => of_type (arg_type a) v ∧ chosen a v
  | _ => (option_strings a = [] ∧ arg_nargs a = NStar ∧ v = default_value a) ∨
         ∃ l, v = VList l ∧ Forall (of_type (arg_type a)) l
  end.
Proof.
  intros Hs. unfold shape, get_values in *.
  assert (∀ l, (vs ← get_list a l; PDone (VList vs)) = PDone v → ∃ l, v = VList l ∧ Forall (of_type (arg_type a)) l) as HL.
  { intros l (vs & Hvs & [= <-])%presult_bind_Done. exists vs. split; [done|]. by eapply get_list_type. }
  destruct (arg_nargs a).
  - destruct Hs as [s ->].
    assert ((v ← get_value a s; check_value a s v) = PDone v → of_type (arg_type a) v ∧ chosen a v) as HV.
    { intros (v' & Hv & Hc)%presult_bind_Done. pose proof (check_value_same _ _ _ _ Hc) as ->.
      split; [by eapply get_value_type|]. intros cs E. unfold check_value in Hc. rewrite E in Hc.
      case_bool_decide; [by exists s|done]. }
    by destruct (option_strings a).
  - intros Hv. right. destruct (option_strings a), args; by eapply HL.
  - destruct (option_strings a) as [|o os] eqn:Ho, args as [|s args]; intros Hv; try (right; by eapply HL).
    injection Hv as <-. by left.
  - intros Hv. right. destruct (option_strings a), args; by eapply HL.
Qed.

Section Typed.
Context (p : parser) (Hp : parser_ok p).

(** Every attribute has its default, or, once the argument was seen, a value
    of its type. *)
Definition typed_state (st : pstate) : Prop :=
  (∀ a, a ∈ actions p → act a ≠ Help → ∃ v, dict_get (dest a) (ps_namespace st) = Some v ∧
     if decide (dest a ∈ ps_seen st) then value_ok a v else v = default_value a) ∧
  (ps_positionals st = None ∨ ps_positionals st = positional p).

Lemma dest_inj a a' : a ∈ actions p → a' ∈ actions p → dest a = dest a' → a = a'.
Proof.
  intros (i & Hi)%list_elem_of_lookup (j & Hj)%list_elem_of_lookup Hd.
  assert (i = j) as ->; [|congruence]. eapply (NoDup_lookup (dest <$> actions p)); [apply Hp|..].
  - by rewrite list_lookup_fmap, Hi.
  - by rewrite list_lookup_fmap, Hj, Hd.
Qed.

Lemma perform_ok a v ns ns' : argument_ok a →
  (act a = Store → value_ok a v) → (act a = Append → of_type (arg_type a) v) →
  (∀ w, dict_get (dest a) ns = Some w → act a = Append → ∀ l, w = VList l → Forall (of_type (arg_type a)) l) →
  perform a v ns = PDone ns' →
  (∃ w, dict_get (dest a) ns' = Some w ∧ value_ok a w) ∧ ∀ d, d ≠ dest a → dict_get d ns' = dict_get d ns.
Proof.
  intros Hok HS HA Hold. unfold perform.
  destruct (act a) eqn:E; intros Hn; simplify_eq; (split; [eexists; split; [apply dict_get_set_eq|]|
    intros d Hd; by apply dict_get_set_ne]); unfold value_ok in *; rewrite E in *; [by apply HS|done|].
  eexists. split; [done|]. split; [by destruct (match _ with Some _ => _ | _ => _ end)|].
  apply Forall_app. split; [|by constructor; [apply HA|constructor]].
  destruct (dict_get (dest a) ns) as [[]|] eqn:Hg; try by constructor. by eapply Hold.
Qed.

Lemma action_cases a : a ∈ actions p → a ∈ options p ∨ positional p = Some a.
Proof.
  unfold actions. intros [?|H]%elem_of_app; [by left|]. right. destruct (positional p); [|set_solver].
  by apply list_elem_of_singleton in H as ->.
Qed.

Lemma stored_ok a args v : a ∈ actions p → shape a args → get_values a args = PDone v →
  (act a = Store → value_ok a v) ∧ (act a = Append → of_type (arg_type a) v).
Proof.
  intros Ha Hs Hv. pose proof (po_args _ Hp) as Hok. rewrite Forall_forall in Hok. specialize (Hok a Ha).
  pose proof (get_values_type a args v Hs Hv) as Hty. split; intros E.
  - unfold value_ok. rewrite E. destruct (arg_nargs a) eqn:En; [done|destruct Hty as [(? & ? & ?)|?]; done| |
      destruct Hty as [(? & ? & ?)|?]; done]. destruct Hty as [(Ho & _ & ->)|?]; [|done].
    apply action_cases in Ha as [Ha|Ha]; [|by destruct (po_positional _ Hp a Ha) as (_ & _ & ?)].
    pose proof (po_options _ Hp) as Hopt. rewrite Forall_forall in Hopt. by destruct (Hopt a Ha).
  - unfold argument_ok in Hok. rewrite E in Hok. destruct Hok as [En _]. rewrite En in Hty. apply Hty.
Qed.

Lemma take_action_typed a args st st' : a ∈ actions p → shape a args → typed_state st →
  take_action st (a, args) = PDone st' → typed_state st'.
Proof.
  intros Ha Hs [Hns Hpos] (v & Hv & (ns & Hn & [= <-])%presult_bind_Done)%presult_bind_Done.
  split; [|done]. pose proof (po_args _ Hp) as Hok. rewrite Forall_forall in Hok.
  destruct (stored_ok a args v Ha Hs Hv) as [HS HA]. cbn [ps_namespace ps_seen].
  assert (act a ≠ Help) as Hh by (intros E; unfold perform in Hn; by rewrite E in Hn).
  destruct (perform_ok a v (ps_namespace st) ns) as [Hw Hne]; [by apply Hok|done..| |done|].
  { intros w Hg E l ->. destruct (Hns a Ha Hh) as (w' & Hw' & Hty). rewrite Hg in Hw'. injection Hw' as <-.
    specialize (Hok a Ha). unfold argument_ok in Hok. rewrite E in Hok. destruct Hok as [_ Hd].
    case_decide; [|by apply Hd]. unfold value_ok in Hty. rewrite E in Hty. by destruct Hty as (? & [= <-] & _ & ?). }
  intros b Hb Hbh. destruct (decide (dest b = dest a)) as [Hd|Hd].
  - apply dest_inj in Hd as ->; [|done..]. destruct Hw as (w & Hw & Hwok). exists w. split; [done|].
    by rewrite decide_True by set_solver.
  - rewrite Hne by done. destruct (Hns b Hb Hbh) as (w & Hw' & Hty). exists w. split; [done|].
    destruct (decide (dest b ∈ ps_seen st)); [rewrite decide_True by set_solver|rewrite decide_False by set_solver]; done.
Qed.

Lemma take_actions_typed l : ∀ st st', Forall (λ aa, aa.1 ∈ actions p ∧ shape aa.1 aa.2) l →
  typed_state st → take_actions st l = PDone st' → typed_state st'.
Proof.
  induction l as [|[a args] l IH]; intros st st' Hl Hst; cbn [take_actions]; [by intros [= <-]|].
  apply Forall_cons in Hl as [[Ha Hs] Hl].
  intros (st1 & H1 & H2)%presult_bind_Done. eapply IH; [done| |done]. by eapply take_action_typed.
Qed.

(** The readings of an argument are options of the parser. *)
Lemma elem_of_option_strings oa : oa ∈ option_string_actions p → oa.2 ∈ options p.
Proof.
  intros (l & Hl & Hoa)%list_elem_of_In%in_concat.
  apply list_elem_of_In, list_elem_of_fmap in Hl as (b & -> & Hb).
  by apply list_elem_of_In, list_elem_of_fmap in Hoa as (o & -> & _).
Qed.

Lemma option_lookup o a : dict_get o (option_string_actions p) = Some a → a ∈ options p.
Proof. by intros ?%dict_get_elem%elem_of_option_strings. Qed.

Lemma readings_options s : Forall (λ t, ot_arg t ∈ options p) (get_option_tuples p s).
Proof.
  apply Forall_forall. intros t. unfold get_option_tuples. destruct (partition_eq s) as [[o sep] e].
  destruct (startswith s "--"); intros (oa & Hoa & Ht)%list_elem_of_omap;
    repeat case_match; simplify_eq; by apply elem_of_option_strings.
Qed.

Definition class_ok (sc : str * cls) : Prop :=
  match sc.2 with COpt ts => Forall (λ t, ot_arg t ∈ options p) ts | _ => True end.

Lemma classify_ok argv : Forall class_ok (classify p argv).
Proof.
  induction argv as [|s argv IH]; cbn [classify]; [constructor|]. case_bool_decide.
  - constructor; [done|]. apply Forall_forall. by intros ? (? & -> & _)%list_elem_of_fmap.
  - constructor; [|done]. unfold class_ok. cbn [snd]. unfold parse_optional.
    destruct s as [|c t]; [done|]. destruct (negb _); [done|].
    destruct (dict_get (c :: t) _) as [a|] eqn:E; [by repeat constructor; eapply option_lookup|].
    case_bool_decide; [done|]. destruct (partition_eq (c :: t)) as [[o sep] e] eqn:Ep.
    assert (match get_option_tuples p (c :: t) with
      | [] => if negative_number (c :: t) then CArg else if contains (c :: t) " " then CArg else COpt []
      | readings => COpt readings end = COpt (get_option_tuples p (c :: t)) ∨ get_option_tuples p (c :: t) = []) as Hr.
    { destruct (get_option_tuples p (c :: t)); [by right|by left]. }
    pose proof (readings_options (c :: t)) as Hopt.
    destruct sep as [sep|], (dict_get o (option_string_actions p)) as [a|] eqn:Eo;
      try (repeat constructor; by eapply option_lookup).
    all: destruct Hr as [->| ->]; [done|]; destruct (negative_number _); [done|]; destruct (contains _ _); by constructor.
Qed.

Definition good (aa : argument * list str) : Prop := aa.1 ∈ actions p ∧ shape aa.1 aa.2.

Lemma options_actions a : a ∈ options p → a ∈ actions p.
Proof. intros. unfold actions. set_solver. Qed.

Lemma match_argument_shape a l n : match_argument a l = PDone n →
  shape a (take n l).*1 ∧ n ≤ length l.
Proof.
  assert (leading is_arg l ≤ length l) as Hle.
  { induction l as [|x l IH]; cbn; [lia|]. case_match; cbn; lia. }
  unfold match_argument, shape. destruct (arg_nargs a); destruct (leading is_arg l) as [|m] eqn:E; intros [= <-];
    destruct l as [|[s c] l]; cbn in *; try lia; try done; (split; [|lia]); try done; by eexists.
Qed.

Lemma explicit_argument_ok n : ∀ a os sep e acc acc' r, length e ≤ n → a ∈ options p → Forall good acc →
  explicit_argument p a os sep e acc = PDone (acc', r) →
  Forall good acc' ∧ match r with RFollowing a' => a' ∈ options p | _ => True end.
Proof.
  induction n as [n IH] using lt_wf_ind. intros a os sep e acc acc' r Hn Ha Hacc.
  assert (∀ e0, match_argument a [(e0, CArg)] = PDone 0 → good (a, [])) as H0.
  { intros e0 [Hs _]%match_argument_shape. split; [by apply options_actions|done]. }
  assert (∀ e0, match_argument a [(e0, CArg)] = PDone 1 → good (a, [e0])) as H1.
  { intros e0 [Hs _]%match_argument_shape. split; [by apply options_actions|done]. }
  specialize (H0 e). specialize (H1 e).
  destruct e as [|c rest]; cbn [explicit_argument];
    intros (k & Hk & H)%presult_bind_Done; destruct k as [|[|k]]; try done; simplify_eq.
  - split; [|done]. apply Forall_app. split; [done|]. by repeat constructor; apply H1.
  - destruct (startswith os "--"); [done|]. destruct (_ || _); [done|].
    assert (Forall good (acc ++ [(a, [])])) as Hacc'.
    { apply Forall_app. split; [done|]. by repeat constructor; apply H0. }
    destruct (dict_get [dash; c] _) as [a'|] eqn:E; [|by simplify_eq]. apply option_lookup in E.
    destruct rest as [|d rest']; [by simplify_eq|].
    destruct (d =? 61)%N; (eapply IH in H; [exact H|..|exact Hacc']); cbn in *; try done; try reflexivity; try lia.
  - split; [|done]. apply Forall_app. split; [done|]. by repeat constructor; apply H1.
Qed.

Lemma consume_optional_typed s ts rest st st' n : Forall (λ t, ot_arg t ∈ options p) ts → typed_state st →
  consume_optional p s ts rest st = PDone (st', n) → typed_state st'.
Proof.
  intros Hts Hst. unfold consume_optional. destruct ts as [|t [|]]; [by intros [= <- <-]| |done].
  apply Forall_cons in Hts as [Ht _]. intros ([acc r] & Hacc & H)%presult_bind_Done.
  assert (Forall good acc ∧ match r with RFollowing a' => a' ∈ options p | _ => True end) as [Hg Hr].
  { destruct (ot_explicit t) as [e|]; [|by simplify_eq].
    by eapply explicit_argument_ok in Hacc; [exact Hacc|reflexivity|..]. }
  destruct r as [|x|a].
  - apply presult_bind_Done in H as (st1 & H1 & [= <- <-]). by eapply take_actions_typed.
  - apply presult_bind_Done in H as (st1 & H1 & [= <- <-]). by eapply take_actions_typed, H1.
  - apply presult_bind_Done in H as (k & Hk & (st1 & H1 & [= <- <-])%presult_bind_Done).
    apply match_argument_shape in Hk as [Hs _]. eapply take_actions_typed; [|done|exact H1].
    apply Forall_app. split; [done|]. repeat constructor; [by apply options_actions|done].
Qed.

Lemma consume_positionals_typed l st st' n : typed_state st →
  consume_positionals l st = PDone (st', n) → typed_state st'.
Proof.
  intros Hst. unfold consume_positionals. destruct (ps_positionals st) as [a|] eqn:Ea; [|by intros [= <- <-]].
  intros (st1 & H1 & [= <- <-])%presult_bind_Done. assert (positional p = Some a) as Hpa.
  { destruct Hst as [_ [E|E]]; congruence. }
  eapply take_action_typed; [| | |exact H1].
  - unfold actions. rewrite Hpa. set_solver.
  - unfold shape. by destruct (po_positional _ Hp a Hpa) as (_ & -> & _).
  - destruct Hst as [Hns _]. split; [exact Hns|by left].
Qed.

Lemma consume_typed l : ∀ skip st st', Forall class_ok l → typed_state st →
  consume p l skip st = PDone st' → typed_state st'.
Proof.
  induction l as [|[s c] rest IH]; intros skip st st' Hl Hst; cbn [consume].
  { assert (('(st, _) ← consume_positionals [] st; PDone st) = PDone st' → typed_state st') as Hend.
    { intros ([st1 n] & H1 & [= <-])%presult_bind_Done. by eapply consume_positionals_typed. }
    by destruct skip. }
  apply Forall_cons in Hl as [Hc Hl]. destruct skip as [|skip]; [|by apply IH].
  destruct (existsb is_opt ((s, c) :: rest)).
  2: { intros ([st1 n] & H1 & [= <-])%presult_bind_Done. by eapply consume_positionals_typed in H1. }
  assert (('(st, n) ← consume_positionals ((s, c) :: rest) st;
    match n with O => consume p rest 0 (add_extra s st) | S n => consume p rest n st end) = PDone st' → typed_state st') as HP.
  { intros ([st1 n] & H1 & H2)%presult_bind_Done. apply consume_positionals_typed in H1; [|done].
    destruct n; eapply IH; [exact Hl| |exact H2|exact Hl| |exact H2]; done. }
  destruct c as [| |ts]; [exact HP|exact HP|]. intros ([st1 n] & H1 & H2)%presult_bind_Done.
  eapply IH; [done| |exact H2]. eapply consume_optional_typed; [exact Hc|exact Hst|exact H1].
Qed.

Lemma defaults_typed : typed_state (PState (defaults p) [] [] (positional p)).
Proof.
  split; [|by right]. cbn [ps_namespace ps_seen]. intros a Ha Hh. exists (default_value a).
  split; [|by rewrite decide_False by set_solver].
  assert (NoDup (dict_keys (defaults p))) as Hnd.
  { unfold dict_keys, defaults. pose proof (po_dests _ Hp) as Hd. revert Hd. clear.
    induction (actions p) as [|b l IHl]; [constructor|]. cbn [fmap list_fmap]. intros [Hb Hd]%NoDup_cons.
    cbn [omap list_omap]. specialize (IHl Hd).
    assert (dest b ∉ (omap (λ a, match act a with Help => None | _ => Some (dest a, default_value a) end) l).*1) as Hn.
    { intros (x & Hx & (b' & Hb' & Hx')%list_elem_of_omap)%list_elem_of_fmap. apply Hb. destruct (act b'); simplify_eq; cbn in Hx; rewrite Hx; by apply (list_elem_of_fmap_2 dest). }
    destruct (act b); cbn; [by constructor..|done]. }
  apply dict_elem_get; [done|]. unfold defaults. apply list_elem_of_omap. exists a. split; [done|]. by destruct (act a).
Qed.

Lemma parse_known_typed argv ns xs : parse_known_args p argv = PDone (ns, xs) →
  ∀ a, a ∈ actions p → act a ≠ Help → ∃ v, dict_get (dest a) ns = Some v ∧
    (value_ok a v ∨ (required a = false ∧ v = default_value a)).
Proof.
  intros (st & Hst & H)%presult_bind_Done a Ha Hh.
  apply consume_typed in Hst as [Hns _]; [|apply classify_ok|apply defaults_typed].
  destruct (missing p st) as [|d ds] eqn:Em; [|done]. injection H as <- <-.
  destruct (Hns a Ha Hh) as (v & Hv & Hty). exists v. split; [done|]. case_decide as Hseen; [by left|]. right.
  split; [|done]. destruct (required a) eqn:Er; [|done]. assert (dest a ∈ missing p st) as Hm; [|by rewrite Em in Hm; apply elem_of_nil in Hm].
  unfold missing. apply list_elem_of_fmap_2, list_elem_of_In, filter_In. split; [by apply list_elem_of_In|].
  rewrite Er. by rewrite bool_decide_eq_false_2 by done.
Qed.
End Typed.

(** ** Complete command lines *)

(** Text that cannot be taken for an option. *)
Definition plain_arg (s : str) : Prop := match s with c :: _ => c ≠ dash | [] => True end.

Lemma plain_arg_class p s : plain_arg s → parse_optional p s = CArg ∧ s ≠ "--".
Proof.
  destruct s as [|c t]; [done|]. cbn [plain_arg]. intros Hc. split; [|by intros [= -> _]].
  unfold parse_optional. by destruct (N.eqb_spec c dash).
Qed.

(** An option as it is written in full, with its values behind it. *)
Record item := Item { it_arg : argument; it_option : str; it_values : list str }.

Definition render (it : item) : list str := it_option it :: it_values it.

Record item_ok (p : parser) (it : item) : Prop := {
  io_lookup : dict_get (it_option it) (option_string_actions p) = Some (it_arg it);
  io_option : startswith (it_option it) "-" = true ∧ it_option it ≠ "--";
  io_values : Forall plain_arg (it_values it);
  io_shape : shape (it_arg it) (it_values it)
}.

Definition item_action (it : item) : argument * list str := (it_arg it, it_values it).

(** The values [pos] of the positional argument come first; without any it is
    set at the end. *)
Definition line_actions (p : parser) (pos : list str) (items : list item) : list (argument * list str) :=
  match positional p, pos with
  | None, _ => item_action <$> items
  | Some a, [] => (item_action <$> items) ++ [(a, [])]
  | Some a, _ => (a, pos) :: (item_action <$> items)
  end.

Section Items.
Context (p : parser).

Definition args_class (l : list str) : list (str * cls) := (λ s, (s, CArg)) <$> l.
Definition item_class (it : item) : list (str * cls) :=
  (it_option it, COpt [OptTuple (it_arg it) (it_option it) None None]) :: args_class (it_values it).

Lemma classify_plain l rest : Forall plain_arg l → classify p (l ++ rest) = args_class l ++ classify p rest.
Proof.
  induction 1 as [|s l Hs Hl IH]; cbn; [done|]. destruct (plain_arg_class p s Hs) as [-> Hd].
  by rewrite bool_decide_eq_false_2, IH by done.
Qed.

Lemma classify_item it rest : item_ok p it → classify p (render it ++ rest) = item_class it ++ classify p rest.
Proof.
  intros [Hl [Ho Hd] Hv _]. unfold render, item_class. cbn [app classify].
  rewrite bool_decide_eq_false_2, classify_plain by done. do 2 f_equal.
  apply startswith_spec in Ho as [t Ho]. cbn in Ho. rewrite Ho in *.
  unfold parse_optional. change (negb (45 =? dash)%N) with false. cbv iota. by rewrite Hl.
Qed.

Lemma classify_items items : Forall (item_ok p) items →
  classify p (concat (render <$> items)) = concat (item_class <$> items).
Proof.
  induction 1 as [|it items Hit _ IH]; cbn [fmap list_fmap concat]; [done|]. by rewrite classify_item, IH.
Qed.

Lemma items_head items : concat (item_class <$> items) = [] ∨
  ∃ sc rest, concat (item_class <$> items) = sc :: rest ∧ is_opt sc = true.
Proof. destruct items as [|it items]; [by left|]. right. eexists _, _. by split. Qed.

Lemma leading_args vs items : leading is_arg (args_class vs ++ concat (item_class <$> items)) = length vs.
Proof.
  induction vs as [|v vs IH]; cbn [args_class fmap list_fmap app leading length]; [|by cbn; f_equal].
  destruct (items_head items) as [->|(sc & rest & -> & Ho)]; [done|]. cbn. destruct sc as [s []]; done.
Qed.

Lemma match_item a vs items : shape a vs →
  match_argument a (args_class vs ++ concat (item_class <$> items)) = PDone (length vs).
Proof.
  intros Hs. unfold match_argument. rewrite leading_args. unfold shape in Hs. destruct (arg_nargs a).
  - by destruct Hs as [s ->].
  - by rewrite Hs.
  - by destruct (length vs).
  - by destruct vs.
Qed.

Lemma consume_skip l1 l2 st : consume p (l1 ++ l2) (length l1) st = consume p l2 0 st.
Proof. by induction l1 as [|x l1 IH]. Qed.

Lemma args_class_fst l : (args_class l).*1 = l.
Proof. unfold args_class. rewrite <-list_fmap_compose. by apply list_fmap_id. Qed.

Lemma bind_assoc_p {A B C} (r : presult A) (f : A → presult B) (g : B → presult C) :
  (r ≫= f) ≫= g = r ≫= λ a, f a ≫= g.
Proof. by destruct r. Qed.

Lemma take_actions_app l1 l2 st : take_actions st (l1 ++ l2) = take_actions st l1 ≫= λ st, take_actions st l2.
Proof.
  revert st. induction l1 as [|aa l1 IH]; intros st; cbn [app take_actions]; [done|].
  rewrite bind_assoc_p. unfold mbind, presult_bind. by destruct (take_action st aa).
Qed.

Lemma consume_optional_item it items st : item_ok p it →
  consume_optional p (it_option it) [OptTuple (it_arg it) (it_option it) None None]
    (args_class (it_values it) ++ concat (item_class <$> items)) st =
  take_action st (item_action it) ≫= λ st, PDone (st, length (it_values it)).
Proof.
  intros Hit. unfold consume_optional, mbind, presult_bind. cbn [ot_explicit ot_arg].
  rewrite match_item by apply Hit. cbn [app take_actions]. rewrite take_app_length' by (symmetry; apply length_fmap).
  rewrite args_class_fst. change (it_arg it, it_values it) with (item_action it).
  unfold mbind, presult_bind. by destruct (take_action st (item_action it)).
Qed.

Lemma consume_items items : ∀ st, Forall (item_ok p) items →
  consume p (concat (item_class <$> items)) 0 st =
  take_actions st (item_action <$> items) ≫= λ st, '(st, _) ← consume_positionals [] st; PDone st.
Proof.
  induction items as [|it items IH]; intros st Hok; [done|]. apply Forall_cons in Hok as [Hit Hok].
  change (concat (item_class <$> it :: items)) with (item_class it ++ concat (item_class <$> items)).
  unfold item_class at 1. cbn [app consume existsb is_opt snd orb].
  rewrite consume_optional_item by done. cbn [fmap list_fmap take_actions].
  unfold mbind, presult_bind. destruct (take_action st (item_action it)) as [st1| |]; [|done..].
  rewrite <-(length_fmap (λ s, (s, CArg)) (it_values it)), consume_skip. by apply IH.
Qed.

(** The rest of the state does not matter for actions. *)
Lemma take_action_positionals st aa :
  take_action (no_positionals st) aa = take_action st aa ≫= λ st, PDone (no_positionals st).
Proof.
  destruct aa as [a args]. unfold take_action, mbind, presult_bind. destruct (get_values a args); [|done..].
  cbn [ps_namespace no_positionals]. by destruct (perform a _ _).
Qed.

Lemma take_actions_positionals l : ∀ st,
  take_actions (no_positionals st) l = take_actions st l ≫= λ st, PDone (no_positionals st).
Proof.
  induction l as [|aa l IH]; intros st; cbn [take_actions]; [done|]. rewrite take_action_positionals.
  unfold mbind, presult_bind in *. destruct (take_action st aa); [|done..]. apply IH.
Qed.

Lemma take_action_keep st aa st' : take_action st aa = PDone st' → ps_positionals st' = ps_positionals st.
Proof.
  destruct aa as [a args]. by intros (v & _ & (ns & _ & [= <-])%presult_bind_Done)%presult_bind_Done.
Qed.

Lemma take_actions_keep l : ∀ st st', take_actions st l = PDone st' → ps_positionals st' = ps_positionals st.
Proof.
  induction l as [|aa l IH]; intros st st'; cbn [take_actions]; [by intros [= <-]|].
  intros (st1 & <-%take_action_keep & H2)%presult_bind_Done. by apply IH.
Qed.

Definition finish (st : pstate) : presult (list (str * value) * list str) :=
  match missing p st with
  | [] => PDone (ps_namespace st, ps_extras st)
  | ds => PError (ERequired ds)
  end.

Lemma positional_count_args pos items :
  positional_count (args_class pos ++ concat (item_class <$> items)) = length pos.
Proof.
  unfold positional_count. induction pos as [|s pos IH]; cbn [args_class fmap list_fmap app leading length];
    [|by cbn; f_equal]. destruct (items_head items) as [->|(sc & rest & -> & Ho)]; [done|]. cbn. by rewrite Ho.
Qed.

Lemma positional_args_class pos : positional_args (args_class pos) = pos.
Proof. unfold positional_args, args_class. induction pos as [|s pos IH]; cbn; [done|]. by f_equal. Qed.

(** Values in front are taken by the positional argument. *)
Lemma consume_first a s pos items st0 : ps_positionals st0 = Some a → Forall (item_ok p) items →
  consume p (args_class (s :: pos) ++ concat (item_class <$> items)) 0 st0 =
  take_action (no_positionals st0) (a, s :: pos) ≫= λ st,
    take_actions st (item_action <$> items) ≫= λ st, '(st, _) ← consume_positionals [] st; PDone st.
Proof.
  intros Ha Hit. set (X := concat (item_class <$> items)). set (l := args_class (s :: pos) ++ X).
  assert (consume_positionals l st0 =
    take_action (no_positionals st0) (a, s :: pos) ≫= λ st, PDone (st, S (length pos))) as Hl.
  { unfold consume_positionals, l, X. rewrite Ha, positional_count_args.
    rewrite take_app_length' by (symmetry; apply length_fmap). by rewrite positional_args_class. }
  change l with ((s, CArg) :: (args_class pos ++ X)). cbn [consume].
  change ((s, CArg) :: (args_class pos ++ X)) with l. rewrite Hl. unfold mbind, presult_bind.
  destruct (take_action (no_positionals st0) (a, s :: pos)) as [st| |] eqn:E; [|by destruct (existsb _ _)..].
  destruct (existsb is_opt l) eqn:Ho.
  - rewrite <-(length_fmap (λ s, (s, CArg)) pos), consume_skip. unfold X. by rewrite consume_items.
  - assert (items = []) as ->.
    { destruct items as [|it items]; [done|]. exfalso. apply not_true_iff_false in Ho. apply Ho.
      apply existsb_exists. exists (it_option it, COpt [OptTuple (it_arg it) (it_option it) None None]). split; [|reflexivity].
      apply in_or_app. right. by left. }
    cbn [fmap list_fmap take_actions]. unfold consume_positionals. apply take_action_keep in E. rewrite E.
    cbn [ps_positionals no_positionals]. f_equal. unfold l, X. cbn [fmap list_fmap concat]. rewrite app_nil_r.
    rewrite drop_ge by (unfold args_class; rewrite length_fmap; cbn; lia).
    destruct st; cbn in *; subst. by rewrite app_nil_r.
Qed.

(** A command line of positional values and complete options performs the
    actions of exactly these, in order. *)
Lemma parse_items pos items : Forall plain_arg pos → Forall (item_ok p) items → (positional p = None → pos = []) →
  parse_known_args p (pos ++ concat (render <$> items)) =
  take_actions (PState (defaults p) [] [] None) (line_actions p pos items) ≫= finish.
Proof.
  intros Hpos Hit Hnone. unfold parse_known_args. rewrite classify_plain, classify_items by done.
  set (st0 := PState (defaults p) [] [] (positional p)). change (PState (defaults p) [] [] None) with (no_positionals st0).
  change (λ st, match missing p st with [] => PDone (ps_namespace st, ps_extras st) | d :: ds => PError (ERequired (d :: ds)) end)
    with finish.
  unfold line_actions. destruct (positional p) as [a|] eqn:Hp.
  2: { rewrite (Hnone eq_refl). cbn [args_class fmap list_fmap app]. rewrite consume_items by done.
       rewrite take_actions_positionals. unfold mbind, presult_bind.
       destruct (take_actions st0 _) as [st| |] eqn:E; [|done..]. unfold consume_positionals.
       rewrite (take_actions_keep _ _ _ E). done. }
  destruct pos as [|s pos].
  { cbn [args_class fmap list_fmap app]. rewrite consume_items, take_actions_app, take_actions_positionals by done.
    unfold mbind, presult_bind. destruct (take_actions st0 _) as [st| |] eqn:E; [|done..].
    unfold consume_positionals. rewrite (take_actions_keep _ _ _ E). cbn [st0 ps_positionals].
    cbn [positional_count leading take positional_args List.filter fmap list_fmap take_actions].
    unfold mbind, presult_bind. by destruct (take_action _ (a, [])). }
  rewrite (consume_first a) by done. unfold mbind, presult_bind. cbn [take_actions]. unfold mbind, presult_bind.
  destruct (take_action _ _) as [st| |] eqn:E; [|done..]. apply take_action_keep in E.
  destruct (take_actions st _) as [st1| |] eqn:E1; [|done..].
  unfold consume_positionals. by rewrite (take_actions_keep _ _ _ E1), E.
Qed.
End Items.

(** ** What actions do to the namespace *)

(** An attribute after an action, as a function of the attribute before. *)
Definition update (a : argument) (v : value) (cur : option value) : option value :=
  match act a with
  | Store => Some v
  | StoreTrue => Some (VBool true)
  | Append => Some (VList (match cur with Some (VList l) => l | _ => [] end ++ [v]))
  | Help => cur
  end.

Definition updates (d : str) (avs : list (argument * value)) (cur : option value) : option value :=
  foldl (λ cur av, if decide (d = dest av.1) then update av.1 av.2 cur else cur) cur avs.

(** The values of the actions. *)
Definition valued (aa : argument * list str) (av : argument * value) : Prop :=
  av.1 = aa.1 ∧ get_values aa.1 aa.2 = PDone av.2 ∧ act aa.1 ≠ Help.

Lemma take_actions_valued l avs : Forall2 valued l avs → ∀ st, ∃ st',
  take_actions st l = PDone st' ∧ ps_extras st' = ps_extras st ∧
  (∀ d, dict_get d (ps_namespace st') = updates d avs (dict_get d (ps_namespace st))) ∧
  (∀ d, d ∈ ps_seen st' ↔ d ∈ (dest ∘ fst <$> avs) ∨ d ∈ ps_seen st).
Proof.
  induction 1 as [|[a args] [b v] l avs (Hb & Hv & Hh) _ IH]; intros st; cbn [fst snd] in *.
  { exists st. cbn. split_and!; [done..|]. set_solver. }
  subst b. cbn [take_actions take_action]. rewrite Hv. cbn [mbind presult_bind].
  assert (∃ ns, perform a v (ps_namespace st) = PDone ns ∧
    ∀ d, dict_get d ns = if decide (d = dest a) then update a v (dict_get d (ps_namespace st)) else dict_get d (ps_namespace st))
    as (ns & -> & Hns).
  { unfold perform, update. destruct (act a); [eexists; split; [done|]; intros d; rewrite dict_get_set; by case_decide; subst..|done]. }
  cbn [mbind presult_bind]. destruct (IH (PState ns (dest a :: ps_seen st) (ps_extras st) (ps_positionals st)))
    as (st' & -> & Hx & Hg & Hs).
  exists st'. split_and!; [done|done|..].
  - intros d. rewrite Hg. cbn [ps_namespace updates foldl fst snd]. by rewrite Hns.
  - intros d. rewrite Hs. cbn. set_solver.
Qed.

Lemma updates_app d avs1 avs2 cur : updates d (avs1 ++ avs2) cur = updates d avs2 (updates d avs1 cur).
Proof. apply foldl_app. Qed.

(** A repeated option that appends. *)
Lemma updates_append {A} a (f : A → value) l cur : act a = Append →
  updates (dest a) ((λ x, (a, f x)) <$> l) (Some (VList cur)) = Some (VList (cur ++ (f <$> l))).
Proof.
  intros Ha. revert cur. induction l as [|x l IH]; intros cur; cbn; [by rewrite app_nil_r|].
  rewrite decide_True by done. unfold update. rewrite Ha. unfold updates in IH. rewrite IH. by rewrite <-app_assoc.
Qed.

Lemma updates_append_None {A} a (f : A → value) x l : act a = Append →
  updates (dest a) ((λ x, (a, f x)) <$> (x :: l)) (Some VNone) = Some (VList (f <$> (x :: l))).
Proof.
  intros Ha. cbn [updates fmap list_fmap foldl fst snd]. rewrite decide_True by done. unfold update. rewrite Ha.
  exact (updates_append a f l [f x] Ha).
Qed.

Lemma updates_other {A} d a (f : A → value) l cur : d ≠ dest a → updates d ((λ x, (a, f x)) <$> l) cur = cur.
Proof. intros Hd. induction l as [|x l IH]; cbn; [done|]. by rewrite decide_False by done. Qed.

(** One action at a time. *)
Lemma updates_skip d a v l cur : d ≠ dest a → updates d ((a, v) :: l) cur = updates d l cur.
Proof. intros Hd. cbn. by rewrite decide_False by done. Qed.

Lemma updates_store d a v l cur : d = dest a → act a = Store → updates d ((a, v) :: l) cur = updates d l (Some v).
Proof. intros Hd Ha. cbn. rewrite decide_True by done. unfold update. by rewrite Ha. Qed.

Lemma updates_flag d a v l cur : d = dest a → act a = StoreTrue →
  updates d ((a, v) :: l) cur = updates d l (Some (VBool true)).
Proof. intros Hd Ha. cbn. rewrite decide_True by done. unfold update. by rewrite Ha. Qed.

(** Parsing a complete command line, by the attributes it sets. *)
Lemma parse_line p pos items avs : Forall plain_arg pos → Forall (item_ok p) items → (positional p = None → pos = []) →
  Forall2 valued (line_actions p pos items) avs →
  (∀ a, a ∈ actions p → required a = true → dest a ∈ (dest ∘ fst <$> avs)) →
  ∃ ns, parse_known_args p (pos ++ concat (render <$> items)) = PDone (ns, []) ∧
    ∀ d, dict_get d ns = updates d avs (dict_get d (defaults p)).
Proof.
  intros Hpos Hit Hnone Hv Hreq. rewrite parse_items by done.
  destruct (take_actions_valued _ _ Hv (PState (defaults p) [] [] None)) as (st & -> & Hx & Hg & Hs).
  exists (ps_namespace st). split; [|done]. cbn [mbind presult_bind]. unfold finish.
  assert (missing p st = []) as ->; [|by rewrite Hx].
  destruct (missing p st) as [|d ds] eqn:Em; [done|]. exfalso. assert (d ∈ missing p st) as Hd by (rewrite Em; set_solver).
  unfold missing in Hd. apply list_elem_of_fmap in Hd as (a & -> & [Ha Hf]%list_elem_of_In%filter_In).
  apply andb_true_iff in Hf as [Hr Hn]. apply negb_true_iff, bool_decide_eq_false in Hn. apply Hn, Hs. left.
  apply Hreq; [by apply list_elem_of_In|done].
Qed.

(** ** Arguments the parser does not know *)

Definition unread (sc : str * cls) : Prop := match sc.2 with COpt (_ :: _) => False | _ => True end.

Lemma consume_unread p l : ∀ st, ps_positionals st = None → Forall unread l →
  consume p l 0 st = PDone (PState (ps_namespace st) (ps_seen st) (ps_extras st ++ l.*1) None).
Proof.
  induction l as [|[s c] l IH]; intros st Hn Hl.
  { cbn. unfold consume_positionals. rewrite Hn. cbn. destruct st; cbn in *; subst. by rewrite app_nil_r. }
  apply Forall_cons in Hl as [Hc Hl]. cbn [consume].
  assert (consume p l 0 (add_extra s st) =
    PDone (PState (ps_namespace st) (ps_seen st) (ps_extras st ++ s :: l.*1) None)) as Hr.
  { rewrite IH by done. cbn. by rewrite <-app_assoc. }
  destruct (existsb is_opt ((s, c) :: l)).
  - destruct c as [| |[|t ts]]; [| |exact Hr|done].
    all: unfold consume_positionals; rewrite Hn; exact Hr.
  - unfold consume_positionals. rewrite Hn. cbn [mbind presult_bind drop]. by rewrite Hn.
Qed.

(** An option with one value, before anything. *)
Lemma consume_option p s t v l st : ot_explicit t = None → arg_nargs (ot_arg t) = NOne →
  consume p ((s, COpt [t]) :: (v, CArg) :: l) 0 st = take_action st (ot_arg t, [v]) ≫= consume p l 0.
Proof.
  intros He Hn. cbn [consume existsb is_opt snd orb].
  unfold consume_optional, mbind, presult_bind. rewrite He. unfold match_argument. rewrite Hn.
  cbn [leading is_arg snd]. cbn [take fmap list_fmap app take_actions fst]. rewrite take_0. cbn [fmap list_fmap].
  unfold mbind, presult_bind. by destruct (take_action st (ot_arg t, [v])).
Qed.
