(* ===== verification/FindProjectRoot.v ===== *)
(** * The project root

    [find_project_root.py]: the nearest directory, from the current one
    upwards, that has an entry [devkit]. *)
From S2P Require Import Prelude PyStr PyPath Fs.

Definition no_root_msg : str :=
  "Could not find project root. Make sure you are in a devkit project.".

(** [pwd] is the environment variable [PWD], which keeps symbolic links. *)
Definition find_project_root (fs : fsys) (pwd : option str) : res path :=
  let current_dir := match pwd with Some d => path_of_str d | None => Path true (fs_cwd fs) end in
  match List.find (λ p, fs_exists fs (path_child p "devkit")) (current_dir :: path_parents current_dir) with
  | Some p => Ok p
  | None => Raise FileNotFoundError
  end.

Definition main {S : Type} (fs : fsys) (pwd : option str) : io S () :=
  try_except
    (root ← lift_res (find_project_root fs pwd); emit (EvOut (path_str root)))
    (λ e, if is_FileNotFoundError e then
       Some (emit (EvErr ("Error: " ++ no_root_msg));; sys_exit 1)
     else None).

(** [d] has an entry [devkit]. *)
Definition is_project (fs : fsys) (d : path) : Prop := fs_exists fs (path_child d "devkit") = true.

Definition start_of (fs : fsys) (pwd : option str) : path :=
  match pwd with Some d => path_of_str d | None => Path true (fs_cwd fs) end.

(** The candidates are the directory and its ancestors, nearest first. *)
Lemma candidates_spec d q : q ∈ d :: path_parents d ↔ is_relative_to d q = true.
Proof.
  rewrite elem_of_cons, elem_of_path_parents, is_relative_to_spec. split.
  - intros [->|(k & Hk & ->)]; [done|]. split; [done|]. cbn. apply prefix_take.
  - intros [Ha [k Hk]]. destruct k as [|c k].
    + left. rewrite app_nil_r in Hk. destruct d, q; cbn in *; congruence.
    + right. exists (length (p_parts q)). split; [rewrite Hk, length_app; cbn; lia|].
      destruct q as [a ps]. cbn in *. subst a. by rewrite Hk, take_app_length.
Qed.

(** Nearest first: every candidate lies below the later ones. *)
Lemma candidates_sorted d : StronglySorted (λ p q, is_relative_to p q = true) (d :: path_parents d).
Proof.
  assert (∀ n, StronglySorted (λ p q, is_relative_to p q = true)
    ((λ k, Path (p_abs d) (take k (p_parts d))) <$> rev (seq 0 n))) as Hs.
  { induction n as [|n IH]; [constructor|]. rewrite seq_S, rev_unit, fmap_cons. constructor; [done|].
    apply Forall_forall. intros q (k & -> & Hk)%list_elem_of_fmap. apply is_relative_to_spec. split; [done|].
    apply list_elem_of_In, in_rev, in_seq in Hk. cbn. replace k with (k `min` n) by lia.
    rewrite <-take_take. apply prefix_take. }
  constructor; [apply Hs|]. apply Forall_forall. intros q Hq. apply candidates_spec. by right.
Qed.

Lemma find_sorted {A} (R : A → A → Prop) (f : A → bool) l p : (∀ x, R x x) → StronglySorted R l →
  List.find f l = Some p → ∀ q, q ∈ l → f q = true → R p q.
Proof.
  intros Hr. induction 1 as [|x l Hs IH Hx]; cbn; [done|]. destruct (f x) eqn:E.
  - intros [= <-] q [->|Hq]%elem_of_cons _; [done|]. by eapply (proj1 (Forall_forall _ _) Hx).
  - intros Hp q [->|Hq]%elem_of_cons Hf; [congruence|]. by apply IH.
Qed.

(** The nearest project directory. *)
Lemma find_project_root_spec fs pwd :
  match find_project_root fs pwd with
  | Ok root => is_relative_to (start_of fs pwd) root = true ∧ is_project fs root ∧
      ∀ q, is_relative_to (start_of fs pwd) q = true → is_project fs q → is_relative_to root q = true
  | Raise e => e = FileNotFoundError ∧
      ∀ q, is_relative_to (start_of fs pwd) q = true → ¬ is_project fs q
  end.
Proof.
  unfold find_project_root, is_project. fold (start_of fs pwd). set (d := start_of fs pwd).
  destruct (List.find _ _) as [root|] eqn:E.
  - pose proof (find_some _ _ E) as [Hin%list_elem_of_In Hf]. split; [by apply candidates_spec|]. split; [done|].
    intros q Hq Hp. eapply (find_sorted (λ p q, is_relative_to p q = true)); [apply is_relative_to_refl|apply candidates_sorted|exact E| |exact Hp].
    by apply candidates_spec.
  - split; [done|]. intros q Hq Hp. apply candidates_spec, list_elem_of_In in Hq.
    pose proof (find_none _ _ E q Hq) as Hn. cbv beta in Hn. rewrite Hp in Hn. done.
Qed.

(** C35: [find_project_root] returns the start directory or one of its
    ancestors, with an entry [devkit], and the nearest such: every other one
    is an ancestor of it.  It raises [FileNotFoundError] exactly when there is
    none. *)
Theorem find_project_root_correct fs pwd :
  match find_project_root fs pwd with
  | Ok root => is_relative_to (start_of fs pwd) root = true ∧ is_project fs root ∧
      ∀ q, is_relative_to (start_of fs pwd) q = true → is_project fs q → is_relative_to root q = true
  | Raise e => e = FileNotFoundError ∧
      ∀ q, is_relative_to (start_of fs pwd) q = true → ¬ is_project fs q
  end.
Proof. apply find_project_root_spec. Qed.
