(* ===== verification/DockerRun.v ===== *)
(** * Running a container

    [docker_run.py]: the script prepares the directories of the user's home
    that the container shares, finds out what has to be mounted, puts the
    [docker run] command together, starts the event listener and the
    background clean-up, runs the container and exits with its status. *)
From S2P Require Import Prelude PyStr Json Sha256 PyPath Fs FsWrite Shlex Mounts Proc DockerBuild Cleanup FindProjectRoot.

(** What the script reads of the process it runs in: the environment (in its
    order), the user and group databases, the terminal, limits and names. *)
Record process := Process {
  environ : list (str * str);
  home : path;
  getuid : Z; getgid : Z;
  getpwuid : Z → option str;
  getgrgid : Z → option str;
  getgrnam : str → option Z;
  stdin_isatty : bool; stdout_isatty : bool;
  nofile_soft : Z; nofile_hard : Z;
  hostname : str;
  event_port : Z;
  scripts_dir : path
}.

(** Whether the user interrupts the container. *)
Class Interrupts (X : Type) := interrupted : X → bool.

(** The order in which a set of paths iterates. *)
Class PathSetOrder := {
  path_iter : gset path → list path;
  path_iter_perm : ∀ s, path_iter s ≡ₚ elements s
}.

Section Environment.
Context (pr : process).

(** [os.environ.get(name)], and whether it is set and not empty. *)
Definition getenv (name : str) : option str := dict_get name (environ pr).
Definition getenv_or (name : str) : option str :=
  match getenv name with Some (_ :: _ as v) => Some v | _ => None end.

Definition path_from_env (env_var : str) (default : path) : path :=
  match getenv_or env_var with Some val => path_of_str val | None => default end.

(** ** Paths *)

Record run_paths := RunPaths {
  host_project_root : path; container_project_root : path; command_project_root : path;
  host_home : path; command_home : path; container_home : path;
  host_tmp_dir : path; container_tmp_dir : path
}.

Definition resolve_paths {S : Type} (fs : fsys) : io S run_paths :=
  host_project_root ←
    try_except
      (root ← lift_res (find_project_root fs (getenv "PWD"));
       let r := path_from_env "DEVKIT_HOST_PROJECT_ROOT" root in
       log INFO ("Host project root: " ++ path_str r);; mret r)
      (λ e, if is_FileNotFoundError e then Some (emit (EvErr ("Error: " ++ no_root_msg));; sys_exit 1) else None);
  let container_project_root := path_from_env "DEVKIT_CONTAINER_PROJECT_ROOT" host_project_root in
  let command_project_root := path_from_env "DEVKIT_COMMAND_PROJECT_ROOT" host_project_root in
  log INFO ("Container project root: " ++ path_str container_project_root);;
  log INFO ("Command project root: " ++ path_str command_project_root);;
  let host_home := path_from_env "DEVKIT_HOST_HOME" (home pr) in
  let command_home := path_from_env "DEVKIT_COMMAND_HOME" host_home in
  let container_home := path_from_env "DEVKIT_CONTAINER_HOME" host_home in
  let tmpdir := path_of_str (default "/tmp" (getenv "TMPDIR")) in
  let host_tmp_dir := path_from_env "DEVKIT_HOST_TMP_DIR" tmpdir in
  let container_tmp_dir := path_from_env "DEVKIT_CONTAINER_TMP_DIR" host_tmp_dir in
  mret (RunPaths host_project_root container_project_root command_project_root
          host_home command_home container_home host_tmp_dir container_tmp_dir).

(** ** User and groups *)

Record run_user := RunUser { user_name : str; user_id : Z; group_name : str; group_id : Z }.

Definition key_error {A} (o : option A) : res A :=
  match o with Some a => Ok a | None => Raise (KeyError "") end.

Definition id_from_env (name : str) (id : Z) : res Z :=
  match getenv_or name with Some v => py_int v | None => Ok id end.

Definition find_user : res run_user :=
  user_name ← match getenv_or "USER" with Some v => Ok v | None => key_error (getpwuid pr (getuid pr)) end;
  user_id ← id_from_env "USER_ID" (getuid pr);
  group_name ← match getenv_or "GROUP" with Some v => Ok v | None => key_error (getgrgid pr (getgid pr)) end;
  group_id ← id_from_env "GROUP_ID" (getgid pr);
  Ok (RunUser user_name user_id group_name group_id).

(** The group's id, or 0 when there is no such group. *)
Definition group_gid {S : Type} (name : str) : io S Z :=
  match getgrnam pr name with
  | Some gid => mret gid
  | None => log INFO ("Group " ++ name ++ " not found, defaulting GID to 0");; mret 0%Z
  end.

(** ** Mounts *)

Definition home_files : list str := [".gitconfig"].

Definition home_dirs : list str :=
  [".cache/bazel"; ".cache/bazelisk"; ".cache/buf"; ".cache/go-build"; ".cache/nvim"; ".cache/pip";
   ".cache/pip-tools"; ".cache/pre-commit"; ".cache/pylint"; ".config/gcloud"; ".config/google-chrome";
   ".config/matplotlib"; ".devkit/logs"; ".docker"; ".gemini"; ".local/pre-commit"; ".local/share/nvim";
   ".local/state"; ".npm"; ".vim"].

Definition docker_sock : path := path_of_str "/var/run/docker.sock".
Definition system_bus_socket : path := path_of_str "/run/dbus/system_bus_socket".
Definition etc_gitconfig : path := path_of_str "/etc/gitconfig".
Definition session_bus_socket (user_id : Z) : path :=
  path_child (path_child (path_of_str "/run/user") (str_of_Z user_id)) "bus".

(** [d.mkdir(parents=True, exist_ok=True)] and [f.touch(exist_ok=True)] on the
    file system of the state. *)
Definition do_fs (f : fsys → res fsys) : io fsys () := fs ← get; fs' ← lift_res (f fs); put fs'.

Definition make_home_dir (command_home : path) (mounts : list path) (rel_path : str) : io fsys (list path) :=
  let dir_path := path_child command_home rel_path in
  do_fs (λ fs, fs_mkdir fs dir_path);;
  mret (mounts ++ [dir_path]).

Definition make_home_file (command_home : path) (mounts : list path) (rel_path : str) : io fsys (list path) :=
  let file_path := path_child command_home rel_path in
  do_fs (λ fs, fs_mkdir fs (path_parent file_path));;
  do_fs (λ fs, fs_touch fs file_path);;
  mret (mounts ++ [file_path]).

(** The mounts from the beginning up to the files of the home directory. *)
Definition home_mounts (ps : run_paths) (u : run_user) : io fsys (list path) :=
  fs ← get;
  let mounts := [docker_sock; system_bus_socket] ++
    (if fs_exists fs etc_gitconfig then [etc_gitconfig] else []) ++ [session_bus_socket (user_id u)] in
  mounts ← fold_io (make_home_dir (command_home ps)) mounts home_dirs;
  fold_io (make_home_file (command_home ps)) mounts home_files.
End Environment.

Section Run.
Context `{JsonRepr} `{HexDigest} `{PySetOrder} `{PathSetOrder} `{RecursionLimit} `{Host X} `{Popen X} `{Interrupts X}.
Context (pr : process).

(** A git directory outside the current one is mounted as well. *)
Definition git_mounts (mounts : list path) : io (fsys * X) (list path * list str) :=
  try_except
    (git_check ← on_snd (subprocess_run false ["git"; "rev-parse"; "--is-inside-work-tree"]);
     if (returncode git_check =? 0)%Z && bool_decide (strip (stdout git_check) = "true") then
       out ← on_snd (subprocess_run true ["git"; "rev-parse"; "--absolute-git-dir"]);
       let git_dir := path_of_str (strip (stdout out)) in
       '(fs, _) ← get;
       if is_relative_to git_dir (Path true (fs_cwd fs)) then mret (mounts, [])
       else
         log INFO ("Adding out-of-tree git directory to mounts: " ++ path_str git_dir);;
         mret (mounts ++ [git_dir], ["--env=GIT_DISCOVERY_ACROSS_FILESYSTEM=1" : str])
     else mret (mounts, []))
    (λ e, if is_CalledProcessError e || is_FileNotFoundError e then
       Some (log INFO ("Git discovery failed or not in a git repo: " ++ exn_text e);; mret (mounts, []))
     else None).

Definition context_env : list str :=
  (λ key, "--env=" ++ key) <$> List.filter (λ key, startswith key "CLOUDSDK_CONTEXT_") (dict_keys (environ pr)).

(** What is known before the mounts are minimised. *)
Record setup := Setup {
  s_paths : run_paths; s_user : run_user; s_mounts : list path; s_env : list str; s_docker_gid : Z
}.

Definition prepare : io (fsys * X) setup :=
  '(fs, _) ← get;
  ps ← resolve_paths pr fs;
  u ← lift_res (find_user pr);
  mounts ← on_fst (home_mounts ps u);
  '(mounts, git_env) ← git_mounts mounts;
  docker_group_id ← group_gid pr "docker";
  nobody_group_id ← group_gid pr "nobody";
  mret (Setup ps u mounts
    (git_env ++ context_env ++
     (if (0 <? nobody_group_id)%Z then ["--env=NOBODY_GROUP_ID=" ++ str_of_Z nobody_group_id] else []))
    docker_group_id).

(** ** Arguments of [docker run] *)

Definition tty_args : list str :=
  if stdin_isatty pr && stdout_isatty pr then ["--interactive"; "--tty"]
  else if negb (stdin_isatty pr) then ["--interactive"] else [].

(** [j.get(k, default)]. *)
Definition json_get (j : json) (k : str) (default : json) : res json :=
  match j with
  | JDict d => Ok (match dict_get k d with Some v => v | None => default end)
  | _ => Raise AttributeError
  end.

(** What [list.extend(j)] adds. *)
Definition json_iter (j : json) : res (list json) :=
  match j with
  | JList l => Ok l
  | JDict d => Ok (JStr <$> dict_keys d)
  | JStr s => Ok ((λ c, JStr [c]) <$> s)
  | _ => Raise TypeError
  end.

Definition config_args {S : Type} (fs : fsys) (devkit_json_path : path) : io S (list json) :=
  try_except
    (if fs_exists fs devkit_json_path then
       run_args ← lift_res (bytes ← fs_read fs devkit_json_path;
                            data ← json_load bytes;
                            docker ← json_get data "docker" (JDict []);
                            json_get docker "run" (JList []));
       if truthy run_args then
         log INFO ("Loaded docker run args from devkit.json: " ++ py_str run_args);;
         lift_res (json_iter run_args)
       else mret []
     else mret [])
    (λ e, if is_Exception e then Some (log WARNING ("Failed to parse devkit.json: " ++ exn_text e);; mret []) else None).

Definition environment_args {S : Type} : io S (list str) :=
  match getenv_or pr "DEVKIT_DOCKER_RUN_ARGS" with
  | Some v =>
      env_args ← lift_res (shlex_split v);
      log INFO ("Adding args from DEVKIT_DOCKER_RUN_ARGS: " ++ py_str (JList (JStr <$> env_args)));;
      mret env_args
  | None => mret []
  end.

(** [[os.path.expandvars(arg) for arg in args]]: an argument that is not a
    string is refused. *)
Fixpoint expand_args (args : list json) : res (list str) :=
  match args with
  | [] => Ok []
  | JStr s :: args => l ← expand_args args; Ok (expandvars (environ pr) s :: l)
  | _ :: _ => Raise TypeError
  end.

(** The option that mounts [path]; paths in the home directory are mounted
    into the container's home directory. *)
Definition volume (ps : run_paths) (path : path) : str :=
  let '(host_path, container_path) :=
    match relative_to path (command_home ps) with
    | Ok suffix => (path_join (host_home ps) suffix, path_join (container_home ps) suffix)
    | Raise _ => (path, path)
    end in
  "--volume=" ++ path_str host_path ++ ":" ++ path_str container_path.

Definition docker_cmd (cwd : path) (s : setup) (docker_mounts evaluated_args unknown_args : list str) : list str :=
  let ps := s_paths s in
  let u := s_user s in
  ["docker"; "run"; "--rm"; "--ulimit";
   "nofile=" ++ str_of_Z (nofile_soft pr) ++ ":" ++ str_of_Z (nofile_hard pr);
   "--volume=" ++ path_str (host_project_root ps) ++ ":" ++ path_str (container_project_root ps);
   "--workdir=" ++ path_str cwd;
   "--env=HOME=" ++ path_str (container_home ps);
   "--env=DEVKIT_SOCKET_PORT=" ++ str_of_Z (event_port pr);
   "--env=GOOGLE_CLOUD_PROJECT"; "--env=GEMINI_API_KEY"; "--env=AWS_SECRET_ACCESS_KEY"; "--env=AWS_ACCESS_KEY_ID";
   "--env=AWS_SESSION_TOKEN"; "--env=AWS_PAGER"; "--env=GH_TOKEN";
   "--env=CLOUDSDK_CONTAINER_USE_APPLICATION_DEFAULT_CREDENTIALS";
   "--env=USER=" ++ user_name u; "--env=USER_ID=" ++ str_of_Z (user_id u);
   "--env=GROUP=" ++ group_name u; "--env=GROUP_ID=" ++ str_of_Z (group_id u);
   "--env=TMPDIR=" ++ path_str (container_tmp_dir ps);
   "--env=TERM=xterm-256color"; "--env=COLORTERM";
   "--env=DOCKER_GROUP=docker"; "--env=DOCKER_GROUP_ID=" ++ str_of_Z (s_docker_gid s);
   "--env=NOBODY_GROUP=nobody";
   "--env=DBUS_SYSTEM_BUS_ADDRESS=unix:path=" ++ path_str system_bus_socket;
   "--env=DBUS_SESSION_BUS_ADDRESS=unix:path=" ++ path_str (session_bus_socket (user_id u));
   "--env=DEVKIT_NOFILE_SOFT=" ++ str_of_Z (nofile_soft pr);
   "--env=DEVKIT_NOFILE_HARD=" ++ str_of_Z (nofile_hard pr);
   "--env=ADDITIONAL_PATH="] ++
  s_env s ++ docker_mounts ++
  ["--net=host"; "--ipc=host"; "--hostname=" ++ hostname pr;
   "--volume=" ++ path_str (host_tmp_dir ps) ++ ":" ++ path_str (container_tmp_dir ps);
   "--entrypoint=" ++ path_str (path_child (scripts_dir pr) "entrypoint_docker")] ++
  evaluated_args ++ unknown_args.

Definition handler_thread_name : str := "ContainerEventHandler-" ++ str_of_Z (event_port pr).

(** From the minimal mounts to the command; the event listener is started on
    the way, as its port is part of the command. *)
Definition compose (s : setup) (minimal_mounts : gset path) (unknown_args : list str) : io (fsys * X) (list str) :=
  log INFO ("Resolved " ++ str_of_Z (Z.of_nat (size minimal_mounts)) ++ " minimal mounts out of " ++
            str_of_Z (Z.of_nat (length (s_mounts s))) ++ " requested");;
  '(fs, _) ← get;
  run_args ← config_args fs (path_child (command_project_root (s_paths s)) "devkit.json");
  env_args ← environment_args;
  evaluated_args ← lift_res (expand_args ((JStr <$> tty_args) ++ run_args ++ (JStr <$> env_args)));
  emit (EvStart handler_thread_name);;
  log INFO ("Container file descriptor limits: soft=" ++ str_of_Z (nofile_soft pr) ++ ", hard=" ++
            str_of_Z (nofile_hard pr));;
  let cmd := docker_cmd (Path true (fs_cwd fs)) s (volume (s_paths s) <$> path_iter minimal_mounts)
               evaluated_args unknown_args in
  log INFO (shlex_join cmd);;
  mret cmd.

(** ** The container *)

Definition run_interruptible (cmd : list str) : io X run_result := λ x,
  if interrupted x then ([EvRun cmd], (exec cmd x).2, Raise KeyboardInterrupt) else subprocess_run false cmd x.

(** [128 + signal.SIGINT]. *)
Definition exit_code_sigint : Z := 130.

Definition run_container (cmd : list str) : io (fsys * X) () :=
  return_code ←
    finally
      (try_except
         (result ← on_snd (run_interruptible cmd); mret (returncode result))
         (λ e, match e with KeyboardInterrupt => Some (mret exit_code_sigint) | _ => None end))
      (emit (EvCancel cleanup_thread_name);; emit (EvCancel handler_thread_name);;
       emit (EvJoin cleanup_thread_name);; emit (EvJoin handler_thread_name));
  sys_exit return_code.

Definition needs_display (cmd : list str) : bool := existsb (λ arg, contains arg "DISPLAY") cmd.
Definition xhost_cmd (user_name : str) : list str := ["xhost"; "+local:" ++ user_name].

Definition launch (s : setup) (cmd : list str) : io (fsys * X) () :=
  '(fs, _) ← get;
  _ ← start_background_cleanup (X:=X) fs (path_child (command_project_root (s_paths s)) "devkit.json")
        [path_child (path_parent (scripts_dir pr)) "images"];
  (if needs_display cmd then _ ← on_snd (subprocess_run true (xhost_cmd (user_name (s_user s)))); mret ()
   else mret ());;
  run_container cmd.

Definition main (fuel : nat) (unknown_args : list str) : io (fsys * X) () :=
  s ← prepare;
  '(fs, _) ← get;
  minimal_mounts ← lift_res (get_minimal_mounts fs fuel (command_project_root (s_paths s)) (s_mounts s));
  cmd ← compose s minimal_mounts unknown_args;
  launch s cmd.
End Run.
