(* ===== verification/DockerRunFacts.v ===== *)
(** * Correctness of running a container *)
From S2P Require Import Prelude PyStr Json Sha256 PyPath Fs FsWrite Shlex Mounts Proc DockerBuild BuilderInit Cleanup FindProjectRoot DockerRun.

(** ** The home directory *)

Lemma wp_do_fs f (fs : fsys) (Q : () → fsys → Prop) (E : exn → fsys → Prop) :
  (∀ fs', f fs = Ok fs' → Q () fs') → (∀ e, E e fs) → wp (do_fs f) Q E fs.
Proof. intros HQ HE. unfold do_fs. do 4 wp_step. destruct (f fs) as [fs'|e]; wp_run; [by apply HQ|apply HE]. Qed.

Lemma wp_home_dirs ch rels : ∀ mounts (fs : fsys) (Q : list path → fsys → Prop) (E : exn → fsys → Prop),
  (∀ e fs', E e fs') →
  (∀ fs', fs_grows fs fs' → Forall (λ r, fs_is_dir fs' (path_child ch r) = true) rels →
     Q (mounts ++ (path_child ch <$> rels)) fs') →
  wp (fold_io (make_home_dir ch) mounts rels) Q E fs.
Proof.
  induction rels as [|r rels IH]; intros mounts fs Q E HE HQ; cbn [fold_io].
  { wp_run. rewrite <-(app_nil_r mounts). by apply HQ; auto with py. }
  apply wp_bind. unfold make_home_dir at 1. apply wp_bind, wp_do_fs; [|done]. intros fs1 [Hg Hd]%fs_mkdir_ok.
  wp_run. apply IH; [done|]. intros fs2 Hg2 Hall. rewrite <-app_assoc. apply HQ; [by eapply fs_grows_trans|].
  constructor; [by eapply fs_is_dir_grows|done].
Qed.

Lemma wp_home_files ch rels : ∀ mounts (fs : fsys) (Q : list path → fsys → Prop) (E : exn → fsys → Prop),
  fsys_wf fs → (∀ e fs', E e fs') →
  (∀ fs', fs_grows fs fs' → Forall (λ r, fs_exists fs' (path_child ch r) = true) rels →
     Q (mounts ++ (path_child ch <$> rels)) fs') →
  wp (fold_io (make_home_file ch) mounts rels) Q E fs.
Proof.
  induction rels as [|r rels IH]; intros mounts fs Q E Hwf HE HQ; cbn [fold_io].
  { wp_run. rewrite <-(app_nil_r mounts). by apply HQ; auto with py. }
  apply wp_bind. unfold make_home_file at 1. apply wp_bind, wp_do_fs; [|done]. intros fs1 [Hg1 _]%fs_mkdir_ok.
  apply wp_bind, wp_do_fs; [|done]. intros fs2 [Hg2 Hx]%fs_touch_ok; [|by eapply fs_grows_wf].
  assert (fs_grows fs fs2) as Hg by by eapply fs_grows_trans.
  wp_run. apply IH; [by eapply fs_grows_wf|done|]. intros fs3 Hg3 Hall. rewrite <-app_assoc.
  apply HQ; [by eapply fs_grows_trans|]. constructor; [by eapply fs_exists_grows|done].
Qed.

(** What [home_mounts] leaves behind, in the list and on disk. *)
Definition home_ready (ps : run_paths) (fs : fsys) (mounts : list path) : Prop :=
  (∀ r, r ∈ home_dirs → path_child (command_home ps) r ∈ mounts ∧ fs_is_dir fs (path_child (command_home ps) r) = true) ∧
  (∀ r, r ∈ home_files → path_child (command_home ps) r ∈ mounts ∧ fs_exists fs (path_child (command_home ps) r) = true).

Lemma wp_home_mounts ps u (fs : fsys) (Q : list path → fsys → Prop) (E : exn → fsys → Prop) :
  fsys_wf fs → (∀ e fs', E e fs') →
  (∀ fs' mounts, fs_grows fs fs' → home_ready ps fs' mounts → Q mounts fs') →
  wp (home_mounts ps u) Q E fs.
Proof.
  intros Hwf HE HQ. unfold home_mounts. do 2 wp_step. apply wp_bind, wp_home_dirs; [done|].
  intros fs1 Hg1 H1. apply wp_home_files; [by eapply fs_grows_wf|done|]. intros fs2 Hg2 H2.
  apply HQ; [by eapply fs_grows_trans|]. split; intros r Hr.
  - split; [apply elem_of_app; left; apply elem_of_app; right; apply list_elem_of_fmap; eauto|].
    eapply fs_is_dir_grows; [done|]. by apply (proj1 (Forall_forall _ _) H1).
  - split; [apply elem_of_app; right; apply list_elem_of_fmap; eauto|]. by apply (proj1 (Forall_forall _ _) H2).
Qed.

Section Run.
Context `{JsonRepr} `{HexDigest} `{PySetOrder} `{PathSetOrder} `{RecursionLimit} `{Host X} `{Popen X} `{Interrupts X}.
Context (pr : process).
Implicit Types (fs : fsys) (x : X).

Lemma wp_git_mounts mounts fs x (Q : list path * list str → fsys * X → Prop) (E : exn → fsys * X → Prop) :
  (∀ ms env x', mounts ⊆ ms → Q (ms, env) (fs, x')) → wp (git_mounts mounts) Q E (fs, x).
Proof.
  intros HQ. unfold git_mounts. apply wp_try. apply wp_bind, wp_on_snd, wp_subprocess; [|done|].
  - intros r x' _ _. destruct (_ && _); [|wp_run; by apply HQ].
    apply wp_bind, wp_on_snd, wp_subprocess; cbn [fst snd].
    + intros r2 x2 _ _. do 2 wp_step. destruct (is_relative_to _ _); wp_run; apply HQ; set_solver.
    + intros r2 x2 _ _ _. cbn. wp_run. by apply HQ.
    + intros x2 _. cbn. wp_run. by apply HQ.
  - intros x' _. cbn. wp_run. by apply HQ.
Qed.

Lemma prepare_spec fs x : fsys_wf fs →
  wp (prepare pr) (λ s '(fs1, _), fs_grows fs fs1 ∧ home_ready (s_paths s) fs1 (s_mounts s)) (λ _ _, True) (fs, x).
Proof.
  intros Hwf. unfold prepare. do 2 wp_step. apply wp_bind.
  apply (wp_mono _ (λ _ st, st = (fs, x)) _ (λ _ _, True) _); [| |done].
  { unfold resolve_paths. apply wp_bind, wp_try. do 2 wp_step.
    destruct (find_project_root _ _) as [root|e]; [by wp_run|]. destruct (is_FileNotFoundError e); by wp_run. }
  intros ps st ->. do 2 wp_step. destruct (find_user pr) as [u|]; [|done].
  apply wp_bind, wp_on_fst, wp_home_mounts; [done..|]. intros fs1 mounts Hg [Hd Hf]. cbn [fst snd].
  apply wp_bind, wp_git_mounts. intros ms env x' Hsub. unfold group_gid.
  assert (fs_grows fs fs1 ∧ home_ready ps fs1 ms) as Hdone by (split; [done|]; unfold home_ready; naive_solver).
  destruct (getgrnam pr "docker"); wp_run; destruct (getgrnam pr "nobody"); by wp_run.
Qed.

(** ** Mounts *)

Lemma minimal_mounts_cover fs fuel root mounts R p :
  get_minimal_mounts fs fuel root mounts = Ok R → p ∈ mounts → ∃ q, q ∈ R ∧ is_relative_to p q = true.
Proof.
  unfold get_minimal_mounts. rewrite res_bind_Ok. intros (L & _ & HR) Hp. apply res_bind_Ok in HR as (l & _ & HR).
  apply res_bind_Ok in HR as (E & HE & [= <-]). apply minimize_covers.
  assert (p ∈ E) by (case_match; [apply res_bind_Ok in HE as (? & _ & [= <-])|injection HE as <-]; set_solver).
  set_solver.
Qed.

(** The mount above or below a directory of the home directory, as an option. *)
Lemma volume_covers ps rel q : p_abs (path_of_str rel) = false →
  is_relative_to (path_child (command_home ps) rel) q = true →
  (∃ sub, is_relative_to (path_of_str rel) sub = true ∧
     volume ps q = "--volume=" ++ path_str (path_join (host_home ps) sub) ++ ":" ++
                   path_str (path_join (container_home ps) sub)) ∨
  (is_relative_to (command_home ps) q = true ∧ q ≠ command_home ps ∧
     volume ps q = "--volume=" ++ path_str q ++ ":" ++ path_str q).
Proof.
  intros Hrel Hq. unfold volume, relative_to. destruct (is_relative_to q (command_home ps)) eqn:Hqh.
  - left. eexists. split; [|done].
    apply is_relative_to_spec in Hqh as [Ha [k Hk]]. apply is_relative_to_spec in Hq as [_ Hp].
    unfold path_child, path_join in Hp. rewrite Hrel in Hp. cbn [p_parts] in Hp. rewrite Hk in Hp.
    apply prefix_app_inv in Hp. apply is_relative_to_spec. cbn. rewrite Hk, drop_app_length. by split.
  - right. assert (is_relative_to (command_home ps) q = true) as Hhq.
    { apply is_relative_to_spec in Hq as [Ha Hp]. unfold path_child, path_join in Ha, Hp. rewrite Hrel in Ha, Hp.
      cbn in Ha, Hp. apply is_relative_to_spec. split; [done|].
      destruct (prefix_weak_total _ _ _ Hp (prefix_app_r _ _ (p_parts (path_of_str rel)) (reflexivity _))) as [?|Hh]; [done|].
      exfalso. apply not_true_iff_false in Hqh. apply Hqh, is_relative_to_spec. by split. }
    split_and!; [done| |done]. intros ->. by rewrite is_relative_to_refl in Hqh.
Qed.

Lemma config_args_ends {S : Type} fs p (s : S) (Q : list json → S → Prop) (E : exn → S → Prop) :
  (∀ l, Q l s) → (∀ e, E e s) → wp (config_args fs p) Q E s.
Proof.
  intros HQ HE. unfold config_args. apply wp_try. destruct (fs_exists fs p); [|wp_run; apply HQ].
  apply wp_bind. wp_run.
  assert (∀ e, match (if is_Exception e then Some (log WARNING ("Failed to parse devkit.json: " ++ exn_text e);; mret [] : io S (list json)) else None)
    with Some k => wp k Q E s | None => E e s end) as HH by (intros e; destruct (is_Exception e); [wp_run; apply HQ|apply HE]).
  destruct (_ ≫= _) as [j|e]; [|apply HH]. destruct (truthy j); wp_run; [|apply HQ].
  destruct (json_iter j); [apply HQ|apply HH].
Qed.

(** The composed command, whatever its arguments are. *)
Lemma compose_spec s R args fs x :
  wp (compose pr s R args)
    (λ cmd st, st = (fs, x) ∧ ∃ ev, cmd = docker_cmd pr (Path true (fs_cwd fs)) s (volume (s_paths s) <$> path_iter R) ev args)
    (λ _ st, st = (fs, x)) (fs, x).
Proof.
  unfold compose. do 4 wp_step. apply wp_bind, config_args_ends; [|done]. intros l. apply wp_bind.
  apply (wp_mono _ (λ _ st, st = (fs, x)) _ (λ _ st, st = (fs, x)) _); [| |done].
  { unfold environment_args. destruct (getenv_or _ _) as [v|]; [|by wp_run].
    do 2 wp_step. destruct (shlex_split v); by wp_run. }
  intros env_args st ->. do 2 wp_step. destruct (expand_args _ _) as [ev|]; [|done]. cbv zeta. wp_run.
  split; [done|]. by exists ev.
Qed.

(** The command is composed once the arguments could be read. *)
Lemma compose_ok s R args fs x t1 run_args t2 env_args ev :
  config_args fs (path_child (command_project_root (s_paths s)) "devkit.json") (fs, x) = (t1, (fs, x), Ok run_args) →
  environment_args pr (fs, x) = (t2, (fs, x), Ok env_args) →
  expand_args pr ((JStr <$> tty_args pr) ++ run_args ++ (JStr <$> env_args)) = Ok ev →
  ∃ t, compose pr s R args (fs, x) =
    (t, (fs, x), Ok (docker_cmd pr (Path true (fs_cwd fs)) s (volume (s_paths s) <$> path_iter R) ev args)).
Proof.
  intros Hc He Hx. unfold compose, mbind, io_bind, get, log, emit, lift_res, mret, io_ret. rewrite Hc, He, Hx.
  eexists. reflexivity.
Qed.

(** ** The commands of the script *)

(** No command but git's, and no thread is cancelled. *)
Definition prepare_event (e : event) : Prop :=
  match e with
  | EvRun cmd => head cmd = Some ("git" : str)
  | EvLog _ _ | EvErr _ => True
  | _ => False
  end.

Definition compose_event (e : event) : Prop :=
  match e with EvLog _ _ | EvStart _ => True | _ => False end.

Ltac emits_handler := intros ?e ?k; case_match; [|done]; intros [= <-]; emits_auto.

Lemma prepare_emits : emits prepare_event (prepare pr : io (fsys * X) _).
Proof.
  unfold prepare. emits_step; [emits_auto|]. match goal with a : fsys * X |- _ => destruct a end.
  emits_step; [|emits_step; [emits_auto|emits_step; [|emits_step; [|]]]].
  - unfold resolve_paths. emits_auto. apply emits_try; [emits_auto|]. emits_handler.
  - apply emits_on_fst. unfold home_mounts, make_home_dir, make_home_file, do_fs.
    repeat first [emits_step|apply emits_fold; intros ? ? _].
  - unfold git_mounts. apply emits_try; [|emits_handler]. emits_auto; [done..|]. case_match. emits_auto.
  - case_match. unfold group_gid. emits_step; [case_match; emits_auto|]. emits_step; [case_match; emits_auto|]. emits_auto.
Qed.

Lemma compose_emits s R args : emits compose_event (compose pr s R args : io (fsys * X) _).
Proof.
  unfold compose. do 2 (emits_step; [emits_auto|]). match goal with a : fsys * X |- _ => destruct a end.
  emits_step; [|emits_step; [|emits_auto]].
  - unfold config_args. apply emits_try; [|emits_handler]. emits_auto.
  - unfold environment_args. case_match; emits_auto.
Qed.

(** The events that end the threads. *)
Definition cancels : list event :=
  [EvCancel cleanup_thread_name; EvCancel (handler_thread_name pr);
   EvJoin cleanup_thread_name; EvJoin (handler_thread_name pr)].

(** How the script ends when the container was started in the host state [x]. *)
Definition container_status (cmd : list str) (x : X) : exn :=
  if interrupted x then SystemExit 130
  else match (exec cmd x).1 with Some r => SystemExit (returncode r) | None => FileNotFoundError end.

Lemma run_container_eq cmd fs x :
  run_container pr cmd (fs, x) = (EvRun cmd :: cancels, (fs, (exec cmd x).2), Raise (container_status cmd x)).
Proof.
  unfold run_container, container_status, run_interruptible, subprocess_run, finally, try_except, on_snd, mbind, io_bind.
  cbn [snd fst]. destruct (interrupted x); [done|]. by destruct (exec cmd x) as [[r|] x'].
Qed.

(** [xhost], where the command needs a display. *)
Definition xhost_outcome (s : setup) (cmd : list str) (x : X) : list event * X * res () :=
  if needs_display cmd then
    let '(t, x', r) := subprocess_run true (xhost_cmd (user_name (s_user s))) x in
    (t, x', match r with Ok _ => Ok () | Raise e => Raise e end)
  else ([], x, Ok ()).

Lemma launch_eq s cmd fs x :
  launch pr s cmd (fs, x) =
    let '(t, x', r) := xhost_outcome s cmd x in
    match r with
    | Ok _ => (EvStart cleanup_thread_name :: t ++ EvRun cmd :: cancels, (fs, (exec cmd x').2),
               Raise (container_status cmd x'))
    | Raise e => (EvStart cleanup_thread_name :: t, (fs, x'), Raise e)
    end.
Proof.
  unfold launch, xhost_outcome. rewrite bind_get.
  assert (∀ m : io (fsys * X) (), ((_ ← start_background_cleanup (X:=X) fs
      (path_child (command_project_root (s_paths s)) "devkit.json")
      [path_child (path_parent (scripts_dir pr)) "images"]; m) (fs, x)) =
    let '(t, st, r) := m (fs, x) in (EvStart cleanup_thread_name :: t, st, r)) as Hstart.
  { intros m. unfold start_background_cleanup, mbind, io_bind. cbn. by destruct (m (fs, x)) as [[? ?] ?]. }
  rewrite Hstart. clear Hstart. destruct (needs_display cmd).
  - unfold mbind, io_bind at 1 2, on_snd. cbn [fst snd].
    destruct (subprocess_run true _ x) as [[t x'] [r|e]]; cbn; [|done]. by rewrite run_container_eq, app_nil_r.
  - rewrite bind_ret. by rewrite run_container_eq.
Qed.
End Run.

(** A run whose preparation succeeds, as one equation. *)
Lemma main_eq `{JsonRepr} `{HexDigest} `{PySetOrder} `{PathSetOrder} `{RecursionLimit} `{Host X} `{Popen X}
    `{Interrupts X} pr fuel args (st : fsys * X) t1 fs1 x1 s R t2 st2 cmd :
  prepare pr st = (t1, (fs1, x1), Ok s) →
  get_minimal_mounts fs1 fuel (command_project_root (s_paths s)) (s_mounts s) = Ok R →
  compose pr s R args (fs1, x1) = (t2, st2, Ok cmd) →
  let '(tx, x2, rx) := xhost_outcome s cmd x1 in
  main pr fuel args st =
    match rx with
    | Ok _ => (t1 ++ t2 ++ EvStart cleanup_thread_name :: tx ++ EvRun cmd :: cancels pr,
               (fs1, (exec cmd x2).2), Raise (container_status cmd x2))
    | Raise e => (t1 ++ t2 ++ EvStart cleanup_thread_name :: tx, (fs1, x2), Raise e)
    end.
Proof.
  intros Hp HR Hc. pose proof (compose_spec pr s R args fs1 x1) as Hk. unfold wp, io_res, io_state in Hk.
  rewrite Hc in Hk. cbn in Hk. destruct Hk as [-> _].
  unfold main. unfold mbind at 1, io_bind at 1. rewrite Hp, bind_get, HR. rewrite bind_lift_Ok.
  unfold mbind at 1, io_bind at 1. rewrite Hc, launch_eq.
  destruct (xhost_outcome s cmd x1) as [[tx x2] [[]|e]]; done.
Qed.

(** A run that cannot find its mounts ends before it starts anything more. *)
Lemma main_no_mounts `{JsonRepr} `{HexDigest} `{PySetOrder} `{PathSetOrder} `{RecursionLimit} `{Host X} `{Popen X}
    `{Interrupts X} pr fuel args (st : fsys * X) t1 fs1 x1 s e :
  prepare pr st = (t1, (fs1, x1), Ok s) →
  get_minimal_mounts fs1 fuel (command_project_root (s_paths s)) (s_mounts s) = Raise e →
  main pr fuel args st = (t1, (fs1, x1), Raise e).
Proof.
  intros Hp HR. unfold main. unfold mbind at 1, io_bind at 1. rewrite Hp, bind_get, HR, bind_lift_Raise. unfold raise. by rewrite app_nil_r.
Qed.

(** ** Claims *)

(** C8: a run of the script whose preparation succeeds.  The background
    clean-up is started, [xhost] is run only for a command that needs a
    display and must succeed, then the composed command is run once, after it
    both threads are cancelled and waited for, in this order, and the script
    exits with the status of the container, with 130 when the user
    interrupted it, and with the error when docker is not installed. *)
Theorem docker_run_exit `{JsonRepr} `{HexDigest} `{PySetOrder} `{PathSetOrder} `{RecursionLimit} `{Host X} `{Popen X}
    `{Interrupts X} pr fuel args (st : fsys * X) t1 fs1 x1 s R t2 st2 cmd :
  prepare pr st = (t1, (fs1, x1), Ok s) →
  get_minimal_mounts fs1 fuel (command_project_root (s_paths s)) (s_mounts s) = Ok R →
  compose pr s R args (fs1, x1) = (t2, st2, Ok cmd) →
  let '(tx, x2, rx) := xhost_outcome s cmd x1 in
  main pr fuel args st =
    match rx with
    | Ok _ => (t1 ++ t2 ++ EvStart cleanup_thread_name :: tx ++ EvRun cmd :: cancels pr,
               (fs1, (exec cmd x2).2), Raise (container_status cmd x2))
    | Raise e => (t1 ++ t2 ++ EvStart cleanup_thread_name :: tx, (fs1, x2), Raise e)
    end.
Proof. apply main_eq. Qed.

(** The preparation has made every shared directory and file of the home
    directory, and the container gets each of them. *)
Lemma home_mounted `{JsonRepr} `{HexDigest} `{PySetOrder} `{PathSetOrder} `{RecursionLimit} `{Host X} `{Popen X}
    `{Interrupts X} pr fs1 fuel (s : setup) R args (x1 : X) t2 st2 cmd rel :
  get_minimal_mounts fs1 fuel (command_project_root (s_paths s)) (s_mounts s) = Ok R →
  compose pr s R args (fs1, x1) = (t2, st2, Ok cmd) →
  p_abs (path_of_str rel) = false → path_child (command_home (s_paths s)) rel ∈ s_mounts s →
  (∃ sub, is_relative_to (path_of_str rel) sub = true ∧
     "--volume=" ++ path_str (path_join (host_home (s_paths s)) sub) ++ ":" ++
       path_str (path_join (container_home (s_paths s)) sub) ∈ cmd) ∨
  (∃ q, is_relative_to (command_home (s_paths s)) q = true ∧ q ≠ command_home (s_paths s) ∧
     "--volume=" ++ path_str q ++ ":" ++ path_str q ∈ cmd).
Proof.
  intros HR Hc Hrel Hin. destruct (minimal_mounts_cover _ _ _ _ _ _ HR Hin) as (q & Hq & Hcov).
  pose proof (compose_spec pr s R args fs1 x1) as Hk. unfold wp, io_res in Hk. rewrite Hc in Hk. cbn [snd] in Hk.
  destruct Hk as [_ [ev ->]].
  assert (volume (s_paths s) q ∈ docker_cmd pr (Path true (fs_cwd fs1)) s (volume (s_paths s) <$> path_iter R) ev args) as Hv.
  { unfold docker_cmd. apply elem_of_app. right. apply elem_of_app. right. apply elem_of_app. left.
    apply list_elem_of_fmap. exists q. split; [done|]. by rewrite path_iter_perm, elem_of_elements. }
  destruct (volume_covers _ _ _ Hrel Hcov) as [(sub & Hsub & Hvol)|(Hh & Hne & Hvol)]; rewrite Hvol in Hv.
  - left. exists sub. exact (conj Hsub Hv).
  - right. exists q. exact (conj Hh (conj Hne Hv)).
Qed.

(** C20: when the preparation succeeds, nothing of the file system was lost,
    the shared directories of the home directory exist, and so does
    [.gitconfig].  The search for mounts then ends.  When a path it resolves
    has a loop of links the script ends with [RuntimeError], and no thread or
    container was started.  Otherwise every composed command mounts each of
    the shared paths in one of two ways: the path, or a directory above it and
    not above the home directory, at the same place below the home directory
    of the container; or a proper ancestor of the home directory, mounted at
    the same place in the container as on the host. *)
Theorem docker_run_mounts `{JsonRepr} `{HexDigest} `{PySetOrder} `{PathSetOrder} `{RecursionLimit} `{Host X} `{Popen X}
    `{Interrupts X} pr fs (x : X) t1 fs1 x1 s :
  fsys_wf fs → prepare pr (fs, x) = (t1, (fs1, x1), Ok s) →
  fs_grows fs fs1 ∧
  (∀ rel, rel ∈ home_dirs → fs_is_dir fs1 (path_child (command_home (s_paths s)) rel) = true) ∧
  (∀ rel, rel ∈ home_files → fs_exists fs1 (path_child (command_home (s_paths s)) rel) = true) ∧
  ∃ fuel0, ∀ fuel, fuel0 ≤ fuel →
  (¬ resolvable fs1 (command_project_root (s_paths s)) (s_mounts s) ∧
   ∀ args, main pr fuel args (fs, x) = (t1, (fs1, x1), Raise RuntimeError)) ∨
  ∃ R,
    get_minimal_mounts fs1 fuel (command_project_root (s_paths s)) (s_mounts s) = Ok R ∧
    ∀ args t2 st2 cmd rel, compose pr s R args (fs1, x1) = (t2, st2, Ok cmd) → rel ∈ home_dirs ++ home_files →
    (∃ sub, is_relative_to (path_of_str rel) sub = true ∧
       "--volume=" ++ path_str (path_join (host_home (s_paths s)) sub) ++ ":" ++
         path_str (path_join (container_home (s_paths s)) sub) ∈ cmd) ∨
    (∃ q, is_relative_to (command_home (s_paths s)) q = true ∧ q ≠ command_home (s_paths s) ∧
       "--volume=" ++ path_str q ++ ":" ++ path_str q ∈ cmd).
Proof.
  intros Hwf Hp. pose proof (prepare_spec pr fs x Hwf) as Hw. unfold wp, io_res, io_state in Hw.
  rewrite Hp in Hw. cbn in Hw. destruct Hw as (Hg & Hd & Hf).
  split_and!; [done|by apply Hd|by apply Hf|].
  destruct (get_minimal_mounts_total fs1 (command_project_root (s_paths s)) (s_mounts s)) as [fuel0 K0];
    [by eapply fs_grows_wf|].
  exists fuel0. intros fuel Hle. destruct (K0 fuel Hle) as [[_ [R HR]]|[Hnr HR]]; [right|left].
  2: { split; [done|]. intros args. by apply main_no_mounts with s. }
  exists R. split; [done|].
  intros args t2 st2 cmd rel Hc Hrel. eapply home_mounted; [done..| |].
  - assert (Forall (λ rel, p_abs (path_of_str rel) = false) (home_dirs ++ home_files)) as Hall by (by repeat constructor).
    by apply (proj1 (Forall_forall _ _) Hall).
  - apply elem_of_app in Hrel as [Hr|Hr]; [by apply Hd|by apply Hf].
Qed.

(** *** The container's command in the log *)

Lemma compose_trace `{JsonRepr} `{HexDigest} `{PySetOrder} `{PathSetOrder} `{RecursionLimit} `{Host X} `{Popen X}
    `{Interrupts X} pr s R args (st : fsys * X) t st' cmd :
  compose pr s R args st = (t, st', Ok cmd) →
  EvStart (handler_thread_name pr) ∈ t ∧ EvLog INFO (shlex_join cmd) ∈ t.
Proof.
  unfold compose. intros Q.
  repeat (match type of Q with (match ?a with _ => _ end) _ = _ => destruct a | _ => idtac end;
          apply bind_inv in Q as [(? & _ & ?)|(? & ? & ? & ? & ? & Q & ->)]; [done|]; cbv zeta in Q).
  unfold mret, io_ret in Q. injection Q as <- <- <-.
  repeat match goal with K : log _ _ _ = _ |- _ => injection K as <- _ _ | K : emit _ _ = _ |- _ => injection K as <- _ _ end.
  generalize (docker_cmd pr (Path true (fs_cwd f)) s (volume (s_paths s) <$> path_iter R) x14 args). intros cmd.
  rewrite !elem_of_app, !list_elem_of_singleton. auto 15.
Qed.

(** An event before the container runs. *)
Definition before_container (e : event) : Prop :=
  match e with
  | EvRun cmd => head cmd ≠ Some ("docker" : str)
  | EvCancel _ | EvJoin _ => False
  | _ => True
  end.

Lemma prepare_before e : prepare_event e → before_container e.
Proof. destruct e; try done. cbn. intros ->. by apply (bool_decide_eq_false_1 _). Qed.

Lemma compose_before e : compose_event e → before_container e.
Proof. by destruct e. Qed.

Lemma xhost_before `{Host X} s cmd (x : X) : Forall before_container (xhost_outcome s cmd x).1.1.
Proof.
  unfold xhost_outcome, subprocess_run. destruct (needs_display cmd); [|constructor].
  destruct (exec _ x) as [ro x']. repeat constructor. by apply (bool_decide_eq_false_1 _).
Qed.

(** The events of a run: the container is not started, or it is started once,
    and then both threads are cancelled and waited for. *)
Lemma main_trace `{JsonRepr} `{HexDigest} `{PySetOrder} `{PathSetOrder} `{RecursionLimit} `{Host X} `{Popen X}
    `{Interrupts X} pr fuel args (st : fsys * X) :
  let t := io_trace (main pr fuel args st) in
  Forall before_container t ∨
  ∃ pre cmd, t = pre ++ EvRun cmd :: cancels pr ∧ Forall before_container pre ∧ EvLog INFO (shlex_join cmd) ∈ pre ∧
    EvStart (handler_thread_name pr) ∈ pre ∧ EvStart cleanup_thread_name ∈ pre.
Proof.
  intros t. unfold t. clear t. destruct (main pr fuel args st) as [[t st'] r] eqn:Hm. cbn. unfold main in Hm.
  assert (∀ t s r, prepare pr st = (t, s, r) → Forall before_container t) as He1.
  { intros t' s r' Hp. pose proof (prepare_emits pr st) as He. unfold io_trace in He. rewrite Hp in He.
    by apply (Forall_impl _ _ _ He prepare_before). }
  assert (∀ s R (st1 : fsys * X) t st2 r, compose pr s R args st1 = (t, st2, r) → Forall before_container t) as He2.
  { intros s R st1 t' st2 r' Hc. pose proof (compose_emits pr s R args st1) as He. unfold io_trace in He. rewrite Hc in He.
    by apply (Forall_impl _ _ _ He compose_before). }
  apply bind_inv in Hm as [(e & Hp & _)|(t1 & [fs1 x1] & s & t2 & Hp & Hm & ->)]; [left; by eapply He1|].
  apply He1 in Hp. rewrite bind_get in Hm. destruct (get_minimal_mounts _ _ _ _) as [R|]; [rewrite bind_lift_Ok in Hm|].
  2: { injection Hm as <- _ _. left. by rewrite app_nil_r. }
  apply bind_inv in Hm as [(e & Hc & _)|(t3 & [fs3 x3] & cmd & t4 & Hc & Hm & ->)].
  { left. apply Forall_app. split; [done|]. by eapply He2. }
  destruct (compose_trace _ _ _ _ _ _ _ _ Hc) as [Hh Hl]. apply He2 in Hc.
  rewrite launch_eq in Hm. pose proof (xhost_before s cmd x3) as Hx.
  destruct (xhost_outcome s cmd x3) as [[tx x4] [[]|e]]; injection Hm as <- _ _; cbn [fst] in Hx.
  - right. exists (t1 ++ t3 ++ EvStart cleanup_thread_name :: tx), cmd. split_and!.
    + by rewrite <-!app_assoc.
    + by rewrite !Forall_app, Forall_cons.
    + rewrite !elem_of_app. by auto.
    + rewrite !elem_of_app. by auto.
    + rewrite !elem_of_app. right. right. by left.
  - left. by rewrite !Forall_app, Forall_cons.
Qed.

(** C36: outside a devkit project the script prints the error and exits with
    code 1 before it has changed, started or run anything; an explicit
    [DEVKIT_HOST_PROJECT_ROOT] does not help, as the project is looked for in
    any case. *)
Theorem docker_run_no_project `{JsonRepr} `{HexDigest} `{PySetOrder} `{PathSetOrder} `{RecursionLimit} `{Host X} `{Popen X}
    `{Interrupts X} pr fuel args fs (x : X) :
  find_project_root fs (getenv pr "PWD") = Raise FileNotFoundError →
  main pr fuel args (fs, x) = ([EvErr ("Error: " ++ no_root_msg)], (fs, x), Raise (SystemExit 1)).
Proof. intros Hf. unfold main, prepare. rewrite bind_assoc, bind_get. unfold resolve_paths. rewrite Hf. done. Qed.

(** *** A sample run *)

#[local] Existing Instance sha256_digest.
#[local] Existing Instance encoding_order.
#[local] Instance sample_limit : RecursionLimit := 100.
#[local] Instance sample_repr : JsonRepr := λ _, [].
#[local] Instance sample_path_order : PathSetOrder := {| path_iter := elements; path_iter_perm := λ s, reflexivity _ |}.
#[local] Instance sample_runs : Host () := λ _ x, (Some (RunResult 0 "" ""), x).
#[local] Instance sample_popen : Popen () := {| polls_running := λ _ _, Some 0; terminated := λ _ x, x |}.
#[local] Instance sample_interrupts : Interrupts () := λ _, false.

Definition sample_process : process :=
  {| environ := [(("PWD" : str), ("/w" : str)); (("USER" : str), ("u" : str)); (("GROUP" : str), ("g" : str));
                 (("DEVKIT_DOCKER_RUN_ARGS" : str), ("--env=A '-v $USER'" : str))];
     home := path_of_str "/home/u"; getuid := 7; getgid := 8; getpwuid := λ _, None; getgrgid := λ _, None;
     getgrnam := λ _, None; stdin_isatty := false; stdout_isatty := true; nofile_soft := 10; nofile_hard := 20;
     hostname := "h"; event_port := 4000; scripts_dir := path_of_str "/w/.devkit/scripts" |}.

Definition sample_state : fsys * () :=
  (Fsys (NDir [(("w" : str), NDir [(("devkit" : str), NDir [])])]) ["w" : str], ()).

Definition sample_setup : setup :=
  match io_res (prepare sample_process sample_state) with
  | Ok s => s
  | Raise _ => Setup (RunPaths (Path true []) (Path true []) (Path true []) (Path true []) (Path true []) (Path true []) (Path true []) (Path true []))
                     (RunUser [] 0 [] 0) [] [] 0
  end.
Definition sample_prepared : list event * (fsys * ()) :=
  (io_trace (prepare sample_process sample_state), io_state (prepare sample_process sample_state)).

Lemma sample_prepare :
  prepare sample_process sample_state =
    (sample_prepared.1, (sample_prepared.2.1, sample_prepared.2.2), Ok sample_setup).
Proof. by vm_compute. Qed.

Lemma sample_mounts : ∃ R, get_minimal_mounts sample_prepared.2.1 20
  (command_project_root (s_paths sample_setup)) (s_mounts sample_setup) = Ok R.
Proof.
  assert (list_external_mounts sample_prepared.2.1 20 (command_project_root (s_paths sample_setup)) = Ok ∅) as HL
    by by vm_compute.
  assert (∃ l, mapM (resolve sample_prepared.2.1) (s_mounts sample_setup) = Ok l) as [l Hl]
    by (eexists; vm_compute; reflexivity).
  unfold get_minimal_mounts. rewrite HL. cbn [mbind res_bind]. rewrite Hl. cbn [mbind res_bind].
  assert (fs_is_symlink sample_prepared.2.1 (command_project_root (s_paths sample_setup)) = false) as -> by by vm_compute.
  eexists. reflexivity.
Qed.

Lemma sample_compose R : ∃ t2 st2 cmd,
  compose sample_process sample_setup R ["img" : str] (sample_prepared.2.1, sample_prepared.2.2) = (t2, st2, Ok cmd).
Proof.
  edestruct (compose_ok sample_process sample_setup R ["img" : str] sample_prepared.2.1 sample_prepared.2.2) as [t Ht];
    [vm_compute; reflexivity..|]. eexists _, _, _. exact Ht.
Qed.

Lemma sample_xhost cmd x : ∃ tx, xhost_outcome sample_setup cmd x = (tx, x, Ok ()).
Proof. unfold xhost_outcome. destruct (needs_display cmd); eexists; reflexivity. Qed.

Lemma docker_run_exit_witness : ∃ t st cmd,
  main sample_process 20 ["img" : str] sample_state =
    (t ++ EvRun cmd :: cancels sample_process, st, Raise (SystemExit 0)).
Proof.
  destruct sample_mounts as [R HR]. destruct (sample_compose R) as (t2 & st2 & cmd & Hc).
  pose proof (docker_run_exit sample_process 20 ["img" : str] sample_state _ _ _ _ _ _ _ _ sample_prepare HR Hc) as Hm.
  destruct (sample_xhost cmd sample_prepared.2.2) as [tx Hx]. rewrite Hx in Hm. rewrite Hm.
  eexists (sample_prepared.1 ++ t2 ++ EvStart cleanup_thread_name :: tx), _, cmd.
  rewrite <-!app_assoc. reflexivity.
Defined.

Lemma docker_run_mounts_witness : ∃ fuel0, ∀ fuel, fuel0 ≤ fuel → ∃ R,
  get_minimal_mounts sample_prepared.2.1 fuel (command_project_root (s_paths sample_setup)) (s_mounts sample_setup) = Ok R.
Proof.
  assert (fsys_wf sample_state.1) as Hwf by (eexists; reflexivity).
  destruct (docker_run_mounts sample_process sample_state.1 sample_state.2 _ _ _ _ Hwf sample_prepare) as (Hg & _ & _ & f0 & Hf).
  exists f0. intros fuel Hle. destruct (Hf fuel Hle) as [[Hno _]|(R & HR & _)]; [exfalso|by exists R].
  destruct sample_mounts as [R HR]. apply get_minimal_mounts_spec in HR as [Hr _]; [exact (Hno Hr)|].
  exact (fs_grows_wf _ _ Hg Hwf).
Defined.

(** The container of the sample is run. *)
Lemma sample_runs_container : ∃ before cmd after,
  io_trace (main sample_process 20 ["img" : str] sample_state) = before ++ EvRun cmd :: after ∧
  head cmd = Some ("docker" : str) ∧ EvCancel (handler_thread_name sample_process) ∉ before ∧
  EvStart (handler_thread_name sample_process) ∈ before.
Proof.
  destruct sample_mounts as [R HR].
  edestruct (compose_ok sample_process sample_setup R ["img" : str] sample_prepared.2.1 sample_prepared.2.2) as [t2 Hc];
    [vm_compute; reflexivity..|].
  set (cmd := docker_cmd _ _ _ _ _ _) in Hc. assert (head cmd = Some ("docker" : str)) as Hd by reflexivity. clearbody cmd.
  destruct (sample_xhost cmd sample_prepared.2.2) as [tx Hx].
  pose proof (main_eq sample_process 20 ["img" : str] sample_state _ _ _ _ _ _ _ _ sample_prepare HR Hc) as Hm.
  rewrite Hx in Hm. exists (sample_prepared.1 ++ t2 ++ EvStart cleanup_thread_name :: tx), cmd, (cancels sample_process).
  pose proof (compose_trace _ _ _ _ _ _ _ _ Hc) as [Hst _].
  assert (Forall before_container (sample_prepared.1 ++ t2 ++ EvStart cleanup_thread_name :: tx)) as Hb.
  { pose proof (prepare_emits sample_process sample_state) as He1. unfold io_trace in He1. rewrite sample_prepare in He1.
    pose proof (compose_emits sample_process sample_setup R ["img" : str] (sample_prepared.2.1, sample_prepared.2.2)) as He2.
    unfold io_trace in He2. rewrite Hc in He2. pose proof (xhost_before sample_setup cmd sample_prepared.2.2) as Hx'.
    rewrite Hx in Hx'. rewrite !Forall_app, Forall_cons.
    split_and!; [by apply (Forall_impl _ _ _ He1 prepare_before)|by apply (Forall_impl _ _ _ He2 compose_before)|done|done]. }
  split_and!; [rewrite Hm; unfold io_trace; cbn [fst]; by rewrite <-!app_assoc|exact Hd| |rewrite !elem_of_app; by auto].
  intros Hin. exact (proj1 (Forall_forall _ _) Hb _ Hin).
Qed.

Lemma docker_run_no_project_witness :
  main sample_process 20 [] (Fsys (NDir [(("w" : str), NDir [])]) [], ()) =
    ([EvErr ("Error: " ++ no_root_msg)], (Fsys (NDir [(("w" : str), NDir [])]) [], ()), Raise (SystemExit 1)).
Proof. apply (docker_run_no_project sample_process 20 []). reflexivity. Defined.
