(* ===== verification/Bootstrap.v ===== *)
(** * Project templates

    [bootstrap.py]: copies a directory of templates, rendering every file. *)
From S2P Require Import Prelude PyStr PyPath Fs FsWrite.

(** Jinja2: compiling a template, and rendering it with the templates it
    includes taken from a directory.  Both may raise. *)
Class Jinja := {
  template : Type;
  from_string : str → res template;
  render : fsys → path → template → list (str * str) → res str
}.

(** The file system, and the pairs of files between which [shutil.copymode]
    copied the permissions. *)
Record disk := Disk { d_fs : fsys; d_modes : list (path * path) }.

Definition get_fs : io disk fsys := d ← get; mret (d_fs d).
Definition change_fs (f : fsys → res fsys) : io disk () :=
  d ← get; fs ← lift_res (f (d_fs d)); put (Disk fs (d_modes d)).
Definition copymode (src dest : path) : io disk () :=
  d ← get; put (Disk (d_fs d) (d_modes d ++ [(src, dest)])).

(** [range(max(0, lineno - 4), min(len(lines), lineno + 3))], with the lines. *)
Definition error_excerpt (content : str) (lineno : Z) : list str :=
  let lines := splitlines content in
  let first := Z.to_nat (lineno - 4) in
  let last := Z.to_nat (Z.min (Z.of_nat (length lines)) (lineno + 3)) in
  (λ '(i, line), "    " ++ rjust (str_of_Z (Z.of_nat (S i))) 4 ++
     (if (Z.of_nat (S i) =? lineno)%Z then " >" else "  ") ++ " " ++ line) <$>
  zip (seq first (last - first)) (take (last - first) (drop first lines)).

Section Copy.
Context `{Jinja} (src_dir dest_dir : path) (context : list (str * str)).

(** [src_file_path.open("r", encoding="utf-8").read()]. *)
Definition read_text (fs : fsys) (p : path) : res str :=
  data ← fs_read fs p; text ← utf8_decode 0 data; Ok (universal_newlines text).

(** The [try] block after the source was read: the destination is opened, and
    so emptied, before the template is rendered. *)
Definition render_file (src_file_path dest_file_path : path) (content : str) : io disk () :=
  tmpl ← lift_res (from_string content);
  change_fs (λ fs, fs_write fs dest_file_path []);;
  fs ← get_fs;
  text ← lift_res (render fs src_dir tmpl context);
  data ← lift_res (py_encode (text ++ [10%N]));
  change_fs (λ fs, fs_write fs dest_file_path data);;
  copymode src_file_path dest_file_path.

Definition template_error (src_file_path : path) (content : str) (e : exn) : option (io disk bool) :=
  match e with
  | TemplateSyntaxError lineno msg =>
      Some (emit (EvErr ("Error in template: " ++ path_str src_file_path));;
            emit (EvErr ("  Line " ++ str_of_Z lineno ++ ": " ++ msg));;
            for_each (error_excerpt content lineno) (λ line, emit (EvErr line));;
            mret true)
  | UndefinedError msg =>
      Some (emit (EvErr ("Error in template: " ++ path_str src_file_path));;
            emit (EvErr ("  " ++ msg));; mret true)
  | _ => None
  end.

(** Reading the source cannot raise what the handlers catch. *)
Definition copy_file (dirpath : path) (error_occurred : bool) (filename : str) : io disk bool :=
  if endswith filename ".include" then mret error_occurred
  else
    let src_file_path := path_child dirpath filename in
    relative_path ← lift_res (relative_to src_file_path src_dir);
    let dest_file_path := path_join dest_dir relative_path in
    change_fs (λ fs, fs_mkdir fs (path_parent dest_file_path));;
    fs ← get_fs;
    content ← lift_res (read_text fs src_file_path);
    try_except
      (render_file src_file_path dest_file_path content;; mret error_occurred)
      (template_error src_file_path content).

(** The walk: a directory's files, then its subdirectories, links to
    directories included; a directory is listed when the walk comes to it.
    [fuel] bounds the depth. *)
Fixpoint copy_walk (fuel : nat) (error_occurred : bool) (dirpath : path) : io disk bool :=
  match fuel with
  | O => raise Diverges
  | S fuel =>
      fs ← get_fs;
      match fs_stat fs dirpath with
      | Some (Found _ (NDir es) _) =>
          let dirs := (List.filter (entry_is_dir fs dirpath) es).*1 in
          let files := (List.filter (λ e, negb (entry_is_dir fs dirpath e)) es).*1 in
          error_occurred ← fold_io (copy_file dirpath) error_occurred files;
          fold_io (λ err d, copy_walk fuel err (path_child dirpath d)) error_occurred dirs
      | _ => mret error_occurred
      end
  end.

Definition copy_and_template (fuel : nat) : io disk bool := copy_walk fuel false src_dir.
End Copy.

Record bootstrap_args := BootstrapArgs {
  b_template : str; b_templates_root : option path; b_output_dir : path; b_args : list str
}.

(** [context[key] = value] for the arguments [key=value]. *)
Definition add_argument (context : list (str * str)) (arg : str) : io disk (list (str * str)) :=
  match split1 arg 61 with
  | None => emit (EvErr ("Invalid argument: " ++ arg ++ ". Expected key=value."));; sys_exit 1
  | Some (key, value) => mret (dict_set key value context)
  end.

Definition main `{Jinja} (script_dir : path) (fuel : nat) (args : bootstrap_args) : io disk () :=
  context ← fold_io add_argument [] (b_args args);
  let dest_dir := b_output_dir args in
  let templates_root_dir :=
    match b_templates_root args with Some p => p | None => path_child (path_parent script_dir) "templates" end in
  fs ← get_fs;
  template_dir ← lift_res (resolve fs (path_child templates_root_dir (b_template args)));
  template_dir ←
    try_except (lift_res (resolve_strict fs template_dir))
      (λ e, if is_FileNotFoundError e then
         Some (emit (EvErr ("Template '" ++ b_template args ++ "' not found at '" ++ path_str template_dir ++ "'"));;
               sys_exit 1)
       else None);
  try_except
    (errors ← copy_and_template template_dir dest_dir context fuel;
     if errors : bool then emit (EvErr "Errors occurred during templating.");; sys_exit 1 else mret ())
    (λ e, if is_Exception e then Some (emit (EvErr ("An error occurred: " ++ exn_text e));; sys_exit 1) else None);;
  emit (EvOut ("Project bootstrapped with '" ++ b_template args ++ "' template.")).
