(* ===== verification/BootstrapFacts.v ===== *)
(** * Correctness of project templates *)
From S2P Require Import Prelude PyStr PyPath Fs FsWrite Bootstrap.

(** ** Trees without links *)

(** A name [scandir] can return. *)
Definition plain_name (c : str) : Prop := path_of_str c = Path false [c] ∧ c ≠ "..".

Inductive plain : node → Prop :=
  | plain_file data : plain (NFile data)
  | plain_dir es : NoDup (dict_keys es) → Forall (λ e, plain_name e.1) es → Forall (λ e, plain e.2) es →
      plain (NDir es).

Lemma plain_at ps : ∀ n m, plain n → node_at n ps = Some m → plain m.
Proof.
  induction ps as [|c ps IH]; intros n m Hn; cbn [node_at]; [by intros [= <-]|].
  inversion Hn as [|es Hnd Hnames Hsub]; subst; [done|]. destruct (dict_get c es) as [n'|] eqn:E; [|done].
  apply IH. apply dict_get_elem in E. by apply (proj1 (Forall_forall _ _) Hsub (c, n')).
Qed.

Lemma plain_parts ps : ∀ n m, plain n → node_at n ps = Some m → Forall plain_name ps.
Proof.
  induction ps as [|c ps IH]; intros n m Hn; cbn [node_at]; [constructor|].
  inversion Hn as [|es Hnd Hnames Hsub]; subst; [done|]. destruct (dict_get c es) as [n'|] eqn:E; [|done].
  intros Hm. apply dict_get_elem in E. constructor; [by apply (proj1 (Forall_forall _ _) Hnames (c, n'))|].
  eapply IH; [|exact Hm]. by apply (proj1 (Forall_forall _ _) Hsub (c, n')).
Qed.

(** Looking up a chain of real directories. *)
Lemma namei_real root f L ps : ∀ cur n, Forall plain_name ps → node_at root (cur ++ ps) = Some n → ¬ is_link n →
  namei root f L cur ps = Some (Found (cur ++ ps) n L).
Proof.
  induction ps as [|c ps IH]; intros cur n Hps Hn Hl.
  { rewrite app_nil_r in *. by rewrite namei_nil, Hn. }
  apply Forall_cons in Hps as [[_ Hc] Hps]. rewrite namei_cons.
  pose proof Hn as Hn'. rewrite node_at_app in Hn'.
  destruct (node_at root cur) as [[|es|]|] eqn:Ecur; cbn in Hn'; try done.
  rewrite bool_decide_eq_false_2 by done. destruct (dict_get c es) as [m|] eqn:Ec; [|done].
  assert (node_at root ((cur ++ [c]) ++ ps) = Some n) as Hn2 by by rewrite <-app_assoc.
  specialize (IH (cur ++ [c]) n Hps Hn2 Hl). rewrite <-app_assoc in IH. cbn [app] in IH.
  destruct m as [|?|t]; [done..|]. destruct ps; cbn in Hn'; [|done]. by simplify_eq.
Qed.

(** A chain that breaks off is not found. *)
Lemma namei_missing root f L ps : ∀ cur, Forall plain_name ps → node_at root (cur ++ ps) = None →
  (∀ qs m, qs `prefix_of` ps → node_at root (cur ++ qs) = Some m → ¬ is_link m) → namei root f L cur ps = None.
Proof.
  induction ps as [|c ps IH]; intros cur Hps Hn Hl.
  { rewrite app_nil_r in *. by rewrite namei_nil, Hn. }
  apply Forall_cons in Hps as [[_ Hc] Hps]. rewrite namei_cons.
  destruct (node_at root cur) as [[|es|]|] eqn:Ecur; try done.
  rewrite bool_decide_eq_false_2 by done. destruct (dict_get c es) as [m|] eqn:Ec; [|done].
  assert (node_at root (cur ++ [c]) = Some m) as Hm by (rewrite node_at_app, Ecur; cbn; by rewrite Ec).
  assert (¬ is_link m) as Hml by (apply (Hl [c]); [apply prefix_cons, prefix_nil|done]).
  assert (namei root f L (cur ++ [c]) ps = None) as Hrest.
  { apply IH; [done|by rewrite <-app_assoc|]. intros qs m' Hq Hm'. rewrite <-app_assoc in Hm'.
    apply (Hl (c :: qs)); [by apply prefix_cons|done]. }
  destruct m; [done..|by destruct Hml].
Qed.

(** What can be reached is there as an entry. *)
Lemma namei_exists root L : ∀ cur todo r, namei root true L cur todo = Some r →
  ∃ r', namei root false L cur todo = Some r'.
Proof.
  induction L as [|L IHL]; intros cur todo; revert cur; induction todo as [|c todo IH]; intros cur r.
  1, 3: rewrite !namei_nil; by eauto.
  all: rewrite !namei_cons; destruct (node_at root cur) as [[|es|]|] eqn:E; try done;
    (case_bool_decide; [apply IH|]);
    (destruct (dict_get c es) as [[| |t]|] eqn:Ec; [apply IH..| |done]);
    cbn [negb]; rewrite andb_false_r, andb_true_r; case_bool_decide; first [done|by eauto|apply IHL].
Qed.

(** The names a directory of a plain tree lists. *)
Lemma plain_entries es fs p : plain (NDir es) →
  (∀ c, c ∈ (List.filter (λ e, negb (entry_is_dir fs p e)) es).*1 → ∃ data, dict_get c es = Some (NFile data)) ∧
  (∀ c, c ∈ (List.filter (entry_is_dir fs p) es).*1 → ∃ es', dict_get c es = Some (NDir es')) ∧
  (∀ c n, dict_get c es = Some n →
     (c ∈ (List.filter (λ e, negb (entry_is_dir fs p e)) es).*1 ∧ ∃ data, n = NFile data) ∨
     (c ∈ (List.filter (entry_is_dir fs p) es).*1 ∧ ∃ es', n = NDir es')).
Proof.
  intros Hp. inversion Hp as [|? Hnd _ Hsub]; subst.
  assert (∀ c n, (c, n) ∈ es → dict_get c es = Some n ∧ plain n) as Hent.
  { intros c n Hin. split; [by apply dict_elem_get|by apply (proj1 (Forall_forall _ _) Hsub (c, n))]. }
  split_and!.
  - intros c ([c' n] & -> & [Hin Hd]%list_elem_of_In%filter_In)%list_elem_of_fmap.
    apply list_elem_of_In in Hin. cbn [fst]. destruct (Hent _ _ Hin) as [-> Hpl]. inversion Hpl; subst; eauto. done.
  - intros c ([c' n] & -> & [Hin Hd]%list_elem_of_In%filter_In)%list_elem_of_fmap.
    apply list_elem_of_In in Hin. cbn [fst]. destruct (Hent _ _ Hin) as [-> Hpl]. inversion Hpl; subst; eauto. done.
  - intros c n Hc. pose proof (dict_get_elem _ _ _ Hc) as Hin. destruct (Hent _ _ Hin) as [_ Hpl].
    destruct Hpl; [left|right]; (split; [|by eauto]); apply list_elem_of_fmap; eexists (c, _);
      (split; [done|]); apply list_elem_of_In, filter_In; (split; [by apply list_elem_of_In|done]).
Qed.

(** Everything above an occupied or free place is a directory. *)
Lemma place_above root ps new qs c k : place root ps new → ps = qs ++ c :: k →
  ∃ es, node_at root qs = Some (NDir es).
Proof.
  intros Hp ->. assert (∃ m, node_at root (qs ++ removelast (c :: k)) = Some m ∧ (removelast (c :: k) = [] → ∃ es, m = NDir es)) as (m & Hm & Hd).
  { unfold place in Hp. destruct (node_at root (qs ++ c :: k)) as [old|] eqn:E.
    - clear Hp. assert (qs ++ c :: k = (qs ++ removelast (c :: k)) ++ [List.last (c :: k) []]) as Hs.
      { rewrite <-app_assoc. f_equal. by apply app_removelast_last. }
      rewrite Hs, node_at_app in E. destruct (node_at root (qs ++ removelast (c :: k))) as [[|es|]|]; try done.
      exists (NDir es). eauto.
    - destruct Hp as (es & _ & Hp). rewrite removelast_app in Hp by done. exists (NDir es). eauto. }
  rewrite node_at_app in Hm. destruct (node_at root qs) as [n|]; [|done].
  change (node_at n (removelast (c :: k)) = Some m) in Hm.
  destruct (removelast (c :: k)) as [|c' k'].
  - injection Hm as ->. destruct Hd as [es ->]; [done|]. by exists es.
  - destruct n as [|es|]; cbn in Hm; try done. by exists es.
Qed.

Section Copy.
Context (root0 : node) (cwd : list str) (dest : path) (dw : list str) (links : nat).
Context (Hdest : fs_stat (Fsys root0 cwd) dest = Some (Found dw (NDir []) links)).
Context (sw : list str) (tree : node) (Hsw : Forall plain_name sw) (Htree : node_at root0 sw = Some tree) (Hplain : plain tree).
Context (tes : list (str * node)) (Htes : tree = NDir tes).
Context (Hdis1 : ¬ dw `prefix_of` sw) (Hdis2 : ¬ sw `prefix_of` dw).

(** The destination directory holds the files [D] and directories of the
    template, and everything else is as it was. *)
Record built (D : list str → option bytes) (root : node) : Prop := {
  b_outside : ∀ ps, ¬ dw `prefix_of` ps → ¬ ps `prefix_of` dw → node_at root ps = node_at root0 ps;
  b_grows : grows root0 root;
  b_inside : ∀ rel m, node_at root (dw ++ rel) = Some m →
    match m with
    | NFile d => D rel = Some d
    | NDir _ => ∃ es, node_at tree rel = Some (NDir es)
    | NLink _ => False
    end;
  b_files : ∀ rel d, D rel = Some d → node_at root (dw ++ rel) = Some (NFile d);
  b_src : ∀ rel d, D rel = Some d → ∃ d0, node_at tree rel = Some (NFile d0)
}.

Lemma built_ext D D' root : (∀ rel, D rel = D' rel) → built D root → built D' root.
Proof.
  intros HD [H1 H2 H3 H4 H5]. split; try done.
  - intros rel m Hm. specialize (H3 rel m Hm). destruct m; [by rewrite <-HD|done..].
  - intros rel d. rewrite <-HD. apply H4.
  - intros rel d. rewrite <-HD. apply H5.
Qed.

Definition upd (D : list str → option bytes) (rel : list str) (d : bytes) : list str → option bytes :=
  λ r, if decide (r = rel) then Some d else D r.

Lemma dest_dir_node : node_at root0 dw = Some (NDir []).
Proof. by apply (namei_node_at _ _ _ _ _ _ Hdest). Qed.

(** Putting a node of the template into the destination directory. *)
Lemma built_set D D' root rel new : built D root → rel ≠ [] → place root (dw ++ rel) new →
  (∀ r, r ≠ rel → D' r = D r) →
  match new with
  | NFile d => D' rel = Some d ∧ ∃ d0, node_at tree rel = Some (NFile d0)
  | NDir es => es = [] ∧ D' rel = None ∧ ∃ es, node_at tree rel = Some (NDir es)
  | NLink _ => False
  end → built D' (set_node root (dw ++ rel) new).
Proof.
  intros [H1 H2 H3 H4 H5] Hne Hpl HD Hnew. pose proof (node_at_set _ _ _ Hpl) as Hset. split.
  - intros ps Hp1 Hp2. rewrite node_at_set_ne; [by apply H1|done|..].
    + intros Hx. apply Hp1. etrans; [|exact Hx]. by apply prefix_app_r.
    + intros Hx. destruct (prefix_weak_total _ _ _ Hx (prefix_app_r dw dw rel (reflexivity _))); naive_solver.
  - eapply grows_trans; [done|]. by apply set_node_grows.
  - intros rel' m Hm. destruct (decide (rel' = rel)) as [->|Hr].
    { rewrite Hset in Hm. injection Hm as <-. destruct new; naive_solver. }
    destruct (decide (rel `prefix_of` rel')) as [[k ->]|Hp1].
    { exfalso. destruct k as [|c k]; [by rewrite app_nil_r in Hr|]. rewrite app_assoc, node_at_app, Hset in Hm.
      cbn in Hm. destruct new as [|es|]; [done| |done]. destruct Hnew as [-> _]. done. }
    destruct (decide (rel' `prefix_of` rel)) as [[k ->]|Hp2].
    { destruct k as [|c k]; [by rewrite app_nil_r in Hr|].
      destruct (place_above root _ new (dw ++ rel') c k Hpl) as [es Hes]; [by rewrite <-app_assoc|].
      destruct (set_node_grows _ _ _ Hpl _ _ Hes) as (m' & Hm' & Hk). rewrite Hm in Hm'. injection Hm' as <-.
      destruct m; [done| |done]. apply (H3 _ _ Hes). }
    rewrite node_at_set_ne in Hm; [|done|by intros ?%prefix_app_inv|by intros ?%prefix_app_inv].
    specialize (H3 _ _ Hm). destruct m; [by rewrite HD|done..].
  - intros r d Hd. destruct (decide (r = rel)) as [->|Hr].
    { rewrite Hset. destruct new as [d'| |]; [|naive_solver..]. destruct Hnew as [Hnew _]. congruence. }
    rewrite HD in Hd by done. pose proof (H4 _ _ Hd) as Hold.
    rewrite node_at_set_ne; [done|done|..]; intros [k Hk]%prefix_app_inv.
    + destruct (H5 _ _ Hd) as [d0 Hd0]. subst r. destruct k as [|c k]; [by rewrite app_nil_r in Hr|].
      rewrite node_at_app in Hd0. destruct new as [d'|es|]; [destruct Hnew as [_ [d1 Hnew]]| |done].
      { rewrite Hnew in Hd0. done. }
      rewrite app_assoc, node_at_app in Hold.
      unfold place in Hpl. destruct (node_at root (dw ++ rel)) as [old|]; [|done].
      destruct Hpl as (? & ? & _ & ?). done.
    + destruct k as [|c k]; [rewrite app_nil_r in Hk; by subst|].
      destruct (place_above root _ new (dw ++ r) c k Hpl) as [es Hes]; [by rewrite Hk, <-app_assoc|].
      rewrite Hold in Hes. done.
  - intros r d Hd. destruct (decide (r = rel)) as [->|Hr]; [|rewrite HD in Hd by done; by eapply H5].
    destruct new as [d'| |]; [naive_solver|naive_solver|done].
Qed.

(** ** Lookups in the destination directory *)

Definition dpath (rel : list str) : path := Path (p_abs dest) (p_parts dest ++ rel).

Lemma dpath_parent rel : rel ≠ [] → path_parent (dpath rel) = dpath (removelast rel).
Proof. intros Hne. unfold path_parent, dpath. cbn. by rewrite removelast_app. Qed.

Lemma dpath_name rel : rel ≠ [] → path_name (dpath rel) = List.last rel [].
Proof.
  intros Hne. unfold path_name, dpath. cbn. rewrite (app_removelast_last [] Hne) at 1.
  by rewrite app_assoc, List.last_last.
Qed.

Lemma built_dest D root : built D root → ∃ es, fs_stat (Fsys root cwd) dest = Some (Found dw (NDir es) links).
Proof.
  intros Hb. destruct (stat_grows _ root _ _ _ _ _ (b_grows _ _ Hb) Hdest) as ([|es|] & Hs & ?); try done. by exists es.
Qed.

Lemma dest_stat D root rel m : built D root → Forall plain_name rel → node_at root (dw ++ rel) = Some m →
  fs_stat (Fsys root cwd) (dpath rel) = Some (Found (dw ++ rel) m links).
Proof.
  intros Hb Hrel Hm. destruct (built_dest _ _ Hb) as [es Hs].
  assert (¬ is_link m) as Hl by (intros Hlk; pose proof (b_inside _ _ Hb _ _ Hm); by destruct m).
  unfold fs_stat, dpath, start_dir in *. cbn [p_abs p_parts fs_cwd fs_root] in *.
  destruct (decide (rel = [])) as [->|Hne].
  - rewrite app_nil_r in Hm. rewrite !app_nil_r. pose proof (namei_node_at _ _ _ _ _ _ Hs) as Hn. cbn in Hn. rewrite Hm in Hn. by injection Hn as ->.
  - rewrite namei_app by done. rewrite Hs. cbn. by apply namei_real.
Qed.

Lemma dest_lstat D root rel m : built D root → Forall plain_name rel → node_at root (dw ++ rel) = Some m →
  ∃ r, fs_lstat (Fsys root cwd) (dpath rel) = Some r.
Proof. intros Hb Hrel Hm. eapply namei_exists. by eapply dest_stat. Qed.

Lemma dest_missing D root f rel : built D root → Forall plain_name rel → node_at root (dw ++ rel) = None →
  namei root f max_links (start_dir (Fsys root cwd) (dpath rel)) (p_parts (dpath rel)) = None.
Proof.
  intros Hb Hrel Hm. destruct (built_dest _ _ Hb) as [es Hs].
  unfold fs_stat, dpath, start_dir in *. cbn [p_abs p_parts fs_cwd fs_root] in *.
  destruct (decide (rel = [])) as [->|Hne].
  - rewrite app_nil_r in Hm. rewrite !app_nil_r. pose proof (namei_node_at _ _ _ _ _ _ Hs) as Hn. cbn in Hn. congruence.
  - rewrite namei_app by done. rewrite Hs. cbn. apply namei_missing; [done..|].
    intros qs m _ Hqs Hlk. pose proof (b_inside _ _ Hb _ _ Hqs). by destruct m.
Qed.

(** [os.mkdir] of a missing directory whose parent is there. *)
Lemma os_mkdir_built D root rel es0 es1 : built D root → node_at tree rel = Some (NDir es0) →
  node_at root (dw ++ rel) = None → node_at root (dw ++ removelast rel) = Some (NDir es1) →
  ∃ root', os_mkdir (Fsys root cwd) (dpath rel) = Ok (Fsys root' cwd) ∧ built D root' ∧
    node_at root' (dw ++ rel) = Some (NDir []).
Proof.
  intros Hb Ht Hn Hp. pose proof (plain_parts _ _ _ Hplain Ht) as Hrel.
  assert (rel ≠ []) as Hne by (intros ->; cbn [removelast] in Hp; congruence).
  assert (dw ++ rel = (dw ++ removelast rel) ++ [List.last rel []]) as Hsplit
    by (rewrite <-app_assoc; f_equal; by apply app_removelast_last).
  assert (place root (dw ++ rel) (NDir [])) as Hpl.
  { unfold place. rewrite Hn. exists es1. split; [by destruct dw, rel|].
    by rewrite Hsplit, removelast_last. }
  exists (set_node root (dw ++ rel) (NDir [])). split_and!.
  - unfold os_mkdir, fs_lstat. cbn [fs_root]. rewrite (dest_missing D root false rel) by done.
    rewrite dpath_parent, dpath_name by done.
    rewrite (dest_stat D root (removelast rel) (NDir es1)); [|done| |done].
    + by rewrite Hsplit.
    + rewrite (app_removelast_last [] Hne) in Hrel. by apply Forall_app in Hrel as [? _].
  - eapply built_set; [done..|]. split_and!; [done| |by exists es0].
    destruct (D rel) as [d|] eqn:Ed; [|done]. destruct (b_src _ _ Hb _ _ Ed) as [d0 Hd0]. congruence.
  - by apply node_at_set.
Qed.

Lemma tree_parent rel m : node_at tree rel = Some m → rel ≠ [] → ∃ es, node_at tree (removelast rel) = Some (NDir es).
Proof.
  intros Ht Hne. rewrite (app_removelast_last [] Hne), node_at_app in Ht.
  destruct (node_at tree (removelast rel)) as [[|es|]|]; try done. by exists es.
Qed.

Lemma built_dir D root rel es m : built D root → node_at tree rel = Some (NDir es) → node_at root (dw ++ rel) = Some m →
  ∃ es', m = NDir es'.
Proof.
  intros Hb Ht Hm. pose proof (b_inside _ _ Hb _ _ Hm) as Hi. destruct m as [d|es'|]; [|by exists es'|done].
  destruct (b_src _ _ Hb _ _ Hi). congruence.
Qed.

Lemma mkdir_built n : ∀ D root rel es0, built D root → node_at tree rel = Some (NDir es0) → length rel ≤ n →
  ∃ root' es', mkdir_parents n (Fsys root cwd) (dpath rel) = Ok (Fsys root' cwd) ∧ built D root' ∧
    node_at root' (dw ++ rel) = Some (NDir es').
Proof.
  assert (∀ D root rel es0 m, built D root → node_at tree rel = Some (NDir es0) → node_at root (dw ++ rel) = Some m →
    os_mkdir (Fsys root cwd) (dpath rel) = Raise OSError ∧ fs_is_dir (Fsys root cwd) (dpath rel) = true ∧ ∃ es, m = NDir es) as Hex.
  { intros D root rel es0 m Hb Ht Hm. pose proof (plain_parts _ _ _ Hplain Ht) as Hrel.
    destruct (built_dir _ _ _ _ _ Hb Ht Hm) as [es ->]. destruct (dest_lstat _ _ _ _ Hb Hrel Hm) as [r Hr].
    unfold os_mkdir. rewrite Hr. unfold fs_is_dir. rewrite (dest_stat _ _ _ _ Hb Hrel Hm). eauto. }
  induction n as [|n IH]; intros D root rel es0 Hb Ht Hlen; cbn [mkdir_parents];
    destruct (node_at root (dw ++ rel)) as [m|] eqn:Hm.
  1, 3: destruct (Hex _ _ _ _ _ Hb Ht Hm) as (-> & -> & es & ->); cbn; by eauto.
  { destruct rel; [|cbn in Hlen; lia]. rewrite app_nil_r in Hm. destruct (b_grows _ _ Hb _ _ dest_dir_node) as (? & ? & _). congruence. }
  assert (rel ≠ []) as Hne.
  { intros ->. rewrite app_nil_r in Hm. destruct (b_grows _ _ Hb _ _ dest_dir_node) as (? & ? & _). congruence. }
  destruct (tree_parent _ _ Ht Hne) as [es1 Ht1]. pose proof (plain_parts _ _ _ Hplain Ht) as Hrel.
  destruct (node_at root (dw ++ removelast rel)) as [m1|] eqn:Hm1.
  - destruct (built_dir _ _ _ _ _ Hb Ht1 Hm1) as [es2 ->].
    destruct (os_mkdir_built _ _ _ _ _ Hb Ht Hm Hm1) as (root' & -> & Hb' & Hn'). eauto.
  - pose proof (plain_parts _ _ _ Hplain Ht1) as Hrel1.
    assert (os_mkdir (Fsys root cwd) (dpath rel) = Raise FileNotFoundError) as ->.
    { unfold os_mkdir, fs_lstat, fs_stat. cbn [fs_root]. rewrite (dest_missing D root false rel) by done.
      by rewrite dpath_parent, (dest_missing D root true (removelast rel)) by done. }
    cbn [is_FileNotFoundError]. rewrite dpath_parent by done.
    destruct (IH D root (removelast rel) es1 Hb Ht1) as (root1 & es2 & -> & Hb1 & Hn1).
    { assert (length rel = S (length (removelast rel))); [|lia].
      rewrite (app_removelast_last [] Hne) at 1. rewrite length_app. cbn. lia. }
    cbn [mbind res_bind]. destruct (node_at root1 (dw ++ rel)) as [m2|] eqn:Hm2.
    + destruct (Hex _ _ _ _ _ Hb1 Ht Hm2) as (-> & -> & es & ->). eauto.
    + destruct (os_mkdir_built _ _ _ _ _ Hb1 Ht Hm2 Hn1) as (root' & -> & Hb' & Hn'). eauto.
Qed.

(** Writing a file of the template. *)
Lemma write_built D root rel d0 es data : built D root → node_at tree rel = Some (NFile d0) →
  node_at root (dw ++ removelast rel) = Some (NDir es) →
  ∃ root', fs_write (Fsys root cwd) (dpath rel) data = Ok (Fsys root' cwd) ∧ built (upd D rel data) root' ∧
    ∃ es', node_at root' (dw ++ removelast rel) = Some (NDir es').
Proof.
  intros Hb Ht Hp. pose proof (plain_parts _ _ _ Hplain Ht) as Hrel.
  assert (rel ≠ []) as Hne.
  { intros ->. pose proof (b_inside _ _ Hb _ _ Hp) as [es' Hes]. cbn in *. congruence. }
  assert (dw ++ rel = (dw ++ removelast rel) ++ [List.last rel []]) as Hsplit
    by (rewrite <-app_assoc; f_equal; by apply app_removelast_last).
  assert (Forall plain_name (removelast rel)) as Hrel1
    by (rewrite (app_removelast_last [] Hne) in Hrel; by apply Forall_app in Hrel as [? _]).
  assert (place root (dw ++ rel) (NFile data) ∧ fs_creat (Fsys root cwd) (dpath rel) = Ok (dw ++ rel)) as [Hpl Hc].
  { unfold fs_creat. cbn [creat_at fs_root]. destruct (node_at root (dw ++ rel)) as [m|] eqn:Hm.
    - assert (∃ d, m = NFile d) as [d ->].
      { pose proof (b_inside _ _ Hb _ _ Hm) as Hi. destruct m as [d| |]; [by exists d|destruct Hi; congruence|done]. }
      split; [unfold place; rewrite Hm; eauto|]. destruct (built_dest _ _ Hb) as [es' Hs].
      unfold fs_stat, dpath, start_dir in *. cbn [p_abs p_parts fs_cwd fs_root] in *.
      rewrite namei_app by done. rewrite Hs. cbn [mbind option_bind f_left f_where].
      rewrite (namei_real _ _ _ _ _ _ Hrel Hm); [done|by intros []].
    - split; [unfold place; rewrite Hm; exists es; split; [by destruct dw, rel|by rewrite Hsplit, removelast_last]|].
      rewrite (dest_missing D root false rel) by done.
      pose proof (dest_stat D root (removelast rel) _ Hb Hrel1 Hp) as Hs.
      unfold fs_stat, dpath, start_dir in *. cbn [p_abs p_parts fs_cwd fs_root] in *.
      rewrite removelast_app by done. rewrite Hs. rewrite (app_removelast_last [] Hne) at 2.
      rewrite app_assoc, List.last_last. by rewrite Hsplit. }
  exists (set_node root (dw ++ rel) (NFile data)). split_and!.
  - unfold fs_write. by rewrite Hc.
  - eapply built_set; [done..| |].
    + intros r Hr. unfold upd. by rewrite decide_False.
    + split; [unfold upd; by rewrite decide_True|eauto].
  - destruct (set_node_grows _ _ _ Hpl _ _ Hp) as ([|es'|] & ? & ?); [done|eauto|done].
Qed.

(** ** The source *)

Lemma src_same D root rel : built D root → node_at root (sw ++ rel) = node_at tree rel.
Proof.
  intros Hb. rewrite (b_outside _ _ Hb).
  - by rewrite node_at_app, Htree.
  - intros Hp. destruct (prefix_weak_total _ _ _ Hp (prefix_app_r sw sw rel (reflexivity _))); naive_solver.
  - intros Hp. apply Hdis2. etrans; [|exact Hp]. by apply prefix_app_r.
Qed.

Lemma src_stat D root rel m : built D root → node_at tree rel = Some m →
  fs_stat (Fsys root cwd) (Path true (sw ++ rel)) = Some (Found (sw ++ rel) m max_links).
Proof.
  intros Hb Ht. unfold fs_stat, start_dir. cbn [p_abs p_parts fs_root]. apply (namei_real root true max_links (sw ++ rel) []).
  - apply Forall_app. split; [done|]. by eapply plain_parts.
  - cbn [app]. by erewrite src_same.
  - pose proof (plain_at _ _ _ Hplain Ht) as Hpl. destruct Hpl; by intros [].
Qed.

Lemma src_root_stat D root : built D root →
  fs_stat (Fsys root cwd) (Path true sw) = Some (Found sw tree max_links).
Proof. intros Hb. pose proof (src_stat D root [] tree Hb eq_refl) as Hs. by rewrite !app_nil_r in Hs. Qed.

Lemma built_0 : built (λ _, None) root0.
Proof.
  split; try done.
  - apply grows_refl.
  - intros rel m Hm. rewrite node_at_app, dest_dir_node in Hm. destruct rel as [|c rel]; [|done].
    injection Hm as <-. rewrite Htes. by exists tes.
Qed.

(** ** Files *)

Context `{Jinja} (ctx : list (str * str)).

(** Templates without links are rendered from the template directory alone. *)
Definition render_local : Prop := ∀ fs fs' dir w n k k' t ctx,
  fs_stat fs dir = Some (Found w n k) → fs_stat fs' dir = Some (Found w n k') → plain n →
  render fs dir t ctx = render fs' dir t ctx.

(** The errors of templates, after which the copy goes on. *)
Definition is_template_error (e : exn) : bool :=
  match e with TemplateSyntaxError _ _ | UndefinedError _ => true | _ => false end.

(** What a template file becomes: the text of the copy, if there is one, and
    whether the template has an error.  A template that cannot be compiled is
    not copied; one that cannot be rendered leaves an empty file.  [None] for
    an error that ends the program. *)
Definition file_result (data : bytes) : option (option bytes * bool) :=
  match utf8_decode 0 data with
  | Raise _ => None
  | Ok text =>
      match from_string (universal_newlines text) with
      | Raise e => if is_template_error e then Some (None, true) else None
      | Ok tmpl =>
          match render (Fsys root0 cwd) (Path true sw) tmpl ctx with
          | Raise e => if is_template_error e then Some (Some [], true) else None
          | Ok rendered =>
              match py_encode (rendered ++ [10%N]) with
              | Ok o => Some (Some o, false)
              | Raise _ => None
              end
          end
      end
  end.

(** A file that is not only meant to be included in others. *)
Definition wanted (rel : list str) : bool := negb (endswith (List.last rel []) ".include").

(** The contents of the destination file [rel] in the end. *)
Definition full (rel : list str) : option bytes :=
  match node_at tree rel with
  | Some (NFile data) => if wanted rel then match file_result data with Some (o, _) => o | None => None end else None
  | _ => None
  end.

(** The template file [rel] has an error. *)
Definition faulty (rel : list str) : bool :=
  match node_at tree rel with
  | Some (NFile data) => wanted rel && match file_result data with Some (_, f) => f | None => false end
  | _ => false
  end.

Definition partial (finished : list (list str)) (rel : list str) : option bytes :=
  if decide (rel ∈ finished) then full rel else None.

Context (Hlocal : render_local).
Context (Hout : ∀ rel data, node_at tree rel = Some (NFile data) → wanted rel = true → is_Some (file_result data)).

Lemma wp_change_fs f (d : disk) (Q : () → disk → Prop) (E : exn → disk → Prop) fs' :
  f (d_fs d) = Ok fs' → Q () (Disk fs' (d_modes d)) → wp (change_fs f) Q E d.
Proof. intros Hf HQ. unfold change_fs. do 4 wp_step. rewrite Hf. by wp_run. Qed.

(** The state of the copy: the flag [err] tells whether one of the files had
    an error. *)
Definition copied (finished : list (list str)) (err : bool) (d : disk) : Prop :=
  err = existsb faulty finished ∧ ∃ root, d_fs d = Fsys root cwd ∧ built (partial finished) root.

(** One more file. *)
Lemma partial_cons finished rel r : partial (rel :: finished) r =
  match full rel with Some o => upd (partial finished) rel o r | None => partial finished r end.
Proof.
  unfold partial, upd. destruct (decide (r = rel)) as [->|Hr].
  - rewrite decide_True by by left. destruct (full rel); [done|]. by case_decide.
  - destruct (decide (r ∈ finished)); [rewrite decide_True by by right|rewrite decide_False by set_solver]; by destruct (full rel).
Qed.

Lemma full_file rel data o f : node_at tree rel = Some (NFile data) → wanted rel = true →
  file_result data = Some (o, f) → full rel = o ∧ faulty rel = f.
Proof. intros Ht Hw Hr. unfold full, faulty. by rewrite Ht, Hw, Hr. Qed.

(** A template that is compiled, rendered and written, or the error it has. *)
Lemma wp_render_file finished rel data text o f root es (d : disk) :
  d_fs d = Fsys root cwd → built (partial finished) root → node_at tree rel = Some (NFile data) → wanted rel = true →
  node_at root (dw ++ removelast rel) = Some (NDir es) → utf8_decode 0 data = Ok text → file_result data = Some (o, f) →
  let written d' := ∃ root', d_fs d' = Fsys root' cwd ∧ built (partial (rel :: finished)) root' in
  wp (render_file (Path true sw) ctx (Path true (sw ++ rel)) (dpath rel) (universal_newlines text))
    (λ _ d', f = false ∧ written d') (λ e d', is_template_error e = true ∧ f = true ∧ written d') d.
Proof.
  intros Hd Hb Ht Hw Hp Htext Hres written. destruct (full_file _ _ _ _ Ht Hw Hres) as [Hfull _].
  assert (∀ root' modes, built (match o with Some o => upd (partial finished) rel o | None => partial finished end) root' →
    written (Disk (Fsys root' cwd) modes)) as Hdone.
  { intros root' modes Hb'. exists root'. split; [done|]. eapply built_ext; [|exact Hb']. intros r.
    rewrite partial_cons, Hfull. by destruct o. }
  destruct (write_built _ _ _ _ _ [] Hb Ht Hp) as (root2 & Hw2 & Hb2 & es2 & Hp2).
  unfold file_result in Hres. rewrite Htext in Hres. unfold render_file. do 2 wp_step.
  destruct (from_string (universal_newlines text)) as [tmpl|e].
  2: { destruct (is_template_error e) eqn:He; [|done]. injection Hres as <- <-. split_and!; [done..|].
       destruct d as [fs modes]. cbn in Hd. subst fs. by apply Hdone. }
  apply wp_bind. eapply wp_change_fs; [rewrite Hd; exact Hw2|]. unfold get_fs. do 4 wp_step. cbn [d_fs]. do 2 wp_step.
  rewrite (Hlocal _ (Fsys root0 cwd) _ _ _ _ _ _ _ (src_root_stat _ _ Hb2) (src_root_stat _ _ built_0) Hplain).
  destruct (render (Fsys root0 cwd) (Path true sw) tmpl ctx) as [rendered|e].
  2: { destruct (is_template_error e) eqn:He; [|done]. injection Hres as <- <-. split_and!; [done..|]. by apply Hdone. }
  do 2 wp_step. destruct (py_encode (rendered ++ [10%N])) as [text'|]; [|done]. injection Hres as <- <-.
  destruct (write_built _ _ _ _ _ text' Hb2 Ht Hp2) as (root3 & Hw3 & Hb3 & es3 & Hp3).
  apply wp_bind. eapply wp_change_fs; [exact Hw3|]. unfold copymode. wp_run. split; [done|]. apply Hdone.
  eapply built_ext; [|exact Hb3]. intros r. unfold upd. by case_decide.
Qed.

(** The handlers print something, and note the error. *)
Lemma template_error_run p content e : is_template_error e = true →
  ∃ k t, template_error p content e = Some k ∧ ∀ d, k d = (t, d, Ok true).
Proof.
  assert (∀ l (d : disk), for_each l (λ line, emit (EvErr line)) d = (EvErr <$> l, d, Ok ())) as Hl.
  { induction l as [|x l IH]; intros d; [done|]. cbn [for_each]. unfold mbind, io_bind at 1, emit at 1. by rewrite IH. }
  destruct e; try done; intros _; eexists _, _; (split; [reflexivity|]); intros d;
    unfold mbind, io_bind, emit at 1 2; [reflexivity|]. unfold emit in Hl. rewrite Hl. reflexivity.
Qed.

Lemma wp_copy_file finished rd name data err (d : disk) :
  copied finished err d → node_at tree (rd ++ [name]) = Some (NFile data) →
  wp (copy_file (Path true sw) dest ctx (Path true (sw ++ rd)) err name)
    (copied (if wanted (rd ++ [name]) then (rd ++ [name]) :: finished else finished)) (λ _ _, False) d.
Proof.
  intros (Herr & root & Hd & Hb) Ht. unfold copy_file. destruct (wanted (rd ++ [name])) eqn:Hw;
    pose proof Hw as Hinc; unfold wanted in Hinc; rewrite List.last_last in Hinc.
  2: { apply negb_false_iff in Hinc. rewrite Hinc. wp_run. split; [done|by exists root]. }
  apply negb_true_iff in Hinc. rewrite Hinc.
  assert (plain_name name) as [Hname _].
  { pose proof (plain_parts _ _ _ Hplain Ht) as Hp. apply Forall_app in Hp as [_ Hp]. by apply Forall_cons in Hp as [? _]. }
  assert (path_child (Path true (sw ++ rd)) name = Path true (sw ++ (rd ++ [name]))) as ->.
  { unfold path_child. rewrite Hname. unfold path_join. cbn. by rewrite <-app_assoc. }
  cbv zeta. do 2 wp_step.
  assert (relative_to (Path true (sw ++ rd ++ [name])) (Path true sw) = Ok (Path false (rd ++ [name]))) as ->.
  { unfold relative_to. assert (is_relative_to (Path true (sw ++ rd ++ [name])) (Path true sw) = true) as ->.
    - apply is_relative_to_spec. split; [done|]. by apply prefix_app_r.
    - cbn [p_parts]. by rewrite drop_app_length. }
  change (path_join dest (Path false (rd ++ [name]))) with (dpath (rd ++ [name])). set (rel := rd ++ [name]) in *.
  assert (rel ≠ []) as Hne by (unfold rel; by destruct rd).
  destruct (tree_parent _ _ Ht Hne) as [es0 Ht0].
  destruct (mkdir_built (length (p_parts (dpath (removelast rel)))) _ _ _ _ Hb Ht0) as (root1 & es1 & Hmk & Hb1 & Hp1).
  { unfold dpath. cbn. rewrite length_app. lia. }
  apply wp_bind. eapply wp_change_fs; [rewrite Hd, dpath_parent by done; exact Hmk|].
  unfold get_fs. wp_run. cbn [d_fs]. destruct (Hout _ _ Ht Hw) as [[o f] Ho].
  destruct (full_file _ _ _ _ Ht Hw Ho) as [_ Hfaulty].
  unfold read_text, fs_read. rewrite (src_stat _ _ _ _ Hb1 Ht). cbn [mbind res_bind].
  destruct (utf8_decode 0 data) as [text|] eqn:Etext; [|unfold file_result in Ho; by rewrite Etext in Ho].
  cbn [mbind res_bind]. apply wp_try, wp_bind.
  eapply wp_mono; [by eapply (wp_render_file finished rel data text o f root1)| |].
  - intros [] d' [-> Hd']. wp_run. split; [|done]. cbn. by rewrite Hfaulty.
  - intros e d' (He & -> & Hd'). destruct (template_error_run (Path true (sw ++ rel)) (universal_newlines text) e He)
      as (k & t & -> & Hk). unfold wp, io_res, io_state. rewrite Hk. cbn. split; [|done]. cbn. by rewrite Hfaulty.
Qed.

(** ** The walk *)

(** Everything wanted of [n], which is at [rd], is in [finished]. *)
Definition covers (rd : list str) (n : node) (finished : list (list str)) : Prop :=
  ∀ sub data, node_at n sub = Some (NFile data) → wanted (rd ++ sub) = true → rd ++ sub ∈ finished.

Definition after (finished : list (list str)) (P : list (list str) → Prop) (err : bool) (d : disk) : Prop :=
  ∃ finished', finished ⊆ finished' ∧ P finished' ∧ copied finished' err d.

Lemma wp_copy_files rd names : ∀ finished err (d : disk), copied finished err d →
  Forall (λ c, ∃ data, node_at tree (rd ++ [c]) = Some (NFile data)) names →
  wp (fold_io (copy_file (Path true sw) dest ctx (Path true (sw ++ rd))) err names)
    (after finished (λ fin, ∀ c, c ∈ names → wanted (rd ++ [c]) = true → rd ++ [c] ∈ fin)) (λ _ _, False) d.
Proof.
  induction names as [|c names IH]; intros finished err d Hd Hn; cbn [fold_io].
  { wp_run. exists finished. split_and!; [done|set_solver|done]. }
  apply Forall_cons in Hn as [[data Hc] Hn]. apply wp_bind.
  eapply wp_mono; [by eapply wp_copy_file| |done]. intros err' d' Hd'.
  eapply wp_mono; [by apply (IH _ err' d' Hd')| |done]. intros err'' d'' (fin & Hsub & HP & Hfin).
  exists fin. split_and!; [|intros c' [->|Hc']%elem_of_cons Hw|done].
  - destruct (wanted (rd ++ [c])); set_solver.
  - rewrite Hw in Hsub. set_solver.
  - by apply HP.
Qed.

Lemma node_at_child rd es c : node_at tree rd = Some (NDir es) → node_at tree (rd ++ [c]) = dict_get c es.
Proof. intros Ht. rewrite node_at_app, Ht. cbn. by destruct (dict_get c es). Qed.

Lemma wp_copy_walk fuel : ∀ rd es finished err (d : disk), node_at tree rd = Some (NDir es) → height (NDir es) ≤ fuel →
  copied finished err d →
  wp (copy_walk (Path true sw) dest ctx fuel err (Path true (sw ++ rd)))
    (after finished (covers rd (NDir es))) (λ _ _, False) d.
Proof.
  induction fuel as [|fuel IH]; intros rd es finished err d Ht Hh Hd; [cbn [height] in Hh; lia|].
  cbn [copy_walk]. pose proof Hd as (_ & root & Hfs & Hb). unfold get_fs. do 4 wp_step.
  rewrite Hfs, (src_stat _ _ _ _ Hb Ht). cbv zeta.
  destruct (plain_entries es (Fsys root cwd) (Path true (sw ++ rd))) as (Hfiles & Hdirs & Hall).
  { by eapply plain_at. }
  set (files := (List.filter (λ e, negb (entry_is_dir (Fsys root cwd) (Path true (sw ++ rd)) e)) es).*1) in *.
  set (dirs := (List.filter (entry_is_dir (Fsys root cwd) (Path true (sw ++ rd))) es).*1) in *. clearbody files dirs.
  apply wp_bind. eapply wp_mono; [apply (wp_copy_files rd files finished err d Hd)| |done].
  { apply Forall_forall. intros c Hc. rewrite (node_at_child _ _ _ Ht). by apply Hfiles. }
  intros err1 d1 (fin1 & Hs1 & HP1 & Hd1).
  (** The subdirectories, one after the other. *)
  assert (∀ ds fin err d, ds ⊆ dirs → copied fin err d →
    wp (fold_io (λ err c, copy_walk (Path true sw) dest ctx fuel err (path_child (Path true (sw ++ rd)) c)) err ds)
      (after fin (λ fin', ∀ c es', c ∈ ds → dict_get c es = Some (NDir es') → covers (rd ++ [c]) (NDir es') fin'))
      (λ _ _, False) d) as Hfold.
  { intros ds. induction ds as [|c ds IHd]; intros fin errd d2 Hds Hd2; cbn [fold_io].
    { wp_run. exists fin. split_and!; [done| |done]. by intros c es' ?%elem_of_nil. }
    destruct (Hdirs c) as [es' Hes']; [apply Hds; left|].
    assert (node_at tree (rd ++ [c]) = Some (NDir es')) as Htc by by rewrite (node_at_child _ _ _ Ht).
    assert (path_child (Path true (sw ++ rd)) c = Path true (sw ++ (rd ++ [c]))) as ->.
    { pose proof (plain_parts _ _ _ Hplain Htc) as Hp. apply Forall_app in Hp as [_ Hp].
      apply Forall_cons in Hp as [[Hname _] _]. unfold path_child. rewrite Hname. unfold path_join. cbn. by rewrite <-app_assoc. }
    apply wp_bind. eapply wp_mono; [apply (IH (rd ++ [c]) es' fin errd d2 Htc)| |done]; [|done|].
    { apply dict_get_elem, height_entry in Hes'. lia. }
    intros err2 d3 (fin2 & Hs2 & HP2 & Hd3).
    eapply wp_mono; [apply (IHd fin2 err2 d3)| |done]; [intros y Hy; apply Hds; by right|done|].
    intros err3 d4 (fin3 & Hs3 & HP3 & Hd4). exists fin3. split_and!; [by etrans| |done].
    intros c' es'' [->|Hc']%elem_of_cons He; [|by eapply HP3]. rewrite Hes' in He. injection He as <-.
    intros sub data Hsub Hw. apply Hs3. by eapply HP2. }
  eapply wp_mono; [apply (Hfold dirs fin1 err1 d1); done| |done].
  intros err2 d2 (fin2 & Hs2 & HP2 & Hd2). exists fin2. split_and!; [by etrans| |done].
  intros [|c sub] data Hsub Hw; [done|]. cbn [node_at] in Hsub. destruct (dict_get c es) as [n|] eqn:Hc; [|done].
  destruct (Hall _ _ Hc) as [[Hcf [data' ->]]|[Hcd [es' ->]]].
  - destruct sub; [|done]. apply Hs2. by apply HP1.
  - specialize (HP2 c es' Hcd Hc sub data Hsub). rewrite <-app_assoc in HP2. by apply HP2.
Qed.

Lemma copy_and_template_ok fuel d : d_fs d = Fsys root0 cwd → height tree ≤ fuel →
  wp (copy_and_template (Path true sw) dest ctx fuel)
    (λ err d', (err = true ↔ ∃ rel, faulty rel = true) ∧ ∃ root, d_fs d' = Fsys root cwd ∧ built full root) (λ _ _, False) d.
Proof.
  intros Hd Hh. unfold copy_and_template.
  assert (node_at tree [] = Some (NDir tes)) as Ht by by rewrite Htes.
  assert (copied [] false d) as Hc.
  { split; [done|]. exists root0. split; [done|]. eapply built_ext; [|exact built_0]. intros rel. unfold partial.
    by rewrite decide_False by set_solver. }
  pose proof (wp_copy_walk fuel [] tes [] false d Ht) as Hw. rewrite app_nil_r in Hw. rewrite <-Htes in Hw.
  eapply wp_mono; [by apply Hw| |done]. intros err d' (fin & _ & Hcov & -> & root & Hr & Hb).
  assert (∀ rel data, node_at tree rel = Some (NFile data) → wanted rel = true → rel ∈ fin) as Hfin
    by (intros rel data Hn Hwt; by apply (Hcov rel data)).
  split.
  - rewrite existsb_exists. split; [intros (rel & _ & Hrel); by exists rel|]. intros [rel Hrel]. exists rel. split; [|done].
    unfold faulty in Hrel. destruct (node_at tree rel) as [[data| |]|] eqn:Hn; try done.
    apply andb_true_iff in Hrel as [Hwt _]. by eapply list_elem_of_In, Hfin.
  - exists root. split; [done|]. eapply built_ext; [|exact Hb]. intros rel. unfold partial.
    case_decide as Hrel; [done|]. unfold full. destruct (node_at tree rel) as [[data| |]|] eqn:Hn; try done.
    destruct (wanted rel) eqn:Hwt; [|done]. destruct Hrel. by eapply Hfin.
Qed.
End Copy.

(** ** The program *)

(** The context the arguments give, when all have the form [key=value]. *)
Fixpoint context_of (context : list (str * str)) (args : list str) : option (list (str * str)) :=
  match args with
  | [] => Some context
  | arg :: args =>
      match split1 arg 61 with Some (k, v) => context_of (dict_set k v context) args | None => None end
  end.

Lemma wp_arguments args : ∀ context ctx (d : disk) (Q : list (str * str) → disk → Prop) E,
  context_of context args = Some ctx → Q ctx d → wp (fold_io add_argument context args) Q E d.
Proof.
  induction args as [|arg args IH]; intros context ctx d Q E Hc HQ; cbn [fold_io context_of] in *.
  - injection Hc as <-. by wp_run.
  - destruct (split1 arg 61) as [[k v]|] eqn:Ha; [|done]. apply wp_bind.
    assert (add_argument context arg = mret (dict_set k v context)) as -> by (unfold add_argument; by rewrite Ha).
    wp_run. by eapply IH.
Qed.

Definition template_path (script_dir : path) (args : bootstrap_args) : path :=
  path_child (match b_templates_root args with Some p => p | None => path_child (path_parent script_dir) "templates" end)
    (b_template args).

(** C10: bootstrapping from a template directory without links into an empty
    directory that lies neither below nor above it, with arguments that are
    pairs, when no file to copy has an error other than those of a template:
    its text can be read, its template, compiled and with the templates it
    includes found, renders or has an undefined variable, and the rendered text
    can be encoded.  (Any other error ends the copy at that file.)  The engine
    renders from the template directory alone.  Then every
    file is copied, also after one with an error of its template.  The
    destination has exactly the files of the template that are not includes, at
    the same relative places, each with its rendered text and a final line
    feed; a file that cannot be rendered is empty, and one that cannot be
    compiled is missing.  Outside the destination nothing has changed.  The
    program succeeds when there was no error, and exits with code 1
    otherwise. *)
Theorem bootstrap_correct `{Jinja} script_dir fuel args root cwd modes ctx q sw tes dw links :
  let fs := Fsys root cwd in
  let tree := NDir tes in
  render_local →
  context_of [] (b_args args) = Some ctx →
  resolve fs (template_path script_dir args) = Ok q → resolve_strict fs q = Ok (Path true sw) →
  Forall plain_name sw → node_at root sw = Some tree → plain tree → height tree ≤ fuel →
  fs_stat fs (b_output_dir args) = Some (Found dw (NDir []) links) →
  ¬ dw `prefix_of` sw → ¬ sw `prefix_of` dw →
  (∀ rel data, node_at tree rel = Some (NFile data) → wanted rel = true → is_Some (file_result root cwd sw ctx data)) →
  let r := main script_dir fuel args (Disk fs modes) in
  ((io_res r = Ok () ∧ ∀ rel, faulty root cwd sw tree ctx rel = false) ∨
   (io_res r = Raise (SystemExit 1) ∧ ∃ rel, faulty root cwd sw tree ctx rel = true)) ∧
  ∃ root', d_fs (io_state r) = Fsys root' cwd ∧
    (∀ rel o, node_at root' (dw ++ rel) = Some (NFile o) ↔
       ∃ data f, node_at tree rel = Some (NFile data) ∧ wanted rel = true ∧
         file_result root cwd sw ctx data = Some (Some o, f)) ∧
    (∀ ps, ¬ dw `prefix_of` ps → ¬ ps `prefix_of` dw → node_at root' ps = node_at root ps).
Proof.
  intros fs tree Hloc Hctx Hq Hsrc Hsw Htree Hplain Hh Hdest Hd1 Hd2 Hout r.
  set (good d' := ∃ root', d_fs d' = Fsys root' cwd ∧ built root dw tree (full root cwd sw tree ctx) root').
  assert (wp (main script_dir fuel args) (λ _ d', (∀ rel, faulty root cwd sw tree ctx rel = false) ∧ good d')
    (λ e d', (e = SystemExit 1 ∧ ∃ rel, faulty root cwd sw tree ctx rel = true) ∧ good d') (Disk fs modes)) as Hw.
  { unfold main. apply wp_bind. eapply wp_arguments; [done|]. unfold get_fs. wp_run. cbn [d_fs].
    fold (template_path script_dir args). rewrite Hq. wp_run. rewrite Hsrc. wp_run.
    eapply wp_mono; [eapply (copy_and_template_ok root cwd (b_output_dir args)); try done| |done].
    intros err d' [Herr Hb]. destruct err; wp_run.
    { cbn [is_Exception]. split; [split; [done|by apply Herr]|done]. }
    split; [|done]. intros rel. apply not_true_is_false. intros Hf. by pose proof (proj2 Herr (ex_intro _ rel Hf)). }
  assert (good (io_state r)) as (root' & Hr & Hb) by (unfold wp in Hw; subst r; destruct (io_res _); apply Hw).
  split; [unfold wp in Hw; subst r; destruct (io_res _) as [[]|e]; [left|right]; naive_solver|].
  exists root'. split; [done|]. split; [|apply (b_outside _ _ _ _ _ Hb)]. intros rel o. split.
  - intros Hn. pose proof (b_inside _ _ _ _ _ Hb _ _ Hn) as Hf. cbn in Hf. unfold full in Hf.
    destruct (node_at tree rel) as [[data| |]|]; try done. destruct (wanted rel); [|done].
    destruct (file_result root cwd sw ctx data) as [[o' f]|] eqn:Ho; [|done]. subst o'. by exists data, f.
  - intros (data & f & Hn & Hw' & Ho). apply (b_files _ _ _ _ _ Hb). unfold full. by rewrite Hn, Hw', Ho.
Qed.

(** A template language in which tags are syntax errors and no variable is
    defined. *)
#[local] Instance verbatim : Jinja := {|
  template := str;
  from_string := λ s, if contains s "{%" then Raise (TemplateSyntaxError 1 "unknown tag") else Ok s;
  render := λ _ _ t _, if contains t "{{" then Raise (UndefinedError "undefined") else Ok t
|}.

Definition sample_template : list (str * node) :=
  [(("a.txt" : str), NFile ("hi" : str)); (("x.include" : str), NFile ("no" : str));
   (("bad" : str), NFile ("{% x %}" : str)); (("undef" : str), NFile ("{{ x }}" : str));
   (("d" : str), NDir [(("b" : str), NFile ("yo" : str))])].

Definition sample_root : node := NDir [(("t" : str), NDir [(("app" : str), NDir sample_template)]); (("out" : str), NDir [])].

Definition sample_bootstrap : bootstrap_args :=
  BootstrapArgs "app" (Some (path_of_str "/t")) (path_of_str "/out") ["k=v" : str].

Lemma sample_plain : plain (NDir sample_template).
Proof.
  repeat first [constructor | by apply (bool_decide_eq_true_1 _)].
Qed.

(** The contents of all files of a tree. *)
Fixpoint contents (n : node) : list bytes :=
  match n with
  | NFile data => [data]
  | NDir es => concat ((λ e, contents e.2) <$> es)
  | NLink _ => []
  end.

Lemma contents_at rel : ∀ n data, node_at n rel = Some (NFile data) → data ∈ contents n.
Proof.
  induction rel as [|c rel IH]; intros n data; cbn [node_at].
  - intros [= ->]. by left.
  - destruct n as [|es|]; try done. destruct (dict_get c es) as [n'|] eqn:E; [|done]. intros Hd%IH.
    apply list_elem_of_In, in_concat. exists (contents n'). rewrite <-!list_elem_of_In. split; [|done].
    apply list_elem_of_fmap. exists (c, n'). split; [done|]. by apply dict_get_elem.
Qed.

Lemma sample_output data : data ∈ contents (NDir sample_template) →
  is_Some (file_result sample_root [] ["t" : str; "app" : str] [(("k" : str), ("v" : str))] data).
Proof.
  intros Hd. assert (Forall (λ data, is_Some (file_result sample_root [] ["t" : str; "app" : str] [(("k" : str), ("v" : str))] data))
    (contents (NDir sample_template))) as Hall by (repeat constructor; eexists; vm_compute; reflexivity).
  by apply (proj1 (Forall_forall _ _) Hall).
Qed.

Definition sample_copy : list event * disk * res () :=
  main (path_of_str "/s") 5 sample_bootstrap (Disk (Fsys sample_root []) []).

(** Two templates have errors; the others are copied, before and after. *)
Lemma bootstrap_correct_witness :
  io_res sample_copy = Raise (SystemExit 1) ∧
  ∃ root', d_fs (io_state sample_copy) = Fsys root' [] ∧
    node_at root' ["out" : str; "d" : str; "b" : str] = Some (NFile ("yo" ++ [10%N])) ∧
    node_at root' ["out" : str; "undef" : str] = Some (NFile []) ∧
    ∀ o, node_at root' ["out" : str; "bad" : str] ≠ Some (NFile o).
Proof.
  destruct (bootstrap_correct (path_of_str "/s") 5 sample_bootstrap sample_root [] [] [(("k" : str), ("v" : str))]
    (path_of_str "/t/app") ["t" : str; "app" : str] sample_template ["out" : str] max_links) as (Hres & root' & Hr & Hf & _).
  - done.
  - by vm_compute.
  - by vm_compute.
  - by vm_compute.
  - repeat constructor; by apply (bool_decide_eq_true_1 _).
  - done.
  - exact sample_plain.
  - apply (bool_decide_eq_true_1 _). by vm_compute.
  - by vm_compute.
  - intros Hp. by apply (bool_decide_eq_true_2 _) in Hp.
  - intros Hp. by apply (bool_decide_eq_true_2 _) in Hp.
  - intros rel data Hn _. by apply sample_output, (contents_at rel).
  - split.
    { destruct Hres as [[_ Hno]|[Hex _]]; [|exact Hex].
      specialize (Hno ["bad" : str]). vm_compute in Hno. discriminate Hno. }
    exists root'. split; [exact Hr|]. split; [|split].
    + apply (Hf ["d" : str; "b" : str]). eexists _, _. split_and!; vm_compute; reflexivity.
    + apply (Hf ["undef" : str]). eexists _, _. split_and!; vm_compute; reflexivity.
    + intros o Ho. apply (Hf ["bad" : str]) in Ho as (data & f & Hn & _ & Hd). vm_compute in Hn. injection Hn as <-.
      vm_compute in Hd. discriminate Hd.
Defined.
