(* ===== verification/Datetime.v ===== *)
(** * Timestamps

    [datetime.fromtimestamp(t, timezone.utc).isoformat()] for a float [t] that
    is not negative: the split into seconds and microseconds, the range checks
    and the errors they raise, and the proleptic Gregorian calendar. *)
From S2P Require Import Prelude PyStr PyFloat.

Local Open Scope Z_scope.

(** [math.modf]: the integral part, and the fraction as a float. *)
Definition modf (m : positive) (e : Z) : Z * float :=
  if 0 <=? e then (Zpos m * 2 ^ e, f_zero)
  else (Zpos m / 2 ^ (- e), binary_normalize prec emax (Zpos m mod 2 ^ (- e)) e false).

(** A float of one million or less, rounded to an integer, ties to even. *)
Definition round_half_even (x : float) : Z :=
  match x with
  | S754_finite _ m e => if 0 <=? e then Zpos m * 2 ^ e else div_half_even (Zpos m) (2 ^ (- e))
  | _ => 0
  end.

(** Seconds and microseconds of a timestamp. *)
Definition split_timestamp (m : positive) (e : Z) : Z * Z :=
  let '(seconds, frac) := modf m e in
  let us := round_half_even (f_mul frac (f_round 1000000)) in
  if 1000000 <=? us then (seconds + 1, us - 1000000) else (seconds, us).

(** Year, month and day of a number of days since 1970-01-01. *)
Definition civil_from_days (days : Z) : Z * Z * Z :=
  let z := days + 719468 in
  let era := z / 146097 in
  let doe := z mod 146097 in
  let yoe := (doe - doe / 1460 + doe / 36524 - doe / 146096) / 365 in
  let doy := doe - (365 * yoe + yoe / 4 - yoe / 100) in
  let mp := (5 * doy + 2) / 153 in
  let d := doy - (153 * mp + 2) / 5 + 1 in
  let m := if mp <? 10 then mp + 3 else mp - 9 in
  (yoe + era * 400 + (if m <=? 2 then 1 else 0), m, d).

Definition pad (w : nat) (z : Z) : str :=
  let s := str_of_Z z in replicate (w - length s) 48%N ++ s.

(** The last second whose year fits the C library's [tm_year]. *)
Definition max_gmtime : Z := 67768036191676799.

(** The year as a C [int]. *)
Definition wrap32 (z : Z) : Z := (z + 2 ^ 31) mod 2 ^ 32 - 2 ^ 31.

Definition isoformat_utc (seconds us : Z) : res str :=
  if max_gmtime <? seconds then Raise OSError
  else
    let '(y, m, d) := civil_from_days (seconds / 86400) in
    let s := seconds mod 86400 in
    if 9999 <? y then Raise (ValueError ("year " ++ str_of_Z (wrap32 y) ++ " is out of range"))
    else Ok (pad 4 y ++ "-" ++ pad 2 m ++ "-" ++ pad 2 d ++ "T" ++
             pad 2 (s / 3600) ++ ":" ++ pad 2 (s / 60 mod 60) ++ ":" ++ pad 2 (s mod 60) ++
             (if us =? 0 then "" else "." ++ pad 6 us) ++ "+00:00").

(** [datetime.fromtimestamp(t, timezone.utc).isoformat()] for [t >= 0]. *)
Definition fromtimestamp_iso (t : float) : res str :=
  match t with
  | S754_finite _ m e =>
      let '(seconds, us) := split_timestamp m e in
      if 2 ^ 63 <=? seconds then Raise OverflowError else isoformat_utc seconds us
  | S754_zero _ => isoformat_utc 0 0
  | _ => Raise OverflowError
  end.

Definition iso_of_ms (ms : Z) : res str := t ← int_truediv ms 1000; fromtimestamp_iso t.

Example iso_ex1 : iso_of_ms 1700000000123 = Ok "2023-11-14T22:13:20.123000+00:00".
Proof. vm_compute. reflexivity. Qed.
Example iso_ex2 : iso_of_ms 253402300799999 = Ok "9999-12-31T23:59:59.998993+00:00".
Proof. vm_compute. reflexivity. Qed.
Example iso_ex3 : iso_of_ms 0 = Ok "1970-01-01T00:00:00+00:00" ∧
  iso_of_ms 1000000000000000000 = Raise (ValueError "year 31690708 is out of range") ∧
  iso_of_ms 67768036191676799000 = Raise OSError ∧ iso_of_ms (10 ^ 22) = Raise OverflowError ∧
  iso_of_ms (10 ^ 400) = Raise OverflowError ∧ iso_of_ms 1 = Ok "1970-01-01T00:00:00.001000+00:00".
Proof. split_and!; vm_compute; reflexivity. Qed.

(** The errors of a conversion. *)
Lemma iso_of_ms_errors ms e : iso_of_ms ms = Raise e →
  e = OverflowError ∨ e = OSError ∨ ∃ msg, e = ValueError msg.
Proof.
  unfold iso_of_ms. intros [Ht|(t & _ & Ht)]%res_bind_Raise.
  - unfold int_truediv in Ht. destruct ms; [done|..]; destruct (f_div _ _); naive_solver.
  - unfold fromtimestamp_iso, isoformat_utc in Ht.
    destruct t as [?|?| |s m ex]; [..|destruct (split_timestamp m ex) as [seconds us]].
    all: repeat case_match; naive_solver.
Qed.
