(* ===== verification/Events.v ===== *)
(** * Container events

    [container_event_handler.py]: a thread that accepts connections on a local
    socket, reads one event from each and logs it, until it is cancelled from
    another thread.  The handlers are programs; the two threads are a step
    relation. *)
From S2P Require Import Prelude PyStr PyFloat Datetime Proc.

(** ** Handlers

    [start_env] is the environment variable [DEVKIT_START_TIME_MS]. *)
Section Handlers.
Context {S : Type} (start_env : option str).

Definition log_latency (ts_end : Z) : io S () :=
  match start_env with
  | Some ((_ :: _) as start_time_env) =>
      try_except
        (ts_start ← lift_res (py_int start_time_env);
         let latency_ms := (ts_end - ts_start)%Z in
         log INFO ("Calculated latency until entrypoint end: " ++ str_of_Z latency_ms ++ " ms"))
        (λ e, if is_ValueError e then
           Some (log WARNING ("DEVKIT_START_TIME_MS is not a valid integer: " ++ start_time_env))
         else None)
  | _ => log WARNING "DEVKIT_START_TIME_MS environment variable not found."
  end.

Definition handle_entrypoint_end_time_ms (value : str) : io S () :=
  try_except
    (ts_end ← lift_res (py_int (strip value));
     (if (ts_end <? 0)%Z then raise (ValueError "Timestamp cannot be negative.") else mret ());;
     dt_end ← lift_res (iso_of_ms ts_end);
     log INFO ("Successfully parsed entrypoint end time: " ++ dt_end);;
     log_latency ts_end)
    (λ e, if is_ValueError e then
       Some (log ERROR ("Failed to parse entrypoint_end_time_ms: " ++ exn_text e))
     else None).

Definition process_container_event (data : bytes) : io S () :=
  let decoded_data := strip (utf8_decode_replace 0 data) in
  log INFO ("Container event data: " ++ decoded_data);;
  match split1 decoded_data 58 with
  | Some (event_name, event_value) =>
      if bool_decide (event_name = "entrypoint_end_time_ms")
      then handle_entrypoint_end_time_ms event_value
      else log WARNING ("Unknown container event: " ++ event_name)
  | None => log WARNING ("Malformed container event: " ++ decoded_data)
  end.
End Handlers.

(** ** The two threads *)

(** Where the listener is.  In the two handlers of the loop the check of the
    event ([AtOSError], [AtException]) and the log record that follows it when
    the event was found clear ([AtReport]) are separate steps; [unexpected]
    tells the handlers apart. *)
Inductive listener :=
  | AtListen
  | AtCheck
  | AtAccept
  | AtRead
  | AtProcess (data : bytes)
  | AtOSError
  | AtException
  | AtReport (unexpected : bool)
  | AtClose
  | AtEnd.

(** [SocketCancelEvent.set]: first the event, then the socket. *)
Inductive canceller := NotCalled | BeforeShutdown | Returned.

#[export] Instance listener_eq_dec : EqDecision listener.
Proof. solve_decision. Defined.
#[export] Instance canceller_eq_dec : EqDecision canceller.
Proof. solve_decision. Defined.

Record threads := Threads {
  cancel_set : bool;
  socket_listening : bool;
  socket_shut : bool;
  socket_closed : bool;
  listener_at : listener;
  canceller_at : canceller
}.

Definition goto (p : listener) (s : threads) : threads :=
  Threads (cancel_set s) (socket_listening s) (socket_shut s) (socket_closed s) p (canceller_at s).

(** [start_container_event_handler]: a bound socket, a clear event. *)
Definition start_container_event_handler : threads := Threads false false false false AtListen NotCalled.

(** The two steps of [SocketCancelEvent.set].  [shutdown] fails, and the error
    is ignored, on a socket that does not listen yet and on a closed one. *)
Definition set_event (s : threads) : threads :=
  Threads true (socket_listening s) (socket_shut s) (socket_closed s) (listener_at s) BeforeShutdown.
Definition shutdown_socket (s : threads) : threads :=
  Threads (cancel_set s) (socket_listening s)
    (socket_shut s || (socket_listening s && negb (socket_closed s))) (socket_closed s) (listener_at s) Returned.

Definition listen_socket (s : threads) : threads :=
  Threads (cancel_set s) true (socket_shut s) (socket_closed s) AtCheck (canceller_at s).
Definition close_socket (s : threads) : threads :=
  Threads (cancel_set s) (socket_listening s) (socket_shut s) true AtEnd (canceller_at s).

(** What a step needs: nothing, a peer that connects, sends or hangs up, or a
    failure of the system. *)
Inductive cause := Quiet | Peer | HostError.

(** The records of the two handlers. *)
Definition report_text (unexpected : bool) : str :=
  if unexpected then "Unexpected error in container event listener: " else "Error in container event listener: ".

Section Steps.
Context (start_env : option str).

(** Where an event's outcome leads. *)
Definition after_event (r : res ()) : listener :=
  match r with
  | Ok _ => AtCheck
  | Raise e => if is_OSError e then AtOSError else AtException
  end.

Inductive step : threads → cause → list event → threads → Prop :=
  | step_set s : canceller_at s = NotCalled → step s Quiet [] (set_event s)
  | step_shutdown s : canceller_at s = BeforeShutdown → step s Quiet [] (shutdown_socket s)
  | step_listen s addr : listener_at s = AtListen →
      step s Quiet [EvLog INFO ("Container event handler listening on TCP " ++ addr)] (listen_socket s)
  | step_listen_fails s msg : listener_at s = AtListen →
      step s HostError [EvLog ERROR ("Failed in container event listener: " ++ msg)] (goto AtClose s)
  | step_check s : listener_at s = AtCheck →
      step s Quiet [] (goto (if cancel_set s then AtClose else AtAccept) s)
  | step_accept s : listener_at s = AtAccept → socket_shut s = false → step s Peer [] (goto AtRead s)
  | step_accept_shut s : listener_at s = AtAccept → socket_shut s = true → step s Quiet [] (goto AtOSError s)
  | step_accept_fails s : listener_at s = AtAccept → step s HostError [] (goto AtOSError s)
  | step_read_nothing s : listener_at s = AtRead → step s Peer [] (goto AtCheck s)
  | step_read s data : listener_at s = AtRead → data ≠ [] → length data ≤ Z.to_nat 1024 →
      step s Peer [EvLog INFO "Received event from container"] (goto (AtProcess data) s)
  | step_read_fails s : listener_at s = AtRead → step s HostError [] (goto AtOSError s)
  | step_process s data t r : listener_at s = AtProcess data →
      process_container_event start_env data () = (t, (), r) → step s Quiet t (goto (after_event r) s)
  | step_oserror s : listener_at s = AtOSError →
      step s Quiet [] (goto (if cancel_set s then AtClose else AtReport false) s)
  | step_exception s : listener_at s = AtException →
      step s Quiet [] (goto (if cancel_set s then AtClose else AtReport true) s)
  | step_report s unexpected msg : listener_at s = AtReport unexpected →
      step s Quiet [EvLog ERROR (report_text unexpected ++ msg)] (goto AtClose s)
  | step_close s : listener_at s = AtClose → step s Quiet [] (close_socket s).

(** Sequences of steps, with all their log records. *)
Inductive run : threads → list cause → list event → threads → Prop :=
  | run_nil s : run s [] [] s
  | run_cons s1 c t1 s2 cs t2 s3 : step s1 c t1 s2 → run s2 cs t2 s3 → run s1 (c :: cs) (t1 ++ t2) s3.
End Steps.

(** ** Outcomes of the handlers *)

Section HandlerFacts.
Context {S : Type} (start_env : option str).

Lemma log_latency_ok ts_end (s : S) : ∃ t, log_latency start_env ts_end s = (t, s, Ok ()).
Proof.
  unfold log_latency. destruct start_env as [[|c env]|]; [by eexists| |by eexists].
  unfold try_except, mbind, io_bind, lift_res. destruct (py_int (c :: env)) as [z|e] eqn:E; [by eexists|].
  assert (is_ValueError e = true) as ->; [|by eexists].
  unfold py_int in E. repeat case_match; naive_solver.
Qed.

Lemma handle_end_time_run value (s : S) : ∃ t,
  handle_entrypoint_end_time_ms start_env value s = (t, s,
    match py_int (strip value) with
    | Ok ts => if (ts <? 0)%Z then Ok () else
        match iso_of_ms ts with
        | Raise e => if is_ValueError e then Ok () else Raise e
        | Ok _ => Ok ()
        end
    | Raise _ => Ok ()
    end).
Proof.
  unfold handle_entrypoint_end_time_ms, try_except.
  destruct (py_int (strip value)) as [ts|e] eqn:E; [rewrite bind_lift_Ok|rewrite bind_lift_Raise].
  - destruct (ts <? 0)%Z; [rewrite bind_raise; by eexists|rewrite bind_ret].
    destruct (iso_of_ms ts) as [iso|e]; [rewrite bind_lift_Ok|rewrite bind_lift_Raise].
    + destruct (log_latency_ok ts s) as [t Ht]. unfold mbind, io_bind, log at 1, emit at 1. rewrite Ht. by eexists.
    + unfold raise. destruct (is_ValueError e); by eexists.
  - unfold raise. assert (is_ValueError e = true) as ->; [|by eexists].
    unfold py_int in E. repeat case_match; naive_solver.
Qed.

(** The value of a well-formed end-time event. *)
Definition end_time_value (data : bytes) : option str :=
  match split1 (strip (utf8_decode_replace 0 data)) 58 with
  | Some (n, v) => if bool_decide (n = "entrypoint_end_time_ms") then Some v else None
  | None => None
  end.
End HandlerFacts.

Lemma process_outcome {S : Type} start_env data (s : S) e :
  io_res (process_container_event start_env data s) = Raise e ↔
  ∃ v ts, end_time_value data = Some v ∧ py_int (strip v) = Ok ts ∧ (0 ≤ ts)%Z ∧
    iso_of_ms ts = Raise e ∧ (e = OverflowError ∨ e = OSError).
Proof.
  unfold process_container_event, end_time_value, mbind, io_bind, log, emit.
  destruct (split1 _ 58) as [[n v]|]; [|cbn; naive_solver].
  case_bool_decide; [|cbn; naive_solver].
  destruct (handle_end_time_run start_env v s) as [t ->]. unfold io_res. cbn [snd]. split.
  - destruct (py_int (strip v)) as [ts|] eqn:Ep; [|done]. destruct (Z.ltb_spec ts 0); [done|].
    destruct (iso_of_ms ts) as [|e'] eqn:Ei; [done|]. destruct (is_ValueError e') eqn:Ev; [done|]. intros [= <-].
    exists v, ts. split_and!; try done.
    destruct (iso_of_ms_errors ts e' Ei) as [?|[?|[msg ->]]]; [by left|by right|done].
  - intros (v' & ts & [= <-] & -> & Hts & -> & He). rewrite (proj2 (Z.ltb_ge ts 0)) by done.
    by destruct He as [-> | ->].
Qed.

(** C34: [process_container_event] handles every event, malformed ones
    included, without an exception, with one exception: an end time that is a
    non-negative integer but so large that the conversion to a date fails with
    [OverflowError] or [OSError], which are not [ValueError]s. *)
Theorem process_container_event_outcome {S : Type} start_env data (s : S) e :
  io_res (process_container_event start_env data s) = Raise e ↔
  ∃ v ts, end_time_value data = Some v ∧ py_int (strip v) = Ok ts ∧ (0 ≤ ts)%Z ∧
    iso_of_ms ts = Raise e ∧ (e = OverflowError ∨ e = OSError).
Proof. apply process_outcome. Qed.

(** ** Cancellation *)

Section Cancellation.
Context (start_env : option str).

(** Where the listener can be when [shutdown] had no effect: it was called
    too early, and the check of the event comes before the first [accept], or
    too late. *)
Definition not_accepting (p : listener) : Prop := p = AtListen ∨ p = AtCheck ∨ p = AtClose ∨ p = AtEnd.

(** The order of the two steps of [set], and what the listener closes. *)
Record threads_inv (s : threads) : Prop := {
  ti_set : cancel_set s = negb (bool_decide (canceller_at s = NotCalled));
  ti_unshut : socket_shut s = false → canceller_at s = Returned → not_accepting (listener_at s);
  ti_listening : socket_listening s = false → listener_at s = AtListen ∨ listener_at s = AtClose ∨ listener_at s = AtEnd;
  ti_closed : socket_closed s = bool_decide (listener_at s = AtEnd)
}.

Lemma cancelled_set s : threads_inv s → canceller_at s = Returned → cancel_set s = true.
Proof. intros [H1 _ _ _] Hc. by rewrite H1, Hc. Qed.

Lemma after_event_cases r : after_event r = AtCheck ∨ after_event r = AtOSError ∨ after_event r = AtException.
Proof. destruct r as [|e]; cbn; [auto|]. destruct (is_OSError e); auto. Qed.

(** A move of the listener that keeps the invariant, between two places that
    are neither the start nor the end. *)
Lemma goto_inv s p : threads_inv s → listener_at s ≠ AtEnd → p ≠ AtEnd →
  (socket_shut s = false → canceller_at s = Returned → not_accepting p) →
  (socket_listening s = false → p = AtClose) → threads_inv (goto p s).
Proof.
  intros [H1 H2 H3 H4] Hn Hp Ha Hl. split; cbn; [done|done|auto|].
  rewrite H4, !bool_decide_eq_false_2; done.
Qed.

(** A move from a place inside the body of the loop. *)
Lemma goto_busy s p : threads_inv s → ¬ not_accepting (listener_at s) → listener_at s ≠ AtListen → p ≠ AtEnd →
  threads_inv (goto p s).
Proof.
  unfold not_accepting. intros Hi Hb Hn Hp. pose proof Hi as [_ H2 H3 _]. unfold not_accepting in H2.
  apply goto_inv; [done|naive_solver..].
Qed.

Lemma step_inv s c t s' : threads_inv s → step start_env s c t s' → threads_inv s'.
Proof.
  intros Hi Hs. pose proof Hi as [H1 H2 H3 H4]. unfold not_accepting in *.
  destruct Hs as [s Hc|s Hc|s a Hl|s m Hl|s Hl|s Hl Hsh|s Hl Hsh|s Hl|s Hl|s data Hl|s Hl|s data t r Hl Hp|s Hl|s Hl|s u m Hl|s Hl];
    try (apply goto_inv; unfold not_accepting; rewrite ?Hl in *; naive_solver).
  - split; cbn; done.
  - split; cbn; [by rewrite H1, Hc| |done|done]. intros [_ Hsh]%orb_false_iff _. unfold not_accepting.
    apply andb_false_iff in Hsh as [Hsh|Hsh]; [naive_solver|]. apply negb_false_iff in Hsh.
    rewrite H4 in Hsh. apply bool_decide_eq_true in Hsh. auto.
  - split; cbn; [done| |done|by rewrite H4, Hl]. unfold not_accepting. auto.
  - pose proof (cancelled_set s Hi). apply goto_inv; unfold not_accepting; rewrite ?Hl; [done|done| | |intros [?|[?|?]]%H3; congruence].
    + by destruct (cancel_set s).
    + intros _ Hc. rewrite H by done. auto.
  - apply goto_busy; [done|rewrite Hl; unfold not_accepting; naive_solver|by rewrite Hl|destruct (after_event_cases r) as [-> |[-> | ->]]; done].
  - apply goto_busy; [done|rewrite Hl; unfold not_accepting; naive_solver|by rewrite Hl|by destruct (cancel_set s)].
  - apply goto_busy; [done|rewrite Hl; unfold not_accepting; naive_solver|by rewrite Hl|by destruct (cancel_set s)].
  - split; cbn; [done|unfold not_accepting; auto|auto|done].
Qed.

Lemma run_inv s cs t s' : threads_inv s → run start_env s cs t s' → threads_inv s'.
Proof. intros Hi Hr. induction Hr; eauto using step_inv. Qed.

Lemma start_inv : threads_inv start_container_event_handler.
Proof. split; cbn; unfold not_accepting; auto. Qed.

(** How many steps a cancelled listener can still make. *)
Definition steps_left (p : listener) : nat :=
  match p with
  | AtListen => 8 | AtRead => 6 | AtProcess _ => 5 | AtCheck => 4 | AtAccept => 3
  | AtOSError | AtException | AtReport _ => 2 | AtClose => 1 | AtEnd => 0
  end.

Lemma cancelled_step s c t s' : threads_inv s → canceller_at s = Returned → step start_env s c t s' →
  steps_left (listener_at s') < steps_left (listener_at s) ∧ canceller_at s' = Returned.
Proof.
  intros Hi Hc Hs. pose proof (cancelled_set s Hi Hc) as Hset. pose proof (ti_unshut s Hi) as Hun.
  destruct Hs as [s Hn|s Hn|s a Hl|s m Hl|s Hl|s Hl Hsh|s Hl Hsh|s Hl|s Hl|s data Hl|s Hl|s data t r Hl Hp|s Hl|s Hl|s u m Hl|s Hl];
    try congruence; cbn; rewrite Hl, ?Hset; (split; [|done]); cbn; try lia.
  - destruct (Hun Hsh Hc) as [?|[?|[?|?]]]; congruence.
  - destruct (after_event_cases r) as [-> |[-> | ->]]; cbn; lia.
Qed.

Lemma cancelled_run s cs t s' : threads_inv s → canceller_at s = Returned → run start_env s cs t s' →
  length cs + steps_left (listener_at s') ≤ steps_left (listener_at s).
Proof.
  intros Hi Hc Hr. revert Hi Hc. induction Hr as [s|s1 c t1 s2 cs t2 s3 Hs _ IH]; intros Hi Hc; cbn; [done|].
  destruct (cancelled_step _ _ _ _ Hi Hc Hs) as [? Hc2]. specialize (IH (step_inv _ _ _ _ Hi Hs) Hc2). lia.
Qed.

Lemma cancelled_bound s cs t s' : threads_inv s → canceller_at s = Returned → run start_env s cs t s' → length cs ≤ 8.
Proof.
  intros Hi Hc Hr. pose proof (cancelled_run _ _ _ _ Hi Hc Hr).
  assert (steps_left (listener_at s) ≤ 8) by (destruct (listener_at s); cbn; lia). lia.
Qed.

(** A cancelled listener that does not wait for a peer to send moves on by
    itself, and does not come to wait for one. *)
Lemma cancelled_progress s : threads_inv s → canceller_at s = Returned → listener_at s ≠ AtEnd → listener_at s ≠ AtRead →
  ∃ t s', step start_env s Quiet t s' ∧ listener_at s' ≠ AtRead.
Proof.
  intros Hi Hc He Hr. pose proof (cancelled_set s Hi Hc) as Hset. pose proof (ti_unshut s Hi) as Hun.
  destruct (listener_at s) as [| | | |data| | |u| |] eqn:Hl; try done.
  - eexists _, _. split; [by eapply (step_listen _ _ [])|done].
  - eexists _, _. split; [by apply step_check|]. cbn. by rewrite Hset.
  - destruct (socket_shut s) eqn:Hs; [|destruct (Hun eq_refl Hc) as [?|[?|[?|?]]]; congruence].
    eexists _, _. split; [by apply step_accept_shut|done].
  - destruct (process_container_event start_env data ()) as [[t []] r] eqn:Ep.
    eexists _, _. split; [by eapply step_process|]. cbn. destruct (after_event_cases r) as [-> |[-> | ->]]; done.
  - eexists _, _. split; [by eapply step_oserror|]. cbn. by rewrite Hset.
  - eexists _, _. split; [by eapply step_exception|]. cbn. by rewrite Hset.
  - eexists _, _. split; [by eapply (step_report _ _ u [])|done].
  - eexists _, _. split; [by apply step_close|done].
Qed.

Lemma cancelled_end s : threads_inv s → canceller_at s = Returned → listener_at s ≠ AtRead →
  ∃ cs t s', run start_env s cs t s' ∧ Forall (.= Quiet) cs ∧ listener_at s' = AtEnd ∧ socket_closed s' = true.
Proof.
  remember (steps_left (listener_at s)) as n eqn:Hn. revert s Hn.
  induction n as [n IH] using lt_wf_ind. intros s -> Hi Hc Hr. destruct (decide (listener_at s = AtEnd)) as [He|He].
  { exists [], [], s. split_and!; [constructor|constructor|done|]. rewrite (ti_closed s Hi). by apply bool_decide_eq_true. }
  destruct (cancelled_progress s Hi Hc He Hr) as (t & s' & Hs & Hr'). destruct (cancelled_step s _ t s' Hi Hc Hs) as [Hlt Hc'].
  destruct (IH _ Hlt s' eq_refl (step_inv _ _ _ _ Hi Hs) Hc' Hr') as (cs & t' & s2 & Hrun & Hq & ?).
  exists (Quiet :: cs), (t ++ t'), s2. split_and!; [by eapply run_cons|by constructor|naive_solver..].
Qed.

(** Reading waits for the peer, cancelled or not. *)
Lemma reading_waits s c t s' : canceller_at s = Returned → listener_at s = AtRead → step start_env s c t s' → c ≠ Quiet.
Proof. intros Hc Hl Hs. destruct Hs; congruence. Qed.

(** *** What a cancelled listener reports *)

(** The records of the two handlers around the loop's body. *)
Definition listener_error (e : event) : Prop := ∃ unexpected m, e = EvLog ERROR (report_text unexpected ++ m).

(** The event was found clear, and the error is about to be logged. *)
Definition reporting (s : threads) : Prop := ∃ unexpected, listener_at s = AtReport unexpected.

Definition handler_record (e : event) : Prop := ¬ listener_error e.

Lemma info_record l m : l ≠ ERROR → handler_record (EvLog l m).
Proof. intros Hl (u & m' & [= ? _]). congruence. Qed.

Lemma parse_record m : handler_record (EvLog ERROR ("Failed to parse entrypoint_end_time_ms: " ++ m)).
Proof. intros ([] & m' & Hm); discriminate Hm. Qed.

Lemma process_records {S : Type} data : emits handler_record (process_container_event (S := S) start_env data).
Proof.
  assert (∀ l m, l ≠ ERROR → emits handler_record (log (S := S) l m)) as Hlog
    by (intros l m Hl; apply emits_emit, info_record, Hl).
  assert (∀ ts, emits handler_record (log_latency (S := S) start_env ts)) as Hlat.
  { intros ts. unfold log_latency. destruct start_env as [[|c env]|]; [by apply Hlog| |by apply Hlog].
    apply emits_try; [emits_auto; by apply Hlog|]. intros e k. case_match; [|done]. intros [= <-]. by apply Hlog. }
  apply emits_bind; [by apply Hlog|intros _]. destruct (split1 _ 58) as [[n v]|]; [|by apply Hlog].
  case_bool_decide; [|by apply Hlog]. apply emits_try.
  - emits_auto; [by apply Hlog|done].
  - intros e k. case_match; [|done]. intros [= <-]. apply emits_emit, parse_record.
Qed.

Lemma start_record m : handler_record (EvLog ERROR ("Failed in container event listener: " ++ m)).
Proof. intros ([] & m' & Hm); discriminate Hm. Qed.

(** A step after the event was set logs no error of the listener and does not
    come to report one, or it makes the one report already decided. *)
Lemma cancelled_step_silent s c t s' : cancel_set s = true → step start_env s c t s' → cancel_set s' = true ∧
  ((Forall handler_record t ∧ (reporting s' → reporting s)) ∨
   (reporting s ∧ ¬ reporting s' ∧ ∃ e, t = [e] ∧ listener_error e)).
Proof.
  unfold reporting. intros Hc Hs.
  destruct Hs as [s|s|s a|s m|s|s|s|s|s|s|s|s data t r Hl Hp|s|s|s u m Hl|s]; cbn; rewrite ?Hc; (split; [done|]);
    try (left; split; [repeat constructor; first [by apply info_record|apply start_record]|intros [u Hu]; by eauto]).
  - left. split; [pose proof (process_records data ()) as Hr; by rewrite Hp in Hr|]. intros [u Hu].
    destruct (after_event_cases r) as [E|[E|E]]; congruence.
  - right. split; [by exists u|]. split; [by intros [? ?]|]. eexists. split; [done|]. by exists u, m.
Qed.

Lemma cancelled_run_silent s cs t s' : cancel_set s = true → run start_env s cs t s' →
  Forall handler_record t ∨
  (reporting s ∧ ∃ t1 e t2, t = t1 ++ e :: t2 ∧ listener_error e ∧ Forall handler_record t1 ∧ Forall handler_record t2).
Proof.
  intros Hc Hr. revert Hc. induction Hr as [s|s1 c t1 s2 cs t2 s3 Hs _ IH]; intros Hc; [by left|].
  destruct (cancelled_step_silent _ _ _ _ Hc Hs) as [Hc2 [[Ht Hrep]|(Hrep & Hno & e & -> & He)]].
  - destruct (IH Hc2) as [?|(? & ta & e & tb & -> & ? & ? & ?)]; [left; by apply Forall_app|right].
    split; [auto|]. exists (t1 ++ ta), e, tb. split_and!; [by rewrite <-app_assoc|done|by apply Forall_app|done].
  - right. split; [done|]. destruct (IH Hc2) as [Ht2|[? _]]; [|done]. exists [], e, t2. by split_and!.
Qed.
End Cancellation.

(** C23: once [SocketCancelEvent.set] has returned, at whatever moment it was
    called, the listener makes at most eight more steps, whatever connections
    arrive, and it ends by itself, with the socket closed, except while it
    reads from a connection: then every step needs the peer. *)
Theorem cancelled_listener_ends start_env cs0 t0 s :
  run start_env start_container_event_handler cs0 t0 s → canceller_at s = Returned →
  (∀ cs t s', run start_env s cs t s' → length cs ≤ 8) ∧
  (listener_at s ≠ AtRead → ∃ cs t s', run start_env s cs t s' ∧ Forall (.= Quiet) cs ∧
     listener_at s' = AtEnd ∧ socket_closed s' = true) ∧
  (listener_at s = AtRead → ∀ c t s', step start_env s c t s' → c ≠ Quiet).
Proof.
  intros Hr Hc. pose proof (run_inv _ _ _ _ _ start_inv Hr) as Hi. split_and!.
  - intros cs t s'. by apply cancelled_bound.
  - by apply cancelled_end.
  - intros Hl c t s'. by apply reading_waits.
Qed.

(** C24: cancelling is not reported as an error.  After the event was set the
    handlers around the loop of the listener log nothing, however its calls on
    the socket fail, unless a handler had checked the event before it was set
    and was about to log; then there is at most that one record. *)
Theorem cancellation_is_silent start_env s cs t s' :
  cancel_set s = true → run start_env s cs t s' →
  (∀ e, e ∈ t → listener_error e → reporting s) ∧
  (∀ t1 e t2, t = t1 ++ e :: t2 → listener_error e → ∀ e', e' ∈ t1 ++ t2 → ¬ listener_error e').
Proof.
  intros Hc Hr. destruct (cancelled_run_silent _ _ _ _ _ Hc Hr) as [Ht|(Hrep & ta & e & tb & -> & He & Ha & Hb)].
  - pose proof (proj1 (Forall_forall _ _) Ht) as Hno. split; [intros e Hin He; by destruct (Hno e Hin He)|].
    intros t1 e t2 -> He. exfalso. apply (Hno e); [set_solver|done].
  - split; [done|]. intros t1 e' t2 Heq He'.
    apply (split_at_only listener_error) in Heq as (-> & -> & ->); [|done..].
    intros x Hx. apply (proj1 (Forall_forall handler_record (ta ++ tb))); [by apply Forall_app|done].
Qed.

(** ** An oversized end time *)

(** A well-formed end time whose conversion to a date fails with an error that
    is not a [ValueError]. *)
Definition too_large (data : bytes) : Prop :=
  ∃ v ts, end_time_value data = Some v ∧ py_int (strip v) = Ok ts ∧ (0 ≤ ts)%Z ∧
    (iso_of_ms ts = Raise OverflowError ∨ iso_of_ms ts = Raise OSError).

(** The listener does not go back to accepting connections. *)
Definition ending (data : bytes) (p : listener) : Prop :=
  p = AtProcess data ∨ p = AtOSError ∨ p = AtException ∨ (∃ u, p = AtReport u) ∨ p = AtClose ∨ p = AtEnd.

Lemma too_large_outcome start_env data t r :
  process_container_event start_env data () = (t, (), r) →
  (too_large data ∧ (after_event r = AtException ∨ after_event r = AtOSError)) ∨
  (¬ too_large data ∧ after_event r = AtCheck).
Proof.
  intros Hr. pose proof (process_outcome start_env data ()) as Ho. rewrite Hr in Ho. unfold io_res in Ho. cbn [snd] in Ho.
  destruct r as [[]|e]; [right|left].
  - split; [|done]. intros (v & ts & Hv & Hts & Hpos & Hi).
    destruct Hi as [Hi|Hi]; [specialize (Ho OverflowError)|specialize (Ho OSError)];
      (discriminate (proj2 Ho); exists v, ts; auto 10).
  - destruct (proj1 (Ho e) eq_refl) as (v & ts & Hv & Hts & Hpos & Hi & He).
    split; [exists v, ts; split_and!; try done|]; destruct He; subst; auto.
Qed.

Lemma ending_step start_env data s c t s' : too_large data → step start_env s c t s' →
  ending data (listener_at s) → ending data (listener_at s').
Proof.
  unfold ending. intros Hb Hs He.
  destruct Hs as [s|s|s a|s m|s|s|s|s|s|s|s|s data' t r Hl Hp|s|s|s u m|s]; try done;
    try (exfalso; naive_solver congruence); cbn; repeat (match goal with |- context [if cancel_set s then _ else _] => destruct (cancel_set s) end); eauto 10.
  assert (data' = data) as -> by naive_solver congruence.
  destruct (too_large_outcome _ _ _ _ Hp) as [[_ [-> | ->]]|[? _]]; auto; done.
Qed.

(** C38: an end time that fits no date ends the listener.  Once an event was
    read whose value is a non-negative integer that makes the conversion raise
    [OverflowError] or [OSError] (and not merely [ValueError], the error for a
    year above 9999), no run lets the listener go back to accepting
    connections; after every other event it goes back to the loop. *)
Theorem oversized_end_time_ends_listener start_env data s :
  listener_at s = AtProcess data →
  (too_large data → ∀ cs t s', run start_env s cs t s' → ending data (listener_at s')) ∧
  (¬ too_large data → ∀ c t s', step start_env s c t s' → listener_at s' = AtProcess data ∨ listener_at s' = AtCheck).
Proof.
  intros Hs. split.
  - intros Hb cs t s' Hr. assert (ending data (listener_at s)) as Hl by (rewrite Hs; by left).
    clear Hs. induction Hr; eauto using ending_step.
  - intros Hb c t s' Hst. destruct Hst as [| | | | | | | | | | |s data' t r Hl Hp| | | |]; try (cbn; congruence); cbn; auto.
    assert (data' = data) as -> by congruence. destruct (too_large_outcome _ _ _ _ Hp) as [[? _]|[_ ->]]; [done|auto].
Qed.

(** ** Sample runs *)

Definition cancelled_early : threads := Threads true true true false AtCheck Returned.

Lemma cancelled_early_run : ∃ cs t, run None start_container_event_handler cs t cancelled_early.
Proof.
  eexists _, _. eapply run_cons; [by apply (step_listen _ _ "127.0.0.1:4000")|].
  eapply run_cons; [by apply step_set|]. eapply run_cons; [by apply step_shutdown|]. apply run_nil.
Qed.

(** Cancelled before it listens, where [shutdown] has no effect. *)
Definition cancelled_first : threads := Threads true false false false AtListen Returned.

Lemma cancelled_first_run : ∃ cs t, run None start_container_event_handler cs t cancelled_first.
Proof.
  eexists _, _. eapply run_cons; [by apply step_set|]. eapply run_cons; [by apply step_shutdown|]. apply run_nil.
Qed.

Lemma cancelled_listener_ends_witness :
  (∃ cs t s', run None cancelled_early cs t s' ∧ listener_at s' = AtEnd) ∧
  (∃ cs t s', run None cancelled_first cs t s' ∧ listener_at s' = AtEnd).
Proof.
  split.
  - destruct cancelled_early_run as (cs & t & Hr).
    destruct (cancelled_listener_ends None cs t cancelled_early Hr eq_refl) as (_ & Hp & _).
    destruct (Hp ltac:(discriminate)) as (cs' & t' & s' & Hr' & _ & He & _). exists cs', t', s'. split; [exact Hr'|exact He].
  - destruct cancelled_first_run as (cs & t & Hr).
    destruct (cancelled_listener_ends None cs t cancelled_first Hr eq_refl) as (_ & Hp & _).
    destruct (Hp ltac:(discriminate)) as (cs' & t' & s' & Hr' & _ & He & _). exists cs', t', s'. split; [exact Hr'|exact He].
Defined.

(** Cancelled while it processes an event: the record of the event is the
    last one, and the error of the socket that follows is not reported. *)
Definition cancelled_processing : threads := Threads true true true false (AtProcess "x") Returned.

Definition malformed_records : list event :=
  [EvLog INFO "Container event data: x"; EvLog WARNING "Malformed container event: x"].

Lemma cancelled_processing_run :
  run None cancelled_processing [Quiet; Quiet; Quiet] malformed_records (close_socket (goto AtClose (goto AtCheck cancelled_processing))).
Proof.
  eapply (run_cons _ _ _ malformed_records _ _ []); [by apply (step_process None _ "x" _ (Ok ()))|].
  eapply (run_cons _ _ _ []); [by apply step_check|]. eapply (run_cons _ _ _ []); [by apply step_close|]. apply run_nil.
Qed.

(** Cancelled between the check of a handler and its record. *)
Definition cancelled_reporting : threads := Threads true true true false (AtReport false) Returned.

Lemma cancelled_reporting_run : ∃ cs t, run None start_container_event_handler cs t cancelled_reporting.
Proof.
  eexists _, _. eapply run_cons; [by apply (step_listen _ _ "127.0.0.1:4000")|]. eapply run_cons; [by apply step_check|].
  eapply run_cons; [by apply step_accept_fails|]. eapply run_cons; [by apply step_oserror|].
  eapply run_cons; [by apply step_set|]. eapply run_cons; [by apply step_shutdown|]. apply run_nil.
Qed.

Definition late_record : event := EvLog ERROR "Error in container event listener: bad".

Lemma late_record_run : run None cancelled_reporting [Quiet; Quiet] [late_record] (close_socket (goto AtClose cancelled_reporting)).
Proof.
  eapply (run_cons _ _ _ [late_record] _ _ []); [by apply (step_report _ _ false "bad")|].
  eapply (run_cons _ _ _ []); [by apply step_close|]. apply run_nil.
Qed.

Lemma cancellation_is_silent_witness :
  Forall (λ e, ¬ listener_error e) malformed_records ∧
  (listener_error late_record ∧ reporting cancelled_reporting).
Proof.
  split.
  - apply Forall_forall. intros e Hin He.
    destruct (proj1 (cancellation_is_silent None cancelled_processing _ _ _ eq_refl cancelled_processing_run) e Hin He) as [u Hu].
    discriminate Hu.
  - assert (listener_error late_record) as He by (exists false, "bad"; reflexivity). split; [exact He|].
    exact (proj1 (cancellation_is_silent None cancelled_reporting _ _ _ eq_refl late_record_run) late_record (list_elem_of_here _ _) He).
Defined.

Definition oversized_event : bytes := "entrypoint_end_time_ms:10000000000000000000000".
Definition year_10000_event : bytes := "entrypoint_end_time_ms:253402300800000".

Lemma oversized_too_large : too_large oversized_event.
Proof.
  exists "10000000000000000000000", (10 ^ 22)%Z.
  split_and!; try (vm_compute; reflexivity); [vm_compute; discriminate|left; vm_compute; reflexivity].
Qed.

Lemma year_10000_not_too_large : ¬ too_large year_10000_event.
Proof.
  intros (v & ts & Hv & Hts & _ & Hi). vm_compute in Hv. injection Hv as <-. vm_compute in Hts. injection Hts as <-.
  vm_compute in Hi. destruct Hi as [Hi|Hi]; discriminate Hi.
Qed.

Definition processing (data : bytes) : threads := Threads false true false false (AtProcess data) NotCalled.

Lemma oversized_end_time_ends_listener_witness :
  (∃ cs t s', run None (processing oversized_event) cs t s' ∧ cs ≠ [] ∧ ending oversized_event (listener_at s')) ∧
  (∃ t s', step None (processing year_10000_event) Quiet t s' ∧
     (listener_at s' = AtProcess year_10000_event ∨ listener_at s' = AtCheck)).
Proof.
  split.
  - destruct (process_container_event None oversized_event ()) as [[t []] r] eqn:Hp.
    assert (run None (processing oversized_event) [Quiet] (t ++ []) (goto (after_event r) (processing oversized_event))) as Hr
      by exact (run_cons None _ _ _ _ _ _ _ (step_process None (processing oversized_event) oversized_event t r eq_refl Hp)
                  (run_nil None _)).
    exists [Quiet], (t ++ []), (goto (after_event r) (processing oversized_event)). split; [exact Hr|]. split; [discriminate|].
    exact (proj1 (oversized_end_time_ends_listener None oversized_event (processing oversized_event) eq_refl)
             oversized_too_large _ _ _ Hr).
  - destruct (process_container_event None year_10000_event ()) as [[t []] r] eqn:Hp.
    pose proof (step_process None (processing year_10000_event) year_10000_event t r eq_refl Hp) as Hs.
    exists t, (goto (after_event r) (processing year_10000_event)). split; [exact Hs|].
    exact (proj2 (oversized_end_time_ends_listener None year_10000_event (processing year_10000_event) eq_refl)
             year_10000_not_too_large _ _ _ Hs).
Defined.
