(* ===== verification/Launch.v ===== *)
(** * The launcher and its listener

    [docker_run.py] as one thread, whose events are its trace, beside the
    thread of [container_event_handler.py] it starts and cancels: what is
    known of the listener at each point of the launcher, whatever the
    interleaving. *)
From S2P Require Import Prelude PyStr PyFloat Json Sha256 PyPath Fs FsWrite Proc Mounts DockerBuild Cleanup DockerRun Shlex DockerRunFacts Events.

(** ** Interleavings *)

Section World.
Context (start_env : option str) (name : str).

(** A step of the listener's own. *)
Definition listener_step (s s' : threads) : Prop :=
  ∃ c t, step start_env s c t s' ∧ canceller_at s' = canceller_at s.

(** After the events [tr] of the launcher, the listener's thread can be in the
    state [w]; [None] before it is started.  The two steps of
    [SocketCancelEvent.set] are made by the launcher, the listener can go on
    between them and at any other time. *)
Inductive world : list event → option threads → Prop :=
  | world_init : world [] None
  | world_other tr w e : world tr w → e ≠ EvStart name → e ≠ EvCancel name → world (tr ++ [e]) w
  | world_start tr w : world tr w → world (tr ++ [EvStart name]) (Some start_container_event_handler)
  | world_cancel tr s s' : world tr (Some s) → canceller_at s = NotCalled → rtc listener_step (set_event s) s' →
      world (tr ++ [EvCancel name]) (Some (shutdown_socket s'))
  | world_listener tr s s' : world tr (Some s) → listener_step s s' → world tr (Some s').

Lemma run_snoc s cs t s' c t' s'' : run start_env s cs t s' → step start_env s' c t' s'' →
  run start_env s (cs ++ [c]) (t ++ t') s''.
Proof.
  intros Hr Hs. induction Hr as [s|s1 c1 t1 s2 cs t2 s3 Hs1 _ IH]; cbn.
  - rewrite <-(app_nil_r t'). by eapply run_cons, run_nil.
  - rewrite <-app_assoc. by eapply run_cons, IH.
Qed.

(** The states in which the listener's thread can be. *)
Definition reached (s : threads) : Prop := ∃ cs t, run start_env start_container_event_handler cs t s.

Lemma reached_step s c t s' : reached s → step start_env s c t s' → reached s'.
Proof. intros (cs & t0 & Hr) Hs. eexists _, _. by eapply run_snoc. Qed.

Lemma reached_steps s s' : reached s → rtc listener_step s s' → reached s' ∧ canceller_at s' = canceller_at s.
Proof.
  intros Hr Hs. induction Hs as [s|s1 s2 s3 (c & t & Hs & Hc) _ IH]; [done|].
  destruct IH as [? ->]; [by eapply reached_step|done].
Qed.

(** What the launcher's events say about the listener. *)
Lemma world_known tr w : world tr w →
  (EvStart name ∈ tr → is_Some w) ∧
  ∀ s, w = Some s → reached s ∧
    (EvCancel name ∉ tr → canceller_at s = NotCalled) ∧
    (∀ a b, tr = a ++ EvCancel name :: b → EvStart name ∉ b → canceller_at s = Returned).
Proof.
  induction 1 as [|tr w e _ [IH1 IH2] He1 He2|tr w _ _|tr s s' _ [_ IH] Hn Hs|tr s s' _ [IH1 IH] (c & t & Hs & Hc)].
  - split; [by intros ?%elem_of_nil|done].
  - split; [rewrite elem_of_app, list_elem_of_singleton; naive_solver|]. intros s Hs.
    destruct (IH2 s Hs) as (Hr & HN & HR). split_and!; [done|rewrite elem_of_app; naive_solver|].
    intros a b Hab Hb. destruct b as [|y b] using rev_ind; [by apply app_inj_tail in Hab as [_ ?]|].
    rewrite app_comm_cons, app_assoc in Hab. apply app_inj_tail in Hab as [-> ->].
    apply (HR a b); [done|set_solver].
  - split; [by eexists|]. intros s [= <-]. split_and!; [by eexists _, _; apply run_nil|done|].
    intros a b Hab Hb. destruct b as [|y b] using rev_ind; [by apply app_inj_tail in Hab as [_ ?]|].
    rewrite app_comm_cons, app_assoc in Hab. apply app_inj_tail in Hab as [_ <-]. set_solver.
  - split; [by eexists|]. intros s0 [= <-]. destruct (IH s eq_refl) as (Hr & _ & _).
    assert (reached (set_event s)) as Hset by (eapply reached_step; [done|by apply step_set]).
    destruct (reached_steps _ _ Hset Hs) as [Hr' Hc']. split_and!; [|set_solver|done].
    eapply reached_step; [done|]. by apply step_shutdown.
  - split; [by eexists|]. intros s0 [= <-]. destruct (IH s eq_refl) as (Hr & HN & HR).
    rewrite Hc. split_and!; [by eapply reached_step|done|done].
Qed.

(** Interleavings exist for every sequence of events that starts the listener
    and cancels it once. *)
Lemma world_exists tr : EvCancel name ∉ tr → ∃ w, world tr w.
Proof.
  induction tr as [|e tr IH] using rev_ind; intros Hn; [by eexists; constructor|].
  rewrite elem_of_app, list_elem_of_singleton in Hn. destruct IH as [w Hw]; [naive_solver|].
  destruct (decide (e = EvStart name)) as [->|He]; eexists; [by eapply world_start|by apply world_other; [..|naive_solver]].
Qed.

Lemma world_cancelled tr b : EvCancel name ∉ tr → EvStart name ∈ tr → Forall (λ e, e ≠ EvStart name ∧ e ≠ EvCancel name) b →
  ∃ w, world (tr ++ EvCancel name :: b) w.
Proof.
  intros Hn Hs Hb. destruct (world_exists tr Hn) as [w Hw]. destruct (world_known tr w Hw) as [[s ->] Hk]; [done|].
  destruct (Hk s eq_refl) as (_ & HN & _). assert (world (tr ++ [EvCancel name]) (Some (shutdown_socket (set_event s)))) as Hc
    by (eapply world_cancel; [done|by apply HN|apply rtc_refl]).
  exists (Some (shutdown_socket (set_event s))). induction b as [|e b IH] using rev_ind; [done|].
  apply Forall_app in Hb as [Hb He]. apply Forall_singleton in He as [He1 He2].
  rewrite app_comm_cons, app_assoc. apply world_other; [by apply IH|done|done].
Qed.
End World.

(** A listener that is cancelled: it makes at most eight more steps, and ends
    by itself unless it waits for a peer. *)
Definition listener_ends (start_env : option str) (s : threads) : Prop :=
  (∀ cs t s', run start_env s cs t s' → length cs ≤ 8) ∧
  (listener_at s ≠ AtRead → ∃ cs t s', run start_env s cs t s' ∧ Forall (.= Quiet) cs ∧
     listener_at s' = AtEnd ∧ socket_closed s' = true).

Lemma reached_ends start_env s : reached start_env s → canceller_at s = Returned → listener_ends start_env s.
Proof.
  intros (cs & t & Hr) Hc. pose proof (run_inv _ _ _ _ _ (start_inv) Hr) as Hi.
  split; [intros cs' t' s'; by apply cancelled_bound|by apply cancelled_end].
Qed.

(** ** The launcher *)

(** C21: whatever happens, a [docker run] is preceded by a log line which, read
    by a POSIX shell's rules, is exactly the command that is run, and the
    clean-up has been started before it; after it both threads are cancelled
    and waited for, also when the container fails, when the user interrupts
    it, and when docker is missing.  In every interleaving, when the container
    is started the event listener has been started and has not been cancelled
    (it may have ended by an error of its own); and when the launcher waits
    for it, it is cancelled: it makes at most eight more steps, and ends by
    itself unless a peer keeps it reading. *)
Theorem docker_run_threads `{JsonRepr} `{HexDigest} `{PySetOrder} `{PathSetOrder} `{RecursionLimit} `{Host X} `{Popen X}
    `{Interrupts X} pr fuel args (st : fsys * X) start_env before cmd after :
  io_trace (main pr fuel args st) = before ++ EvRun cmd :: after → head cmd = Some ("docker" : str) →
  (∃ line, EvLog INFO line ∈ before ∧ shlex_split line = Ok cmd) ∧ EvStart cleanup_thread_name ∈ before ∧
  after = cancels pr ∧
  (∀ w, world start_env (handler_thread_name pr) before w → ∃ s, w = Some s ∧ cancel_set s = false) ∧
  (∀ w, world start_env (handler_thread_name pr) (before ++ EvRun cmd :: take 3 after) w →
     ∃ s, w = Some s ∧ cancel_set s = true ∧ listener_ends start_env s).
Proof.
  intros Ht Hd. set (runs_docker e := ∃ cmd, e = EvRun cmd ∧ head cmd = Some ("docker" : str)).
  assert (∀ t, Forall before_container t → Forall (λ e, ¬ runs_docker e) t) as Hno.
  { intros t Hb. eapply Forall_impl; [exact Hb|]. by intros e He (c & -> & Hc). }
  destruct (main_trace pr fuel args st) as [Hb|(pre & cmd' & Htr & Hb & Hlog & Hh & Hcl)].
  { rewrite Ht in Hb. apply Forall_app in Hb as [_ Hb]. apply Forall_cons in Hb as [Hb _]. by destruct Hb. }
  rewrite Ht in Htr. symmetry in Htr.
  apply (split_at_only runs_docker) in Htr as (-> & [= <-] & ->); [|by apply Hno| |by exists cmd].
  2: { repeat constructor; by intros (? & ? & _). }
  assert (EvCancel (handler_thread_name pr) ∉ pre) as Hnc by (intros Hin; exact (proj1 (Forall_forall _ _) Hb _ Hin)).
  split_and!; [exists (shlex_join cmd); split; [done|apply shlex_roundtrip]|done|done|..].
  - intros w Hw. apply world_known in Hw as [Hs Hw]. destruct (Hs Hh) as [s ->]. exists s. split; [done|].
    destruct (Hw s eq_refl) as ((cs & t & Hr) & HN & _). pose proof (run_inv _ _ _ _ _ start_inv Hr) as Hi.
    by rewrite (ti_set _ Hi), HN.
  - intros w Hw. apply world_known in Hw as [Hs Hw]. destruct Hs as [s ->]; [rewrite elem_of_app; by left|].
    exists s. split; [done|]. destruct (Hw s eq_refl) as (Hr & _ & HR).
    specialize (HR (pre ++ [EvRun cmd; EvCancel cleanup_thread_name]) [EvJoin cleanup_thread_name]).
    rewrite <-app_assoc in HR. specialize (HR eq_refl ltac:(set_solver)).
    split; [|by apply reached_ends]. destruct Hr as (cs & t & Hr).
    by eapply cancelled_set; [eapply run_inv; [apply start_inv|exact Hr]|].
Qed.

(** ** A sample *)

#[local] Existing Instance sha256_digest.
#[local] Existing Instance encoding_order.
#[local] Existing Instance DockerRunFacts.sample_limit.
#[local] Existing Instance DockerRunFacts.sample_repr.
#[local] Existing Instance DockerRunFacts.sample_path_order.
#[local] Existing Instance DockerRunFacts.sample_runs.
#[local] Existing Instance DockerRunFacts.sample_popen.
#[local] Existing Instance DockerRunFacts.sample_interrupts.

Lemma docker_run_threads_witness : ∃ before cmd after w s,
  io_trace (main sample_process 20 ["img" : str] sample_state) = before ++ EvRun cmd :: after ∧
  after = cancels sample_process ∧
  world None (handler_thread_name sample_process) (before ++ EvRun cmd :: take 3 after) w ∧
  w = Some s ∧ listener_ends None s.
Proof.
  destruct sample_runs_container as (before & cmd & after & Ht & Hd & Hnc & Hst).
  destruct (docker_run_threads sample_process 20 ["img" : str] sample_state None before cmd after Ht Hd)
    as (_ & _ & Ha & _ & Hj).
  destruct (world_cancelled None (handler_thread_name sample_process)
    (before ++ [EvRun cmd; EvCancel cleanup_thread_name]) [EvJoin cleanup_thread_name]) as [w Hw].
  - rewrite elem_of_app. intros [Hin|Hin]; [exact (Hnc Hin)|]. apply (bool_decide_eq_true_2 _) in Hin. discriminate Hin.
  - apply elem_of_app. left. exact Hst.
  - apply Forall_singleton. split; discriminate.
  - rewrite <-app_assoc in Hw. subst after. destruct (Hj w Hw) as (s & Hs & _ & He).
    exists before, cmd, (cancels sample_process), w, s. split_and!; [exact Ht|reflexivity|exact Hw|exact Hs|exact He].
Defined.
