(* ===== verification/Bep.v ===== *)
(** * Build event reports

    [bep.py]: one Bazel run per target, each with caches of its own, writing
    the build events to a file named after the target. *)
From S2P Require Import Prelude PyStr PyPath Fs FsWrite Proc FindProjectRoot.

(** [run_command(cmd_args, capture_output)]; without capturing, the child
    writes to the streams of the script and the error has no output. *)
Definition run_command `{Host X} (cmd_args : list str) (capture_output : bool) : io X str :=
  log INFO ("Executing: " ++ join " " cmd_args);;
  try_except
    (result ← subprocess_run true cmd_args;
     mret (if capture_output then strip (stdout result) else ""))
    (λ e,
      match e with
      | CalledProcessError rc cmd out err =>
          Some (emit (EvErr ("Error: Command '" ++ join " " cmd ++ "' failed with exit code " ++
                             str_of_Z rc ++ "."));;
                (if capture_output && negb (bool_decide (out = []))
                 then emit (EvErr ("STDOUT:" ++ [10%N] ++ out)) else mret ());;
                (if capture_output && negb (bool_decide (err = []))
                 then emit (EvErr ("STDERR:" ++ [10%N] ++ err)) else mret ());;
                sys_exit 1)
      | FileNotFoundError =>
          Some (emit (EvErr ("Error: Command not found: " ++ List.hd [] cmd_args));; sys_exit 1)
      | _ => None
      end).

(** The names [tempfile] gives to new directories, all different. *)
Class TempNames := {
  temp_name : nat → str;
  temp_name_inj : Inj (=) (=) temp_name
}.

(** What the script changes besides running commands: how many temporary
    directories it has created, each gone again at the end of its [with]
    block, and the file system. *)
Record bep_disk := BepDisk { temps : nat; bep_fs : fsys }.

Section Bep.
Context `{TempNames} `{Host X} (pwd : option str).

Definition new_temp : io bep_disk str := λ d, ([], BepDisk (S (temps d)) (bep_fs d), Ok (temp_name (temps d))).

(** [p.mkdir(parents=True, exist_ok=True)]. *)
Definition mkdir (p : path) : io bep_disk () :=
  d ← get; fs ← lift_res (fs_mkdir (bep_fs d) p); put (BepDisk (temps d) fs).

Definition bazel_cmd (devkit_build cache registry_cache bazel_command output bazel_target : str) : list str :=
  [devkit_build; "bazel"; "--output_base=" ++ cache; bazel_command; "--build_event_json_file=" ++ output;
   "--repository_cache=" ++ registry_cache; bazel_target] ++
  (if bool_decide (bazel_command = "build") then ["--noremote_accept_cached"] else []).

Definition generate_build_event_json (bazel_target : str) (output_path : path) (bazel_command : str) :
    io (bep_disk * X) () :=
  '(d, _) ← get;
  project_root ← lift_res (find_project_root (bep_fs d) pwd);
  let devkit_build := path_str (path_child (path_child project_root "devkit") "build") in
  bazel_cache_dir ← on_fst new_temp;
  bazel_registry_cache_dir ← on_fst new_temp;
  _ ← on_snd (run_command (bazel_cmd devkit_build bazel_cache_dir bazel_registry_cache_dir bazel_command
                             (path_str output_path) bazel_target) false);
  mret ().

Definition process_target_and_save (bazel_target : str) (output_file : path) (command : str) : io (bep_disk * X) () :=
  log INFO ("--- Processing: " ++ bazel_target ++ " ---");;
  generate_build_event_json bazel_target output_file command;;
  log INFO ("--- Finished processing " ++ bazel_target ++ " ---").

(** [bazel_target.replace(":", "_").split("/")[-1]]. *)
Definition sanitized_target_name (bazel_target : str) : str :=
  List.last (split (replace bazel_target [58%N] [95%N]) 47) [].

(** [output_dir / sanitized_target_name / "bep.json"]. *)
Definition target_file (output_dir : path) (bazel_target : str) : path :=
  path_child (path_child output_dir (sanitized_target_name bazel_target)) "bep.json".

Definition generate_bazel_events_folder (targets : list str) (command : str) (output_dir : path) : io (bep_disk * X) () :=
  on_fst (mkdir output_dir);;
  match targets with
  | [] => process_target_and_save "//..." (path_child output_dir "bep.json") command
  | _ => for_each targets (λ bazel_target,
           let output_file := target_file output_dir bazel_target in
           on_fst (mkdir (path_parent output_file));;
           process_target_and_save bazel_target output_file command)
  end.

(** The parsed command line: [targets], [command] and [output_dir]. *)
Definition main (targets : list str) (command : str) (output_dir : path) : io (bep_disk * X) () :=
  generate_bazel_events_folder targets command output_dir;;
  emit (EvOut "All targets processed successfully.").
End Bep.

(** ** The commands of a run *)

Definition runs (t : list event) : list (list str) :=
  omap (λ e, match e with EvRun cmd => Some cmd | _ => None end) t.

Lemma runs_app t t' : runs (t ++ t') = runs t ++ runs t'.
Proof. apply omap_app. Qed.

(** The commands [cmds] in order, all successful. *)
Fixpoint exec_all `{Host X} (cmds : list (list str)) (x : X) : option X :=
  match cmds with
  | [] => Some x
  | cmd :: cmds =>
      match exec cmd x with
      | (Some r, x') => if (returncode r =? 0)%Z then exec_all cmds x' else None
      | (None, _) => None
      end
  end.

Lemma exec_all_app `{Host X} l1 : ∀ l2 (x : X), exec_all (l1 ++ l2) x = exec_all l1 x ≫= exec_all l2.
Proof.
  induction l1 as [|cmd l1 IH]; intros l2 x; cbn [exec_all app]; [done|].
  destruct (exec cmd x) as [[r|] x']; [|done]. by destruct (returncode r =? 0)%Z.
Qed.

(** *** The plan of a run

    What the script does to the file system does not depend on the commands,
    so the file system decides beforehand which commands come, and the error
    that ends the run after them, if any: a directory that cannot be created,
    or no project around the start directory. *)
Record plan := Plan { p_commands : list (list str); p_error : option exn }.

(** A job: the directory to create first, the target and its report. *)
Record job := Job { job_dir : option path; job_target : str; job_output : path }.

Definition jobs_of (targets : list str) (output_dir : path) : list job :=
  match targets with
  | [] => [Job None "//..." (path_child output_dir "bep.json")]
  | _ => (λ t, Job (Some (path_parent (target_file output_dir t))) t (target_file output_dir t)) <$> targets
  end.

Section Plan.
Context `{TempNames} (pwd : option str) (command : str).

(** The command for a job in the project [root], given how many temporary
    directories were created before. *)
Definition command_for (root : path) (n : nat) (j : job) : list str :=
  bazel_cmd (path_str (path_child (path_child root "devkit") "build")) (temp_name n) (temp_name (S n)) command
    (path_str (job_output j)) (job_target j).

Definition job_mkdir (fs : fsys) (j : job) : res fsys :=
  match job_dir j with Some p => fs_mkdir fs p | None => Ok fs end.

Fixpoint plan_jobs (fs : fsys) (n : nat) (jobs : list job) : plan :=
  match jobs with
  | [] => Plan [] None
  | j :: jobs =>
      match job_mkdir fs j with
      | Raise e => Plan [] (Some e)
      | Ok fs' =>
          match find_project_root fs' pwd with
          | Raise e => Plan [] (Some e)
          | Ok root =>
              let rest := plan_jobs fs' (S (S n)) jobs in
              Plan (command_for root n j :: p_commands rest) (p_error rest)
          end
      end
  end.

Definition plan_of (fs : fsys) (n : nat) (targets : list str) (output_dir : path) : plan :=
  match fs_mkdir fs output_dir with
  | Raise e => Plan [] (Some e)
  | Ok fs' => plan_jobs fs' n (jobs_of targets output_dir)
  end.

(** A project found once is found again as the file system grows, perhaps
    nearer. *)
Lemma root_found_grows fs fs' root : fs_grows fs fs' → find_project_root fs pwd = Ok root →
  ∃ root', find_project_root fs' pwd = Ok root' ∧ is_relative_to root' root = true ∧
    is_relative_to (start_of fs pwd) root' = true.
Proof.
  intros Hg Hr. pose proof (find_project_root_spec fs pwd) as H1. rewrite Hr in H1. destruct H1 as (Hin & Hp & _).
  assert (start_of fs' pwd = start_of fs pwd) as Hst by (unfold start_of; by rewrite (proj2 Hg)).
  assert (is_project fs' root) as Hp' by (by eapply fs_exists_grows).
  pose proof (find_project_root_spec fs' pwd) as H2. rewrite Hst in H2.
  destruct (find_project_root fs' pwd) as [root'|e].
  - exists root'. destruct H2 as (? & _ & Hn). split_and!; [done|by apply Hn|done].
  - by destruct (proj2 H2 root Hin).
Qed.

(** The plan inside a project: a command for each job, in order, with a root
    at or below the one found at the start; only a directory that cannot be
    created cuts it short. *)
Definition plan_ok (fs : fsys) (root : path) (n : nat) (jobs : list job) (p : plan) : Prop :=
  (∀ i cmd, p_commands p !! i = Some cmd → ∃ j root', jobs !! i = Some j ∧ cmd = command_for root' (n + 2 * i) j ∧
     is_relative_to root' root = true ∧ is_relative_to (start_of fs pwd) root' = true) ∧
  match p_error p with
  | None => length (p_commands p) = length jobs
  | Some e => ∃ dir fs', fs_grows fs fs' ∧ fs_mkdir fs' dir = Raise e
  end.

Lemma job_mkdir_ok fs j fs' : job_mkdir fs j = Ok fs' → fs_grows fs fs'.
Proof.
  unfold job_mkdir. destruct (job_dir j) as [p|]; [intros Hm%fs_mkdir_ok; apply Hm|intros [= <-]; apply fs_grows_refl].
Qed.

Lemma plan_jobs_ok jobs : ∀ fs root n, find_project_root fs pwd = Ok root → plan_ok fs root n jobs (plan_jobs fs n jobs).
Proof.
  induction jobs as [|j jobs IH]; intros fs root n Hr; cbn [plan_jobs]; [done|].
  destruct (job_mkdir fs j) as [fs'|e] eqn:Hm.
  2: { split; [done|]. unfold job_mkdir in Hm. destruct (job_dir j) as [p|]; [|done]. exists p, fs. split; [apply fs_grows_refl|done]. }
  apply job_mkdir_ok in Hm. destruct (root_found_grows fs fs' root Hm Hr) as (root' & Hr' & Hrel & Hst). rewrite Hr'.
  destruct (IH fs' root' (S (S n)) Hr') as [Hc He].
  assert (start_of fs' pwd = start_of fs pwd) as Hs by (unfold start_of; by rewrite (proj2 Hm)). split.
  - intros [|i] cmd; cbn [p_commands lookup list_lookup].
    + intros [= <-]. exists j, root'. rewrite Nat.add_0_r. by split_and!.
    + intros Hi. destruct (Hc i cmd Hi) as (j' & r & ? & -> & Hr1 & Hr2). exists j', r. rewrite <-Hs.
      split_and!; [done|f_equal; lia|by eapply is_relative_to_trans|done].
  - cbn [p_error p_commands length]. destruct (p_error (plan_jobs fs' (S (S n)) jobs)) as [e|]; [|by rewrite He].
    destruct He as (dir & fs2 & ? & ?). exists dir, fs2. split; [by eapply fs_grows_trans|done].
Qed.

Lemma plan_of_ok fs root n targets output_dir : find_project_root fs pwd = Ok root →
  plan_ok fs root n (jobs_of targets output_dir) (plan_of fs n targets output_dir).
Proof.
  intros Hr. unfold plan_of. destruct (fs_mkdir fs output_dir) as [fs'|e] eqn:Hm.
  2: { split; [done|]. exists output_dir, fs. split; [apply fs_grows_refl|done]. }
  apply fs_mkdir_ok in Hm as [Hg _]. destruct (root_found_grows fs fs' root Hg Hr) as (root' & Hr' & Hrel & _).
  destruct (plan_jobs_ok (jobs_of targets output_dir) fs' root' n Hr') as [Hc He].
  assert (start_of fs' pwd = start_of fs pwd) as Hs by (unfold start_of; by rewrite (proj2 Hg)). split.
  - intros i cmd Hi. destruct (Hc i cmd Hi) as (j & r & ? & ? & ? & ?). exists j, r. rewrite <-Hs.
    split_and!; [done|done|by eapply is_relative_to_trans|done].
  - destruct (p_error _) as [e|]; [|done]. destruct He as (dir & fs2 & ? & ?). exists dir, fs2.
    split; [by eapply fs_grows_trans|done].
Qed.
End Plan.

(** *** A run follows its plan *)

(** All commands of the plan are run, in order, and succeed, and the run ends
    as planned; or the first ones succeed, the next one fails, and the program
    ends with code 1. *)
Definition follows `{Host X} (p : plan) (x : X) (t : list event) (x' : X) (r : res ()) : Prop :=
  (runs t = p_commands p ∧ exec_all (p_commands p) x = Some x' ∧
   r = match p_error p with None => Ok () | Some e => Raise e end) ∨
  (∃ pre cmd rest x1, p_commands p = pre ++ cmd :: rest ∧ runs t = pre ++ [cmd] ∧ exec_all pre x = Some x1 ∧
     exec_all [cmd] x1 = None ∧ x' = (exec cmd x1).2 ∧ r = Raise (SystemExit 1)).

Lemma follows_cons `{Host X} cmd p (x x1 x2 : X) t1 t2 r :
  runs t1 = [cmd] → exec_all [cmd] x = Some x1 → follows p x1 t2 x2 r →
  follows (Plan (cmd :: p_commands p) (p_error p)) x (t1 ++ t2) x2 r.
Proof.
  intros Ht Hx. unfold follows. cbn [p_commands p_error]. rewrite runs_app, Ht.
  assert (∀ l, exec_all (cmd :: l) x = exec_all l x1) as Hc.
  { intros l. change (cmd :: l) with ([cmd] ++ l). by rewrite exec_all_app, Hx. }
  intros [(-> & ? & ->)|(pre & c & rest & x' & -> & -> & ? & ? & ? & ->)]; [left; by rewrite Hc|right].
  exists (cmd :: pre), c, rest, x'. by rewrite Hc.
Qed.

Section Runs.
Context `{TempNames} `{Host X} (pwd : option str) (command : str).

Lemma run_command_run cmd (x : X) : ∃ t r, run_command cmd false x = (t, (exec cmd x).2, r) ∧ runs t = [cmd] ∧
  match r with Ok _ => exec_all [cmd] x = Some (exec cmd x).2 | Raise e => e = SystemExit 1 ∧ exec_all [cmd] x = None end.
Proof.
  unfold run_command, try_except, mbind, io_bind, log, emit, subprocess_run, exec_all.
  destruct (exec cmd x) as [[r|] x']; [|by eexists _, _].
  cbn [andb]. destruct (returncode r =? 0)%Z; cbn [negb]; by eexists _, _.
Qed.

(** One target. *)
Lemma process_target_run j d (x : X) :
  let m := process_target_and_save pwd (job_target j) (job_output j) command (d, x) in
  match find_project_root (bep_fs d) pwd with
  | Raise e => ∃ t, m = (t, (d, x), Raise e) ∧ runs t = []
  | Ok root =>
      let cmd := command_for command root (temps d) j in
      ∃ t r, m = (t, (BepDisk (S (S (temps d))) (bep_fs d), (exec cmd x).2), r) ∧ runs t = [cmd] ∧
        match r with
        | Ok _ => exec_all [cmd] x = Some (exec cmd x).2
        | Raise e => e = SystemExit 1 ∧ exec_all [cmd] x = None
        end
  end.
Proof.
  unfold process_target_and_save, generate_build_event_json, mbind, io_bind, log, emit, get, lift_res, on_fst, on_snd, new_temp.
  destruct (find_project_root (bep_fs d) pwd) as [root|e]; [|by eexists].
  cbn [fst snd temps bep_fs]. fold (command_for command root (temps d) j).
  set (cmd := command_for command root (temps d) j).
  destruct (run_command_run cmd x) as (t & [o|e] & -> & Ht & Hr); eexists _, _; (split; [reflexivity|]); [|done].
  split; [|done]. unfold runs in *. cbn. by rewrite !omap_app, Ht.
Qed.

(** Creating a directory runs no command. *)
Lemma mkdir_run p d : mkdir p d =
  match fs_mkdir (bep_fs d) p with
  | Ok fs' => ([], BepDisk (temps d) fs', Ok ())
  | Raise e => ([], d, Raise e)
  end.
Proof. unfold mkdir, mbind, io_bind, get, lift_res, put. by destruct (fs_mkdir (bep_fs d) p). Qed.

Lemma bind_unit {S : Type} (m : io S ()) s : (m;; mret ()) s = m s.
Proof. unfold mbind, io_bind. destruct (m s) as [[t s'] [[]|e]]; cbn; by rewrite ?app_nil_r. Qed.

(** One job, then what is left of the plan. *)
Lemma job_run (k : io (bep_disk * X) ()) jobs j d (x : X) :
  (∀ d' x', bep_fs d' = bep_fs d → temps d' = S (S (temps d)) → ∃ t s' r, k (d', x') = (t, s', r) ∧
     follows (plan_jobs pwd command (bep_fs d') (temps d') jobs) x' t s'.2 r) →
  ∃ t s' r,
    (process_target_and_save pwd (job_target j) (job_output j) command;; k) (d, x) = (t, s', r) ∧
    follows (plan_jobs pwd command (bep_fs d) (temps d) (Job None (job_target j) (job_output j) :: jobs)) x t s'.2 r.
Proof.
  intros Hk. cbn [plan_jobs job_mkdir job_dir]. pose proof (process_target_run j d x) as Hp. cbv zeta in Hp.
  unfold mbind, io_bind. destruct (find_project_root (bep_fs d) pwd) as [root|e].
  2: { destruct Hp as (t & -> & Ht). eexists _, _, _. split; [reflexivity|]. by left. }
  destruct Hp as (t & r & -> & Ht & Hr). cbn [command_for job_target job_output] in *. destruct r as [[]|e].
  - destruct (Hk (BepDisk (S (S (temps d))) (bep_fs d)) (exec (command_for command root (temps d) j) x).2 eq_refl eq_refl)
      as (t2 & s2 & r2 & -> & Hf). eexists _, _, _. split; [reflexivity|]. by eapply follows_cons.
  - destruct Hr as [-> Hx]. eexists _, _, _. split; [reflexivity|]. right.
    exists [], (command_for command root (temps d) j), (p_commands (plan_jobs pwd command (bep_fs d) (S (S (temps d))) jobs)), x.
    split_and!; [done|exact Ht|done|exact Hx|done|done].
Qed.

Lemma events_loop_run output_dir targets : ∀ d (x : X), ∃ t s' r,
  for_each targets (λ bazel_target,
      on_fst (mkdir (path_parent (target_file output_dir bazel_target)));;
      process_target_and_save pwd bazel_target (target_file output_dir bazel_target) command) (d, x) = (t, s', r) ∧
  follows (plan_jobs pwd command (bep_fs d) (temps d)
    ((λ t, Job (Some (path_parent (target_file output_dir t))) t (target_file output_dir t)) <$> targets)) x t s'.2 r.
Proof.
  induction targets as [|t targets IH]; intros d x; cbn [for_each fmap list_fmap].
  { eexists _, _, _. split; [reflexivity|]. by left. }
  rewrite bind_assoc. unfold mbind at 1, io_bind at 1, on_fst at 1. cbn [fst snd]. rewrite mkdir_run.
  cbn [plan_jobs job_mkdir job_dir]. destruct (fs_mkdir (bep_fs d) _) as [fs'|e].
  2: { eexists _, _, _. split; [reflexivity|]. by left. }
  destruct (job_run (for_each targets (λ bazel_target,
      on_fst (mkdir (path_parent (target_file output_dir bazel_target)));;
      process_target_and_save pwd bazel_target (target_file output_dir bazel_target) command))
    ((λ t, Job (Some (path_parent (target_file output_dir t))) t (target_file output_dir t)) <$> targets)
    (Job None t (target_file output_dir t)) (BepDisk (temps d) fs') x) as (t2 & s2 & r2 & E & Hf);
    [intros d' x' _ _; apply (IH d' x')|].
  cbn [job_target job_output] in E. rewrite E. eexists _, _, _. split; [reflexivity|]. exact Hf.
Qed.

(** [generate_bazel_events_folder] follows the plan of its file system. *)
Lemma generate_bazel_events_run targets output_dir d (x : X) : ∃ t s' r,
  generate_bazel_events_folder pwd targets command output_dir (d, x) = (t, s', r) ∧
  follows (plan_of pwd command (bep_fs d) (temps d) targets output_dir) x t s'.2 r.
Proof.
  unfold generate_bazel_events_folder, plan_of, mbind at 1, io_bind at 1, on_fst at 1. cbn [fst snd]. rewrite mkdir_run.
  destruct (fs_mkdir (bep_fs d) output_dir) as [fs'|e].
  2: { eexists _, _, _. split; [reflexivity|]. by left. }
  destruct targets as [|t targets].
  - destruct (job_run (mret ()) [] (Job None "//..." (path_child output_dir "bep.json")) (BepDisk (temps d) fs') x)
      as (t2 & s2 & r2 & E & Hf); [intros d' x' _ _; eexists _, _, _; split; [reflexivity|]; by left|].
    cbn [job_target job_output] in E. rewrite bind_unit in E. rewrite E. eexists _, _, _. split; [reflexivity|]. exact Hf.
  - destruct (events_loop_run output_dir (t :: targets) (BepDisk (temps d) fs') x) as (t2 & s2 & r2 & E & Hf).
    cbv zeta. rewrite E. eexists _, _, _. split; [reflexivity|]. exact Hf.
Qed.
End Runs.

Lemma run_command_silent `{Host X} cmd b : emits silent (run_command cmd b : io X str).
Proof.
  unfold run_command. emits_auto. apply emits_try; [emits_auto; done|].
  intros e k. destruct e; intros [= <-]; emits_auto.
Qed.

(** The standard output is the last line of [main]. *)
Lemma events_silent `{TempNames} `{Host X} pwd targets command output_dir :
  emits silent (generate_bazel_events_folder (X := X) pwd targets command output_dir).
Proof.
  assert (∀ p, emits silent (on_fst (T := X) (mkdir p))) as Hm by (intros p; unfold mkdir; emits_auto).
  assert (∀ t o, emits silent (process_target_and_save (X := X) pwd t o command)) as Hp.
  { intros t o. unfold process_target_and_save, generate_build_event_json. emits_auto.
    match goal with s : bep_disk * X |- _ => destruct s as [d x] end.
    emits_auto; [by intros ?; apply Forall_nil..|apply run_command_silent]. }
  unfold generate_bazel_events_folder. apply emits_bind; [done|intros _]. destruct targets as [|t ts]; [done|].
  apply emits_for_each. intros t' _. apply emits_bind; [done|intros _]. apply Hp.
Qed.

(** *** Report files *)

Lemma last_split p n sep : sep ∉ n → List.last (split (p ++ sep :: n) sep) [] = n.
Proof. intros Hn. rewrite split_app_gen, (split_sep_notin n) by done. by rewrite List.last_last. Qed.

(** The report of a target is named after the part behind its last slash
    only, so targets of different packages that agree there share one report
    file, and the later run overwrites the earlier report. *)
Theorem report_files_shared output_dir package1 package2 name :
  47%N ∉ name →
  target_file output_dir (package1 ++ "/" ++ name) = target_file output_dir (package2 ++ "/" ++ name).
Proof.
  intros Hn. unfold target_file, sanitized_target_name. rewrite !replace_char_spec, !fmap_app.
  assert (47%N ∉ ((λ c, if (58 =? c)%N then 95%N else c) <$> name)) as Hn'.
  { intros (c & Hc & Hin)%list_elem_of_fmap. destruct (N.eqb_spec 58 c); [done|]. by subst c. }
  change ((λ c, if (58 =? c)%N then 95%N else c) <$> "/") with [47%N]. cbn [app].
  by rewrite !last_split.
Qed.

Lemma report_files_shared_witness :
  target_file (path_of_str "bazel-bep") "//x/foo:bar" = target_file (path_of_str "bazel-bep") "//y/foo:bar".
Proof.
  apply (report_files_shared (path_of_str "bazel-bep") "//x" "//y" "foo:bar").
  by apply (bool_decide_eq_true_1 _).
Defined.

#[local] Instance numbered_temps : TempNames.
Proof. by refine {| temp_name := λ n, "/tmp/" ++ replicate n 116%N |};
  intros n m Hnm%app_inv_head%(f_equal length); rewrite !length_replicate in Hnm. Defined.

Definition project_fs : fsys :=
  {| fs_root := NDir [("p", NDir [("devkit", NDir [])])]; fs_cwd := ["p"] |}.
#[local] Instance always_ok : Host () := λ _ x, (Some (RunResult 0 "" ""), x).
