(* ===== verification/Coverage.v ===== *)
(** * Coverage reports

    [coverage_report.py]: Bazel's LCOV report is read into one record per
    source file, printed as a table, and checked against thresholds. *)
From S2P Require Import Prelude PyStr PyFloat Json PyPath Fs Proc FindProjectRoot.

(** The file system as the host's state shows it: Bazel writes the report. *)
Class HostFiles (X : Type) := host_fs : X → fsys.

(** ** Records *)

Record FileCoverage := {
  file_path : str;
  lines_found : Z;
  lines_hit : Z;
  branches_found : Z;
  branches_hit : Z;
  uncovered_lines : list Z;
  uncovered_branches : list (Z * Z * Z)
}.

(** [FileCoverage(file_path)]. *)
Definition new_coverage (path : str) : FileCoverage :=
  {| file_path := path; lines_found := 0; lines_hit := 0; branches_found := 0; branches_hit := 0;
     uncovered_lines := []; uncovered_branches := [] |}.

Definition line_coverage_percent (f : FileCoverage) : res float :=
  if (lines_found f =? 0)%Z then Ok f_one else int_truediv (lines_hit f) (lines_found f).

Definition branch_coverage_percent (f : FileCoverage) : res float :=
  if (branches_found f =? 0)%Z then Ok f_one else int_truediv (branches_hit f) (branches_found f).

(** [s[i:]] for an integer [i]. *)
Definition slice_from (s : str) (i : Z) : str :=
  drop (Z.to_nat (if (i <? 0)%Z then Z.of_nat (length s) + i else i)) s.

Definition fit_to_column (filepath : str) (max_width : Z) : str :=
  let filepath_length := Z.of_nat (length filepath) in
  if (max_width <? filepath_length)%Z
  then "..." ++ slice_from filepath (- (max_width - 3))
  else filepath ++ spaces (Z.to_nat (max_width - filepath_length)).

Definition generate_summary_line (f : FileCoverage) (target_lines target_branch : float) : res str :=
  lines ← line_coverage_percent f;
  branches ← branch_coverage_percent f;
  Ok (fit_to_column (file_path f) 50 ++ " | " ++
      percent7 lines ++ " / " ++ percent7 target_lines ++ " | " ++
      percent7 branches ++ " / " ++ percent7 target_branch).

(** *** Groups of line numbers *)

Definition range_str (r : Z * Z) : str :=
  if (r.1 =? r.2)%Z then str_of_Z r.1 else str_of_Z r.1 ++ "-" ++ str_of_Z r.2.

(** The loop over the sorted numbers: [start] is [start_of_range], [prev] the
    number before [rest]. *)
Fixpoint group_loop (start prev : Z) (rest : list Z) : list (Z * Z) :=
  match rest with
  | [] => [(start, prev)]
  | n :: rest =>
      if (n =? prev + 1)%Z then group_loop start n rest
      else (start, prev) :: group_loop n n rest
  end.

Definition ranges (numbers : list Z) : list (Z * Z) :=
  match merge_sort Z.le numbers with
  | [] => []
  | n :: rest => group_loop n n rest
  end.

Definition group_consecutive_numbers (numbers : list Z) : str := join ", " (range_str <$> ranges numbers).

(** *** Reports of one file *)

Definition newline : str := [10%N].

Definition get_missing_branches_str (f : FileCoverage) : str :=
  join newline ((λ '(line, block, branch), "Line " ++ str_of_Z line ++ ": (block: " ++ str_of_Z block ++
                   ", branch: " ++ str_of_Z branch ++ ")") <$> uncovered_branches f).

Definition generate_missing_coverage_report (f : FileCoverage) : str :=
  match uncovered_lines f, uncovered_branches f with
  | [], [] => ""
  | _, _ =>
      let uncovered_lines_str := group_consecutive_numbers (uncovered_lines f) in
      let uncovered_branches_str := get_missing_branches_str f in
      newline ++ "File: " ++ file_path f ++ newline ++
      (if bool_decide (uncovered_lines_str = []) then ""
       else "Lines to test: " ++ uncovered_lines_str ++ newline) ++
      (if bool_decide (uncovered_branches_str = []) then ""
       else "Branches to test:" ++ newline ++ uncovered_branches_str)
  end.

(** ** Parsing *)

Definition part (parts : list str) (i : nat) : res str :=
  match parts !! i with Some p => Ok p | None => Raise IndexError end.

Definition parse_lcov_data_line (line : str) (f : FileCoverage) : res FileCoverage :=
  if startswith line "LF:" then
    n ← py_int (replace line "LF:" "");
    Ok {| file_path := file_path f; lines_found := n; lines_hit := lines_hit f;
          branches_found := branches_found f; branches_hit := branches_hit f;
          uncovered_lines := uncovered_lines f; uncovered_branches := uncovered_branches f |}
  else if startswith line "LH:" then
    n ← py_int (replace line "LH:" "");
    Ok {| file_path := file_path f; lines_found := lines_found f; lines_hit := n;
          branches_found := branches_found f; branches_hit := branches_hit f;
          uncovered_lines := uncovered_lines f; uncovered_branches := uncovered_branches f |}
  else if startswith line "BRF:" then
    n ← py_int (replace line "BRF:" "");
    Ok {| file_path := file_path f; lines_found := lines_found f; lines_hit := lines_hit f;
          branches_found := n; branches_hit := branches_hit f;
          uncovered_lines := uncovered_lines f; uncovered_branches := uncovered_branches f |}
  else if startswith line "BRH:" then
    n ← py_int (replace line "BRH:" "");
    Ok {| file_path := file_path f; lines_found := lines_found f; lines_hit := lines_hit f;
          branches_found := branches_found f; branches_hit := n;
          uncovered_lines := uncovered_lines f; uncovered_branches := uncovered_branches f |}
  else if startswith line "DA:" then
    let parts := split line 44 in
    p0 ← part parts 0;
    line_number ← py_int (replace p0 "DA:" "");
    p1 ← part parts 1;
    hit_count ← py_int p1;
    Ok {| file_path := file_path f; lines_found := lines_found f; lines_hit := lines_hit f;
          branches_found := branches_found f; branches_hit := branches_hit f;
          uncovered_lines := (if (hit_count =? 0)%Z then uncovered_lines f ++ [line_number] else uncovered_lines f);
          uncovered_branches := uncovered_branches f |}
  else if startswith line "BRDA" then
    let parts := split line 44 in
    p0 ← part parts 0;
    line_number ← py_int (replace p0 "BRDA:" "");
    p1 ← part parts 1;
    block_id ← py_int p1;
    p2 ← part parts 2;
    branch_id ← py_int p2;
    hit_marker ← part parts 3;
    Ok {| file_path := file_path f; lines_found := lines_found f; lines_hit := lines_hit f;
          branches_found := branches_found f; branches_hit := branches_hit f;
          uncovered_lines := uncovered_lines f;
          uncovered_branches :=
            (if bool_decide (hit_marker = "-")
             then uncovered_branches f ++ [(line_number, block_id, branch_id)] else uncovered_branches f) |}
  else Ok f.

(** The records read so far and the current file. *)
Definition lcov_state : Type := list (str * FileCoverage) * option str.

Definition parse_lcov_line (st : lcov_state) (raw : str) : res lcov_state :=
  let '(coverage_data, current_file_path) := st in
  let line := strip raw in
  if startswith line "SF:" then
    let path := replace line "SF:" "" in
    Ok (dict_set path (new_coverage path) coverage_data, Some path)
  else if bool_decide (line = "end_of_record") then Ok (coverage_data, None)
  else
    match current_file_path with
    | Some ((_ :: _) as path) =>
        match dict_get path coverage_data with
        | Some current_coverage =>
            f ← parse_lcov_data_line line current_coverage;
            Ok (dict_set path f coverage_data, current_file_path)
        | None => Ok st
        end
    | _ => Ok st
    end.

Fixpoint parse_lcov_lines (st : lcov_state) (lines : list str) : res lcov_state :=
  match lines with
  | [] => Ok st
  | l :: lines => st ← parse_lcov_line st l; parse_lcov_lines st lines
  end.

(** ** The report *)

Definition dashes : str := replicate 90 45%N.

(** The running totals of the table and whether all files pass so far. *)
Definition report_row {S : Type} (lines_threshold branch_threshold : float)
    (file_lines file_branch : list (str * float)) (n_files : Z)
    (acc : bool * float * float) (f : FileCoverage) : io S (bool * float * float) :=
  let '(is_coverage_valid, overall_lines, overall_branch) := acc in
  lines_cov ← lift_res (line_coverage_percent f);
  branch_cov ← lift_res (branch_coverage_percent f);
  let target_lines := default lines_threshold (dict_get (file_path f) file_lines) in
  let target_branch := default branch_threshold (dict_get (file_path f) file_branch) in
  row ← lift_res (generate_summary_line f target_lines target_branch);
  emit (EvOut row);;
  n ← lift_res (float_of_Z n_files);
  mret (is_coverage_valid && negb (f_ltb lines_cov target_lines || f_ltb branch_cov target_branch),
        f_add overall_lines (f_div lines_cov n), f_add overall_branch (f_div branch_cov n)).

(** [None] thresholds are empty dictionaries. *)
Definition print_and_validate_report {S : Type} (coverage_data : list (str * FileCoverage))
    (lines_threshold branch_threshold : float) (file_lines file_branch : list (str * float)) : io S bool :=
  let n_files := Z.of_nat (length coverage_data) in
  emit (EvOut (ljust "file" 50 ++ " | " ++ ljust "Lines %" 17 ++ " | Branches %"));;
  emit (EvOut dashes);;
  '(is_coverage_valid, overall_lines, overall_branch) ←
    fold_io (report_row lines_threshold branch_threshold file_lines file_branch n_files)
      (true, f_zero, f_zero) coverage_data.*2;
  emit (EvOut dashes);;
  emit (EvOut (ljust "Total" 50 ++ " | " ++ ljust (percent7 overall_lines) 17 ++ " | " ++ percent7 overall_branch));;
  emit (EvOut (newline ++ "--- Missing Coverage ---"));;
  any_missing_coverage ←
    fold_io (λ any f,
      let report := generate_missing_coverage_report f in
      if bool_decide (report = []) then mret any else emit (EvOut report);; mret true)
      false coverage_data.*2;
  (if any_missing_coverage : bool then mret () else emit (EvOut "All covered!"));;
  mret is_coverage_valid.

Section Report.
Context `{HostFiles X}.

(** The text is decoded as a whole before its lines are read, where the code
    decodes while it reads; nothing is printed before the end of either, so a
    report with two errors differs only in which of them is raised. *)
Definition generate_lcov_report (path : path) (lines_threshold branch_threshold : float)
    (file_lines file_branch : list (str * float)) : io X bool :=
  try_except
    (x ← get;
     data ← lift_res (fs_read (host_fs x) path);
     text ← lift_res (utf8_decode 0 data);
     '(coverage_data, _) ← lift_res (parse_lcov_lines ([], None) (PyStr.file_lines text));
     print_and_validate_report coverage_data lines_threshold branch_threshold file_lines file_branch)
    (λ e, if is_FileNotFoundError e then
       Some (emit (EvOut ("File not found: " ++ path_str path));; mret false)
     else None).

(** ** Running Bazel *)

Context `{Host X} (pwd : option str).

Definition coverage_cmd (project_root : path) (target : str) : list str :=
  [path_str (path_child (path_child project_root "devkit") "build"); "bazel"; "coverage";
   "--combined_report=lcov"; target].

Definition report_file (dir : path) : path :=
  path_child (path_child (path_child dir "bazel-out") "_coverage") "_coverage_report.dat".

(** The output is not captured, so an error carries none. *)
Definition coverage_failed {A : Type} (e : exn) : option (io X A) :=
  match e with
  | CalledProcessError rc _ _ _ =>
      Some (emit (EvErr ("Error: Bazel coverage failed with exit code " ++ str_of_Z rc ++ "."));; sys_exit 1)
  | _ => None
  end.

Definition run_bazel_coverage (target : str) : io X path :=
  x ← get;
  project_root ← lift_res (find_project_root (host_fs x) pwd);
  try_except
    (_ ← subprocess_run true (coverage_cmd project_root target);
     x ← get;
     let cwd_report := report_file (Path true (fs_cwd (host_fs x))) in
     mret (if fs_exists (host_fs x) cwd_report then cwd_report else report_file project_root))
    coverage_failed.

(** The copy in container-tools always takes the report of the project root. *)
Definition run_bazel_coverage_container_tools (target : str) : io X path :=
  x ← get;
  project_root ← lift_res (find_project_root (host_fs x) pwd);
  try_except
    (_ ← subprocess_run true (coverage_cmd project_root target);
     mret (report_file project_root))
    coverage_failed.

(** ** Thresholds *)

(** [float(j)]. *)
Definition json_float (j : json) : res float :=
  match j with
  | JBool b => Ok (if b then f_one else f_zero)
  | JInt z => float_of_Z z
  | JFloat x => Ok x
  | JStr s => py_float s
  | JNull | JList _ | JDict _ => Raise TypeError
  end.

(** [0.0 <= x <= 100.0], false for NaN. *)
Definition in_percent_range (x : float) : bool := f_leb f_zero x && f_leb x f_hundred.

Definition threshold (what key filepath : str) (values : list (str * json)) (m : list (str * float)) :
    res (list (str * float)) :=
  match dict_get key values with
  | Some j =>
      val ← json_float j;
      if in_percent_range val then Ok (dict_set filepath (f_div val f_hundred) m)
      else Raise (ValueError (what ++ " for " ++ filepath ++ " must be in [0.0, 100.0]"))
  | None => Ok m
  end.

Fixpoint parse_thresholds (items : list (str * json)) (acc : list (str * float) * list (str * float)) :
    res (list (str * float) * list (str * float)) :=
  match items with
  | [] => Ok acc
  | (filepath, JDict values) :: items =>
      file_lines ← threshold "Lines" "lines" filepath values acc.1;
      file_branch ← threshold "Branch" "branch" filepath values acc.2;
      parse_thresholds items (file_lines, file_branch)
  | (filepath, _) :: _ => Raise (ValueError ("Values for " ++ filepath ++ " must be a JSON object."))
  end.

Definition parse_thresholds_file (path : path) : io X (list (str * float) * list (str * float)) :=
  try_except
    (x ← get;
     lift_res (data ← fs_read (host_fs x) path;
               thresholds_data ← json_load data;
               match thresholds_data with
               | JDict items => parse_thresholds items ([], [])
               | _ => Raise (ValueError "Root element must be a JSON object.")
               end))
    (λ e, if is_FileNotFoundError e || is_JSONDecodeError e || is_ValueError e then
       Some (emit (EvOut ("Error reading thresholds file: " ++ exn_text e));; sys_exit 1)
     else None).

(** ** The program *)

Record coverage_args := CoverageArgs {
  target : str; lines : float; branch : float; thresholds_file : option path
}.

Definition check_threshold (nv : str * float) : io X () :=
  if in_percent_range nv.2 then mret ()
  else emit (EvOut ("Error: " ++ nv.1 ++ " threshold value must be in range [0.0, 100.0]"));; sys_exit 1.

(** [main], given the copy's [run_bazel_coverage]. *)
Definition main_with (run_coverage : str → io X path) (args : coverage_args) : io X () :=
  for_each [("Branch", branch args); ("Lines", lines args)] check_threshold;;
  '(file_lines, file_branch) ←
    match thresholds_file args with
    | Some p => parse_thresholds_file p
    | None => mret ([], [])
    end;
  log INFO "Running Bazel Coverage";;
  report_path ← run_coverage (target args);
  log INFO "Generating coverage report";;
  coverage_passed ← generate_lcov_report report_path (f_div (lines args) f_hundred)
                      (f_div (branch args) f_hundred) file_lines file_branch;
  if coverage_passed : bool then emit (EvOut "Coverage check passed.")
  else emit (EvOut "Coverage check failed.");; sys_exit 1.

Definition main : coverage_args → io X () := main_with run_bazel_coverage.
Definition main_container_tools : coverage_args → io X () := main_with run_bazel_coverage_container_tools.
End Report.
