(* ===== verification/CoverageFacts.v ===== *)
(** * Correctness of coverage reports *)
From S2P Require Import Prelude PyStr PyFloat Json PyPath Fs Proc FindProjectRoot Coverage.

(** ** Columns *)

(** C33: [fit_to_column] gives a string of exactly the width of the column: a
    short path padded on the right, or three dots and the end of a long one. *)
Theorem fit_to_column_correct filepath max_width : (3 < max_width)%Z →
  let s := fit_to_column filepath max_width in
  Z.of_nat (length s) = max_width ∧
  ((Z.of_nat (length filepath) ≤ max_width)%Z → ∃ pad, s = filepath ++ pad ∧ Forall (λ c, c = 32%N) pad) ∧
  ((max_width < Z.of_nat (length filepath))%Z → ∃ cut rest, filepath = cut ++ rest ∧ s = "..." ++ rest).
Proof.
  intros Hw s. unfold s, fit_to_column, slice_from.
  destruct (Z.ltb_spec max_width (Z.of_nat (length filepath))) as [Hl|Hl].
  - rewrite (proj2 (Z.ltb_lt (- (max_width - 3)) 0)) by lia. split_and!; [|lia|].
    + rewrite length_app, length_drop. cbn [length]. lia.
    + intros _. eexists (take _ filepath), _. split; [symmetry; apply take_drop|done].
  - split_and!; [|intros _|lia].
    + rewrite length_app. unfold spaces. rewrite length_replicate. lia.
    + eexists. split; [done|]. unfold spaces. apply Forall_replicate. done.
Qed.

Lemma fit_to_column_correct_witness : Z.of_nat (length (fit_to_column "src/main.cc" 50)) = 50%Z.
Proof. apply (fit_to_column_correct "src/main.cc" 50). lia. Defined.

(** ** Groups of numbers *)

(** The numbers of a range. *)
Definition expand (r : Z * Z) : list Z := (λ i, (r.1 + Z.of_nat i)%Z) <$> seq 0 (Z.to_nat (r.2 - r.1 + 1)).

Lemma expand_snoc a b : (a ≤ b)%Z → expand (a, b + 1)%Z = expand (a, b) ++ [(b + 1)%Z].
Proof.
  intros Hab. unfold expand. cbn [fst snd].
  replace (Z.to_nat (b + 1 - a + 1)) with (S (Z.to_nat (b - a + 1))) by lia.
  rewrite seq_S, fmap_app. cbn. do 2 f_equal. lia.
Qed.

Lemma expand_one a : expand (a, a) = [a].
Proof. unfold expand. cbn [fst snd]. replace (Z.to_nat (a - a + 1)) with 1 by lia. cbn. f_equal. lia. Qed.

Lemma group_loop_expand rest : ∀ start prev, (start ≤ prev)%Z →
  concat (expand <$> group_loop start prev rest) = expand (start, prev) ++ rest.
Proof.
  induction rest as [|n rest IH]; intros start prev Hsp; cbn [group_loop]; [done|].
  destruct (Z.eqb_spec n (prev + 1)) as [->|Hn].
  - rewrite IH by lia. rewrite expand_snoc by done. by rewrite <-app_assoc.
  - rewrite fmap_cons. cbn [concat]. rewrite IH by lia. by rewrite expand_one.
Qed.

(** Each range ends below a gap before the next one starts. *)
Fixpoint separated (l : list (Z * Z)) : Prop :=
  match l with
  | r1 :: ((r2 :: _) as l') => (r1.2 + 1 < r2.1)%Z ∧ separated l'
  | _ => True
  end.

Lemma group_loop_shape rest : ∀ start prev, (start ≤ prev)%Z →
  StronglySorted Z.lt (prev :: rest) →
  (∃ e l, group_loop start prev rest = (start, e) :: l) ∧
  Forall (λ r, r.1 ≤ r.2)%Z (group_loop start prev rest) ∧ separated (group_loop start prev rest).
Proof.
  induction rest as [|n rest IH]; intros start prev Hsp Hs; cbn [group_loop].
  { split_and!; [by eexists _, []|by repeat constructor|done]. }
  apply StronglySorted_inv in Hs as [Hs Hp]. inversion Hp as [|? ? Hpn]; subst.
  destruct (Z.eqb_spec n (prev + 1)) as [->|Hn]; [apply IH; [lia|done]|].
  destruct (IH n n) as ((e & l & E) & Hf & Hsep); [lia|done|]. split_and!; [by eexists _, _|by constructor|].
  rewrite E in *. cbn [separated fst snd]. split; [lia|done].
Qed.

Lemma sorted_strict l : NoDup l → StronglySorted Z.le l → StronglySorted Z.lt l.
Proof.
  intros Hnd. induction 1 as [|a l Hs IH Ha]; [constructor|]. apply NoDup_cons in Hnd as [Hnin Hnd].
  constructor; [by apply IH|]. apply Forall_forall. intros b Hb.
  pose proof (proj1 (Forall_forall _ _) Ha b Hb). assert (a ≠ b) by (by intros ->). lia.
Qed.

Lemma ranges_spec numbers :
  concat (expand <$> ranges numbers) = merge_sort Z.le numbers ∧
  (NoDup numbers → Forall (λ r, r.1 ≤ r.2)%Z (ranges numbers) ∧ separated (ranges numbers)).
Proof.
  unfold ranges. pose proof (merge_sort_Permutation Z.le numbers) as Hp.
  pose proof (StronglySorted_merge_sort Z.le numbers) as Hs.
  destruct (merge_sort Z.le numbers) as [|n rest] eqn:E; [by repeat split|]. split.
  - rewrite group_loop_expand by lia. by rewrite expand_one.
  - intros Hnd. destruct (group_loop_shape rest n n) as (_ & ? & ?); [lia| |done].
    apply sorted_strict; [by rewrite Hp|done].
Qed.

(** C32: the text of [group_consecutive_numbers] is a list of ranges that
    contains exactly the given numbers, in ascending order; for numbers without
    repetition the ranges are the longest possible, as every one is followed
    by a gap. *)
Theorem group_consecutive_numbers_correct numbers : ∃ rs,
  group_consecutive_numbers numbers = join ", " (range_str <$> rs) ∧
  concat (expand <$> rs) ≡ₚ numbers ∧ StronglySorted Z.le (concat (expand <$> rs)) ∧
  (NoDup numbers → Forall (λ r, r.1 ≤ r.2)%Z rs ∧ separated rs).
Proof.
  exists (ranges numbers). destruct (ranges_spec numbers) as [H1 H2]. rewrite H1. split_and!; try done.
  - apply merge_sort_Permutation.
  - apply StronglySorted_merge_sort; apply _.
Qed.

(** ** Validation *)

(** A file meets its thresholds: its own, or the general ones. *)
Definition meets (lt bt : float) (fl fb : list (str * float)) (f : FileCoverage) : bool :=
  match line_coverage_percent f, branch_coverage_percent f with
  | Ok l, Ok b => negb (f_ltb l (default lt (dict_get (file_path f) fl))) &&
                  negb (f_ltb b (default bt (dict_get (file_path f) fb)))
  | _, _ => false
  end.

(** The percentages can be computed. *)
Definition computable (f : FileCoverage) : Prop :=
  (∃ l, line_coverage_percent f = Ok l) ∧ (∃ b, branch_coverage_percent f = Ok b).

(** The averages can be computed as well: the number of files is a float. *)
Definition data_computable (data : list (str * FileCoverage)) : Prop :=
  Forall computable data.*2 ∧ ∃ n, float_of_Z (Z.of_nat (length data)) = Ok n.

Section Validate.
Context {S : Type} (lt bt : float) (fl fb : list (str * float)).

Lemma wp_row n f acc (s : S) (Q : bool * float * float → S → Prop) (E : exn → S → Prop) :
  (∀ e, ¬ (computable f ∧ ∃ x, float_of_Z n = Ok x) → E e s) →
  (∀ tl tb, computable f → (∃ x, float_of_Z n = Ok x) → Q (acc.1.1 && meets lt bt fl fb f, tl, tb) s) →
  wp (report_row lt bt fl fb n acc f) Q E s.
Proof.
  intros HE HQ. destruct acc as [[v tl] tb]. unfold report_row, generate_summary_line.
  unfold meets, computable in HQ. unfold computable in HE. cbn [fst] in HQ.
  destruct (line_coverage_percent f) as [l|]; [|wp_run; apply HE; naive_solver].
  destruct (branch_coverage_percent f) as [b|]; [|wp_run; apply HE; naive_solver].
  cbn [mbind res_bind]. destruct (float_of_Z n); wp_run; [|apply HE; naive_solver].
  rewrite negb_orb. apply HQ; eauto.
Qed.

Lemma wp_rows n fs (s : S) (E : exn → S → Prop) : ∀ acc (Q : bool * float * float → S → Prop),
  (∀ e, ¬ (Forall computable fs ∧ ∃ x, float_of_Z n = Ok x) → E e s) →
  (∀ tl tb, Forall computable fs → fs = [] ∨ (∃ x, float_of_Z n = Ok x) → Q (acc.1.1 && forallb (meets lt bt fl fb) fs, tl, tb) s) →
  wp (fold_io (report_row lt bt fl fb n) acc fs) Q E s.
Proof.
  induction fs as [|f fs IH]; intros acc Q HE HQ; cbn [fold_io].
  - destruct acc as [[v tl] tb]. wp_run. cbn in HQ. rewrite andb_true_r in HQ. apply HQ; [constructor|by left].
  - apply wp_bind, wp_row.
    { intros e Hne. apply HE. intros [Hf%Forall_cons Hn]. naive_solver. }
    intros tl tb Hf Hn. apply IH.
    { intros e Hne. apply HE. intros [[_ Hfs]%Forall_cons _]. naive_solver. }
    intros tl' tb' Hfs _. cbn [fst forallb] in *. rewrite <-andb_assoc. apply HQ; [by constructor|by right].
Qed.

Lemma wp_missing fs (s : S) (E : exn → S → Prop) : ∀ any (Q : bool → S → Prop), (∀ b, Q b s) →
  wp (fold_io (λ any f,
      let report := generate_missing_coverage_report f in
      if bool_decide (report = []) then mret any else emit (EvOut report);; mret true) any fs) Q E s.
Proof.
  induction fs as [|f fs IH]; intros any Q HQ; cbn [fold_io]; [wp_run; apply HQ|].
  apply wp_bind. cbv zeta. wp_run; by apply IH.
Qed.

Lemma wp_validate data (s : S) (Q : bool → S → Prop) (E : exn → S → Prop) :
  (∀ e, ¬ data_computable data → E e s) → (data_computable data → Q (forallb (meets lt bt fl fb) data.*2) s) →
  wp (print_and_validate_report data lt bt fl fb) Q E s.
Proof.
  intros HE HQ. unfold print_and_validate_report. do 4 wp_step. apply wp_bind, wp_rows.
  { intros e Hne. by apply HE. }
  intros tl tb Hc Hn. do 6 wp_step. apply wp_bind, wp_missing. intros any.
  assert (data_computable data).
  { split; [done|]. destruct Hn as [->%fmap_nil_inv|Hn]; [by eexists|done]. }
  destruct any; wp_run; by apply HQ.
Qed.
End Validate.

Lemma meets_all lt bt fl fb (data : list (str * FileCoverage)) :
  forallb (meets lt bt fl fb) data.*2 = true ↔ ∀ path f, (path, f) ∈ data → meets lt bt fl fb f = true.
Proof.
  rewrite forallb_forall. split.
  - intros Hall path f Hin. apply Hall, list_elem_of_In, list_elem_of_fmap. by exists (path, f).
  - intros Hall f ([path f'] & -> & Hin)%list_elem_of_In%list_elem_of_fmap. by eapply Hall.
Qed.

(** [print_and_validate_report] returns, as soon as the percentages are
    representable, and returns [True] exactly when every file's line and
    branch coverage is not below its threshold: the file's own where one is
    given, the general one otherwise. *)
Theorem print_and_validate_correct {S : Type} data lt bt fl fb (s : S) :
  data_computable data → ∃ r,
  io_res (print_and_validate_report data lt bt fl fb s) = Ok r ∧
  (r = true ↔ ∀ path f, (path, f) ∈ data → meets lt bt fl fb f = true).
Proof.
  intros Hc. eexists. rewrite <-(meets_all lt bt fl fb data). split; [|reflexivity].
  pose proof (wp_validate lt bt fl fb data s (λ r _, r = forallb (meets lt bt fl fb) data.*2) (λ _ _, False)) as Hw.
  unfold wp in Hw. destruct (io_res _) as [r|e]; [by rewrite Hw|]. by destruct Hw.
Qed.

Definition sample_coverage : list (str * FileCoverage) :=
  [(("a.cc" : str), Build_FileCoverage "a.cc" 10 9 0 0 [3]%Z []);
   (("b.cc" : str), Build_FileCoverage "b.cc" 4 2 2 2 [] [])].

Lemma sample_computable : data_computable sample_coverage.
Proof.
  split; [|by eexists; vm_compute]. repeat constructor; eexists; vm_compute; reflexivity.
Qed.

(** With a threshold of one half all files pass; [a.cc]'s own threshold of one fails it. *)
Lemma print_and_validate_correct_witness :
  let half := f_div f_one (f_round 2) in
  (∃ r, io_res (print_and_validate_report sample_coverage half half [] [] ()) = Ok r ∧
    (r = true ↔ ∀ path f, (path, f) ∈ sample_coverage → meets half half [] [] f = true)) ∧
  forallb (meets half half [] []) sample_coverage.*2 = true ∧
  forallb (meets half half [(("a.cc" : str), f_one)] []) sample_coverage.*2 = false.
Proof.
  split; [|by vm_compute].
  exact (print_and_validate_correct sample_coverage _ _ [] [] () sample_computable).
Defined.

(** ** The exit status *)

Section Status.
Context `{HostFiles X} `{Host X}.

(** The thresholds of single files, as the file of thresholds gives them. *)
Definition thresholds_of (fs : fsys) (args : coverage_args) : res (list (str * float) * list (str * float)) :=
  match thresholds_file args with
  | None => Ok ([], [])
  | Some p =>
      data ← fs_read fs p;
      thresholds_data ← json_load data;
      match thresholds_data with
      | JDict items => parse_thresholds items ([], [])
      | _ => Raise (ValueError "Root element must be a JSON object.")
      end
  end.

(** The report that is read: the copy in container-tools ignores the one of
    the current directory. *)
Definition report_of (container_tools : bool) (x : X) (root : path) : path :=
  let cwd_report := report_file (Path true (fs_cwd (host_fs x))) in
  if container_tools then report_file root
  else if fs_exists (host_fs x) cwd_report then cwd_report else report_file root.

Definition coverage_main (container_tools : bool) (pwd : option str) : coverage_args → io X () :=
  if container_tools then main_container_tools pwd else main pwd.

(** Bazel ran and its report was read. *)
Definition bazel_report (container_tools : bool) (pwd : option str) (target : str) (x x' : X)
    (cov : list (str * FileCoverage)) : Prop :=
  ∃ root r data text cur,
    find_project_root (host_fs x) pwd = Ok root ∧
    exec (coverage_cmd root target) x = (Some r, x') ∧ returncode r = 0%Z ∧
    fs_read (host_fs x') (report_of container_tools x' root) = Ok data ∧ utf8_decode 0 data = Ok text ∧
    parse_lcov_lines ([], None) (file_lines text) = Ok (cov, cur).

Lemma wp_run_coverage (ct : bool) pwd target (x : X) (Q : path → X → Prop) (E : exn → X → Prop) :
  (∀ root r x', find_project_root (host_fs x) pwd = Ok root →
     exec (coverage_cmd root target) x = (Some r, x') → returncode r = 0%Z → Q (report_of ct x' root) x') →
  (∀ e x', (∀ root r x', find_project_root (host_fs x) pwd = Ok root →
     exec (coverage_cmd root target) x = (Some r, x') → returncode r ≠ 0%Z) → E e x') →
  wp ((if ct then run_bazel_coverage_container_tools pwd else run_bazel_coverage pwd) target) Q E x.
Proof.
  intros HQ HE.
  unfold run_bazel_coverage_container_tools, run_bazel_coverage.
  destruct ct; do 3 wp_step; destruct (find_project_root (host_fs x) pwd) as [root|e] eqn:Hroot;
    try (apply HE; congruence).
  all: wp_run; apply wp_subprocess;
    [intros r x' He [?|Hrc]; [done|]; wp_run; by apply (HQ root r x')
    |intros r x' He _ Hrc; cbn; wp_run; apply HE; congruence
    |intros x' He; cbn; apply HE; congruence].
Qed.

Lemma wp_generate_report path lt bt fl fb (x : X) (Q : bool → X → Prop) (E : exn → X → Prop) :
  let read cov := ∃ data text cur, fs_read (host_fs x) path = Ok data ∧ utf8_decode 0 data = Ok text ∧
     parse_lcov_lines ([], None) (file_lines text) = Ok (cov, cur) ∧ data_computable cov in
  ((∀ cov, ¬ read cov) → Q false x ∧ ∀ e, E e x) →
  (∀ cov, read cov → Q (forallb (meets lt bt fl fb) cov.*2) x) →
  wp (generate_lcov_report path lt bt fl fb) Q E x.
Proof.
  intros read HE HQ. unfold generate_lcov_report.
  assert ((∀ cov, ¬ read cov) → ∀ e, match (if is_FileNotFoundError e
       then Some (emit (EvOut ("File not found: " ++ path_str path));; mret false) else None) with
     | Some k => wp k Q E x | None => E e x end) as HH.
  { intros Hn e. apply HE in Hn as [? ?]. destruct (is_FileNotFoundError e); [by wp_run|done]. }
  do 4 wp_step. destruct (fs_read (host_fs x) path) as [data|e] eqn:Er;
    [|apply HH; intros cov (?&?&?&?&?); congruence].
  do 2 wp_step. destruct (utf8_decode 0 data) as [text|e] eqn:Et;
    [|apply HH; intros cov (?&?&?&?&?&?); congruence].
  do 2 wp_step. destruct (parse_lcov_lines ([], None) (file_lines text)) as [[cov cur]|e] eqn:Ep;
    [|apply HH; intros cov (?&?&?&?&?&?&?); congruence].
  apply wp_validate; [intros e Hne; apply HH; intros cov' (?&?&?&?&?&?&?); congruence|].
  intros Hc. apply HQ. by exists data, text, cur.
Qed.

(** What success means. *)
Definition coverage_succeeds (container_tools : bool) (pwd : option str) (args : coverage_args) (x : X) : Prop :=
  in_percent_range (lines args) = true ∧ in_percent_range (branch args) = true ∧
  ∃ fl fb x' cov, thresholds_of (host_fs x) args = Ok (fl, fb) ∧
    bazel_report container_tools pwd (target args) x x' cov ∧ data_computable cov ∧
    ∀ p f, (p, f) ∈ cov → meets (f_div (lines args) f_hundred) (f_div (branch args) f_hundred) fl fb f = true.

Lemma wp_thresholds args (x : X) (Q : list (str * float) * list (str * float) → X → Prop) (E : exn → X → Prop) :
  match thresholds_of (host_fs x) args with Ok v => Q v x | Raise _ => ∀ e, E e x end →
  wp (match thresholds_file args with Some p => parse_thresholds_file p | None => mret ([], []) end) Q E x.
Proof.
  unfold thresholds_of, parse_thresholds_file. destruct (thresholds_file args) as [p|]; [|by intros; wp_run].
  intros HQ. do 4 wp_step. destruct (_ ≫= _) as [v|e]; [done|]. case_match; simplify_eq; [|done].
  case_match; simplify_eq. by wp_run.
Qed.

Lemma main_decides ct pwd args (x : X) :
  wp (coverage_main ct pwd args)
    (λ _ _, coverage_succeeds ct pwd args x) (λ _ _, ¬ coverage_succeeds ct pwd args x) x.
Proof.
  assert (coverage_main ct pwd = main_with
    (if ct then run_bazel_coverage_container_tools pwd else run_bazel_coverage pwd)) as -> by by destruct ct.
  unfold main_with. apply wp_bind. cbn [for_each]. unfold check_threshold. cbn [snd].
  destruct (in_percent_range (branch args)) eqn:Hb; [|wp_run; intros (? & ? & _); congruence].
  destruct (in_percent_range (lines args)) eqn:Hl; [|wp_run; intros (? & _ & _); congruence]. wp_run.
  apply wp_thresholds. destruct (thresholds_of (host_fs x) args) as [[fl fb]|] eqn:Ht;
    [|intros _ (_ & _ & ? & ? & ? & ? & ? & _); congruence]. wp_run.
  apply wp_run_coverage.
  2: { intros _ _ Hno (_ & _ & fl' & fb' & x'' & cov & _ & (root & r & data & text & cur & ? & ? & ? & _) & _).
       by eapply Hno. }
  intros root r x' Hroot Hexec Hrc. wp_run.
  assert (∀ cov, bazel_report ct pwd (target args) x x' cov ↔ ∃ data text cur,
    fs_read (host_fs x') (report_of ct x' root) = Ok data ∧ utf8_decode 0 data = Ok text ∧
    parse_lcov_lines ([], None) (file_lines text) = Ok (cov, cur)) as Hrep.
  { intros cov. split.
    - intros (root' & r' & data & text & cur & K1 & K2 & K3 & K4). exists data, text, cur.
      rewrite Hroot in K1. by injection K1 as <-.
    - intros (data & text & cur & K). by exists root, r, data, text, cur. }
  assert (∀ x'' cov, bazel_report ct pwd (target args) x x'' cov → x'' = x') as Hx.
  { intros x'' cov (root' & r' & data & text & cur & K1 & K2 & _). congruence. }
  apply wp_generate_report.
  - intros Hno. assert (¬ coverage_succeeds ct pwd args x) as Hns.
    { intros (_ & _ & fl' & fb' & x'' & cov & _ & K & Hc & _). pose proof (Hx _ _ K) as ->.
      apply Hrep in K as (data & text & cur & ? & ? & ?). apply (Hno cov). by exists data, text, cur. }
    split; [by wp_run|done].
  - intros cov (data & text & cur & K1 & K2 & K3 & K4).
    assert (bazel_report ct pwd (target args) x x' cov) as Kr by (apply Hrep; by exists data, text, cur).
    destruct (forallb _ _) eqn:Hm; wp_run.
    + rewrite meets_all in Hm. split_and!; [done..|]. by exists fl, fb, x', cov.
    + intros (_ & _ & fl' & fb' & x'' & cov' & ? & K & _ & Hm'). simplify_eq. pose proof (Hx _ _ K) as ->.
      apply Hrep in K as (? & ? & ? & ? & ? & ?). simplify_eq. apply meets_all in Hm'. congruence.
Qed.
End Status.

(** How a run ends is decided by its inputs. *)
Lemma main_status `{HostFiles X} `{Host X} (container_tools : bool) pwd args (x : X) :
  io_res (coverage_main container_tools pwd args x) = Ok () ↔ coverage_succeeds container_tools pwd args x.
Proof.
  pose proof (main_decides container_tools pwd args x) as Hw. unfold wp in Hw.
  destruct (io_res _) as [[]|e]; [done|]. by split.
Qed.

(** C7: a coverage run ends successfully, in either copy of the script,
    exactly when both general thresholds are percentages, the thresholds of
    single files can be read, Bazel succeeds, its LCOV report can be read,
    and every file in it meets its thresholds; otherwise the run ends with an
    error. *)
Theorem coverage_main_correct `{HostFiles X} `{Host X} (container_tools : bool) pwd args (x : X) :
  io_res (coverage_main container_tools pwd args x) = Ok () ↔ coverage_succeeds container_tools pwd args x.
Proof. apply main_status. Qed.

(** ** Reading back a report *)

(** The data of one source file in a report: executed lines with their
    counts, branches with [None] for a branch in a block never executed, and
    the four totals. *)
Record file_data := FileData {
  fd_path : str;
  fd_lines : list (Z * Z);
  fd_branches : list (Z * Z * Z * option Z);
  fd_lf : Z; fd_lh : Z; fd_brf : Z; fd_brh : Z
}.

Definition da_line (nh : Z * Z) : str := "DA:" ++ str_of_Z nh.1 ++ "," ++ str_of_Z nh.2.
Definition taken_str (t : option Z) : str := match t with Some c => str_of_Z c | None => "-" end.
Definition brda_line (e : Z * Z * Z * option Z) : str :=
  let '(l, b, n, t) := e in
  "BRDA:" ++ str_of_Z l ++ "," ++ str_of_Z b ++ "," ++ str_of_Z n ++ "," ++ taken_str t.

(** The lines of a record, as LCOV writes them. *)
Definition record_lines (d : file_data) : list str :=
  ["SF:" ++ fd_path d] ++ (brda_line <$> fd_branches d) ++
  ["BRF:" ++ str_of_Z (fd_brf d); "BRH:" ++ str_of_Z (fd_brh d)] ++ (da_line <$> fd_lines d) ++
  ["LF:" ++ str_of_Z (fd_lf d); "LH:" ++ str_of_Z (fd_lh d); "end_of_record"].

Definition missed_lines (l : list (Z * Z)) : list Z := (List.filter (λ nh, (nh.2 =? 0)%Z) l).*1.
Definition missed_branches (l : list (Z * Z * Z * option Z)) : list (Z * Z * Z) :=
  (List.filter (λ e, match e.2 with None => true | Some _ => false end) l).*1.

Definition coverage_of (d : file_data) : FileCoverage :=
  {| file_path := fd_path d; lines_found := fd_lf d; lines_hit := fd_lh d;
     branches_found := fd_brf d; branches_hit := fd_brh d;
     uncovered_lines := missed_lines (fd_lines d); uncovered_branches := missed_branches (fd_branches d) |}.

(** A number short enough for [int]. *)
Definition short (z : Z) : Prop := length (str_of_N (Z.to_N (Z.abs z))) ≤ int_max_str_digits.

Record data_ok (d : file_data) : Prop := {
  ok_path : fd_path d ≠ [] ∧ strip ("SF:" ++ fd_path d) = "SF:" ++ fd_path d ∧ contains (fd_path d) "SF:" = false;
  ok_lines : Forall (λ nh, short nh.1 ∧ short nh.2) (fd_lines d);
  ok_branches : Forall (λ e, let '(l, b, n, _) := e in short l ∧ short b ∧ short n) (fd_branches d);
  ok_totals : short (fd_lf d) ∧ short (fd_lh d) ∧ short (fd_brf d) ∧ short (fd_brh d)
}.

(** Characters of numbers. *)
Definition num_char (c : N) : bool := is_ascii_digit c || (c =? 45)%N.

Lemma str_of_Z_chars z : Forall (λ c, num_char c = true) (str_of_Z z).
Proof.
  assert (∀ n, Forall (λ c, num_char c = true) (str_of_N n)) as Hn.
  { intros n. eapply Forall_impl; [apply dec_digits_ascii|]. intros c Hc. unfold num_char. by rewrite Hc. }
  unfold str_of_Z. case_match; [|done]. apply Forall_app. split; [by repeat constructor|done].
Qed.

Lemma num_notin c s : num_char c = false → Forall (λ c, num_char c = true) s → c ∉ s.
Proof. intros Hc Hs Hin. pose proof (proj1 (Forall_forall _ _) Hs c Hin). congruence. Qed.

Lemma num_nospace s : Forall (λ c, num_char c = true) s → Forall (λ c, is_space c = false) s.
Proof.
  intros Hs. eapply Forall_impl; [done|]. intros c [Hc|Hc]%orb_true_iff; [by apply ascii_digit_nospace|].
  apply N.eqb_eq in Hc as ->. done.
Qed.

Lemma contains_notin c s sub : c ∉ s → contains s (c :: sub) = false.
Proof.
  induction s as [|x s IH]; intros Hc; cbn [contains startswith]; [done|].
  rewrite (proj2 (N.eqb_neq c x)) by set_solver. apply IH. set_solver.
Qed.

(** Stripping a tag from a number. *)
Lemma tag_number tag c sub z : tag = c :: sub → num_char c = false → short z →
  py_int (replace (tag ++ str_of_Z z) tag "") = Ok z.
Proof.
  intros -> Hc Hz. rewrite replace_prefix by done. cbn [app].
  rewrite replace_absent by (apply contains_notin, num_notin; [done|apply str_of_Z_chars]).
  by apply py_int_str_of_Z.
Qed.

Lemma taken_chars t : Forall (λ c, num_char c = true) (taken_str t).
Proof. destruct t; [apply str_of_Z_chars|by repeat constructor]. Qed.

Lemma parse_da nh f : short nh.1 → short nh.2 → parse_lcov_data_line (da_line nh) f =
  Ok {| file_path := file_path f; lines_found := lines_found f; lines_hit := lines_hit f;
        branches_found := branches_found f; branches_hit := branches_hit f;
        uncovered_lines := uncovered_lines f ++ missed_lines [nh];
        uncovered_branches := uncovered_branches f |}.
Proof.
  destruct nh as [n h]. cbn [fst snd]. intros Hn Hh. unfold da_line, parse_lcov_data_line. cbn [fst snd].
  change (startswith ("DA:" ++ _) "LF:") with false. change (startswith ("DA:" ++ _) "LH:") with false.
  change (startswith ("DA:" ++ _) "BRF:") with false. change (startswith ("DA:" ++ _) "BRH:") with false.
  change (startswith ("DA:" ++ _) "DA:") with true. cbv iota.
  replace (split ("DA:" ++ str_of_Z n ++ "," ++ str_of_Z h) 44) with ["DA:" ++ str_of_Z n; str_of_Z h].
  2: { rewrite app_assoc. change ("," ++ str_of_Z h) with (44%N :: str_of_Z h). rewrite split_app.
       - rewrite split_sep_notin; [done|]. apply num_notin; [done|apply str_of_Z_chars].
       - intros [Hin|Hin]%elem_of_app; [by apply (bool_decide_eq_true_2 _) in Hin|].
         by eapply num_notin in Hin; [|done|apply str_of_Z_chars]. }
  unfold part. cbn [lookup list_lookup mbind res_bind].
  rewrite (tag_number "DA:" 68 [65; 58]%N) by done. cbn [mbind res_bind].
  rewrite py_int_str_of_Z by done. cbn [mbind res_bind]. unfold missed_lines. cbn [List.filter snd].
  destruct (h =? 0)%Z; [done|]. by rewrite app_nil_r.
Qed.

(** Three numbers and a last field between commas. *)
Lemma split_brda (a b c t : str) : Forall (λ c, num_char c = true) a → Forall (λ c, num_char c = true) b →
  Forall (λ c, num_char c = true) c → Forall (λ c, num_char c = true) t →
  split ("BRDA:" ++ a ++ "," ++ b ++ "," ++ c ++ "," ++ t) 44 = ["BRDA:" ++ a; b; c; t].
Proof.
  intros Ha Hb Hc Ht. assert (∀ s, Forall (λ c, num_char c = true) s → 44%N ∉ s) as Hn
    by (intros; by apply num_notin).
  assert (44%N ∉ ("BRDA:" : str) ++ a).
  { intros [Hin|Hin]%elem_of_app; [by apply (bool_decide_eq_true_2 _) in Hin|by apply (Hn a Ha)]. }
  rewrite (app_assoc "BRDA:"). change ("," ++ t) with (44%N :: t).
  change ("," ++ c ++ ?x) with (44%N :: c ++ x). change ("," ++ b ++ ?x) with (44%N :: b ++ x).
  rewrite (split_app _ _ _ H), (split_app _ _ _ (Hn _ Hb)), (split_app _ _ _ (Hn _ Hc)).
  by rewrite split_sep_notin by by apply Hn.
Qed.

Lemma parse_brda e f : (let '(l, b, n, _) := e in short l ∧ short b ∧ short n) →
  parse_lcov_data_line (brda_line e) f =
  Ok {| file_path := file_path f; lines_found := lines_found f; lines_hit := lines_hit f;
        branches_found := branches_found f; branches_hit := branches_hit f;
        uncovered_lines := uncovered_lines f;
        uncovered_branches := uncovered_branches f ++ missed_branches [e] |}.
Proof.
  destruct e as [[[l b] n] t]. intros (Hl & Hb & Hn). unfold brda_line, parse_lcov_data_line.
  change (startswith ("BRDA:" ++ _) "LF:") with false. change (startswith ("BRDA:" ++ _) "LH:") with false.
  change (startswith ("BRDA:" ++ _) "BRF:") with false. change (startswith ("BRDA:" ++ _) "BRH:") with false.
  change (startswith ("BRDA:" ++ _) "DA:") with false. change (startswith ("BRDA:" ++ _) "BRDA") with true. cbv iota.
  rewrite split_brda; [|apply str_of_Z_chars..|apply taken_chars].
  unfold part. cbn [lookup list_lookup mbind res_bind].
  rewrite (tag_number "BRDA:" 66 [82; 68; 65; 58]%N) by done. cbn [mbind res_bind].
  rewrite py_int_str_of_Z by done. cbn [mbind res_bind]. rewrite py_int_str_of_Z by done. cbn [mbind res_bind].
  unfold missed_branches. cbn [List.filter snd]. destruct t as [z|]; cbn [taken_str].
  - rewrite bool_decide_eq_false_2; [by rewrite app_nil_r|]. intros Hz.
    destruct (decide (z < 0)%Z).
    + unfold str_of_Z in Hz. rewrite (proj2 (Z.ltb_lt z 0)) in Hz by lia. injection Hz as Hz.
      by apply str_of_N_nonempty in Hz.
    + unfold str_of_Z in Hz. rewrite (proj2 (Z.ltb_ge z 0)) in Hz by lia.
      pose proof (dec_digits_ascii (S (N.size_nat (Z.to_N z))) (Z.to_N z)) as Hd. unfold str_of_N in Hz.
      rewrite Hz in Hd. by inversion Hd.
  - by rewrite bool_decide_eq_true_2.
Qed.

(** A line of a record: it has no blanks, and is neither the start nor the end of a record. *)
Definition inner_line (line : str) : Prop :=
  Forall (λ c, is_space c = false) line ∧ startswith line "SF:" = false ∧ line ≠ "end_of_record".

Ltac inner := split; [|done];
  repeat (apply Forall_app; split);
  first [apply num_nospace, str_of_Z_chars|apply num_nospace, taken_chars|by repeat constructor].

Lemma da_inner nh : inner_line (da_line nh).
Proof. unfold da_line. inner. Qed.

Lemma brda_inner e : inner_line (brda_line e).
Proof. destruct e as [[[l b] n] t]. unfold brda_line. inner. Qed.

(** A data line of the current file updates its record, the last one. *)
Lemma data_line d0 p f f' line rest : p ≠ [] → p ∉ dict_keys d0 →
  inner_line line → parse_lcov_data_line line f = Ok f' →
  parse_lcov_lines (d0 ++ [(p, f)], Some p) (line :: rest) = parse_lcov_lines (d0 ++ [(p, f')], Some p) rest.
Proof.
  intros Hp Hnin (Hns & Hsf & Hend) Hf. cbn [parse_lcov_lines]. unfold parse_lcov_line at 1.
  rewrite strip_nospace by done. rewrite Hsf, bool_decide_eq_false_2 by done.
  pose proof (dict_get_last d0 p f Hnin) as Hg. pose proof (dict_set_last d0 p f f' Hnin) as Hs.
  destruct p as [|c p]; [done|]. rewrite Hg. rewrite Hf. cbn [mbind res_bind]. by rewrite Hs.
Qed.


Lemma missed_lines_app l1 l2 : missed_lines (l1 ++ l2) = missed_lines l1 ++ missed_lines l2.
Proof. unfold missed_lines. by rewrite List.filter_app, fmap_app. Qed.
Lemma missed_branches_app l1 l2 : missed_branches (l1 ++ l2) = missed_branches l1 ++ missed_branches l2.
Proof. unfold missed_branches. by rewrite List.filter_app, fmap_app. Qed.

Section Blocks.
Context (d0 : list (str * FileCoverage)) (p : str) (Hp : p ≠ []) (Hnin : p ∉ dict_keys d0).

Abbreviation with_file f := (d0 ++ [(p, f)], Some p).

Lemma da_block das : ∀ fp lf lh bf bh ul ub rest, Forall (λ nh, short nh.1 ∧ short nh.2) das →
  parse_lcov_lines (with_file (Build_FileCoverage fp lf lh bf bh ul ub)) ((da_line <$> das) ++ rest) =
  parse_lcov_lines (with_file (Build_FileCoverage fp lf lh bf bh (ul ++ missed_lines das) ub)) rest.
Proof.
  induction das as [|nh das IH]; intros fp lf lh bf bh ul ub rest Hs; cbn [fmap list_fmap app].
  { by rewrite app_nil_r. }
  apply Forall_cons in Hs as [[Q1 Q2] Hs].
  erewrite data_line by eauto using da_inner, parse_da. cbn -[missed_lines parse_lcov_lines].
  rewrite IH by done. change (nh :: das) with ([nh] ++ das). by rewrite missed_lines_app, <-app_assoc.
Qed.

Lemma brda_block brs : ∀ fp lf lh bf bh ul ub rest,
  Forall (λ e, let '(l, b, n, _) := e in short l ∧ short b ∧ short n) brs →
  parse_lcov_lines (with_file (Build_FileCoverage fp lf lh bf bh ul ub)) ((brda_line <$> brs) ++ rest) =
  parse_lcov_lines (with_file (Build_FileCoverage fp lf lh bf bh ul (ub ++ missed_branches brs))) rest.
Proof.
  induction brs as [|e brs IH]; intros fp lf lh bf bh ul ub rest Hs; cbn [fmap list_fmap app].
  { by rewrite app_nil_r. }
  apply Forall_cons in Hs as [He Hs].
  erewrite data_line by eauto using brda_inner, parse_brda. cbn -[missed_branches parse_lcov_lines].
  rewrite IH by done. change (e :: brs) with ([e] ++ brs). by rewrite missed_branches_app, <-app_assoc.
Qed.

Lemma totals_block fp lf lh bf bh ul ub z rest : short z →
  parse_lcov_lines (with_file (Build_FileCoverage fp lf lh bf bh ul ub)) (("LF:" ++ str_of_Z z) :: rest) =
    parse_lcov_lines (with_file (Build_FileCoverage fp z lh bf bh ul ub)) rest ∧
  parse_lcov_lines (with_file (Build_FileCoverage fp lf lh bf bh ul ub)) (("LH:" ++ str_of_Z z) :: rest) =
    parse_lcov_lines (with_file (Build_FileCoverage fp lf z bf bh ul ub)) rest ∧
  parse_lcov_lines (with_file (Build_FileCoverage fp lf lh bf bh ul ub)) (("BRF:" ++ str_of_Z z) :: rest) =
    parse_lcov_lines (with_file (Build_FileCoverage fp lf lh z bh ul ub)) rest ∧
  parse_lcov_lines (with_file (Build_FileCoverage fp lf lh bf bh ul ub)) (("BRH:" ++ str_of_Z z) :: rest) =
    parse_lcov_lines (with_file (Build_FileCoverage fp lf lh bf z ul ub)) rest.
Proof.
  intros Hz. repeat split; apply data_line; try done; try inner; unfold parse_lcov_data_line.
  - change (startswith ("LF:" ++ _) "LF:") with true. cbv iota. by rewrite (tag_number "LF:" 76 [70; 58]%N).
  - change (startswith ("LH:" ++ _) "LF:") with false. change (startswith ("LH:" ++ _) "LH:") with true.
    cbv iota. by rewrite (tag_number "LH:" 76 [72; 58]%N).
  - change (startswith ("BRF:" ++ _) "LF:") with false. change (startswith ("BRF:" ++ _) "LH:") with false.
    change (startswith ("BRF:" ++ _) "BRF:") with true. cbv iota. by rewrite (tag_number "BRF:" 66 [82; 70; 58]%N).
  - change (startswith ("BRH:" ++ _) "LF:") with false. change (startswith ("BRH:" ++ _) "LH:") with false.
    change (startswith ("BRH:" ++ _) "BRF:") with false. change (startswith ("BRH:" ++ _) "BRH:") with true.
    cbv iota. by rewrite (tag_number "BRH:" 66 [82; 72; 58]%N).
Qed.
End Blocks.

(** One record adds one file. *)
Lemma record_block d0 cur d rest : data_ok d → fd_path d ∉ dict_keys d0 →
  parse_lcov_lines (d0, cur) (record_lines d ++ rest) =
  parse_lcov_lines (d0 ++ [(fd_path d, coverage_of d)], None) rest.
Proof.
  intros [(Hp & Hstrip & Hsf) Hl Hb (T1 & T2 & T3 & T4)] Hnin. unfold record_lines.
  rewrite <-!app_assoc. change (@app str [?x] ?l) with (x :: l). change (@app str [?x; ?y] ?l) with (x :: y :: l).
  change (@app str [?x; ?y; ?z] ?l) with (x :: y :: z :: l).
  cbn [parse_lcov_lines]. unfold parse_lcov_line at 1. rewrite Hstrip.
  change (startswith ("SF:" ++ _) "SF:") with true. cbv iota.
  rewrite replace_prefix by done. change ([] ++ ?x) with x. rewrite replace_absent by done. cbn [mbind res_bind].
  rewrite dict_set_absent by done. unfold new_coverage.
  rewrite brda_block by done.
  rewrite (proj1 (proj2 (proj2 (totals_block _ _ Hp Hnin _ _ _ _ _ _ _ _ _ T3)))).
  rewrite (proj2 (proj2 (proj2 (totals_block _ _ Hp Hnin _ _ _ _ _ _ _ _ _ T4)))).
  rewrite da_block by done.
  rewrite (proj1 (totals_block _ _ Hp Hnin _ _ _ _ _ _ _ _ _ T1)).
  rewrite (proj1 (proj2 (totals_block _ _ Hp Hnin _ _ _ _ _ _ _ _ _ T2))). done.
Qed.

Lemma records_block fds : ∀ d0 cur, Forall data_ok fds → NoDup (dict_keys d0 ++ (fd_path <$> fds)) →
  ∃ cur', parse_lcov_lines (d0, cur) (concat (record_lines <$> fds)) =
  Ok (d0 ++ ((λ d, (fd_path d, coverage_of d)) <$> fds), cur').
Proof.
  induction fds as [|d fds IH]; intros d0 cur Hok Hnd; cbn [fmap list_fmap concat].
  { exists cur. by rewrite app_nil_r. }
  apply Forall_cons in Hok as [Hd Hok]. rewrite record_block; [|done|].
  - destruct (IH (d0 ++ [(fd_path d, coverage_of d)]) None Hok) as [cur' ->].
    + unfold dict_keys in *. rewrite fmap_app, <-app_assoc. done.
    + exists cur'. by rewrite <-app_assoc.
  - apply NoDup_app in Hnd as (_ & Hdis & _). intros Hin. apply (Hdis _ Hin). cbn [fmap list_fmap]. left.
Qed.

(** C22: reading back an LCOV report gives, for each of its files and in its order, exactly the
    totals written in the record, the lines with hit count zero and the branches marked as never
    evaluated, whatever the numbers are (paths distinct, not containing the record tag or outer
    blanks, numbers within the interpreter's conversion limit). *)
Theorem lcov_roundtrip (fds : list file_data) :
  Forall data_ok fds → NoDup (fd_path <$> fds) →
  ∃ cur, parse_lcov_lines ([], None) (concat (record_lines <$> fds)) =
    Ok ((λ d, (fd_path d, coverage_of d)) <$> fds, cur).
Proof. intros Hok Hnd. by apply (records_block fds [] None). Qed.

Definition sample_fds : list file_data :=
  [FileData "a/b.cc" [(1, 2); (2, 0)]%Z [(1, 0, 0, Some 0); (1, 0, 1, None)]%Z 2 1 2 1;
   FileData "c.py" [(7, 0)]%Z [] 1 0 0 0].

#[local] Instance short_dec z : Decision (short z) := ltac:(unfold short; apply _).

Lemma sample_fds_ok : Forall data_ok sample_fds.
Proof.
  repeat apply Forall_cons_2; [..|apply Forall_nil_2];
    (split; [split_and!; [done|vm_compute; reflexivity..]|..]);
    repeat first [apply Forall_cons_2|apply Forall_nil_2|split];
    apply (bool_decide_eq_true_1 _); vm_compute; reflexivity.
Qed.

Lemma lcov_roundtrip_witness :
  ∃ cur, parse_lcov_lines ([], None) (concat (record_lines <$> sample_fds)) =
    Ok ([(("a/b.cc" : str), Build_FileCoverage "a/b.cc" 2 1 2 1 [2]%Z [(1, 0, 1)%Z]);
         (("c.py" : str), Build_FileCoverage "c.py" 1 0 0 0 [7]%Z [])], cur).
Proof.
  apply (lcov_roundtrip sample_fds); [exact sample_fds_ok|by apply (bool_decide_eq_true_1 _)].
Defined.

(** C39: a branch that was evaluated and never taken (count zero in the report, as opposed to the
    marker of a branch in a block that never ran) is missing from the list of missing branches: a
    file with all its lines hit and none of its branches ever taken has nothing to report. *)
Theorem untaken_branches_unreported (d : file_data) :
  data_ok d → Forall (λ nh, nh.2 ≠ 0%Z) (fd_lines d) → Forall (λ e, e.2 = Some 0%Z) (fd_branches d) →
  ∃ cur f, parse_lcov_lines ([], None) (record_lines d) = Ok ([(fd_path d, f)], cur) ∧
    branches_found f = fd_brf d ∧ branches_hit f = fd_brh d ∧ generate_missing_coverage_report f = [].
Proof.
  intros Hok Hl Hb. destruct (records_block [d] [] None) as [cur Hr]; [by constructor|by apply NoDup_singleton|].
  exists cur, (coverage_of d). cbn [fmap list_fmap concat app] in Hr. rewrite app_nil_r in Hr.
  split_and!; [done..|]. unfold generate_missing_coverage_report, coverage_of. cbn -[missed_lines missed_branches].
  assert (missed_lines (fd_lines d) = []) as ->.
  { unfold missed_lines. induction Hl as [|[n h] l Hh Hl IH]; [done|]. cbn in *. by rewrite (proj2 (Z.eqb_neq h 0)). }
  assert (missed_branches (fd_branches d) = []) as ->; [|done].
  unfold missed_branches. induction Hb as [|e l He Hb IH]; [done|]. cbn in *. by rewrite He.
Qed.

Definition sample_untaken : file_data := FileData "a.cc" [(1, 1)]%Z [(1, 0, 0, Some 0)]%Z 1 1 1 0.

Lemma sample_untaken_ok : data_ok sample_untaken.
Proof.
  split; [split_and!; [done|vm_compute; reflexivity..]|..];
    repeat first [apply Forall_cons_2|apply Forall_nil_2|split];
    apply (bool_decide_eq_true_1 _); vm_compute; reflexivity.
Qed.

Lemma untaken_branches_unreported_witness :
  ∃ cur f, parse_lcov_lines ([], None) (record_lines sample_untaken) = Ok ([(("a.cc" : str), f)], cur) ∧
    branches_found f = 1%Z ∧ branches_hit f = 0%Z ∧ generate_missing_coverage_report f = [].
Proof.
  apply (untaken_branches_unreported sample_untaken); [exact sample_untaken_ok|by repeat constructor..].
Defined.
