(* ===== verification/CommandLine.v ===== *)
(** * Command lines

    The parts of the scripts' [main] functions that come first: the argument
    parser, and the set-up of logging.  With them, every script is a program
    from its command line. *)
From S2P Require Import Prelude PyStr PyFloat Json Sha256 PyPath Fs FsWrite Proc Mounts DockerBuild Cleanup DockerRun Bootstrap Bep Coverage Argparse.

(** ** Arguments *)

Definition store (name dest_name : str) (ty : argtype) (def : value) : argument :=
  Argument [name] dest_name Store NOne ty None false def.
Definition store_required (name dest_name : str) (ty : argtype) : argument :=
  Argument [name] dest_name Store NOne ty None true VNone.
Definition store_true (name dest_name : str) : argument :=
  Argument [name] dest_name StoreTrue NZero TStr None false (VBool false).
Definition append (name dest_name : str) (ty : argtype) (req : bool) (def : value) : argument :=
  Argument [name] dest_name Append NOne ty None req def.
Definition help_argument : argument :=
  Argument ["-h"; "--help"] "help" Help NZero TStr None false VNone.

Definition devkit_log_file : argument := store "--devkit-log-file" "devkit_log_file" TPath VNone.

(** ** Parsers *)

Definition build_parser : parser := Parser
  [help_argument;
   store_true "--print-tag" "print_tag";
   store_required "--config" "config" TPath;
   append "--search-path" "search_path" TPath true VNone;
   store_true "--local" "local";
   store_true "--no-cache" "no_cache";
   store "--log-file" "log_file" TPath VNone]
  (Some (Argument [] "target_images" Store NStar TStr None false (VList []))).

Definition cleanup_parser : parser := Parser
  [help_argument;
   devkit_log_file;
   store_required "--config-path" "config_path" TPath;
   append "--search-path" "search_path" TPath true VNone;
   store "--initial-delay" "initial_delay" TFloat (VFloat f_zero);
   store "--cleanup-interval" "cleanup_interval" TFloat (VFloat f_zero);
   store "--batch-size" "batch_size" TInt (VInt 10);
   store "--threshold-days" "threshold_days" TInt (VInt CLEANUP_THRESHOLD_DAYS)]
  None.

Definition bep_parser : parser := Parser
  [help_argument;
   Argument ["--targets"] "targets" Store NPlus TStr None false (VList []);
   Argument ["--command"] "command" Store NOne TStr (Some ["fetch"; "build"]) false (VStr "fetch");
   store "--output_dir" "output_dir" TPath (VPath (path_of_str "bazel-bep"));
   devkit_log_file]
  None.

(** [cwd] is [os.getcwd()]. *)
Definition bootstrap_parser (cwd : path) : parser := Parser
  [help_argument;
   store_required "--template" "template" TStr;
   store "--templates-root" "templates_root" TPath VNone;
   store "--output-dir" "output_dir" TPath (VPath cwd);
   Argument ["--args"] "args" Store NStar TStr None false (VList []);
   devkit_log_file]
  None.

Definition coverage_parser : parser := Parser
  [help_argument;
   store "--target" "target" TStr (VStr "//...");
   store "--lines" "lines" TFloat (VFloat f_hundred);
   store "--branch" "branch" TFloat (VFloat f_hundred);
   store "--thresholds-file" "thresholds_file" TPath VNone;
   devkit_log_file]
  None.

Definition mounts_parser (cwd : path) : parser := Parser
  [help_argument;
   store "--root-dir" "root_dir" TPath (VPath cwd);
   append "--mount" "existing_mounts" TPath false (VList [])]
  None.

Definition run_parser : parser := Parser [devkit_log_file] None.

(** ** Attributes of a namespace *)

Abbreviation namespace := (list (str * value)).

Definition as_path (v : value) : option path := match v with VPath p => Some p | _ => None end.
Definition as_str (v : value) : option str := match v with VStr s => Some s | _ => None end.
Definition as_float (v : value) : option float := match v with VFloat x => Some x | _ => None end.
Definition as_int (v : value) : option Z := match v with VInt z => Some z | _ => None end.
Definition as_bool (v : value) : option bool := match v with VBool b => Some b | _ => None end.
Definition as_optional {A} (f : value → option A) (v : value) : option (option A) :=
  match v with VNone => Some None | _ => Some <$> f v end.
Definition as_list {A} (f : value → option A) (v : value) : option (list A) :=
  match v with VList l => mapM f l | _ => None end.

Definition attr {A} (f : value → option A) (ns : namespace) (d : str) : option A := dict_get d ns ≫= f.

Definition build_args_of (ns : namespace) : option build_args :=
  ts ← attr (as_list as_str) ns "target_images";
  pt ← attr as_bool ns "print_tag";
  cf ← attr as_path ns "config";
  sp ← attr (as_list as_path) ns "search_path";
  lc ← attr as_bool ns "local";
  nc ← attr as_bool ns "no_cache";
  lf ← attr (as_optional as_path) ns "log_file";
  Some (BuildArgs ts pt cf sp lc nc lf).

(** The arguments the other scripts pass on, with the log file. *)
Definition cleanup_args_of (ns : namespace) : option (cleanup_args * option path) :=
  cp ← attr as_path ns "config_path";
  sp ← attr (as_list as_path) ns "search_path";
  _ ← attr as_float ns "initial_delay";
  _ ← attr as_float ns "cleanup_interval";
  bs ← attr as_int ns "batch_size";
  td ← attr as_int ns "threshold_days";
  lf ← attr (as_optional as_path) ns "devkit_log_file";
  Some (CleanupArgs cp sp bs td, lf).

Definition bep_args_of (ns : namespace) : option (list str * str * path * option path) :=
  ts ← attr (as_list as_str) ns "targets";
  c ← attr as_str ns "command";
  o ← attr as_path ns "output_dir";
  lf ← attr (as_optional as_path) ns "devkit_log_file";
  Some (ts, c, o, lf).

Definition bootstrap_args_of (ns : namespace) : option (bootstrap_args * option path) :=
  t ← attr as_str ns "template";
  tr ← attr (as_optional as_path) ns "templates_root";
  o ← attr as_path ns "output_dir";
  a ← attr (as_list as_str) ns "args";
  lf ← attr (as_optional as_path) ns "devkit_log_file";
  Some (BootstrapArgs t tr o a, lf).

Definition coverage_args_of (ns : namespace) : option (coverage_args * option path) :=
  t ← attr as_str ns "target";
  l ← attr as_float ns "lines";
  b ← attr as_float ns "branch";
  tf ← attr (as_optional as_path) ns "thresholds_file";
  lf ← attr (as_optional as_path) ns "devkit_log_file";
  Some (CoverageArgs t l b tf, lf).

Definition mounts_args_of (ns : namespace) : option (path * list path) :=
  r ← attr as_path ns "root_dir";
  m ← attr (as_list as_path) ns "existing_mounts";
  Some (r, m).

Definition run_log_file (ns : namespace) : option (option path) :=
  attr (as_optional as_path) ns "devkit_log_file".

(** ** Ending early *)

(** The texts of the help and of an error, usage included. *)
Class HelpFormatter := {
  format_help : parser → str;
  format_error : parser → perror → str
}.

(** [--help] prints the help and exits with code 0; [parser.error] prints to
    the standard error stream and exits with code 2. *)
Definition run_parse `{HelpFormatter} {S A : Type} (p : parser) (r : presult A) : io S A :=
  match r with
  | PDone a => mret a
  | PHelp => emit (EvOut (format_help p));; sys_exit 0
  | PError e => emit (EvErr (format_error p e));; sys_exit 2
  end.

(** Attributes of the declared types; see [args_of_typed]. *)
Definition typed {A : Type} (o : option A) : res A := match o with Some a => Ok a | None => Raise IllTyped end.

(** [parser.parse_args()], its attributes read. *)
Definition parse_command_line `{HelpFormatter} {S A : Type} (p : parser) (args_of : namespace → option A)
    (argv : list str) : io S A :=
  ns ← run_parse p (parse_args p argv);
  lift_res (typed (args_of ns)).

(** ** Logging *)

(** [open(p, "a")]: the file is created when it is missing. *)
Definition fs_append (fs : fsys) (p : path) : res fsys :=
  w ← fs_creat fs p;
  match node_at (fs_root fs) w with
  | Some _ => Ok fs
  | None => Ok (fs_set fs w (NFile []))
  end.

(** [logging.basicConfig(filename=log_file, filemode="a")]: the log file is
    opened at once, under its absolute path.  The records that are written to
    it, or to the standard error stream when there is none, are the events
    [EvLog]. *)
Definition basicConfig (log_file : option path) (fs : fsys) : res fsys :=
  match log_file with
  | None => Ok fs
  | Some p => fs_append fs (normpath (path_join (Path true (fs_cwd fs)) p))
  end.

Definition setup_logging {S : Type} (log_file : option path) : io (fsys * S) () :=
  '(fs, s) ← get; fs ← lift_res (basicConfig log_file fs); put (fs, s).

(** ** The scripts *)

Section Scripts.
Context `{HelpFormatter} `{JsonRepr} `{HexDigest} `{PySetOrder} `{PathSetOrder} `{RecursionLimit}.
Context `{Host X} `{Popen X} `{Interrupts X}.

(** [docker/build.py]. *)
Definition build_script (argv : list str) : io (fsys * (tags * X)) () :=
  args ← parse_command_line build_parser build_args_of argv;
  setup_logging (log_file args);;
  '(fs, _) ← get;
  on_snd (DockerBuild.main fs args).

(** [docker_cleanup.py]. *)
Definition cleanup_script (argv : list str) : io (fsys * (cancel * X)) () :=
  '(args, log_file) ← parse_command_line cleanup_parser cleanup_args_of argv;
  setup_logging log_file;;
  '(fs, _) ← get;
  on_snd (Cleanup.main fs args).

(** [list_external_mounts.py]. *)
Definition mounts_script {S : Type} (fuel : nat) (argv : list str) : io (fsys * S) () :=
  '(fs, _) ← get;
  '(root_dir, existing_mounts) ← parse_command_line (mounts_parser (Path true (fs_cwd fs))) mounts_args_of argv;
  Mounts.main fs fuel root_dir existing_mounts.

(** [docker_run.py]: what the parser does not know is passed on. *)
Definition run_script (pr : process) (fuel : nat) (argv : list str) : io (fsys * X) () :=
  '(ns, unknown_args) ← run_parse run_parser (parse_known_args run_parser argv);
  log_file ← lift_res (typed (run_log_file ns));
  setup_logging log_file;;
  DockerRun.main pr fuel unknown_args.

(** [bootstrap.py]. *)
Definition bootstrap_script `{Jinja} (script_dir : path) (fuel : nat) (argv : list str) : io Bootstrap.disk () :=
  fs ← get_fs;
  '(args, log_file) ← parse_command_line (bootstrap_parser (Path true (fs_cwd fs))) bootstrap_args_of argv;
  change_fs (basicConfig log_file);;
  Bootstrap.main script_dir fuel args.

(** [bep.py]. *)
Definition bep_script `{TempNames} (pwd : option str) (argv : list str) : io (bep_disk * X) () :=
  '(targets, command, output_dir, log_file) ← parse_command_line bep_parser bep_args_of argv;
  '(d, x) ← get;
  fs ← lift_res (basicConfig log_file (bep_fs d));
  put (BepDisk (temps d) fs, x);;
  Bep.main pwd targets command output_dir.

(** [coverage_report.py]: the files belong to the host, as Bazel writes them. *)
Class HostLog (X : Type) `{HostFiles X} := {
  open_log : option path → X → res X;
  open_log_spec : ∀ l x, match open_log l x with
    | Ok x' => basicConfig l (host_fs x) = Ok (host_fs x')
    | Raise e => basicConfig l (host_fs x) = Raise e
    end
}.

Definition coverage_script `{HostLog X} (pwd : option str) (argv : list str) : io X () :=
  '(args, log_file) ← parse_command_line coverage_parser coverage_args_of argv;
  x ← get;
  x ← lift_res (open_log log_file x);
  put x;;
  Coverage.main pwd args.
End Scripts.
