(* ===== verification/CommandLineFacts.v ===== *)
(** * Correctness of the command lines

    What the scripts read from their command lines, and the scripts as whole
    programs. *)
From S2P Require Import Prelude PyStr PyFloat Json Sha256 PyPath Fs FsWrite Proc DockerConfig DockerBuild DockerDeps DockerTags DockerImages DockerManage BuildImages BuilderInit Mounts Cleanup DockerRun DockerRunFacts Bootstrap Bep Coverage Argparse ArgparseFacts CommandLine.

(** ** The parsers are well declared *)

Ltac parser_declared :=
  split; [by apply (bool_decide_eq_true_1 _); vm_compute|by repeat constructor; cbn; intros; simplify_eq; constructor
    |by repeat constructor|by intros a Ha; first [discriminate Ha|injection Ha as <-; repeat split; by eexists]].

Lemma build_parser_ok : parser_ok build_parser.
Proof. parser_declared. Qed.
Lemma cleanup_parser_ok : parser_ok cleanup_parser.
Proof. parser_declared. Qed.
Lemma bep_parser_ok : parser_ok bep_parser.
Proof. parser_declared. Qed.
Lemma bootstrap_parser_ok cwd : parser_ok (bootstrap_parser cwd).
Proof. parser_declared. Qed.
Lemma coverage_parser_ok : parser_ok coverage_parser.
Proof. parser_declared. Qed.
Lemma mounts_parser_ok cwd : parser_ok (mounts_parser cwd).
Proof. parser_declared. Qed.
Lemma run_parser_ok : parser_ok run_parser.
Proof. parser_declared. Qed.

(** ** Attributes of the declared types *)

Lemma mapM_typed {A} (f : value → option A) t l : (∀ v, of_type t v → is_Some (f v)) →
  Forall (of_type t) l → is_Some (mapM f l).
Proof.
  intros Hf. induction 1 as [|v l Hv _ [ws Hws]]; [by eexists|]. destruct (Hf v Hv) as [w Hw].
  exists (w :: ws). cbn. by rewrite Hw, Hws.
Qed.

(** The values an argument can have, given or not. *)
Definition possible (a : argument) (v : value) : Prop :=
  value_ok a v ∨ (required a = false ∧ v = default_value a).

Lemma possible_attr {A} (f : value → option A) p argv ns xs a : parser_ok p →
  parse_known_args p argv = PDone (ns, xs) → a ∈ actions p → act a ≠ Help →
  (∀ v, possible a v → is_Some (f v)) → ∃ y, attr f ns (dest a) = Some y.
Proof.
  intros Hp Hns Ha Hh Hf. destruct (parse_known_typed p Hp argv ns xs Hns a Ha Hh) as (v & Hv & Hpos).
  unfold attr. rewrite Hv. cbn. destruct (Hf v Hpos) as [y Hy]. by exists y.
Qed.

Lemma parse_args_known p argv ns : parse_args p argv = PDone ns → parse_known_args p argv = PDone (ns, []).
Proof. intros ([ns' xs] & H & Hn)%presult_bind_Done. destruct xs; [|done]. by injection Hn as ->. Qed.

(** Values by the way the argument is declared. *)
Lemma possible_flag name d v : possible (store_true name d) v → is_Some (as_bool v).
Proof. intros [->|[_ ->]]; by eexists. Qed.

Lemma possible_required name d v : possible (store_required name d TPath) v → is_Some (as_path v).
Proof. intros [[Hv _]|Hd]; [destruct v; try done; by eexists|by destruct Hd]. Qed.

Lemma possible_required_str name d v : possible (store_required name d TStr) v → is_Some (as_str v).
Proof. intros [[Hv _]|Hd]; [destruct v; try done; by eexists|by destruct Hd]. Qed.

Lemma possible_optional name d v : possible (store name d TPath VNone) v → is_Some (as_optional as_path v).
Proof. intros [[Hv _]|[_ ->]]; [|by eexists]. destruct v; try done; by eexists. Qed.

Lemma possible_path name d q v : possible (store name d TPath (VPath q)) v → is_Some (as_path v).
Proof. intros [[Hv _]|[_ ->]]; [|by eexists]. destruct v; try done; by eexists. Qed.

Lemma possible_float name d x v : possible (store name d TFloat (VFloat x)) v → is_Some (as_float v).
Proof. intros [[Hv _]|[_ ->]]; [|by eexists]. destruct v; try done; by eexists. Qed.

Lemma possible_int name d z v : possible (store name d TInt (VInt z)) v → is_Some (as_int v).
Proof. intros [[Hv _]|[_ ->]]; [|by eexists]. destruct v; try done; by eexists. Qed.

Lemma possible_str names d c s v : possible (Argument names d Store NOne TStr c false (VStr s)) v → is_Some (as_str v).
Proof. intros [[Hv _]|[_ ->]]; [|by eexists]. destruct v; try done; by eexists. Qed.

Lemma possible_append name d b def v : (b = false → def = VList []) →
  possible (append name d TPath b def) v → is_Some (as_list as_path v).
Proof.
  intros Hb [(l & -> & _ & Hl)|[E ->]].
  - eapply mapM_typed; [|exact Hl]. intros w Hw. destruct w; try done; by eexists.
  - cbn in *. rewrite Hb by done. by eexists.
Qed.

Lemma possible_strs names d n v : n = NStar ∨ n = NPlus →
  possible (Argument names d Store n TStr None false (VList [])) v → is_Some (as_list as_str v).
Proof.
  intros Hn [Hv|[_ ->]]; [|by eexists]. assert (∃ l, v = VList l ∧ Forall (of_type TStr) l) as (l & -> & Hl).
  { by destruct Hn as [-> | ->]. }
  eapply mapM_typed; [|exact Hl]. intros w Hw. destruct w; try done; by eexists.
Qed.

Ltac possible_value := let v := fresh "v" in let Hv := fresh "Hv" in intros v Hv;
  first [exact (possible_flag _ _ v Hv)|exact (possible_required _ _ v Hv)|exact (possible_required_str _ _ v Hv)
    |exact (possible_optional _ _ v Hv)|exact (possible_path _ _ _ v Hv)|exact (possible_float _ _ _ v Hv)
    |exact (possible_int _ _ _ v Hv)|exact (possible_str _ _ _ _ v Hv)
    |refine (possible_append _ _ _ _ v _ Hv); done|refine (possible_strs _ _ _ v _ Hv); auto].

Ltac member := unfold actions; cbn; repeat first [apply list_elem_of_here|apply list_elem_of_further].

(** The attribute of the argument [a], read with [f]. *)
Ltac attribute Hp Hns f a :=
  let y := fresh "y" in let Hy := fresh "Hy" in
  destruct (possible_attr f _ _ _ _ a Hp Hns) as [y Hy];
    [by member|done|possible_value|cbn [dest store store_true store_required append devkit_log_file] in Hy;
     rewrite Hy; clear Hy; cbn [mbind option_bind]].

(** Every command line that is accepted has all attributes. *)
Definition typed_command_line {A : Type} (p : parser) (args_of : namespace → option A) : Prop :=
  ∀ argv ns, parse_args p argv = PDone ns → is_Some (args_of ns).

Lemma build_typed : typed_command_line build_parser build_args_of.
Proof.
  intros argv ns Hns%parse_args_known. unfold build_args_of.
  attribute build_parser_ok Hns (as_list as_str) (Argument [] "target_images" Store NStar TStr None false (VList [])).
  attribute build_parser_ok Hns as_bool (store_true "--print-tag" "print_tag").
  attribute build_parser_ok Hns as_path (store_required "--config" "config" TPath).
  attribute build_parser_ok Hns (as_list as_path) (append "--search-path" "search_path" TPath true VNone).
  attribute build_parser_ok Hns as_bool (store_true "--local" "local").
  attribute build_parser_ok Hns as_bool (store_true "--no-cache" "no_cache").
  attribute build_parser_ok Hns (as_optional as_path) (store "--log-file" "log_file" TPath VNone).
  by eexists.
Qed.

Lemma cleanup_typed : typed_command_line cleanup_parser cleanup_args_of.
Proof.
  intros argv ns Hns%parse_args_known. unfold cleanup_args_of.
  attribute cleanup_parser_ok Hns as_path (store_required "--config-path" "config_path" TPath).
  attribute cleanup_parser_ok Hns (as_list as_path) (append "--search-path" "search_path" TPath true VNone).
  attribute cleanup_parser_ok Hns as_float (store "--initial-delay" "initial_delay" TFloat (VFloat f_zero)).
  attribute cleanup_parser_ok Hns as_float (store "--cleanup-interval" "cleanup_interval" TFloat (VFloat f_zero)).
  attribute cleanup_parser_ok Hns as_int (store "--batch-size" "batch_size" TInt (VInt 10)).
  attribute cleanup_parser_ok Hns as_int (store "--threshold-days" "threshold_days" TInt (VInt CLEANUP_THRESHOLD_DAYS)).
  attribute cleanup_parser_ok Hns (as_optional as_path) devkit_log_file.
  by eexists.
Qed.

Lemma bep_typed : typed_command_line bep_parser bep_args_of.
Proof.
  intros argv ns Hns%parse_args_known. unfold bep_args_of.
  attribute bep_parser_ok Hns (as_list as_str) (Argument ["--targets"] "targets" Store NPlus TStr None false (VList [])).
  attribute bep_parser_ok Hns as_str
    (Argument ["--command"] "command" Store NOne TStr (Some ["fetch"; "build"]) false (VStr "fetch")).
  attribute bep_parser_ok Hns as_path (store "--output_dir" "output_dir" TPath (VPath (path_of_str "bazel-bep"))).
  attribute bep_parser_ok Hns (as_optional as_path) devkit_log_file.
  by eexists.
Qed.

Lemma bootstrap_typed cwd : typed_command_line (bootstrap_parser cwd) bootstrap_args_of.
Proof.
  intros argv ns Hns%parse_args_known. unfold bootstrap_args_of. pose proof (bootstrap_parser_ok cwd) as Hok.
  attribute Hok Hns as_str (store_required "--template" "template" TStr).
  attribute Hok Hns (as_optional as_path) (store "--templates-root" "templates_root" TPath VNone).
  attribute Hok Hns as_path (store "--output-dir" "output_dir" TPath (VPath cwd)).
  attribute Hok Hns (as_list as_str) (Argument ["--args"] "args" Store NStar TStr None false (VList [])).
  attribute Hok Hns (as_optional as_path) devkit_log_file.
  by eexists.
Qed.

Lemma coverage_typed : typed_command_line coverage_parser coverage_args_of.
Proof.
  intros argv ns Hns%parse_args_known. unfold coverage_args_of.
  attribute coverage_parser_ok Hns as_str (store "--target" "target" TStr (VStr "//...")).
  attribute coverage_parser_ok Hns as_float (store "--lines" "lines" TFloat (VFloat f_hundred)).
  attribute coverage_parser_ok Hns as_float (store "--branch" "branch" TFloat (VFloat f_hundred)).
  attribute coverage_parser_ok Hns (as_optional as_path) (store "--thresholds-file" "thresholds_file" TPath VNone).
  attribute coverage_parser_ok Hns (as_optional as_path) devkit_log_file.
  by eexists.
Qed.

Lemma mounts_typed cwd : typed_command_line (mounts_parser cwd) mounts_args_of.
Proof.
  intros argv ns Hns%parse_args_known. unfold mounts_args_of. pose proof (mounts_parser_ok cwd) as Hok.
  attribute Hok Hns as_path (store "--root-dir" "root_dir" TPath (VPath cwd)).
  attribute Hok Hns (as_list as_path) (append "--mount" "existing_mounts" TPath false (VList [])).
  by eexists.
Qed.

(** How reading a command line ends: with the attributes, or the help and code
    0, or an error message and code 2; the state does not change. *)
Definition parse_outcome `{HelpFormatter} {S A : Type} (p : parser) (args_of : namespace → option A)
    (argv : list str) (s : S) : Prop :=
  match parse_args p argv with
  | PDone ns => ∃ args, args_of ns = Some args ∧ parse_command_line p args_of argv s = ([], s, Ok args)
  | PHelp => parse_command_line p args_of argv s = ([EvOut (format_help p)], s, Raise (SystemExit 0))
  | PError e => parse_command_line p args_of argv s = ([EvErr (format_error p e)], s, Raise (SystemExit 2))
  end.

Lemma parse_outcome_typed `{HelpFormatter} {S A : Type} p (args_of : namespace → option A) argv (s : S) :
  typed_command_line p args_of → parse_outcome p args_of argv s.
Proof.
  intros Ht. unfold parse_outcome, parse_command_line. destruct (parse_args p argv) as [ns| |e] eqn:E; [|done..].
  destruct (Ht argv ns E) as [args Ha]. exists args. split; [done|].
  unfold run_parse, mbind, io_bind, mret, io_ret, lift_res. by rewrite Ha.
Qed.

(** ** The command line of [build.py] *)

Definition opt_list {A B} (f : A → list B) (o : option A) : list B := match o with Some a => f a | None => [] end.

(** Arguments as a command line, every option written in full. *)
Definition build_argv (args : build_args) : list str :=
  target_images args ++
  (if print_tag args then ["--print-tag"] else []) ++
  ["--config"; path_str (config args)] ++
  concat ((λ q, ["--search-path"; path_str q]) <$> search_path args) ++
  (if local args then ["--local"] else []) ++
  (if no_cache args then ["--no-cache"] else []) ++
  opt_list (λ q, ["--log-file"; path_str q]) (log_file args).

(** A path whose text is not taken for an option, and denotes the path. *)
Definition plain_path (q : path) : Prop := path_wf q ∧ plain_arg (path_str q).

Record plain_build_args (args : build_args) : Prop := {
  pb_targets : Forall plain_arg (target_images args);
  pb_config : plain_path (config args);
  pb_search : Forall plain_path (search_path args) ∧ search_path args ≠ [];
  pb_log : ∀ q, log_file args = Some q → plain_path q
}.

Definition arg_targets := Argument [] "target_images" Store NStar TStr None false (VList []).
Definition arg_print_tag := store_true "--print-tag" "print_tag".
Definition arg_config := store_required "--config" "config" TPath.
Definition arg_search := append "--search-path" "search_path" TPath true VNone.
Definition arg_local := store_true "--local" "local".
Definition arg_no_cache := store_true "--no-cache" "no_cache".
Definition arg_log_file := store "--log-file" "log_file" TPath VNone.

Definition build_items (args : build_args) : list item :=
  (if print_tag args then [Item arg_print_tag "--print-tag" []] else []) ++
  [Item arg_config "--config" [path_str (config args)]] ++
  ((λ q, Item arg_search "--search-path" [path_str q]) <$> search_path args) ++
  (if local args then [Item arg_local "--local" []] else []) ++
  (if no_cache args then [Item arg_no_cache "--no-cache" []] else []) ++
  opt_list (λ q, [Item arg_log_file "--log-file" [path_str q]]) (log_file args).

Definition item_values (args : build_args) : list (argument * value) :=
  (if print_tag args then [(arg_print_tag, VList [])] else []) ++
  [(arg_config, VPath (config args))] ++
  ((λ q, (arg_search, VPath q)) <$> search_path args) ++
  (if local args then [(arg_local, VList [])] else []) ++
  (if no_cache args then [(arg_no_cache, VList [])] else []) ++
  opt_list (λ q, [(arg_log_file, VPath q)]) (log_file args).

Definition build_values (args : build_args) : list (argument * value) :=
  match target_images args with
  | [] => item_values args ++ [(arg_targets, VList [])]
  | ts => (arg_targets, VList (VStr <$> ts)) :: item_values args
  end.

Lemma build_argv_items args : build_argv args = target_images args ++ concat (render <$> build_items args).
Proof.
  unfold build_argv, build_items. f_equal. rewrite !fmap_app, !concat_app. f_equal; [by destruct (print_tag args)|].
  f_equal. f_equal; [by rewrite <-list_fmap_compose|]. f_equal; [by destruct (local args)|].
  f_equal; [by destruct (no_cache args)|]. by destruct (log_file args).
Qed.

Lemma build_item_ok o a vs : dict_get o (option_string_actions build_parser) = Some a →
  startswith o "-" = true → o ≠ "--" → Forall plain_arg vs → shape a vs → item_ok build_parser (Item a o vs).
Proof. by split. Qed.

Ltac option_ok := apply build_item_ok; [vm_compute; reflexivity|vm_compute; reflexivity|discriminate| |].

Lemma print_tag_ok : item_ok build_parser (Item arg_print_tag "--print-tag" []).
Proof. option_ok; [constructor|reflexivity]. Qed.
Lemma config_ok s : plain_arg s → item_ok build_parser (Item arg_config "--config" [s]).
Proof. intros Hs. option_ok; [by constructor; [|constructor]|by exists s]. Qed.
Lemma search_ok s : plain_arg s → item_ok build_parser (Item arg_search "--search-path" [s]).
Proof. intros Hs. option_ok; [by constructor; [|constructor]|by exists s]. Qed.
Lemma local_ok : item_ok build_parser (Item arg_local "--local" []).
Proof. option_ok; [constructor|reflexivity]. Qed.
Lemma no_cache_ok : item_ok build_parser (Item arg_no_cache "--no-cache" []).
Proof. option_ok; [constructor|reflexivity]. Qed.
Lemma log_file_ok s : plain_arg s → item_ok build_parser (Item arg_log_file "--log-file" [s]).
Proof. intros Hs. option_ok; [by constructor; [|constructor]|by exists s]. Qed.

Lemma Forall_if {A} (P : A → Prop) (b : bool) x : P x → Forall P (if b then [x] else []).
Proof. destruct b; repeat constructor; done. Qed.

Lemma build_items_ok args : plain_build_args args → Forall (item_ok build_parser) (build_items args).
Proof.
  intros [_ [_ Hc] [Hs _] Hl]. unfold build_items.
  apply Forall_app; split; [apply Forall_if, print_tag_ok|].
  apply Forall_app; split; [constructor; [by apply config_ok|constructor]|].
  apply Forall_app; split; [|apply Forall_app; split; [apply Forall_if, local_ok|
    apply Forall_app; split; [apply Forall_if, no_cache_ok|]]].
  - apply Forall_fmap. eapply Forall_impl; [exact Hs|]. intros q [_ Hq]. by apply search_ok.
  - destruct (log_file args) as [q|]; [|constructor]. destruct (Hl q eq_refl) as [_ Hq].
    constructor; [by apply log_file_ok|constructor].
Qed.

(** The values of the options. *)
Lemma valued_text a s : arg_type a = TPath → arg_nargs a = NOne → choices a = None → act a ≠ Help →
  valued (a, [s]) (a, VPath (path_of_str s)).
Proof.
  intros Ht Hn Hc Hh. split; [done|]. split; [|done]. cbn [fst snd]. unfold get_values. rewrite Hn.
  unfold get_value, check_value. rewrite Ht, Hc. cbn [mbind presult_bind]. by destruct (option_strings a).
Qed.

Lemma valued_path a q : arg_type a = TPath → arg_nargs a = NOne → choices a = None → act a ≠ Help → path_wf q →
  valued (a, [path_str q]) (a, VPath q).
Proof. intros Ht Hn Hc Hh Hq. rewrite <-(path_of_str_str q) at 2 by done. by apply valued_text. Qed.

Lemma valued_flag name d : valued (store_true name d, []) (store_true name d, VList []).
Proof. by split. Qed.

Lemma get_list_str a l : arg_type a = TStr → choices a = None → get_list a l = PDone (VStr <$> l).
Proof.
  intros Ht Hc. induction l as [|s l IH]; cbn [get_list]; [done|]. unfold get_value, check_value.
  rewrite Ht, Hc. cbn [mbind presult_bind]. by rewrite IH.
Qed.

Lemma item_values_ok args : plain_build_args args →
  Forall2 valued (item_action <$> build_items args) (item_values args).
Proof.
  intros [_ [Hc _] [Hs _] Hl]. unfold build_items, item_values. rewrite !fmap_app.
  apply Forall2_app; [destruct (print_tag args); [constructor; [apply valued_flag|constructor]|constructor]|].
  apply Forall2_app; [constructor; [by apply valued_path|constructor]|].
  apply Forall2_app; [|apply Forall2_app; [destruct (local args); [constructor; [apply valued_flag|constructor]|constructor]|
    apply Forall2_app; [destruct (no_cache args); [constructor; [apply valued_flag|constructor]|constructor]|]]].
  - rewrite <-list_fmap_compose. induction (search_path args) as [|q l IH]; [constructor|].
    apply Forall_cons in Hs as [[Hq _] Hs]. constructor; [by apply valued_path|by apply IH].
  - destruct (log_file args) as [q|]; [|constructor]. destruct (Hl q eq_refl) as [Hq _].
    constructor; [by apply valued_path|constructor].
Qed.

Lemma build_values_ok args : plain_build_args args →
  Forall2 valued (line_actions build_parser (target_images args) (build_items args)) (build_values args).
Proof.
  intros Hp. pose proof (item_values_ok args Hp) as Hi. unfold line_actions, build_values.
  change (positional build_parser) with (Some arg_targets). destruct (target_images args) as [|t ts] eqn:Ht.
  - apply Forall2_app; [done|]. constructor; [|constructor]. by split.
  - constructor; [|done]. split; [done|]. split; [|done]. cbn [fst snd]. unfold get_values.
    cbn [option_strings arg_nargs arg_targets]. by rewrite get_list_str.
Qed.

(** The attributes the options give, segment by segment. *)
Lemma flag_other d a v (b : bool) cur : d ≠ dest a → updates d (if b then [(a, v)] else []) cur = cur.
Proof. intros Hd. destruct b; [|done]. by rewrite updates_skip. Qed.

Lemma flag_same d a v (b : bool) cur : d = dest a → act a = StoreTrue →
  updates d (if b then [(a, v)] else []) cur = if b then Some (VBool true) else cur.
Proof. intros Hd Ha. destruct b; [|done]. by rewrite updates_flag. Qed.

Lemma store_other d a v cur : d ≠ dest a → updates d [(a, v)] cur = cur.
Proof. intros Hd. by rewrite updates_skip. Qed.

Lemma store_same d a v cur : d = dest a → act a = Store → updates d [(a, v)] cur = Some v.
Proof. intros Hd Ha. by rewrite updates_store. Qed.

Lemma opt_other {A} d a (f : A → value) o cur : d ≠ dest a → updates d (opt_list (λ q, [(a, f q)]) o) cur = cur.
Proof. intros Hd. destruct o; [|done]. by apply store_other. Qed.

Lemma opt_same {A} d a (f : A → value) o cur : d = dest a → act a = Store →
  updates d (opt_list (λ q, [(a, f q)]) o) cur = match o with Some q => Some (f q) | None => cur end.
Proof. intros Hd Ha. destruct o; [|done]. by apply store_same. Qed.

Ltac segments :=
  unfold item_values; rewrite !updates_app;
  repeat first
    [rewrite flag_other by discriminate|rewrite flag_same by reflexivity
    |rewrite store_other by discriminate|rewrite store_same by reflexivity
    |rewrite (updates_other _ arg_search) by discriminate
    |rewrite opt_other by discriminate|rewrite opt_same by reflexivity].

Lemma build_values_targets args cur : updates "target_images" (build_values args) cur =
  Some (VList (VStr <$> target_images args)).
Proof.
  assert (∀ cur, updates "target_images" (item_values args) cur = cur) as Hi by (intros; by segments).
  unfold build_values. destruct (target_images args) as [|t ts].
  - rewrite updates_app, Hi. by rewrite store_same.
  - by rewrite updates_store, Hi.
Qed.

Lemma build_values_other d args cur : d ≠ "target_images" →
  updates d (build_values args) cur = updates d (item_values args) cur.
Proof.
  intros Hd. unfold build_values. destruct (target_images args) as [|t ts].
  - by rewrite updates_app, store_other.
  - by rewrite updates_skip.
Qed.

Lemma mapM_some {A} (f : A → value) (g : value → option A) l : (∀ x, g (f x) = Some x) → mapM g (f <$> l) = Some l.
Proof. intros Hfg. induction l as [|x l IH]; cbn; [done|]. by rewrite Hfg, IH. Qed.

Lemma build_attributes args ns : search_path args ≠ [] →
  (∀ d, dict_get d ns = updates d (build_values args) (dict_get d (defaults build_parser))) →
  build_args_of ns = Some args.
Proof.
  intros Hs Hns. unfold build_args_of, attr. rewrite !Hns, build_values_targets, !build_values_other by discriminate.
  assert (updates "search_path" (item_values args) (dict_get "search_path" (defaults build_parser)) =
    Some (VList (VPath <$> search_path args))) as ->.
  { change (dict_get "search_path" (defaults build_parser)) with (Some VNone). segments.
    destruct (search_path args) as [|q l]; [done|]. exact (updates_append_None arg_search VPath q l eq_refl). }
  segments. cbn [mbind option_bind as_list as_bool as_path]. rewrite !mapM_some by done.
  cbn [mbind option_bind]. destruct args as [ts pt cf sp lc nc lf]. cbn [print_tag local no_cache log_file target_images config search_path].
  by destruct pt, lc, nc, lf.
Qed.

(** The required options are given. *)
Lemma build_required a : a ∈ actions build_parser → required a = true → dest a = "config" ∨ dest a = "search_path".
Proof.
  assert (Forall (λ a, required a = true → dest a = "config" ∨ dest a = "search_path") (actions build_parser)) as H.
  { unfold actions. cbn [options positional build_parser app].
    repeat apply Forall_cons_2; try (intros; discriminate); [by left|by right|constructor]. }
  intros Ha. by apply (proj1 (Forall_forall _ _) H).
Qed.

Lemma item_values_required args d : search_path args ≠ [] → d = "config" ∨ d = "search_path" →
  d ∈ dest ∘ fst <$> item_values args.
Proof.
  intros Hs Hd. unfold item_values. rewrite !fmap_app. destruct Hd as [-> | ->].
  - apply elem_of_app. right. apply elem_of_app. left. apply list_elem_of_here.
  - apply elem_of_app. right. apply elem_of_app. right. apply elem_of_app. left.
    destruct (search_path args) as [|q l]; [done|]. apply list_elem_of_here.
Qed.

Lemma build_values_required args d : search_path args ≠ [] → d = "config" ∨ d = "search_path" →
  d ∈ dest ∘ fst <$> build_values args.
Proof.
  intros Hs Hd%(item_values_required args d Hs). unfold build_values. destruct (target_images args).
  - rewrite fmap_app. apply elem_of_app. by left.
  - by apply list_elem_of_further.
Qed.

(** Reading a line whose attributes are known. *)
Lemma parse_command_line_done `{HelpFormatter} {S A : Type} p (args_of : namespace → option A) argv (s : S) ns args :
  parse_known_args p argv = PDone (ns, []) → args_of ns = Some args →
  parse_command_line p args_of argv s = ([], s, Ok args).
Proof.
  intros Hns Ha. unfold parse_command_line, parse_args. rewrite Hns. cbn [mbind presult_bind].
  unfold run_parse, mbind, io_bind, mret, io_ret, lift_res. by rewrite Ha.
Qed.

Lemma build_line_read `{HelpFormatter} {S : Type} args (s : S) : plain_build_args args →
  parse_command_line build_parser build_args_of (build_argv args) s = ([], s, Ok args).
Proof.
  intros Hp. destruct (parse_line build_parser (target_images args) (build_items args) (build_values args))
    as (ns & Hns & Hg); [apply Hp|by apply build_items_ok|done|by apply build_values_ok|..].
  { intros a Ha Hr. apply build_values_required; [apply (pb_search _ Hp)|by apply build_required]. }
  rewrite <-build_argv_items in Hns. eapply parse_command_line_done; [exact Hns|].
  by apply build_attributes; [apply (pb_search _ Hp)|].
Qed.

(** C14: the command line that spells out arguments of [build.py] is read back
    as exactly these arguments: the target images come first, every option
    follows in full, and a search path is given for each directory. *)
Theorem build_command_line_roundtrip `{HelpFormatter} {S : Type} args (s : S) : plain_build_args args →
  parse_command_line build_parser build_args_of (build_argv args) s = ([], s, Ok args).
Proof. apply build_line_read. Qed.

(** ** The command line of [build_and_run] *)

(** The shell script [build_and_run] runs [build.py] with this command line and
    takes its output for the name of the image. *)
Definition print_tag_argv (image images log config : str) : list str :=
  [image; "--print-tag"; "--search-path"; images; "--log-file"; log; "--config"; config].

Definition print_tag_args (image images log config : str) : build_args :=
  BuildArgs [image] true (path_of_str config) [path_of_str images] false false (Some (path_of_str log)).

Lemma print_tag_read `{HelpFormatter} {S : Type} image images log config (s : S) :
  plain_arg image → plain_arg images → plain_arg log → plain_arg config →
  parse_command_line build_parser build_args_of (print_tag_argv image images log config) s =
    ([], s, Ok (print_tag_args image images log config)).
Proof.
  intros H1 H2 H3 H4.
  set (items := [Item arg_print_tag "--print-tag" []; Item arg_search "--search-path" [images];
    Item arg_log_file "--log-file" [log]; Item arg_config "--config" [config]]).
  set (avs := [(arg_targets, VList [VStr image]); (arg_print_tag, VList []); (arg_search, VPath (path_of_str images));
    (arg_log_file, VPath (path_of_str log)); (arg_config, VPath (path_of_str config))]).
  destruct (parse_line build_parser [image] items avs) as (ns & Hns & Hg).
  - by repeat constructor.
  - constructor; [apply print_tag_ok|]. constructor; [by apply search_ok|]. constructor; [by apply log_file_ok|].
    constructor; [by apply config_ok|constructor].
  - done.
  - constructor; [by split|]. constructor; [apply valued_flag|]. constructor; [by apply valued_text|].
    constructor; [by apply valued_text|]. constructor; [by apply valued_text|constructor].
  - intros a Ha Hr. destruct (build_required a Ha Hr) as [-> | ->]; cbn; set_solver.
  - eapply parse_command_line_done; [exact Hns|]. unfold build_args_of, attr. rewrite !Hg. reflexivity.
Qed.

Section BuildScript.
Context `{HelpFormatter} `{JsonRepr} `{HexDigest} `{PySetOrder} `{RecursionLimit} `{DockerLaws X}.

(** The script after its command line was read and its log file opened. *)
Lemma build_script_run argv args fs fs' (s : tags * X) :
  parse_command_line build_parser build_args_of argv (fs, s) = ([], (fs, s), Ok args) →
  basicConfig (log_file args) fs = Ok fs' →
  build_script argv (fs, s) = let '(t, s', r) := DockerBuild.main fs' args s in (t, (fs', s'), r).
Proof.
  intros Hp Hl. unfold build_script, setup_logging, mbind, io_bind, get, put, lift_res, on_snd. rewrite Hp.
  rewrite Hl. cbn [fst snd app]. by destruct (DockerBuild.main fs' args s) as [[t s'] r].
Qed.
End BuildScript.

(** C11: [build.py] as [build_and_run] calls it, on a configuration that loads
    into a builder with a tag for everything the image needs.  The script
    always ends by an exit code.  With code 0 its output is exactly the tag of
    the image, and the image is present locally under this tag; with any other
    code there is no output. *)
Theorem build_script_print_tag `{HelpFormatter} `{JsonRepr} `{HexDigest} `{PySetOrder} `{RecursionLimit} `{DockerLaws X}
    image images log config fs fs' b x :
  let configs := image_configs_map b in
  plain_arg image → plain_arg images → plain_arg log → plain_arg config →
  basicConfig (Some (path_of_str log)) fs = Ok fs' →
  (∀ s : tags * X, io_res (init fs' (path_of_str config) [path_of_str images] s) = Ok b) →
  NoDup (dict_keys configs) → configs_typed configs → (∀ n, wanted configs [image] n → taggable fs' b n) →
  let r := build_script (print_tag_argv image images log config) (fs, ([], x)) in
  ∃ c, io_res r = Raise (SystemExit c) ∧ (io_state r).1 = fs' ∧
    ((c ≠ 0%Z ∧ outs (io_trace r) = []) ∨
     (c = 0%Z ∧ ∃ t, tag_of fs' b image t ∧ outs (io_trace r) = [t] ∧ t ∈ local_images (io_state r).2.2)).
Proof.
  intros configs K1 K2 K3 K4 Hlog Hinit Hnd Hty Htags r.
  pose proof (build_main_run fs' (print_tag_args image images log config) b x Hinit Hnd Hty Htags) as Hm.
  cbv zeta in Hm. subst r. erewrite build_script_run; [|by apply print_tag_read|exact Hlog].
  destruct (DockerBuild.main fs' _ ([], x)) as [[t s'] q]. unfold io_res, io_trace, io_state in *. cbn [fst snd] in *.
  destruct q as [u|e]; [by destruct Hm|]. destruct Hm as (c & -> & Hc). exists c. split; [done|]. split; [done|].
  destruct Hc as [(? & ? & _)|(? & _ & n & tag & Hn & Ht)]; [by left|]. right. split; [done|].
  injection Hn as <-. by exists tag.
Qed.

(** ** The command line of [docker_run.py] *)

(** The name of an option, before ["="]. *)
Definition option_name (s : str) : str := (partition_eq s).1.1.

Definition log_option : str := "--devkit-log-file".

(** The arguments [docker_run.py] takes for its own option: abbreviations are
    allowed. *)
Definition taken (s : str) : bool :=
  startswith s "-" && negb (bool_decide (s = "-")) && startswith log_option (option_name s).

Lemma run_options : option_string_actions run_parser = [(log_option, devkit_log_file)].
Proof. reflexivity. Qed.

Lemma run_readings s : get_option_tuples run_parser s =
  if startswith log_option (option_name s)
  then [OptTuple devkit_log_file log_option (partition_eq s).1.2 (partition_eq s).2] else [].
Proof.
  unfold get_option_tuples, option_name. rewrite run_options. destruct (partition_eq s) as [[name sep] e].
  cbn [fst snd omap list_omap]. rewrite (bool_decide_eq_false_2 (log_option = take 2 s)).
  2: { intros E%(f_equal length). rewrite length_take in E. change (17 = 2 `min` length s) in E. lia. }
  destruct (startswith s "--"), (startswith log_option name); reflexivity.
Qed.

Lemma log_option_prefix : startswith log_option log_option = true.
Proof. reflexivity. Qed.

Lemma taken_dash t : t ≠ [] → taken (dash :: t) = startswith log_option (option_name (dash :: t)).
Proof. intros Ht. unfold taken. rewrite bool_decide_eq_false_2; [done|]. by intros [= ->]. Qed.

(** What the parser makes of an argument: its option, or nothing. *)
Lemma run_class s :
  (taken s = false ∧ unread (s, parse_optional run_parser s)) ∨
  (taken s = true ∧ parse_optional run_parser s =
     COpt [OptTuple devkit_log_file log_option (partition_eq s).1.2 (partition_eq s).2]).
Proof.
  destruct s as [|c t]; [by left|]. destruct (decide (c = dash)) as [->|Hc].
  2: { left. unfold taken, unread, parse_optional. cbn [startswith snd].
       rewrite (proj2 (N.eqb_neq 45 c) (not_eq_sym Hc)), (proj2 (N.eqb_neq c dash) Hc). done. }
  destruct (decide (t = [])) as [->|Ht]; [by left|]. rewrite taken_dash by done.
  unfold parse_optional. rewrite N.eqb_refl, run_readings, run_options. cbn [negb dict_get].
  rewrite (bool_decide_eq_false_2 (t = [])) by done.
  destruct (decide (dash :: t = log_option)) as [Hd|Hd].
  { right. rewrite Hd. by split. }
  unfold option_name. destruct (partition_eq (dash :: t)) as [[name sep] e] eqn:E. cbn [fst snd].
  destruct (startswith log_option name) eqn:Hn.
  - right. split; [done|]. destruct sep as [sep|]; [|done]. destruct (decide (name = log_option)) as [->|]; done.
  - left. split; [done|]. unfold unread. cbn [snd]. destruct sep as [sep|].
    + destruct (decide (name = log_option)) as [->|]; [by rewrite log_option_prefix in Hn|].
      destruct (negative_number _); [done|]. by destruct (contains _ _).
    + destruct (negative_number _); [done|]. by destruct (contains _ _).
Qed.

(** Up to the first ["--"], no argument is taken. *)
Fixpoint none_taken (argv : list str) : bool :=
  match argv with
  | [] => true
  | s :: argv => bool_decide (s = "--") || (negb (taken s) && none_taken argv)
  end.

Lemma none_taken_unread argv : none_taken argv = true → Forall unread (classify run_parser argv).
Proof.
  induction argv as [|s argv IH]; cbn [none_taken classify]; [constructor|]. case_bool_decide; cbn [orb].
  - intros _. constructor; [done|]. apply Forall_fmap, Forall_true. done.
  - intros [Ht Hn]%andb_true_iff. apply negb_true_iff in Ht. constructor; [|by apply IH].
    destruct (run_class s) as [[_ ?]|[? _]]; [done|congruence].
Qed.

Lemma classify_fst p argv : (classify p argv).*1 = argv.
Proof.
  induction argv as [|s argv IH]; cbn [classify]; [done|]. case_bool_decide; cbn; f_equal; [|done].
  apply args_class_fst.
Qed.

Lemma log_item_ok v : plain_arg v → item_ok run_parser (Item devkit_log_file log_option [v]).
Proof.
  intros Hv. split; [reflexivity|by split|by constructor; [|constructor]|by exists v].
Qed.

(** The log file, as any argument before the last sets it. *)
Definition log_namespace (v : value) : namespace := [("devkit_log_file", v)].

Lemma take_log old seen extras v : take_action (PState (log_namespace old) seen extras None) (devkit_log_file, [v]) =
  PDone (PState (log_namespace (VPath (path_of_str v))) ("devkit_log_file" :: seen) extras None).
Proof. reflexivity. Qed.

Lemma run_known L rest : plain_arg L → none_taken rest = true →
  parse_known_args run_parser (log_option :: L :: rest) = PDone (log_namespace (VPath (path_of_str L)), rest).
Proof.
  intros HL Hr. unfold parse_known_args. change (log_option :: L :: rest) with (render (Item devkit_log_file log_option [L]) ++ rest).
  rewrite classify_item by by apply log_item_ok. cbn [item_class it_option it_arg it_values args_class fmap list_fmap app].
  rewrite consume_option by done.
  change (defaults run_parser) with (log_namespace VNone). change (positional run_parser) with (@None argument).
  cbn [ot_arg]. rewrite take_log. cbn [mbind presult_bind].
  rewrite consume_unread by (try apply none_taken_unread; done). cbn [mbind presult_bind ps_extras app].
  by rewrite classify_fst.
Qed.

(** Arguments in front of an option that is taken. *)
Lemma consume_unread_app p l1 l2 : ∀ st, ps_positionals st = None → Forall unread l1 → existsb is_opt l2 = true →
  consume p (l1 ++ l2) 0 st = consume p l2 0 (PState (ps_namespace st) (ps_seen st) (ps_extras st ++ l1.*1) None).
Proof.
  induction l1 as [|[s c] l1 IH]; intros st Hn Hl Ho.
  { cbn. rewrite app_nil_r. destruct st; cbn in *; by subst. }
  apply Forall_cons in Hl as [Hc Hl]. cbn [app consume].
  replace (existsb is_opt ((s, c) :: l1 ++ l2)) with true by (cbn; rewrite existsb_app, Ho; by rewrite !orb_true_r).
  assert (consume p (l1 ++ l2) 0 (add_extra s st) =
    consume p l2 0 (PState (ps_namespace st) (ps_seen st) (ps_extras st ++ s :: l1.*1) None)) as Hr.
  { rewrite IH by done. cbn. by rewrite <-app_assoc. }
  destruct c as [| |[|t ts]]; [| |exact Hr|done].
  all: unfold consume_positionals; rewrite Hn; exact Hr.
Qed.

Lemma classify_unread pre rest : Forall (λ s, s ≠ "--" ∧ taken s = false) pre → ∃ l,
  classify run_parser (pre ++ rest) = l ++ classify run_parser rest ∧ Forall unread l ∧ l.*1 = pre.
Proof.
  induction 1 as [|s pre [Hs Ht] _ (l & Hl & Hu & Hf)]; [by exists []|].
  exists ((s, parse_optional run_parser s) :: l). cbn [app classify]. rewrite bool_decide_eq_false_2, Hl by done.
  split_and!; [done| |by cbn; f_equal]. constructor; [|done].
  destruct (run_class s) as [[_ ?]|[? _]]; [done|congruence].
Qed.

Lemma run_known_taken L pre a v post : plain_arg L → plain_arg v → Forall (λ s, s ≠ "--" ∧ taken s = false) pre →
  taken a = true → a ≠ "--" → 61%N ∉ a → none_taken post = true →
  parse_known_args run_parser (log_option :: L :: pre ++ a :: v :: post) =
    PDone (log_namespace (VPath (path_of_str v)), pre ++ post).
Proof.
  intros HL Hv Hpre Ha Hd Heq Hpost. unfold parse_known_args.
  change (log_option :: L :: pre ++ a :: v :: post)
    with (render (Item devkit_log_file log_option [L]) ++ pre ++ a :: v :: post).
  rewrite classify_item by by apply log_item_ok. destruct (classify_unread pre (a :: v :: post) Hpre) as (l & -> & Hl & Hfst).
  cbn [item_class it_option it_arg it_values args_class fmap list_fmap app]. rewrite consume_option by done.
  change (defaults run_parser) with (log_namespace VNone). change (positional run_parser) with (@None argument).
  cbn [ot_arg]. rewrite take_log. cbn [mbind presult_bind].
  assert (classify run_parser (a :: v :: post) =
    (a, COpt [OptTuple devkit_log_file log_option None None]) :: (v, CArg) :: classify run_parser post) as ->.
  { cbn [classify]. destruct (plain_arg_class run_parser v Hv) as [-> Hvd].
    rewrite !bool_decide_eq_false_2 by done. destruct (run_class a) as [[? _]|[_ ->]]; [congruence|].
    unfold partition_eq. by rewrite (proj2 (split1_None a 61) Heq). }
  rewrite consume_unread_app by done. cbn [ps_namespace ps_seen ps_extras app]. rewrite consume_option by done.
  cbn [ot_arg]. rewrite take_log. cbn [mbind presult_bind].
  rewrite consume_unread by (try apply none_taken_unread; done). cbn [mbind presult_bind ps_extras app].
  by rewrite classify_fst, Hfst.
Qed.

Section RunScript.
Context `{HelpFormatter} `{JsonRepr} `{HexDigest} `{PySetOrder} `{PathSetOrder} `{RecursionLimit} `{Host X} `{Popen X} `{Interrupts X}.

(** The script after its command line was read. *)
Lemma run_script_run pr fuel argv unknown v (fs : fsys) (x : X) :
  parse_known_args run_parser argv = PDone (log_namespace (VPath v), unknown) →
  run_script pr fuel argv (fs, x) =
    match basicConfig (Some v) fs with
    | Ok fs' => DockerRun.main pr fuel unknown (fs', x)
    | Raise e => ([], (fs, x), Raise e)
    end.
Proof.
  intros Hp. unfold run_script. rewrite Hp. cbn [run_parse]. rewrite bind_ret.
  change (run_log_file (log_namespace (VPath v))) with (Some (Some v)). cbn [typed]. rewrite bind_lift_Ok.
  unfold setup_logging, mbind, io_bind, get, put, lift_res.
  destruct (basicConfig (Some v) fs) as [fs'|e]; [|done]. cbn [app].
  by destruct (DockerRun.main pr fuel unknown (fs', x)) as [[t st] r].
Qed.
End RunScript.

(** C12: [docker_run.py] as the devkit scripts call it, with a log file first.
    When no further argument, up to the first ["--"], can be read as an
    abbreviation of the log file option, the script opens the log file and
    continues with exactly these arguments; and they are the end of every
    command it composes. *)
Theorem docker_run_passes_arguments `{HelpFormatter} `{JsonRepr} `{HexDigest} `{PySetOrder} `{PathSetOrder}
    `{RecursionLimit} `{Host X} `{Popen X} `{Interrupts X} pr fuel L rest (fs : fsys) (x : X) :
  plain_arg L → none_taken rest = true →
  run_script pr fuel (log_option :: L :: rest) (fs, x) =
    match basicConfig (Some (path_of_str L)) fs with
    | Ok fs' => DockerRun.main pr fuel rest (fs', x)
    | Raise e => ([], (fs, x), Raise e)
    end ∧
  ∀ s R fs' (x' : X) cmd, io_res (compose pr s R rest (fs', x')) = Ok cmd → rest `suffix_of` cmd.
Proof.
  intros HL Hr. split; [by apply run_script_run, run_known|]. intros s R fs' x' cmd Hc.
  pose proof (compose_spec pr s R rest fs' x') as Hw. unfold wp in Hw. rewrite Hc in Hw.
  destruct Hw as [_ [ev ->]]. unfold docker_cmd. rewrite !app_assoc. by eexists.
Qed.

(** C40: an argument for the container that abbreviates the log file option,
    such as [--dev], does not reach it: it is taken together with the argument
    that follows, which becomes the log file instead of the given one. *)
Theorem docker_run_takes_abbreviation `{HelpFormatter} `{JsonRepr} `{HexDigest} `{PySetOrder} `{PathSetOrder}
    `{RecursionLimit} `{Host X} `{Popen X} `{Interrupts X} pr fuel L pre a v post (fs : fsys) (x : X) :
  plain_arg L → plain_arg v → Forall (λ s, s ≠ "--" ∧ taken s = false) pre →
  taken a = true → a ≠ "--" → 61%N ∉ a → none_taken post = true →
  run_script pr fuel (log_option :: L :: pre ++ a :: v :: post) (fs, x) =
    match basicConfig (Some (path_of_str v)) fs with
    | Ok fs' => DockerRun.main pr fuel (pre ++ post) (fs', x)
    | Raise e => ([], (fs, x), Raise e)
    end.
Proof. intros. by apply run_script_run, run_known_taken. Qed.

(** ** Samples *)

#[local] Existing Instance sha256_digest.
#[local] Existing Instance encoding_order.
#[local] Instance sample_limit : RecursionLimit := 100.
#[local] Instance sample_repr : JsonRepr := λ _, [].
#[local] Instance sample_formatter : HelpFormatter := {| format_help := λ _, "usage"; format_error := λ _ _, "usage" |}.
#[local] Instance sample_path_order : PathSetOrder := {| path_iter := elements; path_iter_perm := λ s, reflexivity _ |}.
#[local] Instance sample_runs : Host () := λ _ x, (Some (RunResult 0 "" ""), x).
#[local] Instance sample_popen : Popen () := {| polls_running := λ _ _, Some 0; terminated := λ _ x, x |}.
#[local] Instance sample_interrupts : Interrupts () := λ _, false.

Definition sample_line : build_args :=
  BuildArgs ["app"; "base"] true (path_of_str "/devkit.json") [path_of_str "images"; path_of_str "/more"] false true
    (Some (path_of_str "build.log")).

Lemma build_command_line_roundtrip_witness :
  build_argv sample_line =
    ["app"; "base"; "--print-tag"; "--config"; "/devkit.json"; "--search-path"; "images"; "--search-path"; "/more";
     "--no-cache"; "--log-file"; "build.log"] ∧
  parse_command_line build_parser build_args_of (build_argv sample_line) () = ([], (), Ok sample_line).
Proof.
  split; [vm_compute; reflexivity|]. apply (build_command_line_roundtrip sample_line ()).
  assert (∀ s c t, s = c :: t → (c =? dash)%N = false → plain_arg s) as Hpl.
  { intros s c t -> Hc. exact (proj1 (N.eqb_neq _ _) Hc). }
  assert (∀ s c t, path_str (path_of_str s) = c :: t → (c =? dash)%N = false → plain_path (path_of_str s)) as Hpath.
  { intros s c t Hs Hc. split; [apply path_of_str_wf|]. exact (Hpl _ _ _ Hs Hc). }
  split.
  - repeat constructor; discriminate.
  - eapply Hpath; reflexivity.
  - split; [|discriminate]. constructor; [eapply Hpath; reflexivity|]. constructor; [eapply Hpath; reflexivity|constructor].
  - intros q [= <-]. eapply Hpath; reflexivity.
Defined.

(** The sample project with an empty log file. *)
Definition logged_fs : fsys := fs_set DockerTags.sample_fs ["l"] (NFile []).

Lemma logged_taggable n : wanted (image_configs_map sample_builder) ["app"] n → taggable logged_fs sample_builder n.
Proof.
  intros [-> | ->]%sample_wanted; [exists 2, sample_app_tag|exists 1, sample_base_tag];
    (split; [unfold recursion_limit, sample_limit; lia|vm_compute; reflexivity]).
Qed.

Lemma build_script_print_tag_witness :
  let r := build_script (print_tag_argv "app" "/images" "/l" "/devkit.json") (DockerTags.sample_fs, ([], empty_docker)) in
  outs (io_trace r) = [sample_app_tag] ∧ ∃ c, io_res r = Raise (SystemExit c).
Proof.
  intros r. split; [vm_compute; reflexivity|].
  destruct (build_script_print_tag (X := sample_docker) "app" "/images" "/l" "/devkit.json" DockerTags.sample_fs logged_fs
    sample_builder empty_docker) as (c & Hc & _); [discriminate..|vm_compute; reflexivity| | | | |exists c; exact Hc].
  - intros s. vm_compute. reflexivity.
  - exact sample_NoDup.
  - exact sample_typed.
  - exact logged_taggable.
Defined.

Lemma docker_run_passes_arguments_witness :
  run_script sample_process 20 [log_option; "/w/l"; "img"; "npm"; "--device"; "-d"; "--"; "--dev"] sample_state =
    match basicConfig (Some (path_of_str "/w/l")) sample_state.1 with
    | Ok fs' => DockerRun.main sample_process 20 ["img"; "npm"; "--device"; "-d"; "--"; "--dev"] (fs', ())
    | Raise e => ([], sample_state, Raise e)
    end.
Proof.
  exact (proj1 (docker_run_passes_arguments sample_process 20 "/w/l" ["img"; "npm"; "--device"; "-d"; "--"; "--dev"]
    sample_state.1 () ltac:(discriminate) ltac:(vm_compute; reflexivity))).
Defined.

Lemma docker_run_takes_abbreviation_witness :
  run_script sample_process 20 [log_option; "/w/l"; "img"; "npm"; "--dev"; "install"; "x"] sample_state =
    match basicConfig (Some (path_of_str "install")) sample_state.1 with
    | Ok fs' => DockerRun.main sample_process 20 ["img"; "npm"; "x"] (fs', ())
    | Raise e => ([], sample_state, Raise e)
    end.
Proof.
  apply (docker_run_takes_abbreviation sample_process 20 "/w/l" ["img"; "npm"] "--dev" "install" ["x"] sample_state.1 ());
    [discriminate|discriminate| |vm_compute; reflexivity|discriminate| |vm_compute; reflexivity].
  - repeat constructor; discriminate.
  - by apply (bool_decide_eq_true_1 _).
Defined.
