(* ===== verification/ScriptFacts.v ===== *)
(** * The scripts as whole programs

    The theorems on the [main] functions, carried over to the scripts with any
    command line. *)
From S2P Require Import Prelude PyStr PyFloat Json Sha256 PyPath Fs FsWrite Proc DockerConfig DockerBuild DockerDeps DockerTags DockerImages DockerManage Mounts Cleanup CleanupFacts DockerRun DockerRunFacts Bootstrap FindProjectRoot Bep Coverage CoverageFacts Argparse ArgparseFacts CommandLine CommandLineFacts.

(** ** Reading the command line and opening the log file *)

(** What running a statement gives. *)
Abbreviation outcome S := (list event * S * res ())%type.

(** How a script ends whose command line [argv] is read with [p]: as [Q] says
    of the attributes, or with the help and exit code 0, or with an error
    message and exit code 2, in the state it started in. *)
Definition script_outcome `{HelpFormatter} {S A : Type} (p : parser) (args_of : namespace → option A)
    (argv : list str) (s : S) (Q : A → outcome S → Prop) (r : outcome S) : Prop :=
  match parse_args p argv with
  | PDone ns => ∃ args, args_of ns = Some args ∧ Q args r
  | PHelp => r = ([EvOut (format_help p)], s, Raise (SystemExit 0))
  | PError e => r = ([EvErr (format_error p e)], s, Raise (SystemExit 2))
  end.

(** The rest [k] of a script after its log file was opened, or the error of
    opening it. *)
Definition logged {S : Type} (log_file : option path) (fs : fsys) (s : S) (k : fsys → outcome S) : outcome S :=
  match basicConfig log_file fs with
  | Ok fs' => k fs'
  | Raise e => ([], s, Raise e)
  end.

Lemma setup_logging_run {S : Type} log_file fs (s : S) (k : () → io (fsys * S) ()) :
  (setup_logging log_file ≫= k) (fs, s) = logged log_file fs (fs, s) (λ fs', k () (fs', s)).
Proof.
  unfold setup_logging, logged, mbind, io_bind, get, put, lift_res. cbn.
  destruct (basicConfig log_file fs) as [fs'|e]; [|done]. cbn. by destruct (k () (fs', s)) as [[? ?] ?].
Qed.

Lemma script_outcome_bind `{HelpFormatter} {S A : Type} p (args_of : namespace → option A) argv (s : S) k (Q : A → outcome S → Prop) :
  typed_command_line p args_of → (∀ args, Q args (k args s)) →
  script_outcome p args_of argv s Q ((parse_command_line p args_of argv ≫= k) s).
Proof.
  intros Ht Hk. pose proof (parse_outcome_typed p args_of argv s Ht) as Ho.
  unfold script_outcome, parse_outcome in *. unfold mbind, io_bind.
  destruct (parse_args p argv) as [ns| |e]; [|by rewrite Ho..].
  destruct Ho as (args & Ha & ->). exists args. split; [done|].
  specialize (Hk args). by destruct (k args s) as [[? ?] ?].
Qed.

Lemma script_outcome_mono `{HelpFormatter} {S A : Type} p (args_of : namespace → option A) argv (s : S)
    (P Q : A → outcome S → Prop) r :
  (∀ args, P args r → Q args r) → script_outcome p args_of argv s P r → script_outcome p args_of argv s Q r.
Proof. unfold script_outcome. intros HPQ. case_match; naive_solver. Qed.

Section Outcomes.
Context `{HelpFormatter} `{JsonRepr} `{HexDigest} `{PySetOrder} `{PathSetOrder} `{RecursionLimit}.
Context `{Host X} `{Popen X} `{Interrupts X} `{Jinja} `{TempNames}.

Lemma build_outcome argv fs (s : tags * X) :
  script_outcome build_parser build_args_of argv (fs, s)
    (λ args r, r = logged (log_file args) fs (fs, s) (λ fs', on_snd (DockerBuild.main fs' args) (fs', s)))
    (build_script argv (fs, s)).
Proof. apply script_outcome_bind; [apply build_typed|]. intros args. rewrite setup_logging_run. unfold logged.
  case_match; [|done]. by rewrite bind_get. Qed.

Lemma cleanup_outcome argv fs (s : cancel * X) :
  script_outcome cleanup_parser cleanup_args_of argv (fs, s)
    (λ '(args, lf) r, r = logged lf fs (fs, s) (λ fs', on_snd (Cleanup.main fs' args) (fs', s)))
    (cleanup_script argv (fs, s)).
Proof. apply script_outcome_bind; [apply cleanup_typed|]. intros [args lf]. rewrite setup_logging_run. unfold logged.
  case_match; [|done]. by rewrite bind_get. Qed.

Lemma mounts_outcome {S : Type} fuel argv fs (s : S) :
  script_outcome (mounts_parser (Path true (fs_cwd fs))) mounts_args_of argv (fs, s)
    (λ '(root_dir, mounts) r, r = Mounts.main fs fuel root_dir mounts (fs, s))
    (mounts_script fuel argv (fs, s)).
Proof. unfold mounts_script. rewrite bind_get. apply script_outcome_bind; [apply mounts_typed|].
  by intros [root_dir mounts]. Qed.

Lemma bootstrap_outcome script_dir fuel argv d :
  script_outcome (bootstrap_parser (Path true (fs_cwd (d_fs d)))) bootstrap_args_of argv d
    (λ '(args, lf) r, r = logged lf (d_fs d) d (λ fs', Bootstrap.main script_dir fuel args (Disk fs' (d_modes d))))
    (bootstrap_script script_dir fuel argv d).
Proof.
  unfold bootstrap_script, get_fs. rewrite bind_assoc, bind_get, bind_ret.
  apply script_outcome_bind; [apply bootstrap_typed|]. intros [args lf]. unfold change_fs, logged.
  rewrite bind_assoc, bind_get, bind_assoc. case_match; [|done]. by rewrite bind_lift_Ok, bind_put.
Qed.

Lemma bep_outcome pwd argv d (x : X) :
  script_outcome bep_parser bep_args_of argv (d, x)
    (λ '(targets, command, output_dir, lf) r, r = logged lf (bep_fs d) (d, x)
       (λ fs', Bep.main pwd targets command output_dir (BepDisk (temps d) fs', x)))
    (bep_script pwd argv (d, x)).
Proof.
  apply script_outcome_bind; [apply bep_typed|]. intros [[[ts c] o] lf]. unfold logged. rewrite bind_get.
  case_match; [|done]. by rewrite bind_lift_Ok, bind_put.
Qed.

Lemma coverage_outcome `{HostLog X} pwd argv x :
  script_outcome coverage_parser coverage_args_of argv x
    (λ '(args, lf) r, r = match open_log lf x with
       | Ok x' => Coverage.main pwd args x' | Raise e => ([], x, Raise e) end)
    (coverage_script pwd argv x).
Proof.
  apply script_outcome_bind; [apply coverage_typed|]. intros [args lf]. rewrite bind_get.
  case_match; [|done]. by rewrite bind_lift_Ok, bind_put.
Qed.
End Outcomes.

(** [docker_run.py] passes the arguments it does not know on. *)
Definition run_outcome `{HelpFormatter} `{JsonRepr} `{HexDigest} `{PySetOrder} `{PathSetOrder} `{RecursionLimit}
    `{Host X} `{Popen X} `{Interrupts X} pr fuel argv fs (x : X) (r : outcome (fsys * X)) : Prop :=
  match parse_known_args run_parser argv with
  | PDone (ns, unknown_args) => ∃ lf, run_log_file ns = Some lf ∧
      r = logged lf fs (fs, x) (λ fs', DockerRun.main pr fuel unknown_args (fs', x))
  | PHelp => r = ([EvOut (format_help run_parser)], (fs, x), Raise (SystemExit 0))
  | PError e => r = ([EvErr (format_error run_parser e)], (fs, x), Raise (SystemExit 2))
  end.

Lemma run_script_outcome `{HelpFormatter} `{JsonRepr} `{HexDigest} `{PySetOrder} `{PathSetOrder} `{RecursionLimit}
    `{Host X} `{Popen X} `{Interrupts X} pr fuel argv fs (x : X) :
  run_outcome pr fuel argv fs x (run_script pr fuel argv (fs, x)).
Proof.
  unfold run_outcome, run_script. destruct (parse_known_args run_parser argv) as [[ns rest]| |e] eqn:E; [|done..].
  cbn [run_parse]. rewrite bind_ret. unfold run_log_file.
  destruct (possible_attr (as_optional as_path) run_parser argv ns rest devkit_log_file run_parser_ok E)
    as [lf Hlf]; [by apply elem_of_cons; left|done| |].
  { apply possible_optional. }
  exists lf. split; [exact Hlf|]. change (dest devkit_log_file) with ("devkit_log_file" : str) in Hlf.
  rewrite Hlf. cbn [typed]. by rewrite bind_lift_Ok, setup_logging_run.
Qed.

(** C13: whatever the command line of a script, the script ends in one of three
    ways: all attributes are there, of their declared types, the log file is
    opened, and the script is its [main] from there on; or the help was asked
    for, is printed, and the exit code is 0; or the command line is refused
    with a message on the standard error stream and exit code 2.  In the last
    two cases nothing else happens: no file is touched and no command is run. *)
Theorem scripts_outcome `{HelpFormatter} `{JsonRepr} `{HexDigest} `{PySetOrder} `{PathSetOrder} `{RecursionLimit}
    `{Host X} `{Popen X} `{Interrupts X} `{Jinja} `{TempNames} `{HostLog X} argv fuel pwd pr script_dir fs d bd tg c (x : X) :
  script_outcome build_parser build_args_of argv (fs, (tg, x))
    (λ args r, r = logged (log_file args) fs (fs, (tg, x)) (λ fs', on_snd (DockerBuild.main fs' args) (fs', (tg, x))))
    (build_script argv (fs, (tg, x))) ∧
  script_outcome cleanup_parser cleanup_args_of argv (fs, (c, x))
    (λ '(args, lf) r, r = logged lf fs (fs, (c, x)) (λ fs', on_snd (Cleanup.main fs' args) (fs', (c, x))))
    (cleanup_script argv (fs, (c, x))) ∧
  script_outcome bep_parser bep_args_of argv (bd, x)
    (λ '(targets, command, output_dir, lf) r, r = logged lf (bep_fs bd) (bd, x)
       (λ fs', Bep.main pwd targets command output_dir (BepDisk (temps bd) fs', x)))
    (bep_script pwd argv (bd, x)) ∧
  script_outcome (bootstrap_parser (Path true (fs_cwd (d_fs d)))) bootstrap_args_of argv d
    (λ '(args, lf) r, r = logged lf (d_fs d) d (λ fs', Bootstrap.main script_dir fuel args (Disk fs' (d_modes d))))
    (bootstrap_script script_dir fuel argv d) ∧
  script_outcome coverage_parser coverage_args_of argv x
    (λ '(args, lf) r, r = match open_log lf x with
       | Ok x' => Coverage.main pwd args x' | Raise e => ([], x, Raise e) end)
    (coverage_script pwd argv x) ∧
  run_outcome pr fuel argv fs x (run_script pr fuel argv (fs, x)).
Proof.
  split_and!; [apply build_outcome|apply cleanup_outcome|apply bep_outcome|apply bootstrap_outcome|apply coverage_outcome
    |apply run_script_outcome].
Qed.

(** ** Mount points *)

Lemma print_all_run {S : Type} (l : list str) (s : S) :
  for_each l (λ p, emit (EvOut p)) s = (EvOut <$> l, s, Ok ()).
Proof.
  induction l as [|p l IH]; [done|]. cbn [for_each]. unfold mbind, io_bind at 1, emit at 1. by rewrite IH.
Qed.

(** C29: [list_external_mounts.py] ends on every file system and for every
    command line, and changes nothing.  It ends with the help or a usage
    error; or, when the root directory or a mount has a loop of links, with
    [RuntimeError] and no output; or it prints each minimal mount point once
    and nothing else: those of the requested mounts, their real paths, the
    external paths of the root directory, and its real path when it is a
    link. *)
Theorem mounts_script_correct `{HelpFormatter} `{PySetOrder} {S : Type} argv fs (s : S) : fsys_wf fs →
  ∃ fuel0, ∀ fuel, fuel0 ≤ fuel →
    script_outcome (mounts_parser (Path true (fs_cwd fs))) mounts_args_of argv (fs, s)
      (λ '(root_dir, ms) r,
         (resolvable fs root_dir ms ∧
          ∃ l, r = (EvOut <$> l, (fs, s), Ok ()) ∧ NoDup l ∧
            ∀ q, q ∈ l ↔ ∃ p, q = path_str p ∧ is_minimal (mount_wanted fs root_dir ms) p) ∨
         (¬ resolvable fs root_dir ms ∧ r = ([], (fs, s), Raise RuntimeError)))
      (mounts_script fuel argv (fs, s)).
Proof.
  intros Hwf. pose proof (mounts_outcome (S := S)) as Ho.
  destruct (parse_args (mounts_parser (Path true (fs_cwd fs))) argv) as [ns| |e] eqn:E.
  2,3: exists 0; intros fuel _; specialize (Ho fuel argv fs s); unfold script_outcome in *; by rewrite E in *.
  destruct (mounts_typed _ _ _ E) as [[root_dir ms] Ha].
  destruct (get_minimal_mounts_total fs root_dir ms Hwf) as [fuel0 Hf]. exists fuel0. intros fuel Hle.
  specialize (Ho fuel argv fs s). unfold script_outcome in *. rewrite E in *.
  destruct Ho as (args & Ha' & Hr). rewrite Ha in Ha'. injection Ha' as <-. exists (root_dir, ms). split; [done|].
  rewrite Hr. unfold Mounts.main. destruct (Hf fuel Hle) as [[Hok [R HR]]|[Hno HR]]; rewrite HR; [left|right].
  - split; [done|]. rewrite bind_lift_Ok. eexists. split; [apply print_all_run|].
    destruct (get_minimal_mounts_spec _ _ _ _ _ Hwf HR) as (_ & Hm & _).
    split; [apply NoDup_set_iter|]. intros q. rewrite elem_of_set_iter, elem_of_map. by setoid_rewrite Hm.
  - by split.
Qed.

(** ** Clean-up *)

Section CleanupScript.
Context `{HelpFormatter} `{JsonRepr} `{HexDigest} `{PySetOrder} `{RecursionLimit} `{Host X} `{Popen X}.

(** An interrupt of [main] is only logged. *)
Lemma main_removals fs args (s : cancel * X) :
  removals (io_trace (Cleanup.main fs args s)) =
  removals (io_trace (cleanup_images fs (cleanup_config_path args) (cleanup_search_path args)
    (cleanup_batch_size args) (cleanup_threshold_days args) s)).
Proof.
  unfold Cleanup.main, try_except. destruct (cleanup_images _ _ _ _ _ _) as [[t s'] [u|e]]; [done|].
  destruct e; try done. destruct s' as [c' x']. unfold mbind, io_bind, log, emit, get, put, io_trace. cbn [fst snd app].
  rewrite removals_app. apply app_nil_r.
Qed.

(** The removals of a script are those of an image on the allowlist that is
    not one of the current tags, when the configuration the command line names
    gives some. *)
Definition removes_outdated (fs : fsys) (args : cleanup_args) (lf : option path) (t : str) : Prop :=
  (∃ name, image_pattern t name ∧ name ∈ ALLOWED_IMAGE_NAMES) ∧
  ∃ fs', basicConfig lf fs = Ok fs' ∧
    ∀ ts, current_tags fs' (cleanup_config_path args) (cleanup_search_path args) = Ok ts → t ∉ ts.
End CleanupScript.

(** C18: whatever the command line, the host and the moment of cancellation,
    [docker_cleanup.py] only removes images whose reference matches
    [IMAGE_PATTERN] with a name on the allowlist, and none that the current
    tags of the configuration on its command line, when they can be computed,
    contain; without a valid command line it removes nothing. *)
Theorem cleanup_script_removes `{HelpFormatter} `{JsonRepr} `{HexDigest} `{PySetOrder} `{RecursionLimit} `{Host X} `{Popen X}
    argv fs c (x : X) :
  script_outcome cleanup_parser cleanup_args_of argv (fs, (c, x))
    (λ '(args, lf) r, ∀ t, t ∈ removals (io_trace r) → removes_outdated fs args lf t)
    (cleanup_script argv (fs, (c, x))).
Proof.
  eapply script_outcome_mono; [|apply cleanup_outcome]. intros [args lf] Hr t Ht. rewrite Hr in Ht. unfold logged in Ht.
  destruct (basicConfig lf fs) as [fs'|e] eqn:E; [|by apply elem_of_nil in Ht].
  assert (t ∈ removals (io_trace (Cleanup.main fs' args (c, x)))) as Hm
    by (unfold on_snd in Ht; cbn in Ht; by destruct (Cleanup.main fs' args (c, x)) as [[? ?] ?]).
  rewrite main_removals in Hm. apply cleanup_images_removes in Hm as [Hn Hc]. split; [done|]. by exists fs'.
Qed.

(** ** Coverage *)

(** C26: [coverage_report.py] ends successfully exactly when its command line
    is read, its log file can be opened, and the coverage run with these
    arguments succeeds: the thresholds are percentages, Bazel succeeds and
    every file of its report meets its thresholds. *)
Theorem coverage_script_correct `{HelpFormatter} `{Host X} `{HostLog X} pwd argv (x : X) :
  io_res (coverage_script pwd argv x) = Ok () ↔
  ∃ ns args lf x', parse_args coverage_parser argv = PDone ns ∧ coverage_args_of ns = Some (args, lf) ∧
    open_log lf x = Ok x' ∧ basicConfig lf (host_fs x) = Ok (host_fs x') ∧ coverage_succeeds false pwd args x'.
Proof.
  pose proof (coverage_outcome pwd argv x) as Ho. unfold script_outcome in Ho.
  destruct (parse_args coverage_parser argv) as [ns| |e] eqn:E;
    [|rewrite Ho; split; [discriminate|by intros (? & ? & ? & ? & ? & _)]..].
  destruct Ho as ([args lf] & Ha & ->). pose proof (open_log_spec lf x) as Hl.
  destruct (open_log lf x) as [x'|e] eqn:El;
    [|split; [discriminate|intros (? & ? & ? & ? & [= <-] & Ha' & Hx & _); rewrite Ha in Ha'; injection Ha' as <- <-; congruence]].
  pose proof (main_status false pwd args x') as Hm. cbn [coverage_main] in Hm. rewrite Hm. split.
  - intros Hs. by exists ns, args, lf, x'.
  - intros (ns' & args' & lf' & x'' & [= <-] & Ha' & Hx & _ & Hs). rewrite Ha in Ha'. injection Ha' as <- <-. congruence.
Qed.

(** ** Build event reports *)

Lemma bep_command_chosen argv ns ts c o lf : parse_args bep_parser argv = PDone ns →
  bep_args_of ns = Some (ts, c, o, lf) → c = "fetch" ∨ c = "build".
Proof.
  intros Hns%parse_args_known Ha. set (a := Argument ["--command"] "command" Store NOne TStr (Some ["fetch"; "build"]) false (VStr "fetch")).
  destruct (parse_known_typed bep_parser bep_parser_ok argv ns [] Hns a) as (v & Hv & Hpos); [by member|done|].
  assert (as_str v = Some c) as Hc.
  { unfold bep_args_of in Ha. repeat (apply bind_Some in Ha as (? & ? & Ha)). simplify_eq.
    match goal with H : attr as_str ns _ = Some c |- _ => unfold attr in H; change (dest a) with ("command" : str) in Hv;
      by rewrite Hv in H end. }
  destruct Hpos as [[_ Hch]|[_ ->]]; [|left; by injection Hc as <-].
  destruct (Hch _ eq_refl) as (s & Hs & [= <-]). injection Hc as <-.
  by apply elem_of_cons in Hs as [->|[->|[]%elem_of_nil]%elem_of_cons]; [left|right].
Qed.

Definition bep_done : str := "All targets processed successfully.".

Lemma bep_main_run `{TempNames} `{Host X} pwd targets command output_dir d (x : X) :
  let r := Bep.main pwd targets command output_dir (d, x) in
  follows (plan_of pwd command (bep_fs d) (temps d) targets output_dir) x (io_trace r) (io_state r).2 (io_res r) ∧
  outs (io_trace r) = match io_res r with Ok _ => [bep_done] | Raise _ => [] end.
Proof.
  destruct (generate_bazel_events_run pwd command targets output_dir d x) as (t & s & r & Hr & Hc).
  pose proof (events_silent pwd targets command output_dir (d, x)) as Hs. rewrite Hr in Hs. apply outs_silent in Hs.
  unfold Bep.main, mbind, io_bind. rewrite Hr. unfold io_trace, io_state, io_res, emit in *. cbn [fst snd] in *.
  destruct r as [[]|e]; cbn [fst snd]; [|done].
  rewrite outs_app, Hs. split; [|done]. destruct Hc as [(Ht & Hx & He)|(? & ? & ? & ? & _ & _ & _ & _ & _ & ?)]; [|done].
  left. by rewrite runs_app, Ht, app_nil_r.
Qed.

(** C25: [bep.py], whatever its command line, on every file system.  The file
    system decides the commands, in the order of the targets (one for all
    targets when none is given), and how the run ends after them.  The script
    runs these commands in order; when all succeed it ends as planned,
    otherwise at the first that fails, with exit code 1.  It prints its
    message exactly when it returns, and nothing else.  Started inside a
    project, the commands are [bazel fetch] or [bazel build] for the targets,
    each with two fresh cache directories and the report file of the target,
    run by the [devkit/build] of a root that is the one found at the start or,
    when the script's directories make a nearer one, a root below it; there is
    one for each target, and the script returns when all succeed, unless a
    directory cannot be created, whose error then ends it. *)
Theorem bep_script_correct `{HelpFormatter} `{TempNames} `{Host X} pwd argv d (x : X) :
  script_outcome bep_parser bep_args_of argv (d, x)
    (λ '(targets, command, output_dir, lf) r,
       (command = "fetch" ∨ command = "build") ∧
       match basicConfig lf (bep_fs d) with
       | Ok fs' =>
           let p := plan_of pwd command fs' (temps d) targets output_dir in
           follows p x (io_trace r) (io_state r).2 (io_res r) ∧
           outs (io_trace r) = match io_res r with Ok _ => [bep_done] | Raise _ => [] end ∧
           ∀ root, find_project_root fs' pwd = Ok root →
             plan_ok pwd command fs' root (temps d) (jobs_of targets output_dir) p
       | Raise e => r = ([], (d, x), Raise e)
       end)
    (bep_script pwd argv (d, x)).
Proof.
  pose proof (bep_outcome pwd argv d x) as Ho. unfold script_outcome in *.
  destruct (parse_args bep_parser argv) as [ns| |e] eqn:E; [|done..].
  destruct Ho as ([[[ts c] o] lf] & Ha & ->). exists (ts, c, o, lf). split; [done|].
  split; [by eapply bep_command_chosen|]. unfold logged. destruct (basicConfig lf (bep_fs d)) as [fs'|e]; [|done].
  destruct (bep_main_run pwd ts c o (BepDisk (temps d) fs') x) as [Hf Ho]. split_and!; [exact Hf|exact Ho|].
  intros root Hroot. by apply plan_of_ok.
Qed.

(** ** Samples *)

#[local] Existing Instance sha256_digest.
#[local] Existing Instance encoding_order.
#[local] Instance sample_limit : RecursionLimit := 100.
#[local] Instance sample_repr : JsonRepr := λ _, [].
#[local] Instance sample_formatter : HelpFormatter := {| format_help := λ _, "usage"; format_error := λ _ _, "usage" |}.

(** A host that is its file system, on which Bazel writes a report. *)
#[local] Instance files_of_host : HostFiles fsys := λ fs, fs.
#[local] Instance log_of_host : HostLog fsys.
Proof. refine {| open_log := basicConfig |}. intros l fs. unfold host_fs, files_of_host. by destruct (basicConfig l fs). Defined.

Definition report_text : str :=
  join [10%N] ["SF:a.cc"; "DA:1,1"; "DA:2,0"; "LF:2"; "LH:1"; "end_of_record"; ""].
#[local] Instance bazel_host : Host fsys := λ _ fs,
  (Some (RunResult 0 "" ""),
   fs_set (fs_set (fs_set fs ["p"; "bazel-out"] (NDir [])) ["p"; "bazel-out"; "_coverage"] (NDir []))
     ["p"; "bazel-out"; "_coverage"; "_coverage_report.dat"] (NFile report_text)).
Definition project_fs : fsys := {| fs_root := NDir [("p", NDir [("devkit", NDir [])])]; fs_cwd := ["p"] |}.

Lemma coverage_script_correct_witness :
  io_res (coverage_script None ["--lines"; "50.0"; "--branch=0"; "--devkit-log-file"; "log"] project_fs) = Ok () ∧
  ∃ ns args lf x',
    parse_args coverage_parser ["--lines"; "50.0"; "--branch=0"; "--devkit-log-file"; "log"] = PDone ns ∧
    coverage_args_of ns = Some (args, lf) ∧ open_log lf project_fs = Ok x' ∧
    basicConfig lf (host_fs project_fs) = Ok (host_fs x') ∧ coverage_succeeds false None args x'.
Proof.
  assert (io_res (coverage_script None ["--lines"; "50.0"; "--branch=0"; "--devkit-log-file"; "log"] project_fs) = Ok ())
    as Hr by (vm_compute; reflexivity).
  split; [exact Hr|]. apply (coverage_script_correct None _ project_fs). exact Hr.
Defined.

Example coverage_script_fails :
  io_res (coverage_script None ["--lines"; "51"] project_fs) = Raise (SystemExit 1) ∧
  io_res (coverage_script None ["--lines"; "many"] project_fs) = Raise (SystemExit 2).
Proof. split; vm_compute; reflexivity. Qed.

Lemma mounts_script_correct_witness :
  mounts_script 10 ["--root-dir"; "/p"] (Mounts.sample_fs, ()) =
    ([EvOut "/ext/b/c"; EvOut "/ext/a"], (Mounts.sample_fs, ()), Ok ()) ∧
  (∃ fuel0, ∀ fuel, fuel0 ≤ fuel → ∃ l,
    mounts_script fuel ["--root-dir"; "/p"] (Mounts.sample_fs, ()) = (EvOut <$> l, (Mounts.sample_fs, ()), Ok ())) ∧
  ∃ fuel0, ∀ fuel, fuel0 ≤ fuel →
    mounts_script fuel ["--root-dir"; "/p"; "--mount"; "/tmp/pool"] (Mounts.sample_fs, ()) =
      ([], (Mounts.sample_fs, ()), Raise RuntimeError).
Proof.
  assert (fsys_wf Mounts.sample_fs) as Hwf by (eexists; reflexivity). split; [vm_compute; reflexivity|]. split.
  - destruct (mounts_script_correct ["--root-dir"; "/p"] Mounts.sample_fs () Hwf) as [fuel0 Hf].
    exists fuel0. intros fuel Hle. destruct (Hf fuel Hle) as ([root ms] & Ha & [(_ & l & Hl & _)|[Hno _]]); [exists l; exact Hl|].
    exfalso. apply Hno. vm_compute in Ha. injection Ha as <- <-. intros p [->|Hp]; [vm_compute; reflexivity|].
    apply elem_of_nil in Hp. destruct Hp.
  - destruct (mounts_script_correct ["--root-dir"; "/p"; "--mount"; "/tmp/pool"] Mounts.sample_fs () Hwf) as [fuel0 Hf].
    exists fuel0. intros fuel Hle. destruct (Hf fuel Hle) as ([root ms] & Ha & [[Hok _]|[_ Hr]]); [|exact Hr].
    exfalso. vm_compute in Ha. injection Ha as <- <-.
    specialize (Hok (path_of_str "/tmp/pool") (or_intror (list_elem_of_here _ _))). vm_compute in Hok. discriminate Hok.
Defined.

#[local] Existing Instance listing_host.
#[local] Existing Instance listing_popen.

Lemma cleanup_script_removes_witness :
  let argv := ["--config-path"; "/devkit.json"; "--search-path"; "/images"] in
  let r := cleanup_script argv (DockerTags.sample_fs, (Never, [sample_app_tag; old_tag])) in
  removals (io_trace r) = [old_tag] ∧ ∃ args, removes_outdated DockerTags.sample_fs args None old_tag.
Proof.
  intros argv r. assert (removals (io_trace r) = [old_tag]) as Hr by (vm_compute; reflexivity).
  split; [exact Hr|].
  destruct (cleanup_script_removes argv DockerTags.sample_fs Never [sample_app_tag; old_tag]) as ([args lf] & Ha & Ht).
  specialize (Ht old_tag). fold r in Ht. rewrite Hr in Ht.
  assert (lf = None) as -> by (vm_compute in Ha; injection Ha as <- <-; reflexivity).
  exists args. apply Ht. left.
Defined.

#[local] Existing Instance numbered_temps.
#[local] Existing Instance always_ok.

Lemma bep_script_correct_witness :
  let argv := ["--command"; "build"; "--targets"; "//a:b"; "//c"; "--output_dir=out"] in
  let r := bep_script None argv (BepDisk 0 Bep.project_fs, ()) in
  let outside := bep_script None argv (BepDisk 0 (Fsys (NDir []) []), ()) in
  (runs (io_trace r) = [command_for "build" (path_of_str "/p") 0 (Job None "//a:b" (path_of_str "out/a_b/bep.json"));
                        command_for "build" (path_of_str "/p") 2 (Job None "//c" (path_of_str "out/c/bep.json"))] ∧
   outs (io_trace r) = [bep_done]) ∧
  (runs (io_trace outside) = [] ∧ io_res outside = Raise FileNotFoundError).
Proof.
  intros argv r outside. split.
  - assert (io_res r = Ok ()) as Hok by (vm_compute; reflexivity).
    destruct (bep_script_correct None argv (BepDisk 0 Bep.project_fs) ()) as ([[[ts c] o] lf] & Ha & _ & Hr).
    vm_compute in Ha. injection Ha as <- <- <- <-. cbn [basicConfig] in Hr. fold r in Hr.
    destruct Hr as (Hf & Ho & _). rewrite Hok in Hf, Ho. split; [|exact Ho].
    destruct Hf as [(Ht & _)|(? & ? & ? & ? & _ & _ & _ & _ & _ & Hx)]; [|discriminate Hx].
    rewrite Ht. vm_compute. reflexivity.
  - destruct (bep_script_correct None argv (BepDisk 0 (Fsys (NDir []) [])) ()) as ([[[ts c] o] lf] & Ha & _ & Hr).
    vm_compute in Ha. injection Ha as <- <- <- <-. cbn [basicConfig] in Hr. fold outside in Hr. destruct Hr as (Hf & _).
    assert (plan_of None "build" (Fsys (NDir []) []) 0 ["//a:b"; "//c"] (path_of_str "out") = Plan [] (Some FileNotFoundError)) as Hp
      by (vm_compute; reflexivity).
    destruct Hf as [(Ht & _ & He)|(pre & ? & ? & ? & Hc & _)].
    + rewrite Ht, He. split; vm_compute; reflexivity.
    + exfalso. assert ([] = pre ++ x :: x0) as Hc' by exact Hc. destruct pre; discriminate Hc'.
Defined.
